(** * Recursive Wang Tile blue-noise sampler (src/src/bluenoise.c)

    A shallow embedding of the sampler of [bluenoise.c] and the properties
    its specification states about it, followed by further properties of the
    code: the tileset loader, the two density builders, the sampling of the
    density field, the sort by rank, and what a request reads and writes.

    Numbers.  A C [float] is modelled by the type [float] below: an exact
    rational, or one of the IEEE special values +inf, -inf, NaN.  The
    special values follow the IEEE 754 rules the code depends on (division
    by zero, [inf - inf], [0 * inf], comparisons with NaN are false);
    finite arithmetic is exact, so rounding is outside the model, and zero
    carries no sign.  A C [int] is modelled by [Z].  The products that the
    code hands to [malloc] as sizes ([width * height] in the density
    builders, [nsubtiles * nsubtiles] in the loader) are checked to be
    values of [int], their overflow being undefined behaviour; the other
    [int] operations are indices and counts, and the theorems that state a
    return bound them so that none overflows.  Converting a NaN, an
    infinity or a number whose integer part is no value of [int] to [int]
    is undefined behaviour in C and is an [Undefined] outcome here, as are
    reads and writes outside an array or outside the object a pointer was
    given for.

    Memory.  The answer of [malloc] is a parameter: one answer for the
    block of a density builder, one for each line of the tileset loader
    that asks for a block, and what [malloc(0)] yields for the copy of an
    empty file.  The sizes are computed as the code computes them, in
    [size_t], where they wrap around; the largest [size_t] and the size of
    a pointer are parameters of the host.  A store is defined only inside
    the block that was requested for its array, and a refused request
    leaves no such place.  A block holds the entries that have been written
    to it: a read of an entry never written is a read of an indeterminate
    value and is [Undefined] here.  The image a density builder reads has
    an extent, and a read outside it is [Undefined]. *)

From Stdlib Require Import ZArith QArith Qabs Qminmax Qpower Qround Lia Lqa Bool.
From stdpp Require Import base option list sorting.

Local Open Scope Z_scope.

(** ** Outcomes of a C computation *)

Inductive outcome (A : Type) : Type :=
  | Ret (a : A)        (* normal return *)
  | Undefined          (* undefined behaviour: bad conversion, bad index *)
  | Aborted            (* a failed [assert] *)
  | OutOfFuel.         (* the recursion went deeper than the fuel allows *)

Arguments Ret {A} a.
Arguments Undefined {A}.
Arguments Aborted {A}.
Arguments OutOfFuel {A}.

#[global] Instance outcome_ret : MRet outcome := @Ret.
#[global] Instance outcome_bind : MBind outcome := fun A B f m =>
  match m with
  | Ret a => f a
  | Undefined => Undefined
  | Aborted => Aborted
  | OutOfFuel => OutOfFuel
  end.

Definition of_option {A} (o : option A) : outcome A :=
  match o with Some a => Ret a | None => Undefined end.

(** [a[i]] for a C array held in a list. *)
Definition array_get {A} (a : list A) (i : Z) : outcome A :=
  if i <? 0 then Undefined else of_option (a !! Z.to_nat i).

(** [for (int i = start; i < start + n; i++) body] with the loop state [St]. *)
Fixpoint for_loop {St} (n : nat) (i : Z) (body : Z -> St -> outcome St)
    (s : St) : outcome St :=
  match n with
  | O => Ret s
  | S n' => s' ← body i s; for_loop n' (i + 1) body s'
  end.

(** [for (int i = 0; i < bound; i++) body]. *)
Definition for_upto {St} (bound : Z) (body : Z -> St -> outcome St)
    (s : St) : outcome St :=
  for_loop (Z.to_nat bound) 0 body s.

(** ** The model of [float] *)

Inductive float : Type :=
  | Fin (q : Q)
  | PInf
  | NInf
  | NaN.

Definition Qltb (a b : Q) : bool := negb (Qle_bool b a).

Definition f0 : float := Fin 0.
Definition f1 : float := Fin 1.
Definition half : float := Fin (1 # 2).

(** The infinity with the sign of [q]; [0 * inf] is NaN. *)
Definition inf_signed (q : Q) : float :=
  if Qltb 0 q then PInf else if Qltb q 0 then NInf else NaN.

Definition fopp (a : float) : float :=
  match a with
  | Fin q => Fin (- q)
  | PInf => NInf
  | NInf => PInf
  | NaN => NaN
  end.

Definition fadd (a b : float) : float :=
  match a, b with
  | NaN, _ | _, NaN => NaN
  | Fin p, Fin q => Fin (p + q)
  | PInf, NInf | NInf, PInf => NaN
  | PInf, _ | _, PInf => PInf
  | NInf, _ | _, NInf => NInf
  end.

Definition fsub (a b : float) : float := fadd a (fopp b).

Definition fmul (a b : float) : float :=
  match a, b with
  | NaN, _ | _, NaN => NaN
  | Fin p, Fin q => Fin (p * q)
  | Fin p, PInf | PInf, Fin p => inf_signed p
  | Fin p, NInf | NInf, Fin p => inf_signed (- p)
  | PInf, PInf | NInf, NInf => PInf
  | PInf, NInf | NInf, PInf => NInf
  end.

Definition fdiv (a b : float) : float :=
  match a, b with
  | NaN, _ | _, NaN => NaN
  | Fin p, Fin q => if Qeq_bool q 0 then inf_signed p else Fin (p / q)
  | Fin _, PInf | Fin _, NInf => Fin 0
  | PInf, Fin q => if Qltb q 0 then NInf else PInf
  | NInf, Fin q => if Qltb q 0 then PInf else NInf
  | _, _ => NaN
  end.

(** [a < b]; false as soon as one side is NaN. *)
Definition fltb (a b : float) : bool :=
  match a, b with
  | NaN, _ | _, NaN => false
  | Fin p, Fin q => Qltb p q
  | _, NInf => false
  | NInf, _ => true
  | PInf, _ => false
  | _, PInf => true
  end.

(** [a <= b]; false as soon as one side is NaN. *)
Definition fleb (a b : float) : bool :=
  match a, b with
  | NaN, _ | _, NaN => false
  | Fin p, Fin q => Qle_bool p q
  | NInf, _ => true
  | _, PInf => true
  | _, NInf => false
  | PInf, _ => false
  end.

(** [a > b] is [b < a]. *)
Definition fgtb (a b : float) : bool := fltb b a.

(** Conversion [int] to [float]. *)
Definition of_int (z : Z) : float := Fin (inject_Z z).

(** The integer part of a rational, rounding toward zero. *)
Definition Qtrunc (q : Q) : Z := Z.quot (Qnum q) (Z.pos (Qden q)).

(** The values of an [int]. *)
Definition INT_MIN : Z := -2147483648.
Definition INT_MAX : Z := 2147483647.

Definition is_int (z : Z) : bool := (INT_MIN <=? z) && (z <=? INT_MAX).

(** Conversion [float] to [int]: truncation toward zero; undefined on NaN,
    on the infinities, and when the integer part is no value of [int]. *)
Definition to_int (a : float) : outcome Z :=
  match a with
  | Fin q => if is_int (Qtrunc q) then Ret (Qtrunc q) else Undefined
  | _ => Undefined
  end.

(** [powf(x, n)] for an exponent with an integer value, which is how all
    three calls of the source use it.  Special cases as in C (Annex F):
    [powf(x, 0) = 1] for every [x], [powf(0, n) = +inf] and
    [powf(inf, n) = 0] for [n < 0]. *)
Definition powf (x : float) (n : Z) : float :=
  if n =? 0 then Fin 1 else
  match x with
  | NaN => NaN
  | Fin q => if Qeq_bool q 0 && (n <? 0) then PInf else Fin (Qpower q n)
  | PInf => if n <? 0 then Fin 0 else PInf
  | NInf => if n <? 0 then Fin 0 else if Z.even n then PInf else NInf
  end.

(** ** The macros *)

(** [clamp(x, min, max)] at type [float]. *)
Definition clamp (x lo hi : float) : float :=
  if fltb x lo then lo else if fgtb x hi then hi else x.

(** [clamp(x, min, max)] at type [int]. *)
Definition clamp_int (x lo hi : Z) : Z :=
  if x <? lo then lo else if x >? hi then hi else x.

(** [mini(a, b)] with an [int] and a [float]: the comparison and the result
    are at type [float]. *)
Definition mini (a : Z) (b : float) : float :=
  if fltb (of_int a) b then of_int a else b.

(** [maxi(a, b)] at type [int]. *)
Definition maxi (a b : Z) : Z := if a >? b then a else b.

(** ** The structs *)

Record par_vec2 := { vx : float; vy : float }.

Record par_vec3 := { px : float; py : float; rank : float }.

Record par_tile := {
  t_n : Z; t_e : Z; t_s : Z; t_w : Z;
  t_npoints : Z;
  t_nsubpts : Z;
  t_subdivs : list (list Z);
  t_points : list par_vec2;
  t_subpts : list par_vec2
}.

(** A node of the descent; [n_tile] is the index of its tile in
    [ctx->tiles], where the source keeps the pointer [&ctx->tiles[index]]. *)
Record par_node := {
  n_tile : Z;
  n_x : float;
  n_y : float;
  n_level : Z
}.

Record par_bluenoise_context := {
  points : list par_vec3;
  tiles : list par_tile;
  global_density : float;
  left : float; bottom : float; right : float; top : float;
  ntiles : Z; nsubtiles : Z; nsubdivs : Z;
  npoints : Z;
  maxpoints : Z;
  density_width : Z;
  density_height : Z;
  density : option (list float);
  mag : float
}.

Definition set_points (c : par_bluenoise_context) (p : list par_vec3) (n : Z) :=
  {| points := p; tiles := tiles c; global_density := global_density c;
     left := left c; bottom := bottom c; right := right c; top := top c;
     ntiles := ntiles c; nsubtiles := nsubtiles c; nsubdivs := nsubdivs c;
     npoints := n; maxpoints := maxpoints c;
     density_width := density_width c; density_height := density_height c;
     density := density c; mag := mag c |}.

Definition set_request (c : par_bluenoise_context)
    (d l b r t m : float) :=
  {| points := points c; tiles := tiles c; global_density := d;
     left := l; bottom := b; right := r; top := t;
     ntiles := ntiles c; nsubtiles := nsubtiles c; nsubdivs := nsubdivs c;
     npoints := 0; maxpoints := maxpoints c;
     density_width := density_width c; density_height := density_height c;
     density := density c; mag := m |}.

Definition set_density (c : par_bluenoise_context) (w h : Z)
    (d : list float) :=
  {| points := points c; tiles := tiles c;
     global_density := global_density c;
     left := left c; bottom := bottom c; right := right c; top := top c;
     ntiles := ntiles c; nsubtiles := nsubtiles c; nsubdivs := nsubdivs c;
     npoints := npoints c; maxpoints := maxpoints c;
     density_width := w; density_height := h;
     density := Some d; mag := mag c |}.

(** [ctx->points[ctx->npoints] = v; ctx->npoints++]. *)
Definition emit (c : par_bluenoise_context) (v : par_vec3)
  : outcome par_bluenoise_context :=
  if (0 <=? npoints c) && (npoints c <? Z.of_nat (length (points c)))
  then Ret (set_points c (<[Z.to_nat (npoints c) := v]> (points c))
                       (npoints c + 1))
  else Undefined.

(** The points a caller sees: the first [npoints] entries of the buffer. *)
Definition emitted (c : par_bluenoise_context) : list par_vec3 :=
  take (Z.to_nat (npoints c)) (points c).

(** ** [sample_density] *)

Definition sample_density (ctx : par_bluenoise_context) (x y : float)
  : outcome float :=
  match density ctx with
  | None => Ret f1
  | Some dens =>
      let width := density_width ctx in
      let height := density_height ctx in
      let y := fsub f1 y in
      let x := fsub x half in
      let y := fsub y half in
      let tx := fmul x (of_int (maxi width height)) in
      let ty := fmul y (of_int (maxi width height)) in
      let tx := fadd tx (of_int (Z.quot width 2)) in
      let ty := fadd ty (of_int (Z.quot height 2)) in
      itx ← to_int tx;
      ity ← to_int ty;
      let ix := clamp_int itx 0 (width - 2) in
      let iy := clamp_int ity 0 (height - 2) in
      array_get dens (iy * width + ix)
  end.

(** ** [apply_tile] *)

(** The test that rejects a point or a footprint outside the viewport. *)
Definition outside (ctx : par_bluenoise_context) (lox hix loy hiy : float)
  : bool :=
  fltb hix (left ctx) || fgtb lox (right ctx)
  || fltb hiy (bottom ctx) || fgtb loy (top ctx).

(** The body of the candidate loop of [apply_tile]. *)
Definition tile_body (tile : par_tile) (x y tileSize factor : float)
    (level : Z) (i : Z) (ctx : par_bluenoise_context)
  : outcome par_bluenoise_context :=
  sp ← array_get (t_subpts tile) i;
  let ppx := fadd x (fmul (vx sp) tileSize) in
  let ppy := fadd y (fmul (vy sp) tileSize) in
  if outside ctx ppx ppx ppy ppy then Ret ctx else
  s ← sample_density ctx ppx ppy;
  if fltb s (fmul (of_int (i + t_npoints tile)) factor) then Ret ctx else
  emit ctx {| px := fsub ppx half; py := fsub ppy half;
              rank := fadd (of_int (level + 1)) (fmul (of_int i) factor) |}.

(** The children of a node, in the order the source links them: rows
    [ty], then columns [tx]; every child is bound through [subdivs[0]]. *)
Definition child_node (ctx : par_bluenoise_context) (tile : par_tile)
    (x y scale : float) (level : Z) (ty tx : Z) : outcome par_node :=
  sub ← array_get (t_subdivs tile) 0;
  tileIndex ← array_get sub (ty * nsubtiles ctx + tx);
  Ret {| n_tile := tileIndex;
         n_x := fadd x (fmul (of_int tx) scale);
         n_y := fadd y (fmul (of_int ty) scale);
         n_level := level |}.

Definition spawn_children (ctx : par_bluenoise_context) (tile : par_tile)
    (x y scale : float) (level : Z) : outcome (list par_node) :=
  for_upto (nsubtiles ctx) (fun ty acc =>
    for_upto (nsubtiles ctx) (fun tx acc =>
      child ← child_node ctx tile x y scale level ty tx;
      Ret (acc ++ [child])) acc) [].

(** [while (node) { apply_tile(ctx, node); node = next; }] *)
Fixpoint visit (f : par_bluenoise_context -> par_node ->
                    outcome par_bluenoise_context)
    (kids : list par_node) (ctx : par_bluenoise_context)
  : outcome par_bluenoise_context :=
  match kids with
  | [] => Ret ctx
  | k :: ks => ctx' ← f ctx k; visit f ks ctx'
  end.

Fixpoint apply_tile (fuel : nat) (ctx : par_bluenoise_context)
    (node : par_node) : outcome par_bluenoise_context :=
  match fuel with
  | O => OutOfFuel
  | S fuel' =>
      let x := n_x node in
      let y := n_y node in
      let level := n_level node in
      let tileSize := fdiv f1 (powf (of_int (nsubtiles ctx)) level) in
      if outside ctx x (fadd x tileSize) y (fadd y tileSize) then Ret ctx else
      tile ← array_get (tiles ctx) (n_tile node);
      let depth := powf (of_int (nsubtiles ctx)) (2 * level) in
      let threshold :=
        fsub (fmul (fdiv (mag ctx) depth) (global_density ctx))
             (of_int (t_npoints tile)) in
      ntests ← to_int (mini (t_nsubpts tile) threshold);
      let factor :=
        fdiv (fmul (fdiv f1 (mag ctx)) depth) (global_density ctx) in
      ctx1 ← for_upto ntests (tile_body tile x y tileSize factor level) ctx;
      let scale := fdiv tileSize (of_int (nsubtiles ctx)) in
      if fleb threshold (of_int (t_nsubpts tile)) then Ret ctx1 else
      kids ← spawn_children ctx1 tile x y scale (level + 1);
      visit (apply_tile fuel') kids ctx1
  end.

(** ** [par_bluenoise_generate] *)

(** The body of the root loop. *)
Definition root_body (tile0 : par_tile) (factor : float) (i : Z)
    (ctx : par_bluenoise_context) : outcome par_bluenoise_context :=
  p ← array_get (t_points tile0) i;
  let ppx := vx p in
  let ppy := vy p in
  if outside ctx ppx ppx ppy ppy then Ret ctx else
  s ← sample_density ctx ppx ppy;
  if fltb s (fmul (of_int (i + 1)) factor) then Ret ctx else
  emit ctx {| px := fsub ppx half; py := fsub ppy half;
              rank := fmul (of_int i) factor |}.

(** Lines 218-234: store the request, translate the viewport, take [mag]
    from the translated bounds, then clamp the bounds. *)
Definition begin_request (ctx : par_bluenoise_context)
    (density_ l b r t : float) : par_bluenoise_context :=
  let l := fadd l half in
  let r := fadd r half in
  let b := fadd b half in
  let t := fadd t half in
  let m := powf (fsub t b) (-2) in
  set_request ctx density_ (clamp l f0 f1) (clamp b f0 f1)
              (clamp r f0 f1) (clamp t f0 f1) m.

(** Lines 236-251: the root pass. *)
Definition root_pass (ctx : par_bluenoise_context)
  : outcome par_bluenoise_context :=
  tile0 ← array_get (tiles ctx) 0;
  ntests ← to_int (mini (t_npoints tile0)
                        (fmul (mag ctx) (global_density ctx)));
  let factor := fdiv (fdiv f1 (mag ctx)) (global_density ctx) in
  for_upto ntests (root_body tile0 factor) ctx.

Definition root_node : par_node :=
  {| n_tile := 0; n_x := f0; n_y := f0; n_level := 0 |}.

(** The result is the context; the caller reads [npoints] and the first
    [npoints] entries of [points] from it. *)
Definition par_bluenoise_generate (fuel : nat) (ctx : par_bluenoise_context)
    (density_ l b r t : float) : outcome par_bluenoise_context :=
  let ctx := begin_request ctx density_ l b r t in
  ctx ← root_pass ctx;
  apply_tile fuel ctx root_node.

(** ** [par_bluenoise_sort_by_rank] *)

(** The comparator handed to [qsort]. *)
Definition cmp (v1 v2 : par_vec3) : Z :=
  if fltb (rank v1) (rank v2) then -1
  else if fgtb (rank v1) (rank v2) then 1
  else 0.

(** [qsort] with [cmp], as a stable insertion sort.  The C library leaves
    the order of elements that compare equal open; where that order matters
    a statement below says so. *)
Fixpoint qsort_insert (v : par_vec3) (l : list par_vec3) : list par_vec3 :=
  match l with
  | [] => [v]
  | e :: l' => if cmp v e <=? 0 then v :: l else e :: qsort_insert v l'
  end.

Definition qsort (l : list par_vec3) : list par_vec3 :=
  foldr qsort_insert [] l.

Definition set_rank (i : nat) (v : par_vec3) : par_vec3 :=
  {| px := px v; py := py v; rank := of_int (Z.of_nat i) |}.

(** Sorts the first [npts] triples of the buffer and numbers them. *)
Definition par_bluenoise_sort_by_rank (floats : list par_vec3) (npts : Z)
  : outcome (list par_vec3) :=
  if (0 <=? npts) && (npts <=? Z.of_nat (length floats)) then
    let n := Z.to_nat npts in
    Ret (imap set_rank (qsort (take n floats)) ++ drop n floats)
  else Undefined.

(** ** The density builders *)

(** The memory behind the [pixels] pointer: the byte at each offset.  The
    image the caller passes has [extent] bytes, at the offsets
    [0 .. extent - 1]; the builders are not told this number, it is a
    parameter of the model.  A read is inside the image when every byte of
    it is. *)
Definition pixel_memory := Z -> Z.

Definition in_image (extent off size : Z) : bool :=
  (0 <=? off) && (off + size <=? extent).

(** The [unsigned int] made of the four bytes from offset [off] on, on a
    little-endian host. *)
Definition read_u32 (pixels : pixel_memory) (off : Z) : Z :=
  (pixels off) mod 256
  + 256 * ((pixels (off + 1)) mod 256)
  + 65536 * ((pixels (off + 2)) mod 256)
  + 16777216 * ((pixels (off + 3)) mod 256).

(** The read through [pixels] cast to a pointer to [unsigned int], at
    offset [off]: all four bytes are read, whatever [bpp] (the host is
    taken to read words at any alignment). *)
Definition load_u32 (pixels : pixel_memory) (extent off : Z) : outcome Z :=
  if in_image extent off 4 then Ret (read_u32 pixels off) else Undefined.

(** [*pixels] at offset [off]. *)
Definition load_u8 (pixels : pixel_memory) (extent off : Z) : outcome Z :=
  if in_image extent off 1 then Ret (pixels off mod 256) else Undefined.

(** An entry of [size] bytes at index [j] of an array lies inside a block
    of [bytes] bytes. *)
Definition in_block (bytes size j : Z) : bool := size * (j + 1) <=? bytes.

(** [ctx->density = malloc(width * height * sizeof(float))].  The product
    [width * height] is computed in [int] and then, times 4, in [size_t],
    where it wraps around [size_max + 1], also when it is negative.
    [grant] tells whether the host returns a block: [malloc] may refuse any
    request, and for a request of size 0 C allows both answers.  The result
    is the number of bytes of the block behind [ctx->density], or [None]
    for [NULL]. *)
Definition density_alloc (grant : bool) (size_max : Z) (width height : Z)
  : outcome (option Z) :=
  let n := width * height in
  if negb (is_int n) then Undefined
  else if grant then Ret (Some ((4 * n) mod (size_max + 1)))
  else Ret None.

(** [*dst++ = v]: [dst] is the part of the block written so far. *)
Definition store_cell (block : option Z) (dst : list float) (v : float)
  : outcome (list float) :=
  match block with
  | Some bytes =>
      if in_block bytes 4 (Z.of_nat (length dst)) then Ret (dst ++ [v])
      else Undefined
  | None => Undefined
  end.

(** The context when a builder returns: the extent of the field, and the
    block with its entries, or [NULL]. *)
Definition set_no_density (c : par_bluenoise_context) (w h : Z) :=
  {| points := points c; tiles := tiles c;
     global_density := global_density c;
     left := left c; bottom := bottom c; right := right c; top := top c;
     ntiles := ntiles c; nsubtiles := nsubtiles c; nsubdivs := nsubdivs c;
     npoints := npoints c; maxpoints := maxpoints c;
     density_width := w; density_height := h;
     density := None; mag := mag c |}.

Definition install_density (c : par_bluenoise_context) (w h : Z)
    (block : option Z) (dst : list float) :=
  match block with
  | Some _ => set_density c w h dst
  | None => set_no_density c w h
  end.

(** ** [par_bluenoise_density_from_color] *)

Definition color_mask (bpp : Z) : Z :=
  let mask := 0xff in
  let mask := if bpp >? 1 then Z.lor mask 0xff00 else mask in
  let mask := if bpp >? 2 then Z.lor mask 0xff0000 else mask in
  if bpp >? 3 then Z.lor mask 0xff000000 else mask.

Definition of_bool (b : bool) : float := if b then f1 else f0.

(** One pixel: [val] is the word under [pixels] and-ed with [mask];
    [*dst++ = invert ? (val == bkgd) : (val != bkgd); pixels += bpp].  The
    state is the part of [dst] written so far and the offset of the running
    [pixels] pointer. *)
Definition color_pixel (block : option Z) (pixels : pixel_memory) (extent : Z)
    (mask bkgd bpp invert : Z)
    (st : list float * Z) : outcome (list float * Z) :=
  let '(dst, off) := st in
  w ← load_u32 pixels extent off;
  let val := Z.land w mask in
  let d := if invert =? 0 then negb (val =? bkgd) else val =? bkgd in
  dst' ← store_cell block dst (of_bool d);
  Ret (dst', off + bpp).

Definition par_bluenoise_density_from_color (grant : bool) (size_max : Z)
    (ctx : par_bluenoise_context)
    (pixels : pixel_memory) (extent : Z) (width height bpp : Z)
    (background_color : Z) (invert : Z) : outcome par_bluenoise_context :=
  let bkgd := background_color in
  block ← density_alloc grant size_max width height;
  let mask := color_mask bpp in
  if negb (bpp <=? 4) then Aborted else
  st ← for_upto height (fun j st =>
          for_upto width (fun i st =>
            color_pixel block pixels extent mask bkgd bpp invert st) st)
        ([], 0);
  Ret (install_density ctx width height block (fst st)).

(** ** [par_bluenoise_density_from_gray] *)

(** One pixel: the scalar [1 - p * scale] goes to [dst], where [p] is the
    [unsigned char] under the [pixels] pointer, and the pointer moves on by
    [bpp].  The state is the part of [dst] written so far and the offset
    of the running pointer. *)
Definition gray_pixel (block : option Z) (pixels : pixel_memory) (extent : Z)
    (scale : float) (bpp : Z)
    (st : list float * Z) : outcome (list float * Z) :=
  let '(dst, off) := st in
  p ← load_u8 pixels extent off;
  dst' ← store_cell block dst (fsub f1 (fmul (of_int p) scale));
  Ret (dst', off + bpp).

Definition par_bluenoise_density_from_gray (grant : bool) (size_max : Z)
    (ctx : par_bluenoise_context)
    (pixels : pixel_memory) (extent : Z) (width height bpp : Z)
  : outcome par_bluenoise_context :=
  block ← density_alloc grant size_max width height;
  let scale := fdiv f1 (Fin 255) in
  st ← for_upto height (fun j st =>
          for_upto width (fun i st =>
            gray_pixel block pixels extent scale bpp st) st) ([], 0);
  Ret (install_density ctx width height block (fst st)).

(** ** [par_bluenoise_create] *)

(** The byte at offset [off] of a block of known extent (the contents of the
    tileset file, or the caller's buffer); a read past its end is out of
    bounds. *)
Definition read_byte (buf : list Z) (off : Z) : outcome Z :=
  b ← array_get buf off; Ret (b mod 256).

(** The four bytes at [off] as a word, least significant byte first: an
    [int] and a [float] take four bytes each, on a little-endian host. *)
Definition read_word (buf : list Z) (off : Z) : outcome Z :=
  b0 ← read_byte buf off;
  b1 ← read_byte buf (off + 1);
  b2 ← read_byte buf (off + 2);
  b3 ← read_byte buf (off + 3);
  Ret (b0 + 256 * b1 + 65536 * b2 + 16777216 * b3).

(** A word as the two's complement [int] it holds. *)
Definition to_int32 (w : Z) : Z :=
  if w <? 2147483648 then w else w - 4294967296.

(** A word as the IEEE 754 binary32 [float] it holds. *)
Definition decode_f32 (w : Z) : float :=
  let sign := Z.testbit w 31 in
  let e := (w / 8388608) mod 256 in
  let m := w mod 8388608 in
  if e =? 255 then
    (if m =? 0 then (if sign then NInf else PInf) else NaN)
  else
    let q := (if e =? 0 then inject_Z m * Qpower 2 (-149)
              else inject_Z (8388608 + m) * Qpower 2 (e - 150))%Q in
    Fin (if sign then (- q)%Q else q).

(** [freadi()]: the value and the advanced [ptr]. *)
Definition freadi (buf : list Z) (ptr : Z) : outcome (Z * Z) :=
  w ← read_word buf ptr; Ret (to_int32 w, ptr + 4).

(** [freadf()]. *)
Definition freadf (buf : list Z) (ptr : Z) : outcome (float * Z) :=
  w ← read_word buf ptr; Ret (decode_f32 w, ptr + 4).

(** The requests [par_bluenoise_create] makes of [malloc], by the line
    that makes them: the context, its point buffer, the copy of the file,
    the array of tiles and, for each tile, the array of its subdivisions,
    each subdivision, the points and the sub-points. *)
Inductive alloc_site : Set :=
| ContextBlock | PointBuffer | FileBuffer | TileArray
| SubdivArray | SubdivBlock | TilePoints | TileSubpts.

(** [malloc(size * count)] for a [count] held in an [int]: the number of
    bytes of the block.  The product is computed in [size_t] and wraps
    around [size_max + 1], also when the count is negative.  [granted]
    says whether the host grants the request; a refused request gives
    NULL, a block of no bytes. *)
Definition block_bytes (granted : bool) (size_max size count : Z) : Z :=
  if granted then (size * count) mod (size_max + 1) else 0.

(** [a = malloc(...); for (int j = 0; j < count; j++) a[j] = read()], with
    the running [ptr] threaded through: entry [j], of [size] bytes, has to
    lie inside the block of [bytes] bytes. *)
Definition fill_array {A} (bytes size : Z) (read : Z -> outcome (A * Z))
    (count : Z) (ptr : Z) : outcome (list A * Z) :=
  for_upto count (fun j st =>
    '(v, ptr') ← read (snd st);
    if in_block bytes size j then Ret (fst st ++ [v], ptr')
    else Undefined) ([], ptr).

Definition read_vec2 (buf : list Z) (ptr : Z) : outcome (par_vec2 * Z) :=
  '(x, ptr) ← freadf buf ptr;
  '(y, ptr) ← freadf buf ptr;
  Ret ({| vx := x; vy := y |}, ptr).

(** [int* subdiv = malloc(sizeof(int) * sqr(nsubtiles))] and the loop
    that fills it: the product [nsubtiles * nsubtiles] is computed in
    [int]. *)
Definition read_subdiv (grant : alloc_site -> bool) (size_max : Z)
    (buf : list Z) (nsubtiles : Z) (ptr : Z) : outcome (list Z * Z) :=
  if is_int (nsubtiles * nsubtiles)
  then fill_array
         (block_bytes (grant SubdivBlock) size_max 4
            (nsubtiles * nsubtiles))
         4 (freadi buf) (nsubtiles * nsubtiles) ptr
  else Undefined.

(** [tiles[i].subdivs = malloc(sizeof(int) * nsubdivs)] and the loop over
    the subdivision variants of a tile, which ends in
    [tiles[i].subdivs[j] = subdiv].  The block is requested with 4 bytes
    for each entry, and an entry is a pointer, of [ptr_size] bytes. *)
Definition read_subdivs (grant : alloc_site -> bool)
    (ptr_size size_max : Z) (buf : list Z)
    (nsubtiles nsubdivs : Z) (ptr : Z) : outcome (list (list Z) * Z) :=
  fill_array (block_bytes (grant SubdivArray) size_max 4 nsubdivs) ptr_size
    (read_subdiv grant size_max buf nsubtiles) nsubdivs ptr.

(** [sizeof(par_vec2)], [sizeof(par_vec3)] and [sizeof(par_tile)]: two
    [float]s, three [float]s, and eight [int]s with three pointers. *)
Definition sizeof_vec2 : Z := 8.
Definition sizeof_vec3 : Z := 12.
Definition sizeof_tile (ptr_size : Z) : Z := 32 + 3 * ptr_size.

(** The body of the loop over the tiles. *)
Definition read_tile (grant : alloc_site -> bool) (ptr_size size_max : Z)
    (buf : list Z) (nsubtiles nsubdivs : Z) (ptr : Z)
    : outcome (par_tile * Z) :=
  '(n, ptr) ← freadi buf ptr;
  '(e, ptr) ← freadi buf ptr;
  '(s, ptr) ← freadi buf ptr;
  '(w, ptr) ← freadi buf ptr;
  '(subdivs, ptr) ←
    read_subdivs grant ptr_size size_max buf nsubtiles nsubdivs ptr;
  '(npoints, ptr) ← freadi buf ptr;
  '(points, ptr) ←
    fill_array (block_bytes (grant TilePoints) size_max sizeof_vec2 npoints)
      sizeof_vec2 (read_vec2 buf) npoints ptr;
  '(nsubpts, ptr) ← freadi buf ptr;
  '(subpts, ptr) ←
    fill_array (block_bytes (grant TileSubpts) size_max sizeof_vec2 nsubpts)
      sizeof_vec2 (read_vec2 buf) nsubpts ptr;
  Ret ({| t_n := n; t_e := e; t_s := s; t_w := w;
          t_npoints := npoints; t_nsubpts := nsubpts;
          t_subdivs := subdivs; t_points := points; t_subpts := subpts |},
       ptr).

(** The three counts of the header, the tiles, and where [ptr] ends. *)
Definition read_tileset (grant : alloc_site -> bool)
    (ptr_size size_max : Z) (buf : list Z)
    : outcome (Z * Z * Z * list par_tile * Z) :=
  '(ntiles, ptr) ← freadi buf 0;
  '(nsubtiles, ptr) ← freadi buf ptr;
  '(nsubdivs, ptr) ← freadi buf ptr;
  '(tiles, ptr) ←
    fill_array
      (block_bytes (grant TileArray) size_max (sizeof_tile ptr_size) ntiles)
      (sizeof_tile ptr_size)
      (read_tile grant ptr_size size_max buf nsubtiles nsubdivs) ntiles ptr;
  Ret (ntiles, nsubtiles, nsubdivs, tiles, ptr).

(** The block [ptr] starts in: [buf ? buf : filepath].

    [memory] is what lies behind the pointer [filepath]: the tileset itself
    when [nbytes] is not 0.  When [nbytes] is 0 the pointer is a path and
    [file] is what [fopen] finds there, [None] for a file that cannot be
    opened, which fails the [assert]; [null_for_empty] says whether
    [malloc(0)] returns NULL, in which case [ptr] falls back to [filepath]
    for an empty file.  The length of the file goes from the [long] of
    [ftell] into the [int] [nbytes]: for a file longer than [INT_MAX] the
    conversion is implementation-defined, and the model gives no result.
    When the request for the copy of a file that is not empty is refused,
    [fread] writes through NULL.  A non-zero [nbytes] is not used for
    anything. *)
Definition input_block (grant : alloc_site -> bool) (null_for_empty : bool)
    (file : option (list Z)) (memory : list Z) (nbytes : Z)
    : outcome (list Z) :=
  if nbytes =? 0 then
    match file with
    | None => Aborted
    | Some content =>
        if INT_MAX <? Z.of_nat (length content) then Undefined
        else if negb (grant FileBuffer) && negb (bool_decide (content = []))
        then Undefined
        else Ret (if null_for_empty && bool_decide (content = [])
                  then memory else content)
    end
  else Ret memory.

(** [par_bluenoise_create(filepath, nbytes, maxpts)].

    [grant] tells which requests the host's [malloc] grants, [ptr_size] is
    the size of a pointer on the host, and [size_max] the largest value of
    its [size_t]; an [int] and a [float] take 4 bytes.  The first store,
    [ctx->maxpoints = maxpts], goes through the block of the context.  The
    point buffer has the entries that fit the block requested for it, and
    nothing is stored in it.  The fields that the function leaves unset
    ([npoints], the viewport, the global density, [mag], the extent of the
    density field) keep what [malloc] handed out, [garbage]; so do the
    entries of the fresh point buffer, [junk]. *)
Definition par_bluenoise_create (grant : alloc_site -> bool)
    (ptr_size size_max : Z) (garbage : par_bluenoise_context)
    (junk : nat -> par_vec3) (null_for_empty : bool)
    (file : option (list Z)) (memory : list Z) (nbytes maxpts : Z)
    : outcome par_bluenoise_context :=
  if negb (grant ContextBlock) then Undefined else
  buf ← input_block grant null_for_empty file memory nbytes;
  '(ntiles, nsubtiles, nsubdivs, tiles, _) ←
    read_tileset grant ptr_size size_max buf;
  Ret {| points :=
           junk <$> seq 0 (Z.to_nat
             (block_bytes (grant PointBuffer) size_max sizeof_vec3 maxpts
              / sizeof_vec3));
         tiles := tiles;
         global_density := global_density garbage;
         left := left garbage; bottom := bottom garbage;
         right := right garbage; top := top garbage;
         ntiles := ntiles; nsubtiles := nsubtiles; nsubdivs := nsubdivs;
         npoints := npoints garbage;
         maxpoints := maxpts;
         density_width := density_width garbage;
         density_height := density_height garbage;
         density := None;
         mag := mag garbage |}.

(** ** Equality of values *)

(** Two model floats denote the same number. *)
Definition feq (a b : float) : Prop :=
  match a, b with
  | Fin p, Fin q => (p == q)%Q
  | PInf, PInf | NInf, NInf | NaN, NaN => True
  | _, _ => False
  end.

Definition vec3_eq (u v : par_vec3) : Prop :=
  feq (px u) (px v) /\ feq (py u) (py v) /\ feq (rank u) (rank v).

(** ** The end-to-end scenario of the specification *)

Definition scenario_tile : par_tile :=
  {| t_n := 0; t_e := 0; t_s := 0; t_w := 0;
     t_npoints := 4; t_nsubpts := 0;
     t_subdivs := [[0]];
     t_points := [ {| vx := Fin (1 # 10); vy := Fin (1 # 10) |};
                   {| vx := Fin (3 # 10); vy := Fin (3 # 10) |};
                   {| vx := Fin (6 # 10); vy := Fin (6 # 10) |};
                   {| vx := Fin (9 # 10); vy := Fin (9 # 10) |} ];
     t_subpts := [] |}.

Definition zero_vec3 : par_vec3 := {| px := f0; py := f0; rank := f0 |}.

(** The context [par_bluenoise_create] builds for that tileset with
    [maxpts] entries in the output buffer. *)
Definition scenario_ctx (maxpts : nat) : par_bluenoise_context :=
  {| points := replicate maxpts zero_vec3; tiles := [scenario_tile];
     global_density := f0;
     left := f0; bottom := f0; right := f0; top := f0;
     ntiles := 1; nsubtiles := 1; nsubdivs := 1;
     npoints := 0; maxpoints := Z.of_nat maxpts;
     density_width := 0; density_height := 0;
     density := None; mag := f0 |}.

(** * Definitions for the statements *)

(** ** Arithmetic of the model floats *)

Definition is_nan (a : float) : bool :=
  match a with NaN => true | _ => false end.

Definition is_finite (a : float) : bool :=
  match a with Fin _ => true | _ => false end.

(** ** The output buffer *)

(** [c'] is [c] with other contents in the output buffer: the tileset, the
    density field and the request are the same, and so is the capacity. *)
Definition same_store (c c' : par_bluenoise_context) : Prop :=
  exists p n, c' = set_points c p n /\ length p = length (points c).

(** What the body of the root loop decides for candidate [i]. *)
Definition root_candidate (tile0 : par_tile) (factor : float)
    (ctx : par_bluenoise_context) (i : Z) : outcome (option par_vec3) :=
  p ← array_get (t_points tile0) i;
  if outside ctx (vx p) (vx p) (vy p) (vy p) then Ret None else
  s ← sample_density ctx (vx p) (vy p);
  if fltb s (fmul (of_int (i + 1)) factor) then Ret None else
  Ret (Some {| px := fsub (vx p) half; py := fsub (vy p) half;
               rank := fmul (of_int i) factor |}).

(** What the body of the loop of [apply_tile] decides for candidate [i]. *)
Definition tile_candidate (tile : par_tile) (x y tileSize factor : float)
    (level : Z) (ctx : par_bluenoise_context) (i : Z)
  : outcome (option par_vec3) :=
  sp ← array_get (t_subpts tile) i;
  let ppx := fadd x (fmul (vx sp) tileSize) in
  let ppy := fadd y (fmul (vy sp) tileSize) in
  if outside ctx ppx ppx ppy ppy then Ret None else
  s ← sample_density ctx ppx ppy;
  if fltb s (fmul (of_int (i + t_npoints tile)) factor) then Ret None else
  Ret (Some {| px := fsub ppx half; py := fsub ppy half;
               rank := fadd (of_int (level + 1))
                            (fmul (of_int i) factor) |}).

(** ** One visit of [apply_tile], taken apart *)

(** The locals of [apply_tile] as functions of the context and the node. *)
Definition tile_size (ctx : par_bluenoise_context) (level : Z) : float :=
  fdiv f1 (powf (of_int (nsubtiles ctx)) level).

Definition node_depth (ctx : par_bluenoise_context) (level : Z) : float :=
  powf (of_int (nsubtiles ctx)) (2 * level).

Definition node_threshold (ctx : par_bluenoise_context) (tile : par_tile)
    (level : Z) : float :=
  fsub (fmul (fdiv (mag ctx) (node_depth ctx level)) (global_density ctx))
       (of_int (t_npoints tile)).

Definition node_factor (ctx : par_bluenoise_context) (level : Z) : float :=
  fdiv (fmul (fdiv f1 (mag ctx)) (node_depth ctx level)) (global_density ctx).

(** The footprint of the node misses the viewport. *)
Definition node_skipped (ctx : par_bluenoise_context) (node : par_node)
  : bool :=
  let ts := tile_size ctx (n_level node) in
  outside ctx (n_x node) (fadd (n_x node) ts) (n_y node) (fadd (n_y node) ts).

Definition node_candidate (ctx : par_bluenoise_context) (tile : par_tile)
    (node : par_node) : Z -> outcome (option par_vec3) :=
  tile_candidate tile (n_x node) (n_y node) (tile_size ctx (n_level node))
                 (node_factor ctx (n_level node)) (n_level node) ctx.

Definition node_children (ctx : par_bluenoise_context) (tile : par_tile)
    (node : par_node) : outcome (list par_node) :=
  spawn_children ctx tile (n_x node) (n_y node)
    (fdiv (tile_size ctx (n_level node)) (of_int (nsubtiles ctx)))
    (n_level node + 1).

(** What one visit did, when it returned. *)
Inductive visit_shape (fuel : nat) (c : par_bluenoise_context)
    (node : par_node) (c' : par_bluenoise_context) : Prop :=
  | visit_skip :
      node_skipped c node = true -> c' = c -> visit_shape fuel c node c'
  | visit_tile (tile : par_tile) (ntests : Z) (os : list (option par_vec3))
      (c1 : par_bluenoise_context) :
      node_skipped c node = false ->
      0 <= n_tile node ->
      tiles c !! Z.to_nat (n_tile node) = Some tile ->
      to_int (mini (t_nsubpts tile) (node_threshold c tile (n_level node)))
        = Ret ntests ->
      Forall2 (fun j o => node_candidate c tile node j = Ret o)
              (seqZ 0 (Z.max 0 ntests)) os ->
      same_store c c1 ->
      emitted c1 = emitted c ++ omap id os ->
      npoints c1 = npoints c + Z.of_nat (length (omap id os)) ->
      (if fleb (node_threshold c tile (n_level node))
               (of_int (t_nsubpts tile))
       then c' = c1
       else exists kids,
              node_children c tile node = Ret kids /\
              visit (apply_tile fuel) kids c1 = Ret c') ->
      visit_shape fuel c node c'.

(** [c'] extends the output of [c] by points that all satisfy [P]. *)
Definition extends_by (P : par_vec3 -> Prop)
    (c c' : par_bluenoise_context) : Prop :=
  same_store c c' /\
  exists l, emitted c' = emitted c ++ l /\
            npoints c' = npoints c + Z.of_nat (length l) /\
            Forall P l.

(** ** Loops that build a list *)

(** The children of a node: one per cell [(ty, tx)] of the sub-grid, rows
    first, each built by [child_node]. *)
Definition row_of_children (ctx : par_bluenoise_context) (tile : par_tile)
    (x y scale : float) (level : Z) (ty : Z) (row : list par_node) : Prop :=
  Forall2 (fun tx kid => child_node ctx tile x y scale level ty tx = Ret kid)
          (seqZ 0 (Z.max 0 (nsubtiles ctx))) row.

(** ** Finite values and the viewport *)

Definition inside (l b r t x y : float) : bool :=
  fleb l x && fleb x r && fleb b y && fleb y t.

Definition finite2 (p : par_vec2) : Prop :=
  is_finite (vx p) = true /\ is_finite (vy p) = true.

(** The coordinates of every point and sub-point of the tileset are
    numbers. *)
Definition tiles_finite (ts : list par_tile) : Prop :=
  Forall (fun t => Forall finite2 (t_points t) /\
                   Forall finite2 (t_subpts t)) ts.

(** ** Containment *)

(** The point [v] of the output, moved back by 0.5, lies in the rectangle. *)
Definition in_viewport (l b r t : float) (v : par_vec3) : Prop :=
  inside l b r t (fadd (px v) half) (fadd (py v) half) = true.

Definition viewport_is (c : par_bluenoise_context) (l b r t : float) : Prop :=
  left c = l /\ bottom c = b /\ right c = r /\ top c = t.

Definition contain_inv (l b r t : float) (c : par_bluenoise_context)
    (node : par_node) : Prop :=
  viewport_is c l b r t /\ tiles_finite (tiles c) /\
  is_finite (n_x node) = true /\ is_finite (n_y node) = true /\
  (nsubtiles c <> 0 \/ n_level node = 0).

(** ** The end-to-end scenario *)

Definition mk_vec3 (x y k : Q) : par_vec3 :=
  {| px := Fin x; py := Fin y; rank := Fin k |}.

(** ** The pixels a density builder can handle *)

(** Pixel [k] can be handled: its scalar has a place in the block and the
    read of [size] bytes at the pixel is inside the image. *)
Definition pixel_ok (block : option Z) (extent bpp size : Z) (k : Z)
  : bool :=
  match block with Some bytes => in_block bytes 4 k | None => false end
  && in_image extent (k * bpp) size.

(** The block behind [ctx->density] once a builder has asked for it. *)
Definition field_block (grant : bool) (size_max : Z) (width height : Z)
  : option Z :=
  if grant then Some ((4 * (width * height)) mod (size_max + 1))
  else None.

(** The largest value of [size_t] on a host with 64-bit sizes. *)
Definition SIZE_MAX_64 : Z := 18446744073709551615.

(** The number of cells of a [width] x [height] field. *)
Definition cell_count (width height : Z) : Z :=
  Z.max 0 height * Z.max 0 width.

(** ** The colour-key density builder *)

(** The masked value of pixel [k] and the scalar stored for it. *)
Definition masked_pixel (pixels : pixel_memory) (bpp : Z) (k : Z) : Z :=
  Z.land (read_u32 pixels (k * bpp)) (color_mask bpp).

Definition color_key_cell (pixels : pixel_memory) (bpp bkgd invert : Z)
    (k : Z) : float :=
  let val := masked_pixel pixels bpp k in
  of_bool (if invert =? 0 then negb (val =? bkgd) else val =? bkgd).

(** The 0/1 mask over the [width * height] pixels, in row order. *)
Definition color_key_mask (pixels : pixel_memory) (width height bpp : Z)
    (bkgd invert : Z) : list float :=
  map (color_key_cell pixels bpp bkgd invert)
      (seqZ 0 (Z.max 0 height * Z.max 0 width)).

(** ** Sampling the density field *)

(** A context with a [w] x [h] density field. *)
Definition with_field (w h : Z) (dens : list float) : par_bluenoise_context :=
  set_density (scenario_ctx 8) w h dens.

(** The two numbers [sample_density] converts to [int] for a finite
    query. *)
Definition sample_tx (w h : Z) (x : Q) : Q :=
  ((x - (1 # 2)) * inject_Z (maxi w h) + inject_Z (Z.quot w 2))%Q.

Definition sample_ty (w h : Z) (y : Q) : Q :=
  ((1 - y - (1 # 2)) * inject_Z (maxi w h) + inject_Z (Z.quot h 2))%Q.

(** The column and the row [sample_density] reads for a finite query. *)
Definition sample_column (w h : Z) (x : Q) : Z :=
  let tx := ((x - (1 # 2)) * inject_Z (maxi w h) + inject_Z (Z.quot w 2))%Q in
  clamp_int (Qtrunc tx) 0 (w - 2).

Definition sample_row (w h : Z) (y : Q) : Z :=
  let ty :=
    ((1 - y - (1 # 2)) * inject_Z (maxi w h) + inject_Z (Z.quot h 2))%Q in
  clamp_int (Qtrunc ty) 0 (h - 2).

(** ** Sorting by rank *)

Definition rank_le (u v : par_vec3) : Prop := fleb (rank u) (rank v) = true.

Definition rank_is_number (v : par_vec3) : Prop := is_nan (rank v) = false.

(** ** Rank bands *)

(** [k <= rank v < k + 1]. *)
Definition rank_in_band (k : Z) (v : par_vec3) : Prop :=
  fleb (of_int k) (rank v) = true /\ fltb (rank v) (of_int (k + 1)) = true.

Definition rank_at_least (k : Z) (v : par_vec3) : Prop :=
  fleb (of_int k) (rank v) = true.

Definition counts_nonneg (ts : list par_tile) : Prop :=
  Forall (fun t => 0 <= t_npoints t) ts.


(** ** The root pass against the words of the specification *)

(** Step 1 of the specification: translate, take [mag] from the translated,
    unclamped bounds, clamp. *)
Definition translate (a : float) : float := fadd a half.

Definition clamp01 (a : float) : float := clamp a f0 f1.

Definition spec_mag (b t : float) : float :=
  powf (fsub (translate t) (translate b)) (-2).

(** The sampled density as a value, when the sample is defined. *)
Definition sampled (c : par_bluenoise_context) (x y : float) : option float :=
  match sample_density c x y with Ret s => Some s | _ => None end.

(** Step 2 of the specification, for candidate [i]: accept when the point
    lies in the clamped viewport and the sampled density is at least
    [(i+1) * (1/(mag*density))]; the rank is [i * (1/(mag*density))]. *)
Definition root_accepts_spec (c : par_bluenoise_context) (tile0 : par_tile)
    (l b r t : float) (m d : float) (i : Z) : option par_vec3 :=
  p ← t_points tile0 !! Z.to_nat i;
  s ← sampled c (vx p) (vy p);
  if inside l b r t (vx p) (vy p)
     && fleb (fmul (of_int (i + 1)) (fdiv f1 (fmul m d))) s
  then Some {| px := fsub (vx p) half; py := fsub (vy p) half;
               rank := fmul (of_int i) (fdiv f1 (fmul m d)) |}
  else None.

(** That rule for the request [generate(d, l, b, r, t)]: over the translated
    and clamped viewport, with [mag] taken from the bounds as given. *)
Definition root_rule (ctx : par_bluenoise_context) (d l b r t : float)
    (tile0 : par_tile) : Z -> option par_vec3 :=
  root_accepts_spec (begin_request ctx d l b r t) tile0
    (clamp01 (translate l)) (clamp01 (translate b))
    (clamp01 (translate r)) (clamp01 (translate t)) (spec_mag b t) d.

(** The values of the density field are numbers. *)
Definition density_numbers (c : par_bluenoise_context) : Prop :=
  match density c with
  | None => True
  | Some dens => Forall (fun v => is_nan v = false) dens
  end.

(** The values of the density field lie in [[0, 1]], as the two builders
    of the source produce them. *)
Definition density_unit (c : par_bluenoise_context) : Prop :=
  match density c with
  | None => True
  | Some dens => Forall (fun v => fleb f0 v = true /\ fleb v f1 = true) dens
  end.

(** [i < thr], for an index [i] and a bound that need not be an integer. *)
Definition index_below (thr : float) (i : Z) : bool := fltb (of_int i) thr.

(** The indices [0 <= i < count] with [i < thr].  For
    [thr = min(count, b)] these are all the integers of the interval
    [[0, min(count, b))]. *)
Definition indices_below (count : Z) (thr : float) : list Z :=
  List.filter (index_below thr) (seqZ 0 count).

Definition opt_vec3_eq (o o' : option par_vec3) : Prop :=
  match o, o' with
  | Some u, Some v => vec3_eq u v
  | None, None => True
  | _, _ => False
  end.

(** ** One visit of the descent against the words of the specification *)

(** [depth = subtilesPerLevel^(2L)], [threshold = mag/depth*density -
    T.points.count], [factor = depth / (mag*density)]. *)
Definition spec_depth (c : par_bluenoise_context) (L : Z) : float :=
  powf (of_int (nsubtiles c)) (2 * L).

Definition spec_threshold (c : par_bluenoise_context) (tile : par_tile)
    (L : Z) : float :=
  fsub (fmul (fdiv (mag c) (spec_depth c L)) (global_density c))
       (of_int (t_npoints tile)).

Definition spec_factor (c : par_bluenoise_context) (L : Z) : float :=
  fdiv (spec_depth c L) (fmul (mag c) (global_density c)).

(** The footprint [[x, x+ts] x [y, y+ts]] and the viewport have a point in
    common. *)
Definition footprint_meets (c : par_bluenoise_context) (node : par_node)
  : bool :=
  let ts := tile_size c (n_level node) in
  fleb (left c) (fadd (n_x node) ts) && fleb (n_x node) (right c)
  && fleb (bottom c) (fadd (n_y node) ts) && fleb (n_y node) (top c).

(** Candidate [i] of the node: the point [origin + subPoints[i] * tileSize],
    accepted when it lies in the viewport and the sampled density is at
    least [(i + T.points.count) * factor]; its rank is [(L+1) + i*factor]. *)
Definition node_accepts_spec (c : par_bluenoise_context) (tile : par_tile)
    (node : par_node) (i : Z) : option par_vec3 :=
  let L := n_level node in
  let ts := tile_size c L in
  sp ← t_subpts tile !! Z.to_nat i;
  let x := fadd (n_x node) (fmul (vx sp) ts) in
  let y := fadd (n_y node) (fmul (vy sp) ts) in
  s ← sampled c x y;
  if inside (left c) (bottom c) (right c) (top c) x y
     && fleb (fmul (of_int (i + t_npoints tile)) (spec_factor c L)) s
  then Some {| px := fsub x half; py := fsub y half;
               rank := fadd (of_int (L + 1))
                            (fmul (of_int i) (spec_factor c L)) |}
  else None.

(** The child in cell [(ty, tx)] of the sub-grid, bound through
    subdivision variant 0. *)
Definition child_spec (c : par_bluenoise_context) (tile : par_tile)
    (node : par_node) (cell : Z * Z) : option par_node :=
  let '(ty, tx) := cell in
  let scale := fdiv (tile_size c (n_level node)) (of_int (nsubtiles c)) in
  sub ← t_subdivs tile !! 0%nat;
  idx ← sub !! Z.to_nat (ty * nsubtiles c + tx);
  Some {| n_tile := idx;
          n_x := fadd (n_x node) (fmul (of_int tx) scale);
          n_y := fadd (n_y node) (fmul (of_int ty) scale);
          n_level := n_level node + 1 |}.

(** The cells of an [n] x [n] grid, rows first. *)
Definition grid (n : Z) : list (Z * Z) :=
  ty ← seqZ 0 n; tx ← seqZ 0 n; [(ty, tx)].

(** What the descent can rely on at a node: a viewport of numbers, a
    positive [mag], a tileset with finite coordinates and non-negative
    counts, a density field of numbers, a finite origin, and a level above 0
    only on a tileset that has subtiles. *)
Definition visit_ok (c : par_bluenoise_context) (node : par_node) : Prop :=
  is_nan (left c) = false /\ is_nan (bottom c) = false /\
  is_nan (right c) = false /\ is_nan (top c) = false /\
  fltb f0 (mag c) = true /\
  tiles_finite (tiles c) /\ counts_nonneg (tiles c) /\ density_numbers c /\
  is_finite (n_x node) = true /\ is_finite (n_y node) = true /\
  (nsubtiles c <> 0 \/ n_level node = 0).

(** The request of the end-to-end scenario, stored in the context. *)
Definition scenario_request : par_bluenoise_context :=
  begin_request (scenario_ctx 8) (Fin 4)
    (Fin (-1 # 2)) (Fin (-1 # 2)) (Fin (1 # 2)) (Fin (1 # 2)).

(** ** A tileset with sub-points *)

(** A tileset of one tile with the root point (1/4, 1/4) and the two
    sub-points (1/2, 1/2) and (3/4, 3/4), two subtiles per axis, in a
    context with 64 entries in the output buffer. *)
Definition sub_tile : par_tile :=
  {| t_n := 0; t_e := 0; t_s := 0; t_w := 0;
     t_npoints := 1; t_nsubpts := 2;
     t_subdivs := [[0; 0; 0; 0]];
     t_points := [ {| vx := Fin (1 # 4); vy := Fin (1 # 4) |} ];
     t_subpts := [ {| vx := Fin (1 # 2); vy := Fin (1 # 2) |};
                   {| vx := Fin (3 # 4); vy := Fin (3 # 4) |} ] |}.

Definition sub_ctx : par_bluenoise_context :=
  {| points := replicate 64 zero_vec3; tiles := [sub_tile];
     global_density := f0;
     left := f0; bottom := f0; right := f0; top := f0;
     ntiles := 1; nsubtiles := 2; nsubdivs := 1;
     npoints := 0; maxpoints := 64;
     density_width := 0; density_height := 0;
     density := None; mag := f0 |}.

(** The request [generate(d, -0.5, -0.5, 0.5, 0.5)] on it, stored in the
    context. *)
Definition sub_request (d : Q) : par_bluenoise_context :=
  begin_request sub_ctx (Fin d)
    (Fin (-1 # 2)) (Fin (-1 # 2)) (Fin (1 # 2)) (Fin (1 # 2)).

(** ** Termination of the descent *)

(** 2^24: every integer up to it is a value of [float]. *)
Definition FLT_EXACT : Z := 16777216.

(** A tile the descent can work on: counts within the arrays whose sum a
    [float] holds exactly (the code adds an index of a sub-point to the
    number of points and converts counts and indices to [float]), at least
    one point or sub-point, and a first subdivision variant of no more
    than [INT_MAX] entries that names a tile of the tileset for every cell
    of the sub-grid. *)
Definition tile_ok (c : par_bluenoise_context) (tile : par_tile) : Prop :=
  0 <= t_npoints tile <= Z.of_nat (length (t_points tile)) /\
  0 <= t_nsubpts tile <= Z.of_nat (length (t_subpts tile)) /\
  1 <= t_npoints tile + t_nsubpts tile <= FLT_EXACT /\
  exists sub,
    t_subdivs tile !! 0%nat = Some sub /\
    nsubtiles c * nsubtiles c <= Z.of_nat (length sub) <= INT_MAX /\
    Forall (fun i => 0 <= i < Z.of_nat (length (tiles c))) sub.

(** A density field, when there is one, has at least two columns and two
    rows, a number of cells that is a value of [int] (the code computes the
    index of a cell in [int]), and one scalar per cell. *)
Definition field_ok (c : par_bluenoise_context) : Prop :=
  match density c with
  | None => True
  | Some dens =>
      2 <= density_width c /\ 2 <= density_height c /\
      density_width c * density_height c <= INT_MAX /\
      Z.of_nat (length dens) = density_width c * density_height c
  end.

(** A context on which the descent ends: at least two subtiles per axis,
    so that [depth] grows with the level, and a tileset of such tiles with
    finite coordinates. *)
Definition well_formed (c : par_bluenoise_context) : Prop :=
  2 <= nsubtiles c /\ tiles c <> [] /\ Forall (tile_ok c) (tiles c) /\
  tiles_finite (tiles c) /\ field_ok c.

(** The bottom and the top of a request are far enough apart to stay
    apart as [float]s once 0.5 is added to each: a binary32 sum is off by
    at most 2^-24 of its value, so that two sums whose exact values differ
    by [2^-23 * (1 + |bottom| + |top|)] differ.  Closer bounds can be
    rounded to the same [float], and then [mag] is infinite as for
    [bottom == top]. *)
Definition separated (b t : float) : Prop :=
  match b, t with
  | Fin qb, Fin qt =>
      ((1 # 8388608) * (1 + Qabs qb + Qabs qt) <= Qabs (qt - qb))%Q
  | _, _ => False
  end.

(** The viewport of the request in [c] lies in the unit square. *)
Definition unit_view (c : par_bluenoise_context) : Prop :=
  exists L B R T,
    left c = Fin L /\ bottom c = Fin B /\ right c = Fin R /\ top c = Fin T /\
    (0 <= L)%Q /\ (0 <= B)%Q /\ (R <= 1)%Q /\ (T <= 1)%Q.

(** The largest number of sub-points of a tile. *)
Definition max_subpts (c : par_bluenoise_context) : Z :=
  foldr Z.max 0 (t_nsubpts <$> tiles c).

(** Room in the output buffer for a subtree of [n] levels below its root:
    every node adds at most [max_subpts] points and has
    [nsubtiles * nsubtiles] children. *)
Fixpoint budget (c : par_bluenoise_context) (n : nat) : Z :=
  match n with
  | O => max_subpts c
  | S n' => max_subpts c + nsubtiles c * nsubtiles c * budget c n'
  end.

(** [mag * density] of a request, 0 when it is no number. *)
Definition request_size (d b t : float) : Q :=
  match fmul (spec_mag b t) d with Fin k => k | _ => 0%Q end.

(** At level [L] the depth [ns^(2L)] has reached [k]: with [k] the
    [mag * density] of the request, the threshold is then at most 1. *)
Definition reaches (ns : Z) (k : Q) (L : Z) : bool :=
  Qle_bool k (inject_Z (ns ^ (2 * L))).

(** The first level from [L] on, among the next [bound], that reaches [k],
    counted from [L]. *)
Fixpoint first_level (ns : Z) (k : Q) (bound : nat) (L : Z) : nat :=
  match bound with
  | O => O
  | S bound' =>
      if reaches ns k L then O
      else S (first_level ns k bound' (L + 1))
  end.

(** The number of levels below the root the descent can reach: the first
    level whose depth has reached [mag * density]. *)
Definition levels (c : par_bluenoise_context) (d b t : float) : nat :=
  first_level (nsubtiles c) (request_size d b t)
              (Z.to_nat (Qtrunc (request_size d b t) + 1)) 0.

(** Room for the root pass and the descent. *)
Definition capacity (c : par_bluenoise_context) (d b t : float) : Z :=
  match tiles c with
  | tile0 :: _ => t_npoints tile0 + budget c (levels c d b t)
  | [] => 0
  end.

(** One more candidate: the context keeps its store and gains at most one
    point. *)
Definition one_more (c0 : par_bluenoise_context) (base : Z) (j : Z)
    (c : par_bluenoise_context) : Prop :=
  same_store c0 c /\ base <= npoints c <= base + j.

(** A node the descent may visit with [n] levels of fuel to spare: at the
    level [n_level node + n] the depth has reached [k]. *)
Definition node_ok (c0 : par_bluenoise_context) (k : Q) (n : nat)
    (node : par_node) : Prop :=
  0 <= n_level node /\
  reaches (nsubtiles c0) k (n_level node + Z.of_nat n) = true /\
  0 <= n_tile node < Z.of_nat (length (tiles c0)) /\
  is_finite (n_x node) = true /\ is_finite (n_y node) = true.

(** ** Two runs on the same store *)

(** [c2] is [c1] with other contents in the unused part of the buffer: same
    store, same count, same output so far. *)
Definition agree (c1 c2 : par_bluenoise_context) : Prop :=
  exists p, c2 = set_points c1 p (npoints c1) /\
            length p = length (points c1) /\
            take (Z.to_nat (npoints c1)) p = emitted c1.

Definition agree_out (o1 o2 : outcome par_bluenoise_context) : Prop :=
  match o1, o2 with
  | Ret a, Ret b => agree a b
  | Undefined, Undefined | Aborted, Aborted | OutOfFuel, OutOfFuel => True
  | _, _ => False
  end.

(** The tileset, the density field and the capacity of two contexts are
    the same. *)
Definition unchanged_store (c c' : par_bluenoise_context) : Prop :=
  tiles c' = tiles c /\ ntiles c' = ntiles c /\ nsubtiles c' = nsubtiles c /\
  nsubdivs c' = nsubdivs c /\ maxpoints c' = maxpoints c /\
  density_width c' = density_width c /\
  density_height c' = density_height c /\ density c' = density c /\
  length (points c') = length (points c).

(** ** Monotonicity in the density *)

(** [c2] differs from [c1] in the output buffer and in a density that is
    at least the one of [c1]. *)
Definition denser (c1 c2 : par_bluenoise_context) : Prop :=
  tiles c2 = tiles c1 /\ nsubtiles c2 = nsubtiles c1 /\
  left c2 = left c1 /\ bottom c2 = bottom c1 /\
  right c2 = right c1 /\ top c2 = top c1 /\ mag c2 = mag c1 /\
  density c2 = density c1 /\ density_width c2 = density_width c1 /\
  density_height c2 = density_height c1 /\
  fleb (global_density c1) (global_density c2) = true.

(** The part of the context the arithmetic lemmas need. *)
Definition mono_ok (c : par_bluenoise_context) : Prop :=
  fltb f0 (mag c) = true /\ counts_nonneg (tiles c).

(** ** A viewport of height zero *)

(** The request [generate(1, -0.5, -0.5, 0.5, -0.5)] on the tileset with
    sub-points: bottom and top coincide, so [mag] is +inf. *)
Definition flat_request : par_bluenoise_context :=
  begin_request sub_ctx (Fin 1)
    (Fin (-1 # 2)) (Fin (-1 # 2)) (Fin (1 # 2)) (Fin (-1 # 2)).

(** * Definitions for further properties *)

(** ** Sorting by rank *)

(** The two coordinates of a point. *)
Definition position (v : par_vec3) : float * float := (px v, py v).

(** Ranks that grow strictly along the list. *)
Definition rank_lt (u v : par_vec3) : Prop := fltb (rank u) (rank v) = true.

(** Three points with the ranks 1/2, 1/4, 3/4 and a fourth entry behind
    them. *)
Definition unsorted_points : list par_vec3 :=
  [ mk_vec3 1 1 (1 # 2); mk_vec3 2 2 (1 # 4); mk_vec3 3 3 (3 # 4);
    mk_vec3 9 9 9 ].

(** ** The density builders *)

(** The first byte of pixel [k]. *)
Definition gray_byte (pixels : pixel_memory) (bpp k : Z) : Z :=
  pixels (k * bpp) mod 256.

(** The scalar the grayscale builder stores for pixel [k]. *)
Definition gray_cell (pixels : pixel_memory) (bpp k : Z) : float :=
  fsub f1 (fmul (of_int (gray_byte pixels bpp k)) (fdiv f1 (Fin 255))).



(** Two pixel memories hold the same first [bpp] bytes in each of the first
    [n] pixels. *)
Definition same_pixel_bytes (p1 p2 : pixel_memory) (bpp n : Z) : Prop :=
  forall k i, 0 <= k < n -> 0 <= i < bpp ->
    p1 (k * bpp + i) mod 256 = p2 (k * bpp + i) mod 256.

(** A 2 x 2 image of one byte per pixel: black, white, and two grays. *)
Definition gray_image : pixel_memory :=
  fun off => if off =? 0 then 0 else if off =? 1 then 255
             else if off =? 2 then 51 else 204.

(** Two 1 x 1 images of three bytes per pixel that differ in the byte
    behind the pixel only. *)
Definition rgb_pixel (tail : Z) : pixel_memory :=
  fun off => if off =? 3 then tail else 1.

(** ** The cells [sample_density] reads *)

(** Two fields of [w] columns agree on the columns [0 .. w-2] of the rows
    [0 .. h-2]. *)
Definition same_inner_cells (w h : Z) (d1 d2 : list float) : Prop :=
  forall ix iy, 0 <= ix <= w - 2 -> 0 <= iy <= h - 2 ->
    d1 !! Z.to_nat (iy * w + ix) = d2 !! Z.to_nat (iy * w + ix).

(** ** The coordinates [generate] returns *)

(** Both coordinates of a point lie in [[-1/2, 1/2]]. *)
Definition in_unit_box (v : par_vec3) : Prop :=
  exists x y, px v = Fin x /\ py v = Fin y /\
              (-(1 # 2) <= x <= 1 # 2)%Q /\ (-(1 # 2) <= y <= 1 # 2)%Q.

(** ** What [generate] writes *)

(** From [c] to [c'] the store is kept, the count has not shrunk, a count
    that grew started at 0 or above and stays within the buffer, and the
    buffer behind the new count holds what it held. *)
Definition tail_kept (c c' : par_bluenoise_context) : Prop :=
  same_store c c' /\ npoints c <= npoints c' /\
  (npoints c <> npoints c' ->
   0 <= npoints c /\ npoints c' <= Z.of_nat (length (points c))) /\
  drop (Z.to_nat (npoints c')) (points c')
  = drop (Z.to_nat (npoints c')) (points c).

(** ** A buffer that is too short *)

(** The context with its output buffer cut down to [n] entries. *)
Definition shorten (n : nat) (c : par_bluenoise_context)
  : par_bluenoise_context :=
  set_points c (take n (points c)) (npoints c).

(** A run on the short buffer goes the way of the run on the full buffer,
    or it has written out of bounds. *)
Definition short_out (n : nat)
    (full short : outcome par_bluenoise_context) : Prop :=
  match short with
  | Ret cs => exists cf, full = Ret cf /\ cs = shorten n cf
  | Undefined => True
  | Aborted => full = Aborted
  | OutOfFuel => full = OutOfFuel
  end.

(** ** The tileset format *)

(** The four bytes of a word, least significant first. *)
Definition encode_word (w : Z) : list Z :=
  [w mod 256; (w / 256) mod 256; (w / 65536) mod 256; (w / 16777216) mod 256].

(** The bytes of an [int], in two's complement. *)
Definition encode_i32 (z : Z) : list Z := encode_word (z mod 4294967296).

(** The values of an [int], and of a 32-bit pattern. *)
Definition is_int32 (z : Z) : Prop := -2147483648 <= z < 2147483648.

Definition is_word (w : Z) : Prop := 0 <= w < 4294967296.

(** What a tileset file says about one tile: the four edge colours, the
    subdivisions, and the two point lists with the bit patterns of their
    coordinates. *)
Record tile_data := {
  d_n : Z; d_e : Z; d_s : Z; d_w : Z;
  d_subdivs : list (list Z);
  d_points : list (Z * Z);
  d_subpts : list (Z * Z)
}.

(** The bytes of one subdivision, of a pair of coordinates, of a tile and
    of a whole tileset, in the order [par_bluenoise_create] reads them. *)
Definition encode_ints (l : list Z) : list Z := concat (encode_i32 <$> l).

Definition encode_vec2 (p : Z * Z) : list Z :=
  encode_word p.1 ++ encode_word p.2.

Definition decode_vec2 (p : Z * Z) : par_vec2 :=
  {| vx := decode_f32 p.1; vy := decode_f32 p.2 |}.

Definition encode_tile (t : tile_data) : list Z :=
  encode_i32 (d_n t) ++ encode_i32 (d_e t) ++ encode_i32 (d_s t)
  ++ encode_i32 (d_w t)
  ++ concat (encode_ints <$> d_subdivs t)
  ++ encode_i32 (Z.of_nat (length (d_points t)))
  ++ concat (encode_vec2 <$> d_points t)
  ++ encode_i32 (Z.of_nat (length (d_subpts t)))
  ++ concat (encode_vec2 <$> d_subpts t).

(** The tile a description stands for: each count is the length of its
    list. *)
Definition decode_tile (t : tile_data) : par_tile :=
  {| t_n := d_n t; t_e := d_e t; t_s := d_s t; t_w := d_w t;
     t_npoints := Z.of_nat (length (d_points t));
     t_nsubpts := Z.of_nat (length (d_subpts t));
     t_subdivs := d_subdivs t;
     t_points := decode_vec2 <$> d_points t;
     t_subpts := decode_vec2 <$> d_subpts t |}.

Definition encode_tileset (nsubtiles nsubdivs : Z) (ts : list tile_data)
    : list Z :=
  encode_i32 (Z.of_nat (length ts)) ++ encode_i32 nsubtiles
  ++ encode_i32 nsubdivs ++ concat (encode_tile <$> ts).

(** A description fits the format: its numbers are [int]s, its patterns
    32 bits wide, and each tile has [nsubdivs] subdivisions of
    [nsubtiles * nsubtiles] entries. *)
Definition vec2_data_ok (p : Z * Z) : Prop := is_word p.1 /\ is_word p.2.

Definition tile_data_ok (nsubtiles nsubdivs : Z) (t : tile_data) : Prop :=
  is_int32 (d_n t) /\ is_int32 (d_e t) /\ is_int32 (d_s t) /\
  is_int32 (d_w t) /\
  length (d_subdivs t) = Z.to_nat nsubdivs /\
  Forall (fun sd => length sd = Z.to_nat (nsubtiles * nsubtiles) /\
                    Forall is_int32 sd) (d_subdivs t) /\
  is_int32 (Z.of_nat (length (d_points t))) /\
  Forall vec2_data_ok (d_points t) /\
  is_int32 (Z.of_nat (length (d_subpts t))) /\
  Forall vec2_data_ok (d_subpts t).

Definition tileset_ok (nsubtiles nsubdivs : Z) (ts : list tile_data) : Prop :=
  is_int32 (Z.of_nat (length ts)) /\ is_int32 nsubtiles /\
  is_int32 nsubdivs /\ Forall (tile_data_ok nsubtiles nsubdivs) ts.

(** The blocks of the loader hold what it stores in them: pointers of no
    more than 4 bytes, so that the pointers to the subdivisions of a tile
    fit the block requested for them, a sub-grid whose size is a value of
    [int], and sizes in bytes that are values of [size_t]. *)
Definition tile_sizes_ok (size_max : Z) (t : par_tile) : Prop :=
  sizeof_vec2 * t_npoints t <= size_max /\
  sizeof_vec2 * t_nsubpts t <= size_max.

Definition loader_fits (ptr_size size_max : Z) (nsubtiles nsubdivs : Z)
    (ts : list par_tile) : Prop :=
  0 <= ptr_size <= 4 /\
  nsubtiles * nsubtiles <= INT_MAX /\
  4 * (nsubtiles * nsubtiles) <= size_max /\
  4 * nsubdivs <= size_max /\
  sizeof_tile ptr_size * Z.of_nat (length ts) <= size_max /\
  Forall (tile_sizes_ok size_max) ts.

(** The largest value of [size_t] on a host with 32-bit sizes. *)
Definition SIZE_MAX_32 : Z := 4294967295.

(** The context [par_bluenoise_create] builds from a tileset. *)
Definition fresh_context (garbage : par_bluenoise_context)
    (junk : nat -> par_vec3) (maxpts : Z) (nsubtiles nsubdivs : Z)
    (ts : list par_tile) : par_bluenoise_context :=
  {| points := junk <$> seq 0 (Z.to_nat maxpts);
     tiles := ts;
     global_density := global_density garbage;
     left := left garbage; bottom := bottom garbage;
     right := right garbage; top := top garbage;
     ntiles := Z.of_nat (length ts);
     nsubtiles := nsubtiles; nsubdivs := nsubdivs;
     npoints := npoints garbage;
     maxpoints := maxpts;
     density_width := density_width garbage;
     density_height := density_height garbage;
     density := None;
     mag := mag garbage |}.

(** The reads of the loader alone, without the blocks the values are
    stored to. *)
Definition read_array {A} (read : Z -> outcome (A * Z)) (count : Z) (ptr : Z)
    : outcome (list A * Z) :=
  for_upto count (fun j st =>
    '(v, ptr') ← read (snd st); Ret (fst st ++ [v], ptr')) ([], ptr).

Definition read_tile_flat (buf : list Z) (nsubtiles nsubdivs : Z) (ptr : Z)
    : outcome (par_tile * Z) :=
  '(n, ptr) ← freadi buf ptr;
  '(e, ptr) ← freadi buf ptr;
  '(s, ptr) ← freadi buf ptr;
  '(w, ptr) ← freadi buf ptr;
  '(subdivs, ptr) ←
    read_array (read_array (freadi buf) (nsubtiles * nsubtiles)) nsubdivs ptr;
  '(npoints, ptr) ← freadi buf ptr;
  '(points, ptr) ← read_array (read_vec2 buf) npoints ptr;
  '(nsubpts, ptr) ← freadi buf ptr;
  '(subpts, ptr) ← read_array (read_vec2 buf) nsubpts ptr;
  Ret ({| t_n := n; t_e := e; t_s := s; t_w := w;
          t_npoints := npoints; t_nsubpts := nsubpts;
          t_subdivs := subdivs; t_points := points; t_subpts := subpts |},
       ptr).

Definition read_tileset_flat (buf : list Z)
    : outcome (Z * Z * Z * list par_tile * Z) :=
  '(ntiles, ptr) ← freadi buf 0;
  '(nsubtiles, ptr) ← freadi buf ptr;
  '(nsubdivs, ptr) ← freadi buf ptr;
  '(tiles, ptr) ←
    read_array (read_tile_flat buf nsubtiles nsubdivs) ntiles ptr;
  Ret (ntiles, nsubtiles, nsubdivs, tiles, ptr).

(** A computation with the stores against the reads alone: when it
    returns, the reads return the same; otherwise it is undefined. *)
Definition stores_checked {A} (o o' : outcome A) : Prop :=
  match o with
  | Ret v => o' = Ret v
  | Undefined => True
  | _ => False
  end.

(** At [ptr] the block [buf] goes on with the bytes [l]. *)
Definition at_ptr (buf : list Z) (ptr : Z) (l : list Z) : Prop :=
  exists pre, buf = pre ++ l /\ ptr = Z.of_nat (length pre).

(** A reader [read] decodes the items [enc d] at [ptr] for the data [d] that
    satisfy [ok]. *)
Definition reads {A D} (buf : list Z) (read : Z -> outcome (A * Z))
    (enc : D -> list Z) (dec : D -> A) (ok : D -> Prop) : Prop :=
  forall d ptr l, ok d -> at_ptr buf ptr (enc d ++ l) ->
    exists ptr', read ptr = Ret (dec d, ptr') /\ at_ptr buf ptr' l.

(** *** The extents of what is read *)

(** The arrays of a tile have the extents its counts and the header
    give. *)
Definition tile_shape (nsubtiles nsubdivs : Z) (t : par_tile) : Prop :=
  length (t_subdivs t) = Z.to_nat nsubdivs /\
  Forall (fun sd => length sd = Z.to_nat (nsubtiles * nsubtiles))
         (t_subdivs t) /\
  length (t_points t) = Z.to_nat (t_npoints t) /\
  length (t_subpts t) = Z.to_nat (t_nsubpts t).

(** *** A buffer cut short *)

(** A read from the shorter block [p] against the same read from [p ++ q]:
    what returns has stayed inside [p] and returns the same from the longer
    block; anything else is a read past the end of [p]. *)
Definition pref_out {A} (lo len : Z) (o o' : outcome (A * Z)) : Prop :=
  match o with
  | Ret (v, ptr') => o' = Ret (v, ptr') /\ lo <= ptr' <= len
  | Undefined => True
  | _ => False
  end.

Definition pref_reader {A} (len : Z) (r r' : Z -> outcome (A * Z)) : Prop :=
  forall ptr, 0 <= ptr <= len -> pref_out ptr len (r ptr) (r' ptr).

(** ** A viewport without height *)

(** The request in [c] has the line [y = py] between [x = L] and [x = R] as
    its viewport and an infinite magnification: what [begin_request] sets
    for [bottom == top]. *)
Definition flat_at (c : par_bluenoise_context) (px py : Q) : Prop :=
  1 <= nsubtiles c /\ mag c = PInf /\
  exists L R B T,
    left c = Fin L /\ right c = Fin R /\ bottom c = Fin B /\ top c = Fin T /\
    (L <= px <= R)%Q /\ (B == py)%Q /\ (T == py)%Q.

(** The footprint of [node] holds the point [(px, py)]. *)
Definition covers (c : par_bluenoise_context) (node : par_node)
    (px py : Q) : Prop :=
  exists x y ts,
    n_x node = Fin x /\ n_y node = Fin y /\
    tile_size c (n_level node) = Fin ts /\
    (x <= px <= x + ts)%Q /\ (y <= py <= y + ts)%Q.

(** ** What [generate] reads of its context *)

(** The context without the fields that a request never consults: the
    counts [ntiles], [nsubdivs] and [maxpoints], and the extent of a density
    field that is not set. *)
Definition forget (c : par_bluenoise_context) : par_bluenoise_context :=
  {| points := points c; tiles := tiles c;
     global_density := global_density c;
     left := left c; bottom := bottom c; right := right c; top := top c;
     ntiles := 0; nsubtiles := nsubtiles c; nsubdivs := 0;
     npoints := npoints c; maxpoints := 0;
     density_width :=
       match density c with None => 0 | Some _ => density_width c end;
     density_height :=
       match density c with None => 0 | Some _ => density_height c end;
     density := density c; mag := mag c |}.

(** The result of a run, changed by [f] when there is one. *)
Definition map_out {A B} (f : A -> B) (o : outcome A) : outcome B :=
  match o with
  | Ret a => Ret (f a)
  | Undefined => Undefined
  | Aborted => Aborted
  | OutOfFuel => OutOfFuel
  end.

(** Two contexts that hold the same tileset, the same density field and
    point buffers of the same length. *)
Definition same_inputs (c1 c2 : par_bluenoise_context) : Prop :=
  tiles c1 = tiles c2 /\ nsubtiles c1 = nsubtiles c2 /\
  length (points c1) = length (points c2) /\
  density c1 = density c2 /\
  (density c1 <> None ->
   density_width c1 = density_width c2 /\
   density_height c1 = density_height c2).

(** Two runs end the same way, and with the same points when they return. *)
Definition same_output (o1 o2 : outcome par_bluenoise_context) : Prop :=
  match o1, o2 with
  | Ret a, Ret b => npoints a = npoints b /\ emitted a = emitted b
  | Undefined, Undefined | Aborted, Aborted | OutOfFuel, OutOfFuel => True
  | _, _ => False
  end.

(** ** A tileset that [generate] can walk *)

(** The bit pattern of a finite [float]: the exponent is not all ones. *)
Definition finite_word (w : Z) : Prop := (w / 8388608) mod 256 <> 255.

Definition vec2_data_finite (p : Z * Z) : Prop :=
  finite_word p.1 /\ finite_word p.2.

(** A tile of the file has a point, no more points and sub-points
    together than a [float] counts exactly, a first subdivision whose
    entries are indices of tiles, and finite coordinates. *)
Definition tile_data_sound (ntiles : Z) (t : tile_data) : Prop :=
  1 <= Z.of_nat (length (d_points t)) + Z.of_nat (length (d_subpts t))
    <= FLT_EXACT /\
  (exists sub, d_subdivs t !! 0%nat = Some sub /\
               Forall (fun i => 0 <= i < ntiles) sub) /\
  Forall vec2_data_finite (d_points t) /\
  Forall vec2_data_finite (d_subpts t).

(** A description that fits the format, of at least one tile and two
    sub-tiles per side, with a sub-grid whose size is a value of [int],
    whose tiles are all sound. *)
Definition tileset_sound (nsubtiles nsubdivs : Z) (ts : list tile_data)
    : Prop :=
  tileset_ok nsubtiles nsubdivs ts /\
  2 <= nsubtiles /\ nsubtiles * nsubtiles <= INT_MAX /\ ts <> [] /\
  Forall (tile_data_sound (Z.of_nat (length ts))) ts.

(** A small tileset: one tile with the point (1/2, 1/4), the sub-point
    (3/4, 1/2) and itself in every cell of its subdivision. *)
Definition sample_tile_data : tile_data :=
  {| d_n := 0; d_e := 1; d_s := 0; d_w := 1;
     d_subdivs := [[0; 0; 0; 0]];
     d_points := [(0x3F000000, 0x3E800000)];
     d_subpts := [(0x3F400000, 0x3F000000)] |}.

(** The bytes of that tileset. *)
Definition sample_tileset : list Z := encode_tileset 2 1 [sample_tile_data].

(** * Properties *)

(** ** The outcome monad *)

Lemma bind_Ret {A B} (m : outcome A) (k : A -> outcome B) (b : B) :
  (a ← m; k a) = Ret b <-> exists a, m = Ret a /\ k a = Ret b.
Proof.
  destruct m; simpl; split; intros H; try discriminate; eauto.
  - destruct H as (a' & [= ->] & H). exact H.
  - destruct H as (? & ? & _). discriminate.
  - destruct H as (? & ? & _). discriminate.
  - destruct H as (? & ? & _). discriminate.
Qed.

Lemma bind_Ret_l {A B} (a : A) (k : A -> outcome B) :
  (x ← Ret a; k x) = k a.
Proof. reflexivity. Qed.

Lemma array_get_Ret {A} (a : list A) (i : Z) (v : A) :
  array_get a i = Ret v <-> 0 <= i /\ a !! Z.to_nat i = Some v.
Proof.
  unfold array_get. destruct (Z.ltb_spec i 0).
  - split; [discriminate | lia].
  - destruct (a !! Z.to_nat i); simpl; split; intros H'; try discriminate.
    + injection H' as ->. auto.
    + destruct H' as [_ [= ->]]. reflexivity.
    + destruct H' as [_ [=]].
Qed.

Lemma array_get_in_range {A} (a : list A) (i : Z) :
  0 <= i < Z.of_nat (length a) -> exists v, array_get a i = Ret v.
Proof.
  intros Hi. destruct (lookup_lt_is_Some_2 a (Z.to_nat i)) as [v Hv]; [lia|].
  exists v. apply array_get_Ret. split; [lia | exact Hv].
Qed.

(** Inversion of hypotheses built from [bind], [array_get] and tests. *)
Ltac inv_ret :=
  repeat match goal with
  | H : Ret _ = Ret _ |- _ => injection H as H; try subst
  | H : Undefined = Ret _ |- _ => discriminate H
  | H : Aborted = Ret _ |- _ => discriminate H
  | H : OutOfFuel = Ret _ |- _ => discriminate H
  | H : mbind _ _ = Ret _ |- _ =>
      apply bind_Ret in H; destruct H as (? & ? & H)
  | H : array_get _ _ = Ret _ |- _ =>
      apply array_get_Ret in H; destruct H as [? H]
  end.

(** A loop invariant carried through [for_loop]. *)
Lemma for_loop_ind {St} (I : Z -> St -> Prop)
    (body : Z -> St -> outcome St) :
  (forall i s s', I i s -> body i s = Ret s' -> I (i + 1) s') ->
  forall n i s s',
    I i s -> for_loop n i body s = Ret s' -> I (i + Z.of_nat n) s'.
Proof.
  intros Hstep n. induction n as [|n IH]; intros i s s' HI Hrun; simpl in Hrun.
  - inv_ret. replace (i + Z.of_nat 0) with i by lia. exact HI.
  - inv_ret. replace (i + Z.of_nat (S n)) with (i + 1 + Z.of_nat n) by lia.
    eapply IH; [|eassumption]. eapply Hstep; eassumption.
Qed.

(** ** Arithmetic of the model floats *)

Lemma Qltb_lt (a b : Q) : Qltb a b = true <-> (a < b)%Q.
Proof.
  unfold Qltb. rewrite negb_true_iff.
  destruct (Qle_bool b a) eqn:E.
  - apply Qle_bool_iff in E. split; [discriminate | intros; lra].
  - split; [intros _ | reflexivity].
    apply Qnot_le_lt. intros H. apply Qle_bool_iff in H. congruence.
Qed.

Lemma Qltb_ge (a b : Q) : Qltb a b = false <-> (b <= a)%Q.
Proof.
  unfold Qltb. rewrite negb_false_iff. apply Qle_bool_iff.
Qed.

Lemma Qle_bool_gt (a b : Q) : Qle_bool a b = false <-> (b < a)%Q.
Proof.
  rewrite <- Qltb_lt. unfold Qltb. rewrite negb_true_iff. reflexivity.
Qed.

Lemma Qeq_bool_false (a b : Q) : Qeq_bool a b = false <-> ~ (a == b)%Q.
Proof.
  split.
  - apply Qeq_bool_neq.
  - intros H. destruct (Qeq_bool a b) eqn:E; [|reflexivity].
    apply Qeq_bool_iff in E. contradiction.
Qed.

(** What a conversion to [int] that is defined gives, and when it is
    defined. *)
Lemma to_int_Ret a N :
  to_int a = Ret N <->
  exists q, a = Fin q /\ N = Qtrunc q /\ INT_MIN <= N <= INT_MAX.
Proof.
  unfold to_int, is_int. split.
  - destruct a as [q| | |]; try discriminate.
    destruct (Z.leb_spec INT_MIN (Qtrunc q)); cbn [andb]; [|discriminate].
    destruct (Z.leb_spec (Qtrunc q) INT_MAX); [|discriminate].
    intros [= <-]. exists q. repeat split; assumption.
  - intros (q & -> & -> & H1 & H2).
    destruct (Z.leb_spec INT_MIN (Qtrunc q)); [|lia]. cbn [andb].
    destruct (Z.leb_spec (Qtrunc q) INT_MAX); [reflexivity | lia].
Qed.

Lemma to_int_Fin q :
  INT_MIN <= Qtrunc q <= INT_MAX -> to_int (Fin q) = Ret (Qtrunc q).
Proof. intros H. apply to_int_Ret. exists q. repeat split; apply H. Qed.

(** Replaces every boolean comparison of rationals by the two cases of the
    order relation it decides. *)
Ltac qcases :=
  repeat match goal with
  | H : context [Qltb ?a ?b] |- _ =>
      let E := fresh "E" in
      destruct (Qltb a b) eqn:E;
      [apply Qltb_lt in E | apply Qltb_ge in E]
  | |- context [Qltb ?a ?b] =>
      let E := fresh "E" in
      destruct (Qltb a b) eqn:E;
      [apply Qltb_lt in E | apply Qltb_ge in E]
  | H : context [Qle_bool ?a ?b] |- _ =>
      let E := fresh "E" in
      destruct (Qle_bool a b) eqn:E;
      [apply Qle_bool_iff in E | apply Qle_bool_gt in E]
  | |- context [Qle_bool ?a ?b] =>
      let E := fresh "E" in
      destruct (Qle_bool a b) eqn:E;
      [apply Qle_bool_iff in E | apply Qle_bool_gt in E]
  | H : context [Qeq_bool ?a ?b] |- _ =>
      let E := fresh "E" in
      destruct (Qeq_bool a b) eqn:E;
      [apply Qeq_bool_iff in E | apply Qeq_bool_false in E]
  | |- context [Qeq_bool ?a ?b] =>
      let E := fresh "E" in
      destruct (Qeq_bool a b) eqn:E;
      [apply Qeq_bool_iff in E | apply Qeq_bool_false in E]
  end.

#[global] Instance feq_equiv : Equivalence feq.
Proof.
  split.
  - intros []; simpl; try reflexivity; auto.
  - intros [] []; simpl; auto. intros H. symmetry. exact H.
  - intros [] [] []; simpl; auto; try contradiction.
    intros H1 H2. etransitivity; eassumption.
Qed.

#[global] Instance vec3_eq_equiv : Equivalence vec3_eq.
Proof.
  split.
  - intros v. repeat split; reflexivity.
  - intros u v (H1 & H2 & H3). repeat split; symmetry; assumption.
  - intros u v w (H1 & H2 & H3) (H4 & H5 & H6).
    repeat split; etransitivity; eassumption.
Qed.

Lemma fltb_negb_fleb (a b : float) :
  is_nan a = false -> is_nan b = false -> fltb a b = negb (fleb b a).
Proof.
  destruct a, b; simpl; try discriminate; reflexivity.
Qed.

Lemma fleb_feq (a a' b b' : float) :
  feq a a' -> feq b b' -> fleb a b = fleb a' b'.
Proof.
  destruct a, a', b, b'; cbn [feq fleb]; try contradiction; try reflexivity.
  intros H1 H2. qcases; try reflexivity; lra.
Qed.

Lemma fltb_feq (a a' b b' : float) :
  feq a a' -> feq b b' -> fltb a b = fltb a' b'.
Proof.
  destruct a, a', b, b'; cbn [feq fltb]; try contradiction; try reflexivity.
  intros H1 H2. qcases; try reflexivity; lra.
Qed.

Lemma inf_signed_feq (p q : Q) : (p == q)%Q -> inf_signed p = inf_signed q.
Proof.
  intros H. unfold inf_signed. qcases; try reflexivity; lra.
Qed.

Lemma fmul_feq (a a' b b' : float) :
  feq a a' -> feq b b' -> feq (fmul a b) (fmul a' b').
Proof.
  destruct a, a', b, b'; cbn [feq fmul]; try contradiction; try reflexivity;
    intros H1 H2.
  - rewrite H1, H2. reflexivity.
  - rewrite (inf_signed_feq _ _ H1). reflexivity.
  - assert (H : (- q == - q0)%Q) by (rewrite H1; reflexivity).
    rewrite (inf_signed_feq _ _ H). reflexivity.
  - rewrite (inf_signed_feq _ _ H2). reflexivity.
  - assert (H : (- q == - q0)%Q) by (rewrite H2; reflexivity).
    rewrite (inf_signed_feq _ _ H). reflexivity.
Qed.

Lemma fadd_feq (a a' b b' : float) :
  feq a a' -> feq b b' -> feq (fadd a b) (fadd a' b').
Proof.
  destruct a, a', b, b'; cbn [feq fadd]; try contradiction; try reflexivity.
  intros H1 H2. rewrite H1, H2. reflexivity.
Qed.

(** ** The output buffer *)

Lemma same_store_refl c : same_store c c.
Proof. exists (points c), (npoints c). destruct c; auto. Qed.

Lemma same_store_trans c1 c2 c3 :
  same_store c1 c2 -> same_store c2 c3 -> same_store c1 c3.
Proof.
  intros (p & n & -> & Hp) (p' & n' & -> & Hp').
  exists p', n'. split; [reflexivity|]. simpl in Hp'. congruence.
Qed.

Lemma emit_Ret c v c' :
  emit c v = Ret c' ->
  same_store c c' /\ npoints c' = npoints c + 1 /\
  emitted c' = emitted c ++ [v].
Proof.
  unfold emit. destruct (Z.leb_spec 0 (npoints c)); simpl; [|discriminate].
  destruct (Z.ltb_spec (npoints c) (Z.of_nat (length (points c))));
    [|discriminate].
  intros [= <-]. split; [|split].
  - eexists _, _. split; [reflexivity|]. apply length_insert.
  - reflexivity.
  - unfold emitted. simpl.
    replace (Z.to_nat (npoints c + 1)) with (S (Z.to_nat (npoints c))) by lia.
    rewrite (take_S_r _ _ v).
    + rewrite take_insert_ge by lia. reflexivity.
    + apply list_lookup_insert_eq. lia.
Qed.

Lemma emit_succeeds c v :
  0 <= npoints c < Z.of_nat (length (points c)) ->
  exists c', emit c v = Ret c'.
Proof.
  intros [H1 H2]. unfold emit.
  destruct (Z.leb_spec 0 (npoints c)); [|lia].
  destruct (Z.ltb_spec (npoints c) (Z.of_nat (length (points c)))); [|lia].
  simpl. eauto.
Qed.

(** A loop whose body looks at one candidate and then either emits a point
    or leaves the context alone. *)
Section candidate_loop.
Variable cand : par_bluenoise_context -> Z -> outcome (option par_vec3).
Variable body : Z -> par_bluenoise_context -> outcome par_bluenoise_context.

Hypothesis body_cand : forall i c,
  body i c = (o ← cand c i;
              match o with None => Ret c | Some v => emit c v end).
Hypothesis cand_store : forall c p n i,
  cand (set_points c p n) i = cand c i.

Lemma candidate_loop n : forall i c c',
  for_loop n i body c = Ret c' ->
  same_store c c' /\
  exists os,
    Forall2 (fun j o => cand c j = Ret o) (seqZ i (Z.of_nat n)) os /\
    emitted c' = emitted c ++ omap id os /\
    npoints c' = npoints c + Z.of_nat (length (omap id os)).
Proof.
  induction n as [|n IH]; intros i c c' Hrun.
  - simpl in Hrun. inv_ret. split; [apply same_store_refl|].
    exists []. simpl. rewrite app_nil_r. repeat split; [constructor | lia].
  - cbn [for_loop] in Hrun. inv_ret. rename x into c1.
    rewrite body_cand in H. inv_ret. rename x into o.
    apply IH in Hrun as (Hst & os & Hos & Hem & Hnp).
    assert (Hc1 : same_store c c1 /\
                  emitted c1 = emitted c ++ omap id [o] /\
                  npoints c1 = npoints c + Z.of_nat (length (omap id [o]))).
    { destruct o as [v|]; simpl.
      - apply emit_Ret in H as (? & ? & ?). repeat split; auto.
      - inv_ret. rewrite app_nil_r.
        repeat split; [apply same_store_refl | lia]. }
    destruct Hc1 as (Hst1 & Hem1 & Hnp1).
    split; [eapply same_store_trans; eassumption|].
    exists (o :: os). split; [|split].
    + rewrite seqZ_cons by lia. constructor; [assumption|].
      replace (Z.succ i) with (i + 1) by lia.
      replace (Z.pred (Z.of_nat (S n))) with (Z.of_nat n) by lia.
      destruct Hst1 as (p & np & -> & _).
      eapply Forall2_impl; [exact Hos|]. simpl. intros j o' Hj.
      rewrite cand_store in Hj. exact Hj.
    + rewrite Hem, Hem1. change (o :: os) with ([o] ++ os).
      rewrite omap_app, app_assoc. reflexivity.
    + rewrite Hnp, Hnp1. change (o :: os) with ([o] ++ os).
      rewrite omap_app, length_app. lia.
Qed.
End candidate_loop.

Lemma root_body_candidate tile0 factor i c :
  root_body tile0 factor i c =
  (o ← root_candidate tile0 factor c i;
   match o with None => Ret c | Some v => emit c v end).
Proof.
  unfold root_body, root_candidate.
  destruct (array_get (t_points tile0) i) as [p| | |]; simpl; try reflexivity.
  destruct (outside c _ _ _ _); simpl; try reflexivity.
  destruct (sample_density c _ _) as [s| | |]; simpl; try reflexivity.
  destruct (fltb s _); reflexivity.
Qed.

Lemma tile_body_candidate tile x y tileSize factor level i c :
  tile_body tile x y tileSize factor level i c =
  (o ← tile_candidate tile x y tileSize factor level c i;
   match o with None => Ret c | Some v => emit c v end).
Proof.
  unfold tile_body, tile_candidate.
  destruct (array_get (t_subpts tile) i) as [p| | |]; simpl; try reflexivity.
  destruct (outside c _ _ _ _); simpl; try reflexivity.
  destruct (sample_density c _ _) as [s| | |]; simpl; try reflexivity.
  destruct (fltb s _); reflexivity.
Qed.

Lemma root_candidate_store tile0 factor c p n i :
  root_candidate tile0 factor (set_points c p n) i =
  root_candidate tile0 factor c i.
Proof. reflexivity. Qed.

Lemma tile_candidate_store tile x y tileSize factor level c p n i :
  tile_candidate tile x y tileSize factor level (set_points c p n) i =
  tile_candidate tile x y tileSize factor level c i.
Proof. reflexivity. Qed.

(** ** One visit of [apply_tile], taken apart *)

Lemma spawn_children_store c p n tile x y scale level :
  spawn_children (set_points c p n) tile x y scale level =
  spawn_children c tile x y scale level.
Proof. reflexivity. Qed.

Lemma apply_tile_shape fuel c node c' :
  apply_tile (S fuel) c node = Ret c' -> visit_shape fuel c node c'.
Proof.
  cbn [apply_tile]. intros H.
  destruct (outside c (n_x node) _ (n_y node) _) eqn:Hout.
  - inv_ret. apply visit_skip; [exact Hout | reflexivity].
  - inv_ret. rename x into tile, x0 into ntests, x1 into c1.
    unfold for_upto in H2.
    eapply (candidate_loop
              (tile_candidate tile (n_x node) (n_y node)
                 (tile_size c (n_level node))
                 (node_factor c (n_level node)) (n_level node))) in H2;
      [|intros; apply tile_body_candidate
       |intros; apply tile_candidate_store].
    destruct H2 as (Hst & os & Hos & Hem & Hnp).
    replace (Z.of_nat (Z.to_nat ntests)) with (Z.max 0 ntests) in Hos by lia.
    eapply (visit_tile _ _ _ _ tile ntests os c1); try eassumption.
    fold (node_threshold c tile (n_level node)) in H.
    destruct (fleb _ _).
    + inv_ret. reflexivity.
    + inv_ret. exists x. split; [|exact H].
      destruct Hst as (p & n & -> & _). exact H2.
Qed.

(** An invariant of the context kept by every call is kept by the visit of
    a list of children. *)
Lemma visit_ind (R : par_bluenoise_context -> Prop) (Q : par_node -> Prop)
    (f : par_bluenoise_context -> par_node -> outcome par_bluenoise_context)
    (kids : list par_node) :
  Forall Q kids ->
  (forall k c c', Q k -> R c -> f c k = Ret c' -> R c') ->
  forall c c', R c -> visit f kids c = Ret c' -> R c'.
Proof.
  intros HQ Hf.
  induction HQ as [|k ks Hk _ IH]; intros c c' HR Hrun; simpl in Hrun.
  - inv_ret. exact HR.
  - inv_ret. eapply IH; [|exact Hrun]. eapply Hf; eassumption.
Qed.

Lemma extends_by_refl P c : extends_by P c c.
Proof.
  split; [apply same_store_refl|]. exists [].
  rewrite app_nil_r. simpl. repeat split; [lia | constructor].
Qed.

Lemma extends_by_trans P c1 c2 c3 :
  extends_by P c1 c2 -> extends_by P c2 c3 -> extends_by P c1 c3.
Proof.
  intros (Hs1 & l1 & He1 & Hn1 & Hp1) (Hs2 & l2 & He2 & Hn2 & Hp2).
  split; [eapply same_store_trans; eassumption|].
  exists (l1 ++ l2). rewrite He2, He1, app_assoc, length_app.
  repeat split; [lia | apply Forall_app; auto].
Qed.

Lemma extends_by_weaken (P P' : par_vec3 -> Prop) c c' :
  (forall v, P v -> P' v) -> extends_by P c c' -> extends_by P' c c'.
Proof.
  intros HP (Hs & l & He & Hn & Hl). split; [exact Hs|].
  exists l. repeat split; auto. eapply Forall_impl; eauto.
Qed.

Lemma omap_id_Forall {A} (P : A -> Prop) (Q : Z -> option A -> Prop)
    (js : list Z) (os : list (option A)) :
  Forall2 Q js os ->
  (forall j v, j ∈ js -> Q j (Some v) -> P v) ->
  Forall P (omap id os).
Proof.
  intros H. induction H as [|j o js os Hjo _ IH]; intros HP; simpl.
  - constructor.
  - assert (Forall P (omap id os)) as Htl.
    { apply IH. intros j' v Hj'. apply HP. right. exact Hj'. }
    destruct o as [v|]; simpl; [|exact Htl].
    constructor; [|exact Htl]. apply (HP j). left. exact Hjo.
Qed.

(** Every point a whole subtree emits satisfies [P], once the points of
    each single node do and the node invariant [Inv] passes to children. *)
Section subtree.
Variable P : par_vec3 -> Prop.
Variable Inv : par_bluenoise_context -> par_node -> Prop.

Hypothesis Inv_store : forall c p n node,
  Inv c node -> Inv (set_points c p n) node.
Hypothesis own : forall c node tile ntests i v,
  Inv c node ->
  node_skipped c node = false ->
  0 <= n_tile node ->
  tiles c !! Z.to_nat (n_tile node) = Some tile ->
  to_int (mini (t_nsubpts tile) (node_threshold c tile (n_level node)))
    = Ret ntests ->
  0 <= i < ntests ->
  node_candidate c tile node i = Ret (Some v) ->
  P v.
Hypothesis kids_inv : forall c node tile ntests kids,
  Inv c node ->
  node_skipped c node = false ->
  tiles c !! Z.to_nat (n_tile node) = Some tile ->
  to_int (mini (t_nsubpts tile) (node_threshold c tile (n_level node)))
    = Ret ntests ->
  fleb (node_threshold c tile (n_level node)) (of_int (t_nsubpts tile))
    = false ->
  node_children c tile node = Ret kids ->
  Forall (Inv c) kids.

Lemma apply_tile_extends fuel : forall c node c',
  Inv c node -> apply_tile fuel c node = Ret c' -> extends_by P c c'.
Proof.
  induction fuel as [|fuel IH]; intros c node c' HI Hrun;
    [discriminate|].
  apply apply_tile_shape in Hrun.
  destruct Hrun as [Hskip ->
                   |tile ntests os c1 Hskip Hpos Htile Hn Hos Hst Hem Hnp Hk].
  - apply extends_by_refl.
  - assert (Hown : extends_by P c c1).
    { split; [exact Hst|]. exists (omap id os).
      repeat split; [exact Hem | exact Hnp |].
      eapply omap_id_Forall; [exact Hos|].
      intros j v Hj Hc. apply elem_of_seqZ in Hj.
      eapply (own c node tile ntests j v); eauto. lia. }
    destruct (fleb _ _) eqn:Hthr.
    + subst c'. exact Hown.
    + destruct Hk as (kids & Hkids & Hvisit).
      eapply (visit_ind (extends_by P c) (Inv c)); [| |exact Hown|exact Hvisit].
      * eapply kids_inv; eassumption.
      * intros k c2 c3 Hk2 Hc2 Hrun.
        eapply extends_by_trans; [exact Hc2|].
        eapply IH; [|exact Hrun].
        destruct Hc2 as ((p & n & -> & _) & _). apply Inv_store, Hk2.
Qed.
End subtree.

(** ** Loops that build a list *)

Lemma for_loop_append {A} (G : Z -> list A -> Prop)
    (body : Z -> list A -> outcome (list A)) :
  (forall j acc acc', body j acc = Ret acc' ->
                      exists vs, G j vs /\ acc' = acc ++ vs) ->
  forall n i acc acc',
    for_loop n i body acc = Ret acc' ->
    exists vss, Forall2 G (seqZ i (Z.of_nat n)) vss /\
                acc' = acc ++ concat vss.
Proof.
  intros Hbody n. induction n as [|n IH]; intros i acc acc' Hrun.
  - simpl in Hrun. inv_ret. exists []. simpl. rewrite app_nil_r.
    split; [constructor | reflexivity].
  - cbn [for_loop] in Hrun. inv_ret.
    apply Hbody in H as (vs & HG & ->).
    apply IH in Hrun as (vss & Hvss & ->).
    exists (vs :: vss). split.
    + rewrite seqZ_cons by lia.
      replace (Z.succ i) with (i + 1) by lia.
      replace (Z.pred (Z.of_nat (S n))) with (Z.of_nat n) by lia.
      constructor; assumption.
    + simpl. rewrite app_assoc. reflexivity.
Qed.

Lemma spawn_children_Ret ctx tile x y scale level kids :
  spawn_children ctx tile x y scale level = Ret kids ->
  exists rows,
    Forall2 (row_of_children ctx tile x y scale level)
            (seqZ 0 (Z.max 0 (nsubtiles ctx))) rows /\
    kids = concat rows.
Proof.
  unfold spawn_children, for_upto. intros H.
  apply (for_loop_append (row_of_children ctx tile x y scale level)) in H.
  - destruct H as (rows & Hrows & ->).
    replace (Z.of_nat (Z.to_nat (nsubtiles ctx)))
      with (Z.max 0 (nsubtiles ctx)) in Hrows by lia.
    exists rows. split; [exact Hrows | reflexivity].
  - intros ty acc acc' Hrow.
    apply (for_loop_append
             (fun tx vs => exists kid,
                child_node ctx tile x y scale level ty tx = Ret kid /\
                vs = [kid])) in Hrow.
    + destruct Hrow as (vss & Hvss & ->). exists (concat vss).
      split; [|reflexivity]. unfold row_of_children.
      replace (Z.of_nat (Z.to_nat (nsubtiles ctx)))
        with (Z.max 0 (nsubtiles ctx)) in Hvss by lia.
      clear -Hvss. induction Hvss as [|tx vs txs vss (kid & Hk & ->) _ IH].
      * constructor.
      * simpl. constructor; assumption.
    + intros tx acc0 acc0' Hb. inv_ret. eauto.
Qed.

Lemma spawn_children_Forall (Q : par_node -> Prop) ctx tile x y scale level
    kids :
  spawn_children ctx tile x y scale level = Ret kids ->
  (forall ty tx kid,
     0 <= ty < nsubtiles ctx -> 0 <= tx < nsubtiles ctx ->
     child_node ctx tile x y scale level ty tx = Ret kid -> Q kid) ->
  Forall Q kids.
Proof.
  intros H HQ. apply spawn_children_Ret in H as (rows & Hrows & ->).
  apply Forall_concat.
  apply Forall_forall. intros row Hrow.
  apply list_elem_of_lookup in Hrow as [k Hk].
  destruct (Forall2_lookup_r _ _ _ _ _ Hrows Hk) as (ty & Hty & Hr).
  apply lookup_seqZ in Hty as [-> Hty].
  apply Forall_forall. intros kid Hkid.
  apply list_elem_of_lookup in Hkid as [k' Hk'].
  destruct (Forall2_lookup_r _ _ _ _ _ Hr Hk') as (tx & Htx & Hc).
  apply lookup_seqZ in Htx as [-> Htx].
  eapply HQ; [| |exact Hc]; lia.
Qed.

(** ** Finite values and the viewport *)

Lemma is_finite_not_nan a : is_finite a = true -> is_nan a = false.
Proof. destruct a; simpl; congruence. Qed.

Lemma clamp_not_nan a : is_nan a = false -> is_nan (clamp a f0 f1) = false.
Proof.
  intros H. unfold clamp, fgtb.
  destruct (fltb a f0); [reflexivity|]. destruct (fltb f1 a); auto.
Qed.

Lemma clamp_finite a : is_nan a = false -> is_finite (clamp a f0 f1) = true.
Proof.
  intros H. unfold clamp, fgtb.
  destruct a; simpl in *; try reflexivity; try discriminate.
  destruct (Qltb q 0); [reflexivity|]. destruct (Qltb 1 q); reflexivity.
Qed.

Lemma fadd_half_not_nan a : is_nan a = false -> is_nan (fadd a half) = false.
Proof. destruct a; simpl; congruence. Qed.

Lemma fadd_finite a b :
  is_finite a = true -> is_finite b = true -> is_finite (fadd a b) = true.
Proof. destruct a, b; simpl; congruence. Qed.

Lemma fmul_finite a b :
  is_finite a = true -> is_finite b = true -> is_finite (fmul a b) = true.
Proof. destruct a, b; simpl; congruence. Qed.

Lemma fdiv_finite a z :
  is_finite a = true -> z <> 0 -> is_finite (fdiv a (of_int z)) = true.
Proof.
  destruct a; simpl; try congruence. intros _ Hz. qcases; [|reflexivity].
  exfalso. apply Hz. unfold Qeq in E. simpl in E. lia.
Qed.

Lemma tile_size_finite c level :
  nsubtiles c <> 0 \/ level = 0 -> is_finite (tile_size c level) = true.
Proof.
  intros H. unfold tile_size, powf.
  destruct (Z.eqb_spec level 0) as [|Hl]; [reflexivity|].
  destruct H as [Hn|]; [|contradiction].
  unfold of_int.
  assert (Hq : ~ (inject_Z (nsubtiles c) == 0)%Q).
  { unfold Qeq. simpl. lia. }
  destruct (Qeq_bool (inject_Z (nsubtiles c)) 0) eqn:E.
  { apply Qeq_bool_iff in E. contradiction. }
  simpl. pose proof (Qpower_not_0 _ level Hq) as Hp.
  unfold f1, fdiv. qcases; try reflexivity; contradiction.
Qed.

Lemma undo_centering a :
  is_nan a = false -> feq (fadd (fsub a half) half) a.
Proof.
  destruct a; simpl; try discriminate; auto.
  intros _. unfold Qeq. simpl. lia.
Qed.

Lemma not_outside_inside c x y :
  is_nan (left c) = false -> is_nan (right c) = false ->
  is_nan (bottom c) = false -> is_nan (top c) = false ->
  is_nan x = false -> is_nan y = false ->
  outside c x x y y = negb (inside (left c) (bottom c) (right c) (top c) x y).
Proof.
  intros Hl Hr Hb Ht Hx Hy. unfold outside, inside, fgtb.
  rewrite !fltb_negb_fleb by assumption.
  destruct (fleb (left c) x), (fleb x (right c)), (fleb (bottom c) y),
    (fleb y (top c)); reflexivity.
Qed.

Lemma inside_feq l b r t x x' y y' :
  feq x x' -> feq y y' -> inside l b r t x y = inside l b r t x' y'.
Proof.
  intros Hx Hy. unfold inside.
  rewrite (fleb_feq l l x x'), (fleb_feq x x' r r),
    (fleb_feq b b y y'), (fleb_feq y y' t t);
    try reflexivity; assumption.
Qed.

(** ** What an accepted candidate went through *)

Lemma root_candidate_Some tile0 factor c i v :
  root_candidate tile0 factor c i = Ret (Some v) ->
  exists p s,
    0 <= i /\ t_points tile0 !! Z.to_nat i = Some p /\
    outside c (vx p) (vx p) (vy p) (vy p) = false /\
    sample_density c (vx p) (vy p) = Ret s /\
    fltb s (fmul (of_int (i + 1)) factor) = false /\
    v = {| px := fsub (vx p) half; py := fsub (vy p) half;
           rank := fmul (of_int i) factor |}.
Proof.
  unfold root_candidate. intros H. inv_ret. rename x into p.
  destruct (outside c _ _ _ _) eqn:Hout; [discriminate|].
  inv_ret. rename x into s.
  destruct (fltb s _) eqn:Hs; [discriminate|].
  inv_ret. exists p, s. auto 10.
Qed.

Lemma tile_candidate_Some tile x y ts factor level c i v :
  tile_candidate tile x y ts factor level c i = Ret (Some v) ->
  exists sp s,
    let ppx := fadd x (fmul (vx sp) ts) in
    let ppy := fadd y (fmul (vy sp) ts) in
    0 <= i /\ t_subpts tile !! Z.to_nat i = Some sp /\
    outside c ppx ppx ppy ppy = false /\
    sample_density c ppx ppy = Ret s /\
    fltb s (fmul (of_int (i + t_npoints tile)) factor) = false /\
    v = {| px := fsub ppx half; py := fsub ppy half;
           rank := fadd (of_int (level + 1)) (fmul (of_int i) factor) |}.
Proof.
  unfold tile_candidate. intros H. inv_ret. rename x0 into sp.
  destruct (outside c _ _ _ _) eqn:Hout; [discriminate|].
  inv_ret. rename x0 into s.
  destruct (fltb s _) eqn:Hs; [discriminate|].
  inv_ret. exists sp, s. simpl. auto 10.
Qed.

(** ** Containment *)

Lemma accepted_in_viewport c l b r t x y :
  viewport_is c l b r t ->
  is_nan l = false -> is_nan b = false ->
  is_nan r = false -> is_nan t = false ->
  is_finite x = true -> is_finite y = true ->
  outside c x x y y = false ->
  in_viewport l b r t {| px := fsub x half; py := fsub y half; rank := f0 |}.
Proof.
  intros (<- & <- & <- & <-) Hl Hb Hr Ht Hx Hy Hout.
  apply is_finite_not_nan in Hx, Hy.
  rewrite not_outside_inside in Hout by assumption.
  apply negb_false_iff in Hout. unfold in_viewport. simpl.
  rewrite (inside_feq _ _ _ _ _ x _ y); auto using undo_centering.
Qed.

Lemma tiles_finite_subpt ts k tile i sp :
  tiles_finite ts -> ts !! k = Some tile -> t_subpts tile !! i = Some sp ->
  finite2 sp.
Proof.
  intros Hts Hk Hi.
  pose proof (Forall_lookup_1 _ _ _ _ Hts Hk) as [_ Hsub].
  exact (Forall_lookup_1 _ _ _ _ Hsub Hi).
Qed.

Lemma tiles_finite_point ts k tile i p :
  tiles_finite ts -> ts !! k = Some tile -> t_points tile !! i = Some p ->
  finite2 p.
Proof.
  intros Hts Hk Hi.
  pose proof (Forall_lookup_1 _ _ _ _ Hts Hk) as [Hpt _].
  exact (Forall_lookup_1 _ _ _ _ Hpt Hi).
Qed.

Lemma child_node_finite c tile x y ts level ty tx kid :
  is_finite x = true -> is_finite y = true -> is_finite ts = true ->
  0 < nsubtiles c ->
  child_node c tile x y (fdiv ts (of_int (nsubtiles c))) level ty tx
    = Ret kid ->
  is_finite (n_x kid) = true /\ is_finite (n_y kid) = true /\
  n_level kid = level.
Proof.
  intros Hx Hy Hts Hn H. unfold child_node in H. inv_ret.
  cbn [n_x n_y n_level].
  assert (is_finite (fdiv ts (of_int (nsubtiles c))) = true)
    by (apply fdiv_finite; [assumption | lia]).
  assert (Hm : forall z, is_finite (fmul (of_int z)
                       (fdiv ts (of_int (nsubtiles c)))) = true)
    by (intros z; apply fmul_finite; [reflexivity | assumption]).
  split; [|split]; [| |reflexivity].
  - apply fadd_finite; [assumption | exact (Hm tx)].
  - apply fadd_finite; [assumption | exact (Hm ty)].
Qed.

Lemma apply_tile_contained l b r t fuel c node c' :
  is_nan l = false -> is_nan b = false ->
  is_nan r = false -> is_nan t = false ->
  contain_inv l b r t c node ->
  apply_tile fuel c node = Ret c' ->
  extends_by (in_viewport l b r t) c c'.
Proof.
  intros Hl Hb Hr Ht.
  apply (apply_tile_extends (in_viewport l b r t) (contain_inv l b r t)).
  - intros c0 p n nd H. exact H.
  - intros c0 nd tile ntests i v (Hvp & Hts & Hx & Hy & Hn) _ _ Htile _ _ Hc.
    apply tile_candidate_Some in Hc
      as (sp & s & _ & Hsp & Hout & _ & _ & ->).
    destruct (tiles_finite_subpt _ _ _ _ _ Hts Htile Hsp) as [Hsx Hsy].
    pose proof (tile_size_finite c0 (n_level nd) Hn) as Hsz.
    eapply (accepted_in_viewport c0); eauto;
      apply fadd_finite; auto; apply fmul_finite; auto.
  - intros c0 nd tile ntests kids (Hvp & Hts & Hx & Hy & Hn) _ _ _ _ Hk.
    unfold node_children in Hk.
    eapply spawn_children_Forall; [exact Hk|].
    intros ty tx kid Hty _ Hc.
    pose proof (tile_size_finite c0 (n_level nd) Hn) as Hsz.
    apply child_node_finite in Hc as (Hkx & Hky & _); auto; [|lia].
    split; [exact Hvp|]. split; [exact Hts|].
    split; [exact Hkx|]. split; [exact Hky|]. left. lia.
Qed.

Lemma begin_request_viewport ctx d l b r t :
  viewport_is (begin_request ctx d l b r t)
    (clamp (fadd l half) f0 f1) (clamp (fadd b half) f0 f1)
    (clamp (fadd r half) f0 f1) (clamp (fadd t half) f0 f1).
Proof. repeat split. Qed.

Lemma root_pass_extends (P : par_vec3 -> Prop) c c' :
  (forall tile0 i v,
     tiles c !! 0%nat = Some tile0 ->
     root_candidate tile0
       (fdiv (fdiv f1 (mag c)) (global_density c)) c i = Ret (Some v) ->
     forall ntests,
       to_int (mini (t_npoints tile0) (fmul (mag c) (global_density c)))
         = Ret ntests ->
       0 <= i < ntests -> P v) ->
  root_pass c = Ret c' -> extends_by P c c'.
Proof.
  intros HP H. unfold root_pass, for_upto in H. inv_ret.
  rename x into tile0, x0 into ntests.
  eapply (candidate_loop (root_candidate tile0 _)) in H;
    [|intros; apply root_body_candidate
     |intros; apply root_candidate_store].
  destruct H as (Hst & os & Hos & Hem & Hnp).
  split; [exact Hst|]. exists (omap id os).
  repeat split; [exact Hem | exact Hnp |].
  eapply omap_id_Forall; [exact Hos|].
  intros j v Hj Hc. apply elem_of_seqZ in Hj.
  eapply (HP tile0 j v); eauto. lia.
Qed.

Lemma generate_contained fuel ctx d l b r t c' :
  tiles_finite (tiles ctx) ->
  is_nan l = false -> is_nan b = false ->
  is_nan r = false -> is_nan t = false ->
  par_bluenoise_generate fuel ctx d l b r t = Ret c' ->
  Forall (in_viewport (clamp (fadd l half) f0 f1) (clamp (fadd b half) f0 f1)
                      (clamp (fadd r half) f0 f1) (clamp (fadd t half) f0 f1))
         (emitted c').
Proof.
  intros Hts Hl Hb Hr Ht H. unfold par_bluenoise_generate in H. inv_ret.
  rename x into c1.
  set (c0 := begin_request ctx d l b r t) in *.
  pose proof (begin_request_viewport ctx d l b r t) as Hvp. fold c0 in Hvp.
  assert (Hnl := clamp_not_nan _ (fadd_half_not_nan _ Hl)).
  assert (Hnb := clamp_not_nan _ (fadd_half_not_nan _ Hb)).
  assert (Hnr := clamp_not_nan _ (fadd_half_not_nan _ Hr)).
  assert (Hnt := clamp_not_nan _ (fadd_half_not_nan _ Ht)).
  eapply (root_pass_extends (in_viewport _ _ _ _)) in H0.
  - assert (H1 : extends_by (in_viewport (clamp (fadd l half) f0 f1)
                    (clamp (fadd b half) f0 f1) (clamp (fadd r half) f0 f1)
                    (clamp (fadd t half) f0 f1)) c1 c').
    { apply (apply_tile_contained _ _ _ _ fuel c1 root_node); auto.
      destruct H0 as ((p & n & -> & _) & _).
      repeat split; auto. }
    destruct (extends_by_trans _ _ _ _ H0 H1) as (_ & lst & Hem & _ & Hall).
    rewrite Hem. apply Forall_app. split; [|exact Hall].
    unfold emitted, c0. simpl. constructor.
  - intros tile0 i v Htile Hc ntests _ _.
    apply root_candidate_Some in Hc as (p & s & _ & Hp & Hout & _ & _ & ->).
    destruct (tiles_finite_point _ 0%nat _ _ _ Hts Htile Hp) as [Hx Hy].
    eapply (accepted_in_viewport c0); eauto.
Qed.

(** ** The end-to-end scenario *)

(** C3.  On the tileset of the scenario (one tile, one subtile per axis, one
    subdivision variant, the four root points (0.1,0.1), (0.3,0.3),
    (0.6,0.6), (0.9,0.9), no sub-points, no density field),
    [generate(density = 4, -0.5, -0.5, 0.5, 0.5)] returns, with any fuel
    that allows the one call of [apply_tile]; it returns exactly the four
    points moved to (-0.4,-0.4), (-0.2,-0.2), (0.1,0.1), (0.4,0.4) with the
    ranks 0, 0.25, 0.5, 0.75, and [sort_by_rank] then gives them the ranks
    0, 1, 2, 3 in that order. *)
Theorem scenario_end_to_end : forall fuel,
  exists c' sorted,
    par_bluenoise_generate (S fuel) (scenario_ctx 8) (Fin 4)
      (Fin (-1 # 2)) (Fin (-1 # 2)) (Fin (1 # 2)) (Fin (1 # 2)) = Ret c' /\
    npoints c' = 4 /\
    Forall2 vec3_eq (emitted c')
      [ mk_vec3 (-4 # 10) (-4 # 10) 0;
        mk_vec3 (-2 # 10) (-2 # 10) (25 # 100);
        mk_vec3 (1 # 10) (1 # 10) (5 # 10);
        mk_vec3 (4 # 10) (4 # 10) (75 # 100) ] /\
    par_bluenoise_sort_by_rank (points c') (npoints c') = Ret sorted /\
    Forall2 vec3_eq (take 4 sorted)
      [ mk_vec3 (-4 # 10) (-4 # 10) 0;
        mk_vec3 (-2 # 10) (-2 # 10) 1;
        mk_vec3 (1 # 10) (1 # 10) 2;
        mk_vec3 (4 # 10) (4 # 10) 3 ].
Proof.
  intros fuel. eexists _, _.
  split; [vm_compute; reflexivity|].
  split; [reflexivity|].
  split; [repeat constructor|].
  split; [vm_compute; reflexivity|].
  repeat constructor.
Qed.

(** ** The loops of the density builders *)

(** Both builders run the same two loops over a step that either fails or
    appends the scalar of one pixel and moves on by [bpp]. *)
Section pixel_loops.

Variable step : list float * Z -> outcome (list float * Z).
Variable ok : Z -> bool.
Variable cell : Z -> float.
Variable bpp : Z.

Hypothesis step_eq : forall dst k,
  Z.of_nat (length dst) = k ->
  step (dst, k * bpp)
  = if ok k then Ret (dst ++ [cell k], k * bpp + bpp) else Undefined.

Lemma pixel_row n : forall i dst k,
  Z.of_nat (length dst) = k ->
  for_loop n i (fun _ st => step st) (dst, k * bpp)
  = if forallb ok (seqZ k (Z.of_nat n))
    then Ret (dst ++ map cell (seqZ k (Z.of_nat n)),
              (k + Z.of_nat n) * bpp)
    else Undefined.
Proof.
  induction n as [|n IH]; intros i dst k Hk.
  - simpl. rewrite app_nil_r. do 3 f_equal. lia.
  - cbn [for_loop]. rewrite step_eq by exact Hk.
    rewrite (seqZ_cons k (Z.of_nat (S n))) by lia.
    replace (Z.succ k) with (k + 1) by lia.
    replace (Z.pred (Z.of_nat (S n))) with (Z.of_nat n) by lia.
    cbn [forallb]. destruct (ok k); [|reflexivity].
    rewrite bind_Ret_l.
    replace (k * bpp + bpp) with ((k + 1) * bpp) by lia.
    rewrite IH by (rewrite length_app; cbn [length]; lia). cbn [andb].
    destruct (forallb ok (seqZ (k + 1) (Z.of_nat n))); [|reflexivity].
    rewrite <- app_assoc. simpl. do 3 f_equal. lia.
Qed.

Lemma pixel_rows w h : forall j dst k,
  Z.of_nat (length dst) = k ->
  for_loop h j (fun _ st => for_loop w 0 (fun _ st => step st) st)
    (dst, k * bpp)
  = if forallb ok (seqZ k (Z.of_nat h * Z.of_nat w))
    then Ret (dst ++ map cell (seqZ k (Z.of_nat h * Z.of_nat w)),
              (k + Z.of_nat h * Z.of_nat w) * bpp)
    else Undefined.
Proof.
  induction h as [|h IH]; intros j dst k Hk.
  - simpl. rewrite app_nil_r. do 3 f_equal. lia.
  - cbn [for_loop]. rewrite pixel_row by exact Hk.
    replace (Z.of_nat (S h) * Z.of_nat w)
      with (Z.of_nat w + Z.of_nat h * Z.of_nat w) by lia.
    rewrite seqZ_app by lia. rewrite forallb_app.
    destruct (forallb ok (seqZ k (Z.of_nat w))); [|reflexivity].
    rewrite bind_Ret_l, IH
      by (rewrite length_app, length_map, length_seqZ; lia).
    cbn [andb].
    destruct (forallb ok (seqZ (k + Z.of_nat w)
                            (Z.of_nat h * Z.of_nat w))); [|reflexivity].
    rewrite <- app_assoc, <- map_app. do 3 f_equal. lia.
Qed.

End pixel_loops.

(** The answer of [malloc] for the field. *)
Lemma density_alloc_cases grant size_max width height :
  density_alloc grant size_max width height
  = if is_int (width * height)
    then Ret (field_block grant size_max width height)
    else Undefined.
Proof.
  unfold density_alloc, field_block. cbv zeta.
  destruct (is_int (width * height)); [|reflexivity]. cbn [negb].
  destruct grant; reflexivity.
Qed.

(** ** The colour-key density builder *)

Lemma color_pixel_step block pixels extent bpp bkgd invert dst k :
  Z.of_nat (length dst) = k ->
  color_pixel block pixels extent (color_mask bpp) bkgd bpp invert
    (dst, k * bpp)
  = if pixel_ok block extent bpp 4 k
    then Ret (dst ++ [color_key_cell pixels bpp bkgd invert k],
              k * bpp + bpp)
    else Undefined.
Proof.
  intros <-. unfold color_pixel, pixel_ok, load_u32, store_cell.
  destruct (in_image extent (Z.of_nat (length dst) * bpp) 4),
    block as [bytes|]; try reflexivity;
    cbn [mbind outcome_bind];
    destruct (in_block bytes 4 (Z.of_nat (length dst))); reflexivity.
Qed.

(** What the colour-key builder does, case by case. *)
Lemma density_from_color_cases grant size_max ctx pixels extent width
    height bpp bkgd invert :
  par_bluenoise_density_from_color grant size_max ctx pixels extent width
    height bpp bkgd invert
  = if is_int (width * height) then
      if 4 <? bpp then Aborted
      else
        let block := field_block grant size_max width height in
        if forallb (pixel_ok block extent bpp 4)
             (seqZ 0 (cell_count width height))
        then Ret (install_density ctx width height block
                    (color_key_mask pixels width height bpp bkgd invert))
        else Undefined
    else Undefined.
Proof.
  unfold par_bluenoise_density_from_color, for_upto. cbv zeta.
  rewrite density_alloc_cases.
  destruct (is_int (width * height)); [|reflexivity].
  rewrite bind_Ret_l.
  destruct (Z.ltb_spec 4 bpp) as [Hb|Hb];
    destruct (Z.leb_spec bpp 4); try lia; [reflexivity|]. cbn [negb].
  change (@nil float, 0) with (@nil float, 0 * bpp).
  rewrite (pixel_rows _ _ _ _ (color_pixel_step _ pixels extent bpp
                                 bkgd invert)) by reflexivity.
  unfold cell_count, color_key_mask.
  replace (Z.of_nat (Z.to_nat height)) with (Z.max 0 height) by lia.
  replace (Z.of_nat (Z.to_nat width)) with (Z.max 0 width) by lia.
  destruct (forallb _ _); reflexivity.
Qed.

(** A loop over pixels fails as soon as one pixel cannot be handled. *)
Lemma forallb_fails {A} (f : A -> bool) l a :
  a ∈ l -> f a = false -> forallb f l = false.
Proof.
  intros Hin Hf. destruct (forallb f l) eqn:E; [|reflexivity].
  rewrite forallb_forall in E. rewrite <- Hf. symmetry. apply E.
  apply list_elem_of_In, Hin.
Qed.

(** C8.  The specification has the builder succeed for every
    [bpp <= 4]; the code does not on an image that holds its pixels and
    nothing more.  With [1 <= bpp < 4] and an image of exactly
    [width * height * bpp] bytes the builder reads a word of four bytes at
    every pixel, also at the last one, where the word ends [4 - bpp] bytes
    behind the image: the call has undefined behaviour, whatever the
    colours and whatever [malloc] answers. *)
Theorem density_from_color_tight_image grant size_max ctx pixels width
    height bpp background_color invert :
  0 < width -> 0 < height -> width * height <= INT_MAX ->
  1 <= bpp < 4 ->
  par_bluenoise_density_from_color grant size_max ctx pixels
    (width * height * bpp) width height bpp background_color invert
  = Undefined.
Proof.
  intros Hw Hh Hwh Hb. rewrite density_from_color_cases.
  assert (Hint : is_int (width * height) = true).
  { unfold is_int, INT_MIN, INT_MAX in *.
    apply andb_true_intro. split; apply Z.leb_le; nia. }
  rewrite Hint. destruct (Z.ltb_spec 4 bpp); [lia|]. cbv zeta.
  rewrite (forallb_fails _ _ (width * height - 1)); [reflexivity| |].
  - apply elem_of_seqZ. unfold cell_count. nia.
  - unfold pixel_ok, in_image.
    destruct (Z.leb_spec ((width * height - 1) * bpp + 4)
                (width * height * bpp)); [lia|].
    rewrite !andb_false_r. reflexivity.
Qed.

Lemma density_from_color_tight_image_witness :
  par_bluenoise_density_from_color true SIZE_MAX_64 (scenario_ctx 8)
    (rgb_pixel 7) (1 * 1 * 3) 1 1 3 0x010101 0
  = Undefined.
Proof.
  apply density_from_color_tight_image; unfold INT_MAX; lia.
Defined.

(** ** Sampling the density field *)

Lemma sample_density_no_field c x y :
  density c = None -> sample_density c x y = Ret f1.
Proof. intros H. unfold sample_density. rewrite H. reflexivity. Qed.

Lemma clamp_int_range z lo hi :
  lo <= hi -> lo <= clamp_int z lo hi <= hi.
Proof.
  intros H. unfold clamp_int.
  destruct (Z.ltb_spec z lo); [lia|].
  destruct (Z.gtb_spec z hi); lia.
Qed.

Lemma Qtrunc_inject z : Qtrunc (inject_Z z) = z.
Proof. unfold Qtrunc. simpl. apply Z.quot_1_r. Qed.

Lemma Qtrunc_mono p q : (p <= q)%Q -> Qtrunc p <= Qtrunc q.
Proof.
  destruct p as [a b], q as [c d]. unfold Qle, Qtrunc. simpl. intros H.
  rewrite <- (Z.quot_mul_cancel_r a (Z.pos b) (Z.pos d)) by lia.
  rewrite <- (Z.quot_mul_cancel_r c (Z.pos d) (Z.pos b)) by lia.
  rewrite (Z.mul_comm (Z.pos d) (Z.pos b)).
  apply Z.quot_le_mono; lia.
Qed.

Lemma Qtrunc_le q : (0 <= q)%Q -> (inject_Z (Qtrunc q) <= q)%Q.
Proof.
  destruct q as [a b]. unfold Qle, Qtrunc. simpl. intros H.
  rewrite Z.mul_1_r in *. rewrite Z.mul_comm.
  apply Z.mul_quot_le; lia.
Qed.

Lemma Qtrunc_nonpos q : (q <= 0)%Q -> Qtrunc q <= 0.
Proof.
  intros H. apply Qtrunc_mono in H. exact H.
Qed.

(** The query as the source computes it: two conversions to [int], then
    the read. *)
Lemma sample_density_Fin c x y :
  sample_density c (Fin x) (Fin y) =
  match density c with
  | None => Ret f1
  | Some dens =>
      itx ← to_int (Fin (sample_tx (density_width c) (density_height c) x));
      ity ← to_int (Fin (sample_ty (density_width c) (density_height c) y));
      array_get dens
        (clamp_int ity 0 (density_height c - 2) * density_width c
         + clamp_int itx 0 (density_width c - 2))
  end.
Proof. reflexivity. Qed.

Lemma sample_density_cell c dens x y :
  density c = Some dens ->
  is_int (Qtrunc (sample_tx (density_width c) (density_height c) x)) = true ->
  is_int (Qtrunc (sample_ty (density_width c) (density_height c) y)) = true ->
  sample_density c (Fin x) (Fin y) =
  array_get dens
    (sample_row (density_width c) (density_height c) y * density_width c
     + sample_column (density_width c) (density_height c) x).
Proof.
  intros H Hx Hy. rewrite sample_density_Fin, H. unfold to_int.
  rewrite Hx, Hy. reflexivity.
Qed.

Lemma maxi_max a b : maxi a b = Z.max a b.
Proof. unfold maxi. destruct (Z.gtb_spec a b); lia. Qed.

Lemma Qtrunc_between lo hi q :
  (inject_Z lo <= q)%Q -> (q <= inject_Z hi)%Q -> lo <= Qtrunc q <= hi.
Proof.
  intros H1 H2. rewrite <- (Qtrunc_inject lo), <- (Qtrunc_inject hi).
  split; apply Qtrunc_mono; assumption.
Qed.

(** For a query in the unit square and extents that are values of [int],
    both conversions are defined. *)
Lemma sample_tx_int w h x :
  0 <= w <= INT_MAX -> 0 <= h <= INT_MAX -> (0 <= x <= 1)%Q ->
  is_int (Qtrunc (sample_tx w h x)) = true.
Proof.
  intros Hw Hh Hx. unfold sample_tx. rewrite maxi_max.
  set (m := Z.max w h).
  assert (Hm : 0 <= m <= INT_MAX) by (unfold m; lia).
  assert (Hq : 0 <= 2 * Z.quot w 2 <= m).
  { rewrite Z.quot_div_nonneg by lia.
    pose proof (Z.mul_div_le w 2 ltac:(lia)).
    pose proof (Z.div_pos w 2 ltac:(lia) ltac:(lia)). unfold m. lia. }
  assert (HM : (0 <= inject_Z m)%Q)
    by (change 0%Q with (inject_Z 0); rewrite <- Zle_Qle; lia).
  assert (HW : (0 <= inject_Z (Z.quot w 2))%Q)
    by (change 0%Q with (inject_Z 0); rewrite <- Zle_Qle; lia).
  assert (HW2 : (2 * inject_Z (Z.quot w 2) <= inject_Z m)%Q).
  { change 2%Q with (inject_Z 2). rewrite <- inject_Z_mult, <- Zle_Qle. lia. }
  destruct (Qtrunc_between (- m) m
              ((x - (1 # 2)) * inject_Z m + inject_Z (Z.quot w 2))).
  - rewrite inject_Z_opp. nra.
  - nra.
  - unfold is_int, INT_MIN, INT_MAX in *.
    destruct (Z.leb_spec (-2147483648) (Qtrunc
      ((x - (1 # 2)) * inject_Z m + inject_Z (Z.quot w 2)))); [|lia].
    destruct (Z.leb_spec (Qtrunc
      ((x - (1 # 2)) * inject_Z m + inject_Z (Z.quot w 2))) 2147483647);
      [reflexivity | lia].
Qed.

Lemma sample_ty_int w h y :
  0 <= w <= INT_MAX -> 0 <= h <= INT_MAX -> (0 <= y <= 1)%Q ->
  is_int (Qtrunc (sample_ty w h y)) = true.
Proof.
  intros Hw Hh Hy. unfold sample_ty. rewrite maxi_max.
  set (m := Z.max w h).
  assert (Hm : 0 <= m <= INT_MAX) by (unfold m; lia).
  assert (Hq : 0 <= 2 * Z.quot h 2 <= m).
  { rewrite Z.quot_div_nonneg by lia.
    pose proof (Z.mul_div_le h 2 ltac:(lia)).
    pose proof (Z.div_pos h 2 ltac:(lia) ltac:(lia)). unfold m. lia. }
  assert (HM : (0 <= inject_Z m)%Q)
    by (change 0%Q with (inject_Z 0); rewrite <- Zle_Qle; lia).
  assert (HW : (0 <= inject_Z (Z.quot h 2))%Q)
    by (change 0%Q with (inject_Z 0); rewrite <- Zle_Qle; lia).
  assert (HW2 : (2 * inject_Z (Z.quot h 2) <= inject_Z m)%Q).
  { change 2%Q with (inject_Z 2). rewrite <- inject_Z_mult, <- Zle_Qle. lia. }
  destruct (Qtrunc_between (- m) m
              ((1 - y - (1 # 2)) * inject_Z m + inject_Z (Z.quot h 2))).
  - rewrite inject_Z_opp. nra.
  - nra.
  - unfold is_int, INT_MIN, INT_MAX in *.
    destruct (Z.leb_spec (-2147483648) (Qtrunc
      ((1 - y - (1 # 2)) * inject_Z m + inject_Z (Z.quot h 2)))); [|lia].
    destruct (Z.leb_spec (Qtrunc
      ((1 - y - (1 # 2)) * inject_Z m + inject_Z (Z.quot h 2))) 2147483647);
      [reflexivity | lia].
Qed.

(** On a field with at least two columns and two rows the cell read is a
    cell of the grid, in the columns [0 .. w-2] and the rows [0 .. h-2],
    and its stored scalar is returned as it is. *)
Lemma sample_density_in_grid c dens x y :
  density c = Some dens ->
  2 <= density_width c <= INT_MAX -> 2 <= density_height c <= INT_MAX ->
  Z.of_nat (length dens) = density_width c * density_height c ->
  (0 <= x <= 1)%Q -> (0 <= y <= 1)%Q ->
  exists ix iy v,
    0 <= ix <= density_width c - 2 /\ 0 <= iy <= density_height c - 2 /\
    dens !! Z.to_nat (iy * density_width c + ix) = Some v /\
    sample_density c (Fin x) (Fin y) = Ret v.
Proof.
  intros Hd Hw Hh Hlen Hqx Hqy.
  rewrite (sample_density_cell _ _ _ _ Hd)
    by (first [apply sample_tx_int | apply sample_ty_int];
        first [assumption | lia]).
  set (w := density_width c) in *. set (h := density_height c) in *.
  assert (Hx : 0 <= sample_column w h x <= w - 2)
    by (apply clamp_int_range; lia).
  assert (Hy : 0 <= sample_row w h y <= h - 2)
    by (apply clamp_int_range; lia).
  set (ix := sample_column w h x) in *. set (iy := sample_row w h y) in *.
  clearbody ix iy w h.
  assert (0 <= iy * w <= (h - 2) * w) by nia.
  destruct (array_get_in_range dens (iy * w + ix)) as [v Hv]; [lia|].
  exists ix, iy, v. rewrite Hv. apply array_get_Ret in Hv as [_ Hv]. auto.
Qed.

(** C9, at a field of one cell.  The upper clamp bound is [width - 2] and
    [height - 2], which is -1 here: the query (0.5, 0.5) is sent to column
    -1 of row -1, that is to the entry -2 of the array, which is no cell of
    the field. *)
Theorem sample_density_one_cell_field :
  sample_column 1 1 (1 # 2) = -1 /\
  sample_row 1 1 (1 # 2) = -1 /\
  sample_density (with_field 1 1 [Fin (1 # 2)]) (Fin (1 # 2)) (Fin (1 # 2))
    = Undefined.
Proof. repeat split. Qed.

(** C4.  Every point [generate] returns lies, once 0.5 is added back to
    its two coordinates, inside the viewport as [generate] clamps it: the
    requested bounds translated by 0.5 and clamped to [0,1].  The bounds of
    the request are numbers (not NaN) and the tileset holds finite
    coordinates. *)
Theorem generate_containment fuel ctx d l b r t c' :
  tiles_finite (tiles ctx) ->
  is_nan l = false -> is_nan b = false ->
  is_nan r = false -> is_nan t = false ->
  par_bluenoise_generate fuel ctx d l b r t = Ret c' ->
  forall v, v ∈ emitted c' ->
    inside (clamp (fadd l half) f0 f1) (clamp (fadd b half) f0 f1)
           (clamp (fadd r half) f0 f1) (clamp (fadd t half) f0 f1)
           (fadd (px v) half) (fadd (py v) half) = true.
Proof.
  intros Hts Hl Hb Hr Ht Hgen v Hv.
  pose proof (generate_contained _ _ _ _ _ _ _ _ Hts Hl Hb Hr Ht Hgen) as H.
  rewrite Forall_forall in H. exact (H v Hv).
Qed.

Lemma scenario_tiles_finite : tiles_finite [scenario_tile].
Proof. repeat constructor. Qed.

Lemma generate_containment_witness :
  exists c',
    par_bluenoise_generate 1 (scenario_ctx 8) (Fin 4)
      (Fin (-1 # 4)) (Fin (-1 # 2)) (Fin (1 # 4)) (Fin (1 # 2)) = Ret c' /\
    emitted c' <> [] /\
    forall v, v ∈ emitted c' ->
      inside (clamp (fadd (Fin (-1 # 4)) half) f0 f1)
             (clamp (fadd (Fin (-1 # 2)) half) f0 f1)
             (clamp (fadd (Fin (1 # 4)) half) f0 f1)
             (clamp (fadd (Fin (1 # 2)) half) f0 f1)
             (fadd (px v) half) (fadd (py v) half) = true.
Proof.
  eexists. split; [vm_compute; reflexivity|].
  split; [discriminate|].
  apply (generate_containment 1 (scenario_ctx 8) (Fin 4)
           (Fin (-1 # 4)) (Fin (-1 # 2)) (Fin (1 # 4)) (Fin (1 # 2)));
    [exact scenario_tiles_finite | reflexivity .. | vm_compute; reflexivity].
Defined.

(** ** Arithmetic behind the thresholds, the factors and the ranks *)


Lemma Qpower_neg2 q : ~ (q == 0)%Q -> (0 < Qpower q (-2))%Q.
Proof.
  intros H. change (Qpower q (-2)) with (/ (q * q))%Q.
  apply Qinv_lt_0_compat. nra.
Qed.

Lemma mag_positive h : is_finite h = true -> fltb f0 (powf h (-2)) = true.
Proof.
  destruct h; try discriminate. intros _. unfold powf. simpl Z.eqb. cbv iota.
  simpl Z.ltb. rewrite andb_true_r.
  destruct (Qeq_bool q 0) eqn:E; [reflexivity|].
  apply Qeq_bool_false in E. apply Qpower_neg2 in E.
  unfold fltb, f0. apply Qltb_lt. exact E.
Qed.

Ltac fsimp :=
  repeat first
    [ progress cbn [fadd fsub fmul fdiv fopp fltb fleb fgtb feq is_nan
                    is_finite to_int mini clamp] in *
    | progress unfold inf_signed, f0, f1, half, of_int in *
    | progress qcases ].

(** Names each quotient by a nonzero divisor and keeps the equation that
    defines it, so that the arithmetic solvers can use it. *)
Ltac qdiv_name x y H :=
  let z := fresh "z" in
  let Hz := fresh "Hz" in
  pose proof (Qmult_div_r x y H) as Hz;
  set (z := (x / y)%Q) in *; clearbody z.

Ltac qdiv :=
  repeat match goal with
  | H : ~ (?y == 0)%Q |- context [(?x / ?y)%Q] => qdiv_name x y H
  | H : ~ (?y == 0)%Q, H' : context [(?x / ?y)%Q] |- _ => qdiv_name x y H
  end.

Ltac flra :=
  fsimp; try reflexivity; try discriminate; try contradiction;
  try lra; try (exfalso; lra).

Ltac fdone :=
  try reflexivity; try discriminate; try contradiction; try lra;
  qdiv; try lra; try (exfalso; nra); try nra.


Lemma Qquot_zero (e z : Q) : ~ (e == 0)%Q -> (e * z == 0)%Q -> (z == 0)%Q.
Proof.
  intros He H. destruct (Qmult_integral _ _ H); [contradiction | assumption].
Qed.

Lemma Qquot_anti (e1 e2 z1 z2 k : Q) :
  (0 <= k)%Q -> (0 < e1)%Q -> (e1 <= e2)%Q ->
  (e1 * z1 == k)%Q -> (e2 * z2 == k)%Q ->
  (0 <= z2)%Q /\ (z2 <= z1)%Q.
Proof.
  intros Hk H1 H12 Hz1 Hz2.
  assert (0 <= z2)%Q by nra. assert (0 <= z1)%Q by nra. split; [assumption|].
  nra.
Qed.

Lemma Qinv_twice (q e z0 z : Q) :
  (q * z0 == 1)%Q -> (e * z == z0)%Q -> (z * (q * e) == 1)%Q.
Proof.
  intros H1 H2. transitivity (q * (e * z))%Q; [ring|]. rewrite H2. exact H1.
Qed.

Lemma Qinv_scaled (q p e z0 z1 z : Q) :
  (q * z0 == 1)%Q -> (p * z1 == q)%Q -> (e * z == z0 * p)%Q ->
  (z * (z1 * e) == 1)%Q.
Proof.
  intros H0 H1 H2. transitivity ((e * z) * z1)%Q; [ring|]. rewrite H2.
  transitivity ((p * z1) * z0)%Q; [ring|]. rewrite H1. exact H0.
Qed.

Lemma root_factor_feq m d :
  fltb f0 m = true -> feq (fdiv (fdiv f1 m) d) (fdiv f1 (fmul m d)).
Proof.
  intros Hm. destruct m as [q| | |], d as [e| | |]; fsimp; fdone.
Qed.

Lemma inject_Z_nonneg z : 0 <= z -> (0 <= inject_Z z)%Q.
Proof. intros H. unfold Qle. simpl. lia. Qed.

Lemma inject_Z_le' a b : a <= b -> (inject_Z a <= inject_Z b)%Q.
Proof. intros H. unfold Qle. simpl. lia. Qed.

Lemma node_factor_feq m p d :
  fltb f0 m = true -> (0 < p)%Q ->
  feq (fdiv (fmul (fdiv f1 m) (Fin p)) d) (fdiv (Fin p) (fmul m d)).
Proof.
  intros Hm Hp. destruct m as [q| | |], d as [e| | |]; fsimp; fdone.
Qed.

Lemma ntests_cases n b N :
  to_int (mini n b) = Ret N ->
  (fltb (of_int n) b = true /\ N = n) \/
  (exists q, b = Fin q /\ (q <= inject_Z n)%Q /\ N = Qtrunc q).
Proof.
  unfold mini. destruct (fltb (of_int n) b) eqn:E;
    intros H; apply to_int_Ret in H as (q & Hq & -> & _).
  - injection Hq as <-. left. split; [reflexivity|].
    apply Qtrunc_inject.
  - subst b. right. exists q. repeat split.
    cbn [fltb of_int] in E. apply Qltb_ge in E. exact E.
Qed.

Lemma ntests_bound n b N i :
  to_int (mini n b) = Ret N -> 0 <= i < N ->
  fleb (of_int (i + 1)) b = true.
Proof.
  intros H Hi. apply ntests_cases in H as [[Hlt ->]|(q & -> & Hq & ->)].
  - assert (Hle : (inject_Z (i + 1) <= inject_Z n)%Q)
      by (apply inject_Z_le'; lia).
    destruct b; fsimp; fdone.
  - cbn [fleb of_int]. apply Qle_bool_iff.
    destruct (Qlt_le_dec q 0) as [Hneg|Hpos].
    + pose proof (Qtrunc_nonpos q ltac:(lra)). lia.
    + pose proof (Qtrunc_le q Hpos).
      assert (Hle : (inject_Z (i + 1) <= inject_Z (Qtrunc q))%Q)
        by (apply inject_Z_le'; lia).
      lra.
Qed.

Lemma ntests_mono n b1 b2 N1 N2 :
  to_int (mini n b1) = Ret N1 -> to_int (mini n b2) = Ret N2 ->
  fleb b1 b2 = true -> N1 <= N2.
Proof.
  intros H1 H2 Hb.
  apply ntests_cases in H1 as [[Hlt1 ->]|(q1 & -> & Hq1 & ->)];
  apply ntests_cases in H2 as [[Hlt2 ->]|(q2 & -> & Hq2 & ->)].
  - lia.
  - exfalso. destruct b1; fsimp; fdone.
  - rewrite <- (Qtrunc_inject n). apply Qtrunc_mono, Hq1.
  - apply Qtrunc_mono. fsimp; fdone.
Qed.

Lemma inject_Z_succ z : (inject_Z (z + 1) == inject_Z z + 1)%Q.
Proof. rewrite inject_Z_plus. reflexivity. Qed.

Lemma inf_signed_pos q : (0 < q)%Q -> inf_signed q = PInf.
Proof. intros H. unfold inf_signed. qcases; [reflexivity | lra | lra]. Qed.

Lemma inf_signed_neg q : (q < 0)%Q -> inf_signed q = NInf.
Proof. intros H. unfold inf_signed. qcases; [lra | reflexivity | lra]. Qed.

Lemma inf_signed_zero q : (q == 0)%Q -> inf_signed q = NaN.
Proof. intros H. unfold inf_signed. qcases; [lra | lra | reflexivity]. Qed.

Lemma fdiv_fin a e : ~ (e == 0)%Q -> fdiv (Fin a) (Fin e) = Fin (a / e).
Proof.
  intros H. cbn [fdiv]. destruct (Qeq_bool e 0) eqn:E; [|reflexivity].
  apply Qeq_bool_iff in E. contradiction.
Qed.

Lemma fdiv_by_zero a e : (e == 0)%Q -> fdiv (Fin a) (Fin e) = inf_signed a.
Proof.
  intros H. cbn [fdiv]. destruct (Qeq_bool e 0) eqn:E; [reflexivity|].
  apply Qeq_bool_false in E. contradiction.
Qed.

Lemma fdiv_PInf a : fdiv (Fin a) PInf = Fin 0.
Proof. reflexivity. Qed.

Lemma fleb_Fin a b : fleb (Fin a) (Fin b) = true <-> (a <= b)%Q.
Proof. apply Qle_bool_iff. Qed.

Lemma fltb_Fin a b : fltb (Fin a) (Fin b) = true <-> (a < b)%Q.
Proof. apply Qltb_lt. Qed.


Lemma Qpos_factor (q e i : Q) :
  (0 < q)%Q -> (0 <= i)%Q -> (i + 1 <= q * e)%Q -> (0 < e)%Q.
Proof. intros. nra. Qed.

(** The sign of a float: positive numbers and +inf. *)
Lemma positive_cases m :
  fltb f0 m = true -> m = PInf \/ exists q, m = Fin q /\ (0 < q)%Q.
Proof.
  destruct m as [q| | |]; cbn [fltb f0]; try discriminate; auto.
  intros H. apply Qltb_lt in H. eauto.
Qed.

Lemma root_bound_density m d i :
  fltb f0 m = true -> 0 <= i ->
  fleb (of_int (i + 1)) (fmul m d) = true ->
  fltb f0 d = true.
Proof.
  intros Hm Hi Hb.
  pose proof (inject_Z_nonneg i Hi) as Hi'.
  pose proof (inject_Z_succ i) as Hs.
  apply positive_cases in Hm as [->|(q & -> & Hq)];
    destruct d as [e| | |]; cbn [fmul] in Hb; try reflexivity;
    try discriminate Hb.
  - apply fltb_Fin. destruct (Qlt_le_dec 0 e) as [|He]; [assumption|].
    exfalso. destruct (Qeq_dec e 0) as [Hz|Hz].
    + rewrite (inf_signed_zero _ Hz) in Hb. discriminate.
    + rewrite inf_signed_neg in Hb by lra. discriminate.
  - apply fleb_Fin in Hb. apply fltb_Fin.
    apply (Qpos_factor q e (inject_Z i)); lra.
  - rewrite inf_signed_neg in Hb by lra. discriminate.
Qed.


Lemma node_bound_density m p d np i :
  fltb f0 m = true -> (0 < p)%Q -> 0 <= i -> 0 <= np ->
  fleb (of_int (i + 1))
       (fsub (fmul (fdiv m (Fin p)) d) (of_int np)) = true ->
  fltb f0 d = true.
Proof.
  intros Hm Hp Hi Hnp Hb.
  pose proof (inject_Z_nonneg i Hi) as Hi'.
  pose proof (inject_Z_nonneg np Hnp) as Hnp'.
  pose proof (inject_Z_succ i) as Hs.
  unfold fsub, of_int in Hb. cbn [fopp] in Hb.
  apply positive_cases in Hm as [->|(q & -> & Hq)].
  - cbn [fdiv] in Hb. destruct (Qltb p 0) eqn:E; [apply Qltb_lt in E; lra|].
    destruct d as [e| | |]; cbn [fmul fadd] in Hb; try reflexivity;
      try discriminate Hb.
    apply fltb_Fin. destruct (Qlt_le_dec 0 e) as [|He]; [assumption|].
    exfalso. destruct (Qeq_dec e 0) as [Hz|Hz].
    + rewrite (inf_signed_zero _ Hz) in Hb. discriminate.
    + rewrite inf_signed_neg in Hb by lra. discriminate.
  - rewrite fdiv_fin in Hb by lra.
    assert (Hqp : (0 < q / p)%Q) by (apply Qlt_shift_div_l; lra).
    destruct d as [e| | |]; cbn [fmul fadd] in Hb; try reflexivity;
      try discriminate Hb.
    + apply fleb_Fin in Hb. apply fltb_Fin.
      apply (Qpos_factor (q / p) e (inject_Z i)); lra.
    + rewrite inf_signed_neg in Hb by lra. discriminate.
Qed.


Lemma ntests_not_nan n b N : to_int (mini n b) = Ret N -> is_nan b = false.
Proof. destruct b; fsimp; fdone. Qed.

Lemma fmul_mono m d1 d2 :
  fltb f0 m = true -> fleb d1 d2 = true ->
  is_nan (fmul m d1) = false -> is_nan (fmul m d2) = false ->
  fleb (fmul m d1) (fmul m d2) = true.
Proof.
  intros Hm Hd H1 H2.
  destruct m as [q| | |], d1 as [e1| | |], d2 as [e2| | |]; fsimp; fdone.
Qed.

Lemma threshold_mono m p d1 d2 np :
  fltb f0 m = true -> (0 < p)%Q -> fleb d1 d2 = true ->
  is_nan (fsub (fmul (fdiv m (Fin p)) d1) (of_int np)) = false ->
  is_nan (fsub (fmul (fdiv m (Fin p)) d2) (of_int np)) = false ->
  fleb (fsub (fmul (fdiv m (Fin p)) d1) (of_int np))
       (fsub (fmul (fdiv m (Fin p)) d2) (of_int np)) = true.
Proof.
  intros Hm Hp Hd H1 H2.
  destruct m as [q| | |], d1 as [e1| | |], d2 as [e2| | |]; fsimp; fdone.
Qed.

Lemma spawn_mono thr1 thr2 n :
  fleb thr1 thr2 = true -> fleb thr1 (of_int n) = false ->
  fleb thr2 (of_int n) = false.
Proof. destruct thr1, thr2; fsimp; fdone. Qed.

Lemma inv_mag_nonneg m :
  fltb f0 m = true -> exists k, fdiv f1 m = Fin k /\ (0 <= k)%Q.
Proof.
  intros Hm. apply positive_cases in Hm as [->|(q & -> & Hq)].
  - exists 0%Q. split; [reflexivity | lra].
  - exists (1 / q)%Q. unfold f1. rewrite fdiv_fin by lra. split; [reflexivity|].
    apply Qle_shift_div_l; lra.
Qed.

Lemma scaled_factor_anti a k d1 d2 s :
  (0 <= a)%Q -> (0 <= k)%Q -> fltb f0 d1 = true -> fleb d1 d2 = true ->
  fltb s (fmul (Fin a) (fdiv (Fin k) d2)) = true ->
  fltb s (fmul (Fin a) (fdiv (Fin k) d1)) = true.
Proof.
  intros Ha Hk H1 Hd Hs.
  apply positive_cases in H1 as [->|(e1 & -> & He1)].
  - destruct d2; try discriminate Hd. exact Hs.
  - rewrite fdiv_fin by lra. cbn [fmul].
    pose proof (Qmult_div_r k e1 ltac:(lra)) as Hz1.
    destruct d2 as [e2| | |]; try discriminate Hd.
    + apply fleb_Fin in Hd. rewrite fdiv_fin in Hs by lra. cbn [fmul] in Hs.
      pose proof (Qmult_div_r k e2 ltac:(lra)) as Hz2.
      destruct (Qquot_anti e1 e2 (k / e1) (k / e2) k) as [Hp Hle];
        try assumption.
      destruct s as [s0| | |]; try discriminate Hs; [|reflexivity].
      apply fltb_Fin in Hs. apply fltb_Fin.
      set (z1 := (k / e1)%Q) in *. set (z2 := (k / e2)%Q) in *.
      clearbody z1 z2. nra.
    + rewrite fdiv_PInf in Hs. cbn [fmul] in Hs.
      destruct s as [s0| | |]; try discriminate Hs; [|reflexivity].
      apply fltb_Fin in Hs. apply fltb_Fin.
      assert (0 <= k / e1)%Q by (apply Qle_shift_div_l; lra).
      set (z1 := (k / e1)%Q) in *. clearbody z1. nra.
Qed.

Lemma root_accept_mono m d1 d2 i s :
  fltb f0 m = true -> fleb d1 d2 = true -> 0 <= i ->
  fleb (of_int (i + 1)) (fmul m d1) = true ->
  fltb s (fmul (of_int (i + 1)) (fdiv (fdiv f1 m) d2)) = true ->
  fltb s (fmul (of_int (i + 1)) (fdiv (fdiv f1 m) d1)) = true.
Proof.
  intros Hm Hd Hi Hb Hs.
  pose proof (root_bound_density _ _ _ Hm Hi Hb) as Hd1.
  destruct (inv_mag_nonneg m Hm) as (k & Hk & Hk0). rewrite Hk in *.
  eapply scaled_factor_anti; eauto. apply inject_Z_nonneg. lia.
Qed.

Lemma node_accept_mono m p d1 d2 np i s :
  fltb f0 m = true -> (0 < p)%Q -> fleb d1 d2 = true -> 0 <= i -> 0 <= np ->
  fleb (of_int (i + 1))
       (fsub (fmul (fdiv m (Fin p)) d1) (of_int np)) = true ->
  fltb s (fmul (of_int (i + np))
               (fdiv (fmul (fdiv f1 m) (Fin p)) d2)) = true ->
  fltb s (fmul (of_int (i + np))
               (fdiv (fmul (fdiv f1 m) (Fin p)) d1)) = true.
Proof.
  intros Hm Hp Hd Hi Hnp Hb Hs.
  pose proof (node_bound_density _ _ _ _ _ Hm Hp Hi Hnp Hb) as Hd1.
  destruct (inv_mag_nonneg m Hm) as (k & Hk & Hk0). rewrite Hk in *.
  cbn [fmul] in *.
  eapply scaled_factor_anti; eauto; [apply inject_Z_nonneg; lia | nra].
Qed.

(** ** Sorting by rank *)

Lemma cmp_le u v :
  rank_is_number u -> rank_is_number v ->
  (cmp u v <=? 0) = true -> rank_le u v.
Proof.
  unfold rank_is_number, rank_le, cmp, fgtb. intros Hu Hv.
  destruct (rank u), (rank v); fsimp; fdone.
Qed.

Lemma cmp_gt u v :
  rank_is_number u -> rank_is_number v ->
  (cmp u v <=? 0) = false -> rank_le v u.
Proof.
  unfold rank_is_number, rank_le, cmp, fgtb. intros Hu Hv.
  destruct (rank u), (rank v); fsimp; fdone.
Qed.

Lemma rank_le_trans u v w : rank_le u v -> rank_le v w -> rank_le u w.
Proof.
  unfold rank_le. destruct (rank u), (rank v), (rank w); fsimp; fdone.
Qed.

Lemma qsort_insert_elem v l w : w ∈ qsort_insert v l <-> w = v \/ w ∈ l.
Proof.
  induction l as [|e l IH]; simpl.
  - rewrite list_elem_of_singleton. split; [auto | intros [H|H]; [exact H | inversion H]].
  - destruct (cmp v e <=? 0).
    + rewrite elem_of_cons. reflexivity.
    + rewrite !elem_of_cons, IH. tauto.
Qed.

Lemma qsort_cons e l : qsort (e :: l) = qsort_insert e (qsort l).
Proof. reflexivity. Qed.

Lemma qsort_elem l w : w ∈ qsort l <-> w ∈ l.
Proof.
  induction l as [|e l IH]; [reflexivity|].
  rewrite qsort_cons, qsort_insert_elem, elem_of_cons, IH. reflexivity.
Qed.

Lemma qsort_insert_sorted v l :
  rank_is_number v -> Forall rank_is_number l ->
  StronglySorted rank_le l -> StronglySorted rank_le (qsort_insert v l).
Proof.
  intros Hv Hl Hs. induction l as [|e l IH]; simpl.
  - repeat constructor.
  - apply Forall_cons in Hl as [He Hl].
    apply StronglySorted_cons in Hs as [Hel Hs].
    destruct (cmp v e <=? 0) eqn:E.
    + apply cmp_le in E; try assumption.
      apply StronglySorted_cons. split.
      * constructor; [exact E|].
        eapply Forall_impl; [exact Hel|]. intros w Hw.
        eapply rank_le_trans; eassumption.
      * apply StronglySorted_cons. split; assumption.
    + apply cmp_gt in E; try assumption.
      apply StronglySorted_cons. split; [|apply IH; assumption].
      apply Forall_forall. intros w Hw.
      apply qsort_insert_elem in Hw as [->|Hw]; [exact E|].
      rewrite Forall_forall in Hel. apply Hel, Hw.
Qed.

Lemma qsort_sorted l :
  Forall rank_is_number l -> StronglySorted rank_le (qsort l).
Proof.
  induction l as [|e l IH]; intros Hl.
  - constructor.
  - apply Forall_cons in Hl as [He Hl]. rewrite qsort_cons.
    apply qsort_insert_sorted; [assumption| |apply IH, Hl].
    apply Forall_forall. intros w Hw. apply (proj1 (qsort_elem _ _)) in Hw.
    rewrite Forall_forall in Hl. apply Hl, Hw.
Qed.


(** ** Rank bands *)

Lemma band_number k v : rank_in_band k v -> rank_is_number v.
Proof.
  unfold rank_in_band, rank_is_number. intros [H _].
  destruct (rank v); try reflexivity. discriminate.
Qed.


Lemma at_least_weaken k k' v :
  rank_at_least k v -> k' <= k -> rank_at_least k' v.
Proof.
  unfold rank_at_least. intros H Hk.
  pose proof (inject_Z_le' _ _ Hk). destruct (rank v); fsimp; fdone.
Qed.


Lemma node_depth_pos c level :
  nsubtiles c <> 0 \/ level = 0 ->
  exists p, node_depth c level = Fin p /\ (0 < p)%Q.
Proof.
  intros H. unfold node_depth, powf.
  destruct (Z.eqb_spec (2 * level) 0) as [|Hl].
  { exists 1%Q. split; [reflexivity | lra]. }
  destruct H as [Hn|]; [|lia]. unfold of_int.
  assert (Hq : ~ (inject_Z (nsubtiles c) == 0)%Q).
  { unfold Qeq. simpl. lia. }
  destruct (Qeq_bool (inject_Z (nsubtiles c)) 0) eqn:E.
  { apply Qeq_bool_iff in E. contradiction. }
  simpl. eexists. split; [reflexivity|].
  rewrite Qpower_mult. apply Qpower_0_lt.
  change (inject_Z (nsubtiles c) ^ 2)%Q
    with (inject_Z (nsubtiles c) * inject_Z (nsubtiles c))%Q.
  nra.
Qed.







Lemma same_store_fields c c' :
  same_store c c' ->
  mag c' = mag c /\ tiles c' = tiles c /\ nsubtiles c' = nsubtiles c /\
  global_density c' = global_density c.
Proof. intros (p & n & -> & _). repeat split. Qed.



(** ** The root pass against the words of the specification *)

Lemma omap_pointwise (spec : Z -> option par_vec3) js os :
  Forall2 (fun j o => opt_vec3_eq o (spec j)) js os ->
  Forall2 vec3_eq (omap id os) (omap spec js).
Proof.
  induction 1 as [|j o js os Hjo _ IH]; simpl; [constructor|].
  destruct o as [u|], (spec j) as [v|]; simpl in *; try contradiction.
  - constructor; assumption.
  - exact IH.
Qed.

Lemma sample_density_number c x y s :
  density_numbers c -> sample_density c x y = Ret s -> is_nan s = false.
Proof.
  unfold density_numbers, sample_density. destruct (density c) as [dens|].
  - intros Hd H. inv_ret. apply list_elem_of_lookup_2 in H.
    rewrite Forall_forall in Hd. apply Hd, H.
  - intros _ [= <-]. reflexivity.
Qed.

Lemma root_threshold_number m d k :
  fltb f0 m = true -> is_nan (fmul m d) = false -> 0 < k ->
  is_nan (fmul (of_int k) (fdiv (fdiv f1 m) d)) = false.
Proof.
  intros Hm Hmd Hk.
  assert (Hk' : (0 < inject_Z k)%Q) by (unfold Qlt; simpl; lia).
  destruct (inv_mag_nonneg m Hm) as (z & Hz & Hz0). rewrite Hz.
  unfold of_int.
  apply positive_cases in Hm as [->|(q & -> & Hq)].
  - injection Hz as <-. destruct d as [e| | |]; try discriminate Hmd;
      try reflexivity.
    cbn [fmul] in Hmd. destruct (Qeq_dec e 0) as [He|He].
    + rewrite (inf_signed_zero _ He) in Hmd. discriminate.
    + rewrite fdiv_fin by assumption. reflexivity.
  - unfold f1 in Hz. rewrite fdiv_fin in Hz by lra. injection Hz as <-.
    assert (0 < 1 / q)%Q by (apply Qlt_shift_div_l; lra).
    destruct d as [e| | |]; try discriminate Hmd; try reflexivity.
    destruct (Qeq_dec e 0) as [He|He].
    + rewrite (fdiv_by_zero _ _ He), inf_signed_pos by assumption.
      cbn [fmul]. rewrite inf_signed_pos by assumption. reflexivity.
    + rewrite fdiv_fin by assumption. reflexivity.
Qed.

Lemma finite_viewport_mag b t :
  is_finite b = true -> is_finite t = true -> fltb f0 (spec_mag b t) = true.
Proof.
  intros Hb Ht. apply mag_positive. unfold translate, fsub.
  destruct b, t; try discriminate. reflexivity.
Qed.

Lemma root_candidate_spec c tile0 l b r t m d i o :
  viewport_is c l b r t ->
  is_nan l = false -> is_nan b = false ->
  is_nan r = false -> is_nan t = false ->
  Forall finite2 (t_points tile0) -> density_numbers c ->
  fltb f0 m = true -> is_nan (fmul m d) = false -> 0 <= i ->
  root_candidate tile0 (fdiv (fdiv f1 m) d) c i = Ret o ->
  opt_vec3_eq o (root_accepts_spec c tile0 l b r t m d i).
Proof.
  intros (<- & <- & <- & <-) Hl Hb Hr Ht Hpts Hdens Hm Hmd Hi H.
  unfold root_candidate in H. apply bind_Ret in H as (p & Hp & H).
  apply array_get_Ret in Hp as [_ Hp].
  unfold root_accepts_spec. rewrite Hp. cbn [mbind option_bind].
  destruct (Forall_lookup_1 _ _ _ _ Hpts Hp) as [Hx Hy].
  apply is_finite_not_nan in Hx, Hy.
  rewrite (not_outside_inside c) in H by assumption.
  destruct (inside _ _ _ _ _ _) eqn:Hin; cbn [negb] in H.
  2:{ inv_ret. unfold sampled. destruct (sample_density c _ _); exact I. }
  apply bind_Ret in H as (s & Hsample & H).
  unfold sampled. rewrite Hsample. cbn [mbind option_bind andb].
  pose proof (sample_density_number _ _ _ _ Hdens Hsample) as Hs.
  pose proof (root_threshold_number m d (i + 1) Hm Hmd ltac:(lia)) as Hthr.
  rewrite fltb_negb_fleb in H by assumption.
  rewrite (fleb_feq _ (fmul (of_int (i + 1)) (fdiv f1 (fmul m d))) s s) in H;
    [|apply fmul_feq; [reflexivity | apply root_factor_feq, Hm]|reflexivity].
  destruct (fleb _ s); cbn [negb] in H; inv_ret; [|exact I].
  unfold opt_vec3_eq, vec3_eq. cbn [px py rank].
  split; [reflexivity|]. split; [reflexivity|].
  exact (fmul_feq (of_int i) (of_int i) _ _ (reflexivity (of_int i))
           (root_factor_feq m d Hm)).
Qed.

Lemma Forall2_seqZ_impl {A} (P Q : Z -> A -> Prop) a n (os : list A) :
  Forall2 P (seqZ a n) os ->
  (forall j o, a <= j < a + n -> P j o -> Q j o) ->
  Forall2 Q (seqZ a n) os.
Proof.
  intros H HPQ. apply Forall2_same_length_lookup.
  split; [eapply Forall2_length, H|].
  intros k j o Hj Ho.
  pose proof (Forall2_lookup_lr _ _ _ _ _ _ H Hj Ho) as HP.
  apply lookup_seqZ in Hj as [-> Hk]. apply HPQ; [lia | exact HP].
Qed.

(** ** The integers below a bound that is no integer *)

Lemma Qtrunc_lt q : (0 <= q)%Q -> (q < inject_Z (Qtrunc q + 1))%Q.
Proof.
  destruct q as [a d]. unfold Qle, Qlt, Qtrunc. cbn [Qnum Qden inject_Z].
  intros Ha. rewrite Z.mul_1_r in *.
  pose proof (Z.quot_rem' a (Z.pos d)) as Hqr.
  pose proof (Z.rem_bound_pos a (Z.pos d) ltac:(lia) ltac:(lia)) as Hr.
  nia.
Qed.

Lemma filter_all_true {A} (P : A -> bool) l :
  Forall (fun x => P x = true) l -> List.filter P l = l.
Proof.
  induction 1 as [|x l Hx _ IH]; [reflexivity|].
  cbn [List.filter]. rewrite Hx, IH. reflexivity.
Qed.

Lemma filter_all_false {A} (P : A -> bool) l :
  Forall (fun x => P x = false) l -> List.filter P l = [].
Proof.
  induction 1 as [|x l Hx _ IH]; [reflexivity|].
  cbn [List.filter]. rewrite Hx, IH. reflexivity.
Qed.

Lemma filter_seqZ_prefix (P : Z -> bool) count K :
  0 <= K <= count ->
  (forall i, 0 <= i < K -> P i = true) ->
  (forall i, K <= i < count -> P i = false) ->
  List.filter P (seqZ 0 count) = seqZ 0 K.
Proof.
  intros HK Ht Hf.
  replace count with (K + (count - K)) by lia.
  rewrite seqZ_app by lia. rewrite List.filter_app.
  rewrite filter_all_true, filter_all_false.
  - apply app_nil_r.
  - apply Forall_forall. intros i Hi. apply elem_of_seqZ in Hi.
    apply Hf. lia.
  - apply Forall_forall. intros i Hi. apply elem_of_seqZ in Hi.
    apply Ht. lia.
Qed.

(** Over the integers of [[0, min(count, b))] a rule that rejects the
    index between the integer part of the bound and the bound accepts what
    it accepts over [[0, N)], [N] the integer part. *)
Lemma omap_indices_below {A} (spec : Z -> option A) count b N :
  to_int (mini count b) = Ret N ->
  (forall i, 0 <= i -> fltb (of_int i) b = true ->
             fleb (of_int (i + 1)) b = false -> spec i = None) ->
  omap spec (indices_below count (mini count b)) = omap spec (seqZ 0 N).
Proof.
  intros HN Hrej. unfold indices_below.
  pose proof HN as Hcases.
  apply ntests_cases in Hcases as [[Hlt ->]|(q & -> & Hq & ->)].
  - unfold mini. rewrite Hlt.
    destruct (Z.le_gt_cases 0 count) as [Hc|Hc].
    + rewrite (filter_seqZ_prefix _ count count); [reflexivity | lia | |lia].
      intros i Hi. unfold index_below. cbn [fltb of_int]. apply Qltb_lt.
      rewrite <- Zlt_Qlt. lia.
    + unfold seqZ. replace (Z.to_nat count) with 0%nat by lia. reflexivity.
  - assert (Hmini : mini count (Fin q) = Fin q).
    { unfold mini. cbn [fltb of_int].
      destruct (Qltb (inject_Z count) q) eqn:E; [|reflexivity].
      apply Qltb_lt in E. lra. }
    rewrite Hmini.
    assert (Hbelow : forall i, index_below (Fin q) i = true <-> (inject_Z i < q)%Q).
    { intros i. unfold index_below. apply fltb_Fin. }
    assert (Hnot : forall i, index_below (Fin q) i = false <-> (q <= inject_Z i)%Q).
    { intros i. unfold index_below. cbn [fltb of_int]. apply Qltb_ge. }
    destruct (Z.le_gt_cases count 0) as [Hc|Hc].
    { unfold seqZ at 1. replace (Z.to_nat count) with 0%nat by lia.
      cbn. assert (Qtrunc q <= 0).
      { rewrite <- (Qtrunc_inject 0). apply Qtrunc_mono.
        assert (inject_Z count <= inject_Z 0)%Q by (rewrite <- Zle_Qle; lia).
        lra. }
      unfold seqZ. replace (Z.to_nat (Qtrunc q)) with 0%nat by lia.
      reflexivity. }
    destruct (Qlt_le_dec 0 q) as [Hpos|Hneg].
    2:{ rewrite (filter_seqZ_prefix _ count 0); [| lia | lia |].
        - pose proof (Qtrunc_nonpos q Hneg).
          unfold seqZ. replace (Z.to_nat (Qtrunc q)) with 0%nat by lia.
          reflexivity.
        - intros i Hi. apply Hnot.
          assert (inject_Z 0 <= inject_Z i)%Q by (rewrite <- Zle_Qle; lia).
          change (inject_Z 0) with 0%Q in *. lra. }
    pose proof (Qtrunc_le q ltac:(lra)) as Hlo.
    pose proof (Qtrunc_lt q ltac:(lra)) as Hhi.
    assert (H0 : 0 <= Qtrunc q).
    { rewrite <- (Qtrunc_inject 0). apply Qtrunc_mono.
      change (inject_Z 0) with 0%Q. lra. }
    assert (Hcnt : Qtrunc q <= count).
    { rewrite <- (Qtrunc_inject count). apply Qtrunc_mono, Hq. }
    destruct (Qlt_le_dec (inject_Z (Qtrunc q)) q) as [Hfrac|Hint].
    + assert (Hcnt' : Qtrunc q + 1 <= count).
      { assert (inject_Z (Qtrunc q) < inject_Z count)%Q by lra.
        rewrite <- Zlt_Qlt in H. lia. }
      rewrite (filter_seqZ_prefix _ count (Qtrunc q + 1)); [| lia | |].
      * rewrite seqZ_app by lia. rewrite omap_app.
        change (seqZ (0 + Qtrunc q) 1) with [0 + Qtrunc q].
        cbn [omap list_omap]. rewrite Z.add_0_l.
        rewrite (Hrej (Qtrunc q)); [apply app_nil_r | lia | |].
        -- apply fltb_Fin. exact Hfrac.
        -- cbn [fleb of_int]. apply Qle_bool_gt. exact Hhi.
      * intros i Hi. apply Hbelow.
        assert (inject_Z i <= inject_Z (Qtrunc q))%Q
          by (rewrite <- Zle_Qle; lia).
        lra.
      * intros i Hi. apply Hnot.
        assert (inject_Z (Qtrunc q + 1) <= inject_Z i)%Q
          by (rewrite <- Zle_Qle; lia).
        lra.
    + rewrite (filter_seqZ_prefix _ count (Qtrunc q)); [reflexivity | lia | |].
      * intros i Hi. apply Hbelow.
        assert (inject_Z (i + 1) <= inject_Z (Qtrunc q))%Q
          by (rewrite <- Zle_Qle; lia).
        rewrite inject_Z_succ in H. lra.
      * intros i Hi. apply Hnot.
        assert (inject_Z (Qtrunc q) <= inject_Z i)%Q
          by (rewrite <- Zle_Qle; lia).
        lra.
Qed.

Lemma density_unit_numbers c : density_unit c -> density_numbers c.
Proof.
  unfold density_unit, density_numbers. destruct (density c); [|trivial].
  intros H. eapply Forall_impl; [exact H|].
  intros v [Hv _]. destruct v; try reflexivity. discriminate Hv.
Qed.

Lemma sample_density_unit c x y s :
  density_unit c -> sample_density c x y = Ret s -> fleb s f1 = true.
Proof.
  unfold density_unit, sample_density. destruct (density c) as [dens|].
  - intros Hd H. inv_ret. apply list_elem_of_lookup_2 in H.
    rewrite Forall_forall in Hd. apply Hd, H.
  - intros _ [= <-]. reflexivity.
Qed.

(** With a density of at most 1, the rule of the root pass rejects the
    index that lies between the integer part of [mag * density] and
    [mag * density] itself: its threshold is above 1. *)
Lemma root_rejects_between c tile0 l b r t m d i :
  density_unit c -> 0 <= i ->
  fltb (of_int i) (fmul m d) = true ->
  fleb (of_int (i + 1)) (fmul m d) = false ->
  root_accepts_spec c tile0 l b r t m d i = None.
Proof.
  intros Hd Hi Hlt Hle. unfold root_accepts_spec.
  destruct (t_points tile0 !! Z.to_nat i) as [p|]; [|reflexivity].
  cbn [mbind option_bind]. unfold sampled.
  destruct (sample_density c (vx p) (vy p)) as [s| | |] eqn:Hs;
    try reflexivity.
  cbn [mbind option_bind].
  apply (sample_density_unit _ _ _ _ Hd) in Hs.
  destruct (fmul m d) as [q| | |]; try discriminate Hlt; try discriminate Hle.
  unfold of_int in *. apply fltb_Fin in Hlt.
  cbn [fleb] in Hle. apply Qle_bool_gt in Hle.
  pose proof (inject_Z_succ i) as Hsucc.
  assert (H0 : (0 <= inject_Z i)%Q)
    by (change 0%Q with (inject_Z 0); rewrite <- Zle_Qle; lia).
  replace (fdiv f1 (Fin q)) with (Fin (1 / q))
    by (symmetry; apply (fdiv_fin 1 q); lra).
  assert (Hthr : (1 < inject_Z (i + 1) * (1 / q))%Q).
  { assert (Hq : (0 < q)%Q) by lra.
    assert (Hinv : (0 < / q)%Q) by (apply Qinv_lt_0_compat, Hq).
    assert (Hone : (q * / q == 1)%Q) by (apply Qmult_inv_r; lra).
    unfold Qdiv. rewrite Qmult_1_l. nra. }
  assert (Hrej : fleb (fmul (Fin (inject_Z (i + 1))) (Fin (1 / q))) s = false).
  { cbn [fmul]. destruct s as [v| | |]; try reflexivity; try discriminate Hs.
    apply fleb_Fin in Hs. cbn [fleb]. apply Qle_bool_gt. lra. }
  rewrite Hrej, andb_false_r. reflexivity.
Qed.

(** A translated bound, clamped, is the number [q + 1/2] brought into
    [[0, 1]]. *)
Lemma clamp01_translate q :
  exists L, clamp01 (translate (Fin q)) = Fin L /\
            (L == Qmax 0 (Qmin 1 (q + (1 # 2))))%Q.
Proof.
  unfold clamp01, translate, clamp, fgtb, half, f0, f1. cbn [fadd fltb].
  pose proof (Q.min_spec 1 (q + (1 # 2))) as Hm.
  pose proof (Q.max_spec 0 (Qmin 1 (q + (1 # 2)))) as HM.
  set (m := Qmin 1 (q + (1 # 2))) in *.
  set (M := Qmax 0 m) in *.
  qcases; eexists; (split; [reflexivity|]);
    destruct Hm as [[? ?] | [? ?]]; destruct HM as [[? ?] | [? ?]]; lra.
Qed.

(** [mag] is the inverse square of the height of the translated, unclamped
    viewport, and +inf for a viewport without height. *)
Lemma spec_mag_value qb qt :
  let h := ((qt + (1 # 2)) - (qb + (1 # 2)))%Q in
  ((h == 0)%Q -> spec_mag (Fin qb) (Fin qt) = PInf) /\
  (~ (h == 0)%Q ->
   exists q, spec_mag (Fin qb) (Fin qt) = Fin q /\ (q == / (h * h))%Q).
Proof.
  intros h. unfold spec_mag, translate, half, fsub. cbn [fadd fopp].
  unfold powf. change (-2 =? 0) with false. change (-2 <? 0) with true.
  cbv iota. rewrite andb_true_r.
  fold (Qminus (qt + (1 # 2)) (qb + (1 # 2))). fold h.
  destruct (Qeq_bool h 0) eqn:E.
  - apply Qeq_bool_iff in E. split; [reflexivity | contradiction].
  - apply Qeq_bool_false in E. split; [contradiction|].
    intros _. eexists. split; reflexivity.
Qed.

(** C1.  [generate] stores the request, translates the viewport by 0.5,
    takes [mag = (top - bottom)^-2] from the translated bounds before it
    clamps them (+inf when they are equal), and clamps them to [0,1]: each
    stored bound is the bound of the request plus 1/2, raised to 0 when it
    is below and lowered to 1 when it is above.  The output of the root
    pass is exactly, in order, the root points [i] among the integers of
    [[0, min(count, mag * density))] that lie in the clamped viewport with
    a sampled density of at least [(i+1) * (1/(mag*density))], each with
    the rank [i * (1/(mag*density))].  The loop of the source runs over
    [0 <= i < N], [N] the integer part of the bound; the one integer the
    interval can hold beyond [N] is rejected by the rule, its threshold
    being above 1, so that both ranges give the same output.  The bounds of
    the request are finite, the tileset holds finite coordinates and the
    density field values of [[0, 1]]. *)
Theorem root_pass_against_spec ctx d ql qb qr qt c1 :
  tiles_finite (tiles ctx) -> density_unit ctx ->
  root_pass (begin_request ctx d (Fin ql) (Fin qb) (Fin qr) (Fin qt))
    = Ret c1 ->
  let l := Fin ql in
  let b := Fin qb in
  let r := Fin qr in
  let t := Fin qt in
  let c0 := begin_request ctx d l b r t in
  let m := spec_mag b t in
  let h := ((qt + (1 # 2)) - (qb + (1 # 2)))%Q in
  mag c0 = m /\
  ((h == 0)%Q -> mag c0 = PInf) /\
  (~ (h == 0)%Q -> exists q, mag c0 = Fin q /\ (q == / (h * h))%Q) /\
  (exists L B R T,
     viewport_is c0 (Fin L) (Fin B) (Fin R) (Fin T) /\
     (L == Qmax 0 (Qmin 1 (ql + (1 # 2))))%Q /\
     (B == Qmax 0 (Qmin 1 (qb + (1 # 2))))%Q /\
     (R == Qmax 0 (Qmin 1 (qr + (1 # 2))))%Q /\
     (T == Qmax 0 (Qmin 1 (qt + (1 # 2))))%Q) /\
  viewport_is c0 (clamp01 (translate l)) (clamp01 (translate b))
                 (clamp01 (translate r)) (clamp01 (translate t)) /\
  exists tile0 N,
    tiles ctx !! 0%nat = Some tile0 /\
    to_int (mini (t_npoints tile0) (fmul m d)) = Ret N /\
    Forall2 vec3_eq (emitted c1)
      (omap (root_rule ctx d l b r t tile0) (seqZ 0 N)) /\
    Forall2 vec3_eq (emitted c1)
      (omap (root_rule ctx d l b r t tile0)
            (indices_below (t_npoints tile0)
                           (mini (t_npoints tile0) (fmul m d)))).
Proof.
  intros Hts Hunit Hrun l b r t c0 m h.
  change (root_pass (begin_request ctx d l b r t) = Ret c1) in Hrun.
  assert (Hl : is_finite l = true) by reflexivity.
  assert (Hb : is_finite b = true) by reflexivity.
  assert (Hr : is_finite r = true) by reflexivity.
  assert (Ht : is_finite t = true) by reflexivity.
  pose proof (density_unit_numbers _ Hunit) as Hdens.
  pose proof (begin_request_viewport ctx d l b r t) as Hview.
  split; [reflexivity|].
  split; [exact (proj1 (spec_mag_value qb qt))|].
  split; [exact (proj2 (spec_mag_value qb qt))|].
  split.
  { destruct (clamp01_translate ql) as (L & EL & HL).
    destruct (clamp01_translate qb) as (B & EB & HB).
    destruct (clamp01_translate qr) as (R & ER & HR).
    destruct (clamp01_translate qt) as (T & ET & HT).
    exists L, B, R, T. split; [|auto].
    change (viewport_is c0 (clamp01 (translate (Fin ql)))
              (clamp01 (translate (Fin qb))) (clamp01 (translate (Fin qr)))
              (clamp01 (translate (Fin qt)))) in Hview.
    rewrite EL, EB, ER, ET in Hview. exact Hview. }
  split; [exact Hview|].
  unfold root_pass, for_upto in Hrun.
  apply bind_Ret in Hrun as (tile0 & Htile & Hrun).
  apply array_get_Ret in Htile as [_ Htile].
  apply bind_Ret in Hrun as (N & HN & Hrun).
  exists tile0, N. split; [exact Htile|]. split; [exact HN|].
  assert (Hall : Forall2 vec3_eq (emitted c1)
                   (omap (root_rule ctx d l b r t tile0) (seqZ 0 N))).
  { eapply (candidate_loop (root_candidate tile0 _)) in Hrun;
      [|intros; apply root_body_candidate
       |intros; apply root_candidate_store].
    destruct Hrun as (_ & os & Hos & Hem & _).
    rewrite Hem.
    change (emitted (begin_request ctx d l b r t)) with (@nil par_vec3).
    rewrite app_nil_l.
    replace (seqZ 0 N) with (seqZ 0 (Z.of_nat (Z.to_nat N)))
      by (unfold seqZ; rewrite Nat2Z.id; reflexivity).
    apply omap_pointwise.
    eapply Forall2_seqZ_impl; [exact Hos|].
    intros j o Hj Hc. cbv beta in Hc.
    pose proof (Forall_lookup_1 _ _ _ _ Hts Htile) as [Hpts _].
    eapply (root_candidate_spec c0 tile0); try exact Hc;
      try (apply clamp_not_nan, fadd_half_not_nan, is_finite_not_nan;
           assumption);
      try assumption.
    - apply finite_viewport_mag; assumption.
    - eapply ntests_not_nan. exact HN.
    - lia. }
  split; [exact Hall|].
  rewrite (omap_indices_below _ _ _ N HN); [exact Hall|].
  intros i Hi Hlt Hle. apply root_rejects_between; assumption.
Qed.

Lemma root_pass_against_spec_witness :
  exists c1 tile0 N q L B R T,
    root_pass (begin_request (scenario_ctx 8) (Fin 16) (Fin (-2))
                 (Fin (-1)) (Fin 2) (Fin 1)) = Ret c1 /\
    mag (begin_request (scenario_ctx 8) (Fin 16) (Fin (-2))
           (Fin (-1)) (Fin 2) (Fin 1)) = Fin q /\ (q == 1 # 4)%Q /\
    viewport_is (begin_request (scenario_ctx 8) (Fin 16) (Fin (-2))
                   (Fin (-1)) (Fin 2) (Fin 1))
      (Fin L) (Fin B) (Fin R) (Fin T) /\
    (L == 0)%Q /\ (B == 0)%Q /\ (R == 1)%Q /\ (T == 1)%Q /\
    tiles (scenario_ctx 8) !! 0%nat = Some tile0 /\
    to_int (mini (t_npoints tile0)
              (fmul (spec_mag (Fin (-1)) (Fin 1)) (Fin 16))) = Ret N /\
    N = 4 /\
    Forall2 vec3_eq (emitted c1)
      (omap (root_rule (scenario_ctx 8) (Fin 16) (Fin (-2))
               (Fin (-1)) (Fin 2) (Fin 1) tile0)
            (indices_below (t_npoints tile0)
               (mini (t_npoints tile0)
                  (fmul (spec_mag (Fin (-1)) (Fin 1)) (Fin 16))))).
Proof.
  pose proof (root_pass_against_spec (scenario_ctx 8) (Fin 16) (-2) (-1)
                2 1 _ scenario_tiles_finite I eq_refl)
    as (_ & _ & Hmag & (L & B & R & T & Hview & HL & HB & HR & HT)
        & _ & tile0 & N & Htile & HN & _ & Hall).
  destruct Hmag as (q & Hq & Eq); [vm_compute; discriminate|].
  eexists _, tile0, N, q, L, B, R, T.
  split; [reflexivity|]. split; [exact Hq|].
  split; [rewrite Eq; reflexivity|].
  split; [exact Hview|].
  split; [rewrite HL; reflexivity|]. split; [rewrite HB; reflexivity|].
  split; [rewrite HR; reflexivity|]. split; [rewrite HT; reflexivity|].
  split; [exact Htile|].
  split; [exact HN|]. split; [|exact Hall].
  injection Htile as <-. vm_compute in HN. injection HN as <-. reflexivity.
Defined.

(** ** One visit of the descent against the words of the specification *)

Lemma grid_length n : 0 <= n -> Z.of_nat (length (grid n)) = n * n.
Proof.
  intros Hn. unfold grid.
  assert (H : forall l : list Z,
             length (ty ← l; tx ← seqZ 0 n; [(ty, tx)])
             = (length l * Z.to_nat n)%nat).
  { induction l as [|a l IH]; [reflexivity|].
    cbn [mbind list_bind]. change (mbind ?f (a :: l)) with (f a ++ mbind f l).
    rewrite length_app, IH.
    assert (Hrow : forall l' : list Z,
               length (tx ← l'; [(a, tx)]) = length l').
    { induction l' as [|b l' IH']; [reflexivity|].
      change (mbind ?f (b :: l')) with (f b ++ mbind f l').
      rewrite length_app, IH'. reflexivity. }
    rewrite Hrow, length_seqZ. simpl. reflexivity. }
  rewrite H, length_seqZ. lia.
Qed.

Lemma child_node_spec c tile node ty tx kid :
  child_node c tile (n_x node) (n_y node)
    (fdiv (tile_size c (n_level node)) (of_int (nsubtiles c)))
    (n_level node + 1) ty tx = Ret kid ->
  child_spec c tile node (ty, tx) = Some kid.
Proof.
  unfold child_node, child_spec. intros H.
  apply bind_Ret in H as (sub & Hsub & H).
  apply array_get_Ret in Hsub as [_ Hsub].
  apply bind_Ret in H as (idx & Hidx & H).
  apply array_get_Ret in Hidx as [_ Hidx].
  change (Z.to_nat 0) with 0%nat in Hsub. rewrite Hsub.
  cbn [mbind option_bind]. rewrite Hidx. cbn [mbind option_bind].
  injection H as <-. reflexivity.
Qed.

Lemma node_children_grid c tile node kids :
  node_children c tile node = Ret kids ->
  Forall2 (fun cell kid => child_spec c tile node cell = Some kid)
          (grid (Z.max 0 (nsubtiles c))) kids.
Proof.
  unfold node_children. intros H.
  apply spawn_children_Ret in H as (rows & Hrows & ->). unfold grid.
  assert (Hrow : forall ty txs row,
             Forall2 (fun tx kid =>
                        child_node c tile (n_x node) (n_y node)
                          (fdiv (tile_size c (n_level node))
                                (of_int (nsubtiles c)))
                          (n_level node + 1) ty tx = Ret kid) txs row ->
             Forall2 (fun cell kid => child_spec c tile node cell = Some kid)
                     (tx ← txs; [(ty, tx)]) row).
  { intros ty txs row Hrow.
    induction Hrow as [|tx kid txs row Hkid _ IH]; [constructor|].
    change (mbind ?f (tx :: txs)) with (f tx ++ mbind f txs).
    cbn [app]. constructor; [|exact IH].
    apply child_node_spec, Hkid. }
  revert Hrows. generalize (seqZ 0 (Z.max 0 (nsubtiles c))) at 1 3.
  intros tys Hrows.
  induction Hrows as [|ty row tys rows Hr _ IH]; [constructor|].
  change (mbind ?f (ty :: tys)) with (f ty ++ mbind f tys).
  cbn [concat]. apply Forall2_app; [|exact IH].
  apply Hrow. exact Hr.
Qed.

Lemma node_threshold_number m p d np i :
  fltb f0 m = true -> (0 < p)%Q -> 0 <= i -> 0 <= np ->
  fleb (of_int (i + 1))
       (fsub (fmul (fdiv m (Fin p)) d) (of_int np)) = true ->
  is_finite (fdiv (fmul (fdiv f1 m) (Fin p)) d) = true.
Proof.
  intros Hm Hp Hi Hnp Hb.
  pose proof (node_bound_density _ _ _ _ _ Hm Hp Hi Hnp Hb) as Hd.
  destruct (inv_mag_nonneg m Hm) as (k & -> & _). cbn [fmul].
  apply positive_cases in Hd as [->|(e & -> & He)]; [reflexivity|].
  rewrite fdiv_fin by lra. reflexivity.
Qed.

Lemma node_candidate_spec c tile node ntests i o :
  is_nan (left c) = false -> is_nan (bottom c) = false ->
  is_nan (right c) = false -> is_nan (top c) = false ->
  Forall finite2 (t_subpts tile) -> density_numbers c ->
  is_finite (n_x node) = true -> is_finite (n_y node) = true ->
  nsubtiles c <> 0 \/ n_level node = 0 ->
  fltb f0 (mag c) = true -> 0 <= t_npoints tile ->
  to_int (mini (t_nsubpts tile) (node_threshold c tile (n_level node)))
    = Ret ntests ->
  0 <= i < ntests ->
  node_candidate c tile node i = Ret o ->
  opt_vec3_eq o (node_accepts_spec c tile node i).
Proof.
  intros Hl Hb Hr Ht Hpts Hdens Hx Hy Hlv Hm Hnp Hn Hi H.
  pose proof (ntests_bound _ _ _ _ Hn Hi) as Hbound.
  destruct (node_depth_pos c (n_level node) Hlv) as (p & Hp & Hp0).
  assert (Hfeq : feq (node_factor c (n_level node))
                     (spec_factor c (n_level node))).
  { unfold node_factor, spec_factor, spec_depth. fold (node_depth c (n_level node)).
    rewrite Hp. apply node_factor_feq; assumption. }
  assert (Hfin : is_finite (node_factor c (n_level node)) = true).
  { unfold node_factor. unfold node_threshold in Hbound. rewrite Hp in *.
    apply (node_threshold_number _ _ _ (t_npoints tile) i);
      [assumption | assumption | lia | assumption | exact Hbound]. }
  unfold node_candidate, tile_candidate in H.
  apply bind_Ret in H as (sp & Hsp & H).
  apply array_get_Ret in Hsp as [_ Hsp].
  unfold node_accepts_spec. rewrite Hsp. cbn [mbind option_bind].
  destruct (Forall_lookup_1 _ _ _ _ Hpts Hsp) as [Hsx Hsy].
  pose proof (tile_size_finite c (n_level node) Hlv) as Hts.
  set (x := fadd (n_x node) (fmul (vx sp) (tile_size c (n_level node)))) in *.
  set (y := fadd (n_y node) (fmul (vy sp) (tile_size c (n_level node)))) in *.
  assert (Hxn : is_nan x = false)
    by (apply is_finite_not_nan, fadd_finite; auto using fmul_finite).
  assert (Hyn : is_nan y = false)
    by (apply is_finite_not_nan, fadd_finite; auto using fmul_finite).
  rewrite (not_outside_inside c) in H by assumption.
  destruct (inside _ _ _ _ _ _) eqn:Hin; cbn [negb] in H.
  2:{ inv_ret. unfold sampled. destruct (sample_density c _ _); exact I. }
  apply bind_Ret in H as (s & Hsample & H).
  unfold sampled. rewrite Hsample. cbn [mbind option_bind andb].
  pose proof (sample_density_number _ _ _ _ Hdens Hsample) as Hs.
  rewrite fltb_negb_fleb in H;
    [|assumption
     |apply is_finite_not_nan, fmul_finite; [reflexivity | exact Hfin]].
  rewrite (fleb_feq _ (fmul (of_int (i + t_npoints tile))
                         (spec_factor c (n_level node))) s s) in H;
    [|apply fmul_feq; [reflexivity | exact Hfeq]|reflexivity].
  destruct (fleb _ s); cbn [negb] in H; inv_ret; [|exact I].
  unfold opt_vec3_eq, vec3_eq. cbn [px py rank].
  split; [reflexivity|]. split; [reflexivity|].
  exact (fadd_feq _ _ _ _ (reflexivity (of_int (n_level node + 1)))
           (fmul_feq (of_int i) (of_int i) _ _ (reflexivity (of_int i)) Hfeq)).
Qed.

Lemma node_skipped_meets c node :
  visit_ok c node -> node_skipped c node = negb (footprint_meets c node).
Proof.
  intros (Hl & Hb & Hr & Ht & _ & _ & _ & _ & Hx & Hy & Hlv).
  pose proof (tile_size_finite c (n_level node) Hlv) as Hts.
  unfold node_skipped, footprint_meets, outside, fgtb.
  pose proof (is_finite_not_nan _ (fadd_finite _ _ Hx Hts)).
  pose proof (is_finite_not_nan _ (fadd_finite _ _ Hy Hts)).
  apply is_finite_not_nan in Hx, Hy.
  rewrite !fltb_negb_fleb by assumption.
  destruct (fleb (left c) _), (fleb (n_x node) _), (fleb (bottom c) _),
    (fleb (n_y node) _); reflexivity.
Qed.

Lemma apply_tile_skip fuel c node :
  node_skipped c node = true -> apply_tile (S fuel) c node = Ret c.
Proof.
  intros H. cbn [apply_tile]. unfold node_skipped, tile_size in H.
  rewrite H. reflexivity.
Qed.

(** C2, amended.  A visit of [apply_tile] at a node of level [L] with tile
    [T]: when the footprint misses the viewport the visit returns at once
    and changes nothing; otherwise it looks at the candidates [0 <= i < N],
    [N] the integer part of [min(T.subPoints.count, threshold)] (the source
    stores the bound in an [int]), adds exactly, in order, those accepted
    by the rule of the specification, and then visits the [subtiles^2]
    children bound through subdivision variant 0 if
    [threshold > T.subPoints.count], and returns otherwise. *)
Theorem node_visit_against_spec fuel c node :
  visit_ok c node ->
  (footprint_meets c node = false -> apply_tile (S fuel) c node = Ret c) /\
  (forall c',
     footprint_meets c node = true ->
     apply_tile (S fuel) c node = Ret c' ->
     exists tile N c1 own,
       tiles c !! Z.to_nat (n_tile node) = Some tile /\
       to_int (mini (t_nsubpts tile)
                    (spec_threshold c tile (n_level node))) = Ret N /\
       same_store c c1 /\
       emitted c1 = emitted c ++ own /\
       Forall2 vec3_eq own
         (omap (node_accepts_spec c tile node) (seqZ 0 N)) /\
       if fltb (of_int (t_nsubpts tile))
               (spec_threshold c tile (n_level node))
       then exists kids,
              Forall2 (fun cell kid => child_spec c tile node cell = Some kid)
                      (grid (Z.max 0 (nsubtiles c))) kids /\
              Z.of_nat (length kids)
                = Z.max 0 (nsubtiles c) * Z.max 0 (nsubtiles c) /\
              visit (apply_tile fuel) kids c1 = Ret c'
       else c' = c1).
Proof.
  intros Hok. pose proof (node_skipped_meets c node Hok) as Hskip.
  split.
  - intros Hmiss. apply apply_tile_skip. rewrite Hskip, Hmiss. reflexivity.
  - intros c' Hmeet Hrun. rewrite Hmeet in Hskip. cbn [negb] in Hskip.
    apply apply_tile_shape in Hrun.
    destruct Hrun as [Hsk _
                     |tile N os c1 _ Hpos Htile Hn Hos Hst Hem Hnp Hk];
      [congruence|].
    destruct Hok as (Hl & Hb & Hr & Ht & Hm & Hfin & Hcnt & Hdens
                     & Hx & Hy & Hlv).
    pose proof (Forall_lookup_1 _ _ _ _ Hfin Htile) as [_ Hsub].
    pose proof (Forall_lookup_1 _ _ _ _ Hcnt Htile) as Hnp0. simpl in Hnp0.
    exists tile, N, c1, (omap id os).
    split; [exact Htile|]. split; [exact Hn|]. split; [exact Hst|].
    split; [exact Hem|]. split.
    + replace (seqZ 0 N) with (seqZ 0 (Z.max 0 N))
        by (unfold seqZ; replace (Z.to_nat (Z.max 0 N)) with (Z.to_nat N)
              by lia; reflexivity).
      apply omap_pointwise.
      eapply Forall2_seqZ_impl; [exact Hos|].
      intros j o Hj Hc. cbv beta in Hc.
      eapply (node_candidate_spec c tile node N); eauto. lia.
    + change (spec_threshold c tile (n_level node))
        with (node_threshold c tile (n_level node)).
      pose proof (ntests_not_nan _ _ _ Hn) as Hnan.
      rewrite fltb_negb_fleb by (reflexivity || assumption).
      destruct (fleb (node_threshold c tile (n_level node)) _);
        cbn [negb]; [exact Hk|].
      destruct Hk as (kids & Hkids & Hvisit). exists kids.
      pose proof (node_children_grid _ _ _ _ Hkids) as Hgrid.
      split; [exact Hgrid|]. split; [|exact Hvisit].
      rewrite <- (Forall2_length _ _ _ Hgrid). apply grid_length. lia.
Qed.

Lemma sub_visit_ok d : visit_ok (sub_request d) root_node.
Proof.
  repeat split; try reflexivity.
  - repeat constructor.
  - repeat constructor; simpl; lia.
  - left. discriminate.
Qed.

Lemma node_visit_against_spec_witness :
  exists c' own,
    apply_tile 1 (sub_request 3) root_node = Ret c' /\
    to_int (mini (t_nsubpts sub_tile)
                 (spec_threshold (sub_request 3) sub_tile 0)) = Ret 2 /\
    emitted c' = emitted (sub_request 3) ++ own /\
    length own = 2%nat /\
    Forall2 vec3_eq own
      (omap (node_accepts_spec (sub_request 3) sub_tile root_node)
            (seqZ 0 2)).
Proof.
  destruct (node_visit_against_spec 0 (sub_request 3) root_node
              (sub_visit_ok 3)) as [_ H].
  destruct (H _ eq_refl eq_refl)
    as (tile & N & c1 & own & H1 & H2 & H3 & H4 & H5 & H6).
  injection H1 as <-.
  assert (HN : N = 2) by (vm_compute in H2; congruence).
  subst N.
  pose proof (H6 : _ = c1) as Hc. clear H6. subst c1.
  eexists _, own. split; [reflexivity|]. split; [exact H2|].
  split; [exact H4|]. split; [|exact H5].
  apply Forall2_length in H5. exact H5.
Defined.

(** C2 does not hold as stated, with the candidates [i] of the interval
    [[0, min(T.subPoints.count, threshold))].  On the tileset with
    sub-points, [generate(2.5, -0.5, -0.5, 0.5, 0.5)] visits the root node
    with the threshold [2.5 - 1 = 1.5] and two sub-points, so
    that [min(T.subPoints.count, threshold) = 1.5].  The index 1 lies in
    [[0, 1.5)] and its sub-point (3/4, 3/4) passes the rule
    ([1 >= (1 + 1) * 0.4], in the viewport), which would make it the
    point (1/4, 1/4) of rank 1.4.  The loop of the source runs to the
    integer part 1 of the bound and looks at the index 0 only: the call
    returns two points, the root point and the sub-point of index 0. *)
Lemma fractional_threshold_skips_candidate :
  exists c2 v,
    par_bluenoise_generate 1 sub_ctx (Fin (5 # 2))
      (Fin (-1 # 2)) (Fin (-1 # 2)) (Fin (1 # 2)) (Fin (1 # 2)) = Ret c2 /\
    feq (mini (t_nsubpts sub_tile)
              (spec_threshold (sub_request (5 # 2)) sub_tile 0))
        (Fin (3 # 2)) /\
    index_below (mini (t_nsubpts sub_tile)
                      (spec_threshold (sub_request (5 # 2)) sub_tile 0)) 1
      = true /\
    node_accepts_spec (sub_request (5 # 2)) sub_tile root_node 1 = Some v /\
    vec3_eq v (mk_vec3 (1 # 4) (1 # 4) (7 # 5)) /\
    npoints c2 = 2 /\
    Forall2 vec3_eq (emitted c2)
      [ mk_vec3 (-1 # 4) (-1 # 4) 0; mk_vec3 0 0 1 ].
Proof.
  eexists _, _.
  split; [vm_compute; reflexivity|].
  split; [vm_compute; reflexivity|].
  split; [vm_compute; reflexivity|].
  split; [vm_compute; reflexivity|].
  split; [repeat constructor|].
  split; [reflexivity|].
  repeat constructor.
Qed.

(** ** Termination of the descent *)

Lemma apply_tile_unfold fuel c node :
  apply_tile (S fuel) c node =
  if node_skipped c node then Ret c else
  tile ← array_get (tiles c) (n_tile node);
  ntests ← to_int (mini (t_nsubpts tile)
                        (node_threshold c tile (n_level node)));
  c1 ← for_upto ntests
         (tile_body tile (n_x node) (n_y node) (tile_size c (n_level node))
            (node_factor c (n_level node)) (n_level node)) c;
  if fleb (node_threshold c tile (n_level node)) (of_int (t_nsubpts tile))
  then Ret c1
  else kids ← spawn_children c1 tile (n_x node) (n_y node)
                (fdiv (tile_size c (n_level node)) (of_int (nsubtiles c)))
                (n_level node + 1);
       visit (apply_tile fuel) kids c1.
Proof. reflexivity. Qed.

Lemma for_loop_total {St} (I : Z -> St -> Prop)
    (body : Z -> St -> outcome St) n : forall i s,
  I i s ->
  (forall j s0, i <= j < i + Z.of_nat n -> I j s0 ->
     exists s', body j s0 = Ret s' /\ I (j + 1) s') ->
  exists s', for_loop n i body s = Ret s' /\ I (i + Z.of_nat n) s'.
Proof.
  induction n as [|n IH]; intros i s HI Hstep.
  - exists s. split; [reflexivity|].
    replace (i + Z.of_nat 0) with i by lia. exact HI.
  - destruct (Hstep i s ltac:(lia) HI) as (s1 & Hb & HI1).
    destruct (IH (i + 1) s1 HI1) as (s' & Hrun & HI').
    { intros j s0 Hj. apply Hstep. lia. }
    exists s'. cbn [for_loop]. rewrite Hb, bind_Ret_l.
    split; [exact Hrun|].
    replace (i + Z.of_nat (S n)) with (i + 1 + Z.of_nat n) by lia.
    exact HI'.
Qed.

(** In the unit square the sample is defined. *)
Lemma sample_density_returns c x y :
  field_ok c -> (0 <= x <= 1)%Q -> (0 <= y <= 1)%Q ->
  exists s, sample_density c (Fin x) (Fin y) = Ret s.
Proof.
  unfold field_ok. intros Hf Hx Hy.
  destruct (density c) as [dens|] eqn:Hd.
  - destruct Hf as (Hw & Hh & Hwh & Hlen).
    destruct (sample_density_in_grid c dens x y Hd) as
      (_ & _ & v & _ & _ & _ & Hs);
      first [assumption | unfold INT_MAX in *; nia | eauto].
  - exists f1. apply sample_density_no_field, Hd.
Qed.

Lemma unit_view_store c c' : same_store c c' -> unit_view c -> unit_view c'.
Proof. intros (p & n & -> & _) H. exact H. Qed.

(** A finite point that the viewport test lets through lies in the unit
    square, when the viewport does. *)
Lemma inside_unit_view c x y :
  unit_view c -> is_finite x = true -> is_finite y = true ->
  outside c x x y y = false ->
  exists qx qy, x = Fin qx /\ y = Fin qy /\
                (0 <= qx <= 1)%Q /\ (0 <= qy <= 1)%Q.
Proof.
  intros (L & B & R & T & HL & HB & HR & HT & H0 & H1 & H2 & H3) Hx Hy Hout.
  destruct x as [qx| | |], y as [qy| | |]; try discriminate.
  exists qx, qy. split; [reflexivity|]. split; [reflexivity|].
  unfold outside, fgtb in Hout. rewrite HL, HB, HR, HT in Hout.
  cbn [fltb] in Hout. qcases; cbn in Hout; try discriminate.
  split; lra.
Qed.

Lemma same_store_length c c' :
  same_store c c' -> length (points c') = length (points c).
Proof. intros (p & n & -> & H). exact H. Qed.

Lemma emit_one_more c0 base j c v :
  one_more c0 base j c -> 0 <= base ->
  base + j < Z.of_nat (length (points c0)) ->
  exists c', emit c v = Ret c' /\ one_more c0 base (j + 1) c'.
Proof.
  intros [Hs Hn] Hb Hcap.
  destruct (emit_succeeds c v) as [c' Hc'].
  { rewrite (same_store_length _ _ Hs). lia. }
  exists c'. split; [exact Hc'|].
  apply emit_Ret in Hc' as (Hs' & Hn' & _).
  split; [eapply same_store_trans; eassumption | lia].
Qed.

Lemma one_more_skip c0 base j c :
  one_more c0 base j c -> one_more c0 base (j + 1) c.
Proof. intros [Hs Hn]. split; [exact Hs | lia]. Qed.

Lemma field_ok_store c c' : same_store c c' -> field_ok c -> field_ok c'.
Proof. intros (p & n & -> & _) H. exact H. Qed.

Lemma array_get_lookup {A} (a : list A) (i : Z) (v : A) :
  0 <= i -> a !! Z.to_nat i = Some v -> array_get a i = Ret v.
Proof.
  intros Hi Hv. unfold array_get.
  destruct (Z.ltb_spec i 0); [lia|]. rewrite Hv. reflexivity.
Qed.

Lemma tile_body_returns c0 base j c tile x y ts factor level sp :
  one_more c0 base j c -> field_ok c0 -> unit_view c0 ->
  0 <= base -> 0 <= j ->
  base + j < Z.of_nat (length (points c0)) ->
  t_subpts tile !! Z.to_nat j = Some sp -> finite2 sp ->
  is_finite x = true -> is_finite y = true -> is_finite ts = true ->
  exists c', tile_body tile x y ts factor level j c = Ret c' /\
             one_more c0 base (j + 1) c'.
Proof.
  intros Hone Hf Hv Hb Hj Hcap Hsp [Hsx Hsy] Hx Hy Hts. unfold tile_body.
  rewrite (array_get_lookup _ _ _ Hj Hsp), bind_Ret_l. cbv zeta.
  destruct (outside c _ _ _ _) eqn:Hout.
  { exists c. split; [reflexivity | apply one_more_skip, Hone]. }
  destruct (inside_unit_view c _ _
              (unit_view_store _ _ (proj1 Hone) Hv)
              (fadd_finite _ _ Hx (fmul_finite _ _ Hsx Hts))
              (fadd_finite _ _ Hy (fmul_finite _ _ Hsy Hts)) Hout)
    as (qx & qy & Ex & Ey & Hqx & Hqy).
  rewrite Ex, Ey.
  destruct (sample_density_returns c qx qy) as [s Hs];
    [eapply field_ok_store; [apply Hone | exact Hf] | assumption ..|].
  rewrite Hs, bind_Ret_l.
  destruct (fltb s _).
  { exists c. split; [reflexivity | apply one_more_skip, Hone]. }
  eapply emit_one_more; eassumption.
Qed.

Lemma root_body_returns c0 base j c tile0 factor p :
  one_more c0 base j c -> field_ok c0 -> unit_view c0 ->
  0 <= base -> 0 <= j ->
  base + j < Z.of_nat (length (points c0)) ->
  t_points tile0 !! Z.to_nat j = Some p -> finite2 p ->
  exists c', root_body tile0 factor j c = Ret c' /\
             one_more c0 base (j + 1) c'.
Proof.
  intros Hone Hf Hv Hb Hj Hcap Hp [Hpx Hpy]. unfold root_body.
  rewrite (array_get_lookup _ _ _ Hj Hp), bind_Ret_l. cbv zeta.
  destruct (outside c _ _ _ _) eqn:Hout.
  { exists c. split; [reflexivity | apply one_more_skip, Hone]. }
  destruct (inside_unit_view c _ _
              (unit_view_store _ _ (proj1 Hone) Hv) Hpx Hpy Hout)
    as (qx & qy & Ex & Ey & Hqx & Hqy).
  rewrite Ex, Ey.
  destruct (sample_density_returns c qx qy) as [s Hs];
    [eapply field_ok_store; [apply Hone | exact Hf] | assumption ..|].
  rewrite Hs, bind_Ret_l.
  destruct (fltb s _).
  { exists c. split; [reflexivity | apply one_more_skip, Hone]. }
  eapply emit_one_more; eassumption.
Qed.

(** A candidate loop over [N] indices of an array of at least [N] finite
    points returns, and adds at most [N] points. *)
Lemma candidate_loop_returns (body : Z -> par_bluenoise_context ->
                                      outcome par_bluenoise_context)
    (A : Type) (arr : list A) c0 c N :
  same_store c0 c -> 0 <= npoints c ->
  N <= Z.of_nat (length arr) ->
  npoints c + Z.max 0 N <= Z.of_nat (length (points c0)) ->
  (forall j c1 a,
     0 <= j < N -> one_more c0 (npoints c) j c1 ->
     arr !! Z.to_nat j = Some a ->
     exists c', body j c1 = Ret c' /\ one_more c0 (npoints c) (j + 1) c') ->
  exists c', for_upto N body c = Ret c' /\
             same_store c0 c' /\
             npoints c <= npoints c' <= npoints c + Z.max 0 N.
Proof.
  intros Hs Hn HN Hcap Hbody. unfold for_upto.
  destruct (for_loop_total (one_more c0 (npoints c)) body
              (Z.to_nat N) 0 c) as (c' & Hrun & [Hs' Hn']).
  - split; [exact Hs | lia].
  - intros j c1 Hj Hone.
    destruct (lookup_lt_is_Some_2 arr (Z.to_nat j)) as [a Ha]; [lia|].
    eapply Hbody; [lia | exact Hone | exact Ha].
  - exists c'. split; [exact Hrun|]. split; [exact Hs' | lia].
Qed.

Lemma child_node_returns c tile x y scale level ty tx sub :
  t_subdivs tile !! 0%nat = Some sub ->
  nsubtiles c * nsubtiles c <= Z.of_nat (length sub) ->
  0 <= ty < nsubtiles c -> 0 <= tx < nsubtiles c ->
  exists kid, child_node c tile x y scale level ty tx = Ret kid.
Proof.
  intros Hsub Hlen Hty Htx. unfold child_node.
  rewrite (array_get_lookup _ 0 sub) by (try lia; exact Hsub).
  rewrite bind_Ret_l.
  destruct (lookup_lt_is_Some_2 sub (Z.to_nat (ty * nsubtiles c + tx)))
    as [idx Hidx]; [nia|].
  rewrite (array_get_lookup _ _ idx) by (try nia; exact Hidx).
  rewrite bind_Ret_l. eauto.
Qed.

Lemma spawn_children_returns c tile x y scale level sub :
  t_subdivs tile !! 0%nat = Some sub ->
  nsubtiles c * nsubtiles c <= Z.of_nat (length sub) ->
  exists kids, spawn_children c tile x y scale level = Ret kids.
Proof.
  intros Hsub Hlen. unfold spawn_children, for_upto.
  destruct (for_loop_total (fun _ (_ : list par_node) => True)
              (fun ty acc =>
                 for_loop (Z.to_nat (nsubtiles c)) 0
                   (fun tx acc0 =>
                      child ← child_node c tile x y scale level ty tx;
                      Ret (acc0 ++ [child])) acc)
              (Z.to_nat (nsubtiles c)) 0 []) as (kids & Hk & _);
    [exact I | | eauto].
  intros ty acc Hty _.
  destruct (for_loop_total (fun _ (_ : list par_node) => True)
              (fun tx acc0 =>
                 child ← child_node c tile x y scale level ty tx;
                 Ret (acc0 ++ [child]))
              (Z.to_nat (nsubtiles c)) 0 acc) as (row & Hr & _);
    [exact I | | eauto].
  intros tx acc0 Htx _.
  destruct (child_node_returns c tile x y scale level ty tx sub Hsub Hlen)
    as [kid Hkid]; [lia | lia |].
  rewrite Hkid, bind_Ret_l. eauto.
Qed.

Lemma child_node_index c tile x y scale level ty tx kid sub :
  t_subdivs tile !! 0%nat = Some sub ->
  child_node c tile x y scale level ty tx = Ret kid ->
  n_tile kid ∈ sub.
Proof.
  intros Hsub H. unfold child_node in H.
  apply bind_Ret in H as (sub' & Hsub' & H).
  apply array_get_Ret in Hsub' as [_ Hsub'].
  change (Z.to_nat 0) with 0%nat in Hsub'.
  rewrite Hsub in Hsub'. injection Hsub' as <-.
  apply bind_Ret in H as (idx & Hidx & H).
  apply array_get_Ret in Hidx as [_ Hidx].
  injection H as <-. cbn [n_tile].
  eapply list_elem_of_lookup_2, Hidx.
Qed.

Lemma Forall2_grid_length {A} (R : Z * Z -> A -> Prop) n (l : list A) :
  0 <= n -> Forall2 R (grid n) l -> Z.of_nat (length l) = n * n.
Proof.
  intros Hn H. apply Forall2_length in H. rewrite <- H.
  apply grid_length, Hn.
Qed.

Lemma max_subpts_ge c tile :
  tile ∈ tiles c -> t_nsubpts tile <= max_subpts c.
Proof.
  unfold max_subpts. induction (tiles c) as [|t0 ts IH]; intros H.
  - apply elem_of_nil in H. contradiction.
  - cbn [fmap list_fmap foldr]. apply elem_of_cons in H as [->|H]; [lia|].
    specialize (IH H). lia.
Qed.

Lemma max_subpts_nonneg c : 0 <= max_subpts c.
Proof.
  unfold max_subpts. induction (tiles c) as [|t0 ts IH]; [reflexivity|].
  cbn [fmap list_fmap foldr]. lia.
Qed.

Lemma budget_nonneg c n : 0 <= budget c n.
Proof.
  pose proof (max_subpts_nonneg c).
  induction n as [|n IH]; cbn [budget]; [lia|]. nia.
Qed.

Lemma budget_ge c n : max_subpts c <= budget c n.
Proof.
  pose proof (budget_nonneg c). destruct n; cbn [budget]; [lia|].
  specialize (H n). nia.
Qed.

(** [depth] is the integer [nsubtiles^(2L)]. *)
Lemma node_depth_value c L :
  2 <= nsubtiles c -> 0 <= L ->
  exists p, node_depth c L = Fin p /\ (0 < p)%Q /\
            (p == inject_Z (nsubtiles c ^ (2 * L)))%Q.
Proof.
  intros Hn HL. unfold node_depth, powf.
  destruct (Z.eqb_spec (2 * L) 0) as [H0|H0].
  { exists 1%Q. split; [reflexivity|]. split; [lra|].
    rewrite H0. reflexivity. }
  unfold of_int.
  assert (Hq : ~ (inject_Z (nsubtiles c) == 0)%Q).
  { unfold Qeq. simpl. lia. }
  destruct (Qeq_bool (inject_Z (nsubtiles c)) 0) eqn:E.
  { apply Qeq_bool_iff in E. contradiction. }
  cbn [andb]. eexists. split; [reflexivity|].
  rewrite <- Zpower_Qpower by lia.
  split; [|reflexivity].
  assert (0 < nsubtiles c ^ (2 * L)) by (apply Z.pow_pos_nonneg; lia).
  change 0%Q with (inject_Z 0). rewrite <- Zlt_Qlt. lia.
Qed.

(** A level whose index has reached [k] has a depth that has reached it,
    and the search of [first_level] ends on such a level. *)
Lemma reaches_index ns k L :
  2 <= ns -> 0 <= L -> (k <= inject_Z L)%Q -> reaches ns k L = true.
Proof.
  intros Hns HL Hk. unfold reaches. apply Qle_bool_iff.
  pose proof (Z.pow_gt_lin_r ns (2 * L) ltac:(lia) ltac:(lia)).
  assert (inject_Z L <= inject_Z (ns ^ (2 * L)))%Q
    by (rewrite <- Zle_Qle; lia).
  lra.
Qed.

Lemma first_level_reaches ns k bound : forall L,
  2 <= ns -> 0 <= L -> (k <= inject_Z (L + Z.of_nat bound))%Q ->
  reaches ns k (L + Z.of_nat (first_level ns k bound L)) = true.
Proof.
  induction bound as [|bound IH]; intros L Hns HL Hk; cbn [first_level].
  - replace (L + Z.of_nat 0) with L in * by lia.
    apply reaches_index; assumption.
  - destruct (reaches ns k L) eqn:E.
    + replace (L + Z.of_nat 0) with L by lia. exact E.
    + replace (L + Z.of_nat (S (first_level ns k bound (L + 1))))
        with (L + 1 + Z.of_nat (first_level ns k bound (L + 1))) by lia.
      apply IH; [assumption | lia |].
      replace (L + 1 + Z.of_nat bound) with (L + Z.of_nat (S bound)) by lia.
      exact Hk.
Qed.

(** The threshold of a node is a number, and at most 1 once the depth has
    reached [mag * density]. *)
Lemma node_threshold_value c tile L q dq :
  2 <= nsubtiles c -> 0 <= L ->
  mag c = Fin q -> global_density c = Fin dq ->
  exists thr,
    node_threshold c tile L = Fin thr /\
    (reaches (nsubtiles c) (q * dq) L = true ->
     (thr <= 1 - inject_Z (t_npoints tile))%Q) /\
    ((0 <= q)%Q -> (0 <= dq)%Q -> (- inject_Z (t_npoints tile) <= thr)%Q).
Proof.
  intros Hn HL Hm Hd. unfold node_threshold.
  destruct (node_depth_value c L Hn HL) as (p & -> & Hp & HLp).
  rewrite Hm, Hd. rewrite fdiv_fin by lra.
  unfold of_int. cbn [fmul fsub fadd fopp].
  eexists. split; [reflexivity|].
  split.
  2: { intros Hq0 Hd0.
       assert (0 <= q / p)%Q by (apply Qle_shift_div_l; lra).
       assert (0 <= q / p * dq)%Q by (apply Qmult_le_0_compat; assumption).
       lra. }
  intros Hk. unfold reaches in Hk. apply Qle_bool_iff in Hk.
  assert (Hinv : (0 < / p)%Q) by (apply Qinv_lt_0_compat, Hp).
  assert (Hone : (p * / p == 1)%Q) by (apply Qmult_inv_r; lra).
  assert (Hle : (q * dq <= p)%Q) by lra.
  assert (Hquot : (q / p * dq <= 1)%Q).
  { unfold Qdiv.
    assert (H1 : (q * / p * dq == q * dq * / p)%Q) by ring.
    rewrite H1.
    assert (H2 : (q * dq * / p <= p * / p)%Q).
    { apply Qmult_le_compat_r; lra. }
    lra. }
  lra.
Qed.

(** The number of tests is defined when the count is a value of [int] and
    the bound is not below the least [int]. *)
Lemma ntests_returns n thr :
  INT_MIN <= n <= INT_MAX -> (inject_Z INT_MIN <= thr)%Q ->
  exists N, to_int (mini n (Fin thr)) = Ret N /\ N <= Z.max 0 n.
Proof.
  intros Hn Hthr. unfold mini.
  destruct (fltb (of_int n) (Fin thr)) eqn:E.
  - exists n. unfold of_int. rewrite to_int_Fin; rewrite Qtrunc_inject;
      [split; [reflexivity | lia] | exact Hn].
  - cbn [fltb of_int] in E. apply Qltb_ge in E.
    pose proof (Qtrunc_between INT_MIN n thr Hthr E) as Hr.
    exists (Qtrunc thr). split; [apply to_int_Fin; lia | lia].
Qed.

Section descent.
Variable c0 : par_bluenoise_context.
Variables q dq : Q.
Hypothesis Hwf : well_formed c0.
Hypothesis Hmag : mag c0 = Fin q.
Hypothesis Hden : global_density c0 = Fin dq.
Hypothesis Hq0 : (0 < q)%Q.
Hypothesis Hdq0 : (0 <= dq)%Q.
Hypothesis Hview : unit_view c0.

Lemma visit_returns (f : par_bluenoise_context -> par_node ->
                         outcome par_bluenoise_context) (B : Z)
    (Q : par_node -> Prop) :
  0 <= B ->
  (forall node c,
     Q node -> same_store c0 c -> 0 <= npoints c ->
     npoints c + B <= Z.of_nat (length (points c0)) ->
     exists c', f c node = Ret c' /\ same_store c0 c' /\
                npoints c <= npoints c' <= npoints c + B) ->
  forall kids c,
    Forall Q kids -> same_store c0 c -> 0 <= npoints c ->
    npoints c + Z.of_nat (length kids) * B
      <= Z.of_nat (length (points c0)) ->
    exists c', visit f kids c = Ret c' /\ same_store c0 c' /\
               npoints c <= npoints c'
                 <= npoints c + Z.of_nat (length kids) * B.
Proof.
  intros HB Hf kids.
  induction kids as [|kid kids IH]; intros c HQ Hs Hn Hcap.
  - exists c. split; [reflexivity|]. split; [exact Hs|]. cbn [length]. lia.
  - apply Forall_cons in HQ as [Hk HQ]. cbn [length] in *.
    rewrite Nat2Z.inj_succ in *.
    replace (Z.succ (Z.of_nat (length kids)) * B)
      with (Z.of_nat (length kids) * B + B) in * by ring.
    assert (0 <= Z.of_nat (length kids) * B) by nia.
    destruct (Hf kid c Hk Hs Hn) as (c1 & H1 & Hs1 & Hn1); [lia|].
    destruct (IH c1 HQ Hs1) as (c' & H' & Hs' & Hn'); [lia | lia |].
    exists c'. cbn [visit]. rewrite H1, bind_Ret_l.
    split; [exact H'|]. split; [exact Hs' | lia].
Qed.

(** The part of a visit before the children: the node is skipped, or its
    loop returns with at most [max_subpts] more points. *)
Lemma apply_tile_own n node c :
  0 <= n_level node ->
  0 <= n_tile node < Z.of_nat (length (tiles c0)) ->
  is_finite (n_x node) = true -> is_finite (n_y node) = true ->
  same_store c0 c -> 0 <= npoints c ->
  npoints c + max_subpts c0 <= Z.of_nat (length (points c0)) ->
  apply_tile (S n) c node = Ret c \/
  exists tile thr c1,
    tile ∈ tiles c0 /\
    (reaches (nsubtiles c0) (q * dq) (n_level node) = true ->
     (thr <= inject_Z (t_nsubpts tile))%Q) /\
    same_store c0 c1 /\
    npoints c <= npoints c1 <= npoints c + max_subpts c0 /\
    apply_tile (S n) c node =
    if fleb (Fin thr) (of_int (t_nsubpts tile)) then Ret c1 else
    kids ← node_children c1 tile node; visit (apply_tile n) kids c1.
Proof.
  destruct Hwf as (Hns & _ & Htiles & Hfin & Hfield).
  intros HL Hidx Hx Hy Hs Hn Hcap.
  rewrite apply_tile_unfold.
  destruct (same_store_fields _ _ Hs) as (Emag & Etiles & Ens & Eden).
  destruct (node_skipped c node); [left; reflexivity | right].
  destruct (lookup_lt_is_Some_2 (tiles c0) (Z.to_nat (n_tile node)))
    as [tile Htile]; [lia|].
  rewrite Etiles, (array_get_lookup _ _ tile) by (try lia; exact Htile).
  rewrite bind_Ret_l.
  pose proof (Forall_lookup_1 _ _ _ _ Htiles Htile)
    as (Hnp & Hnsub & Hsome & _).
  assert (Hnpi : t_npoints tile <= INT_MAX)
    by (unfold FLT_EXACT, INT_MAX in *; lia).
  assert (Hnsi : t_nsubpts tile <= INT_MAX)
    by (unfold FLT_EXACT, INT_MAX in *; lia).
  pose proof (list_elem_of_lookup_2 _ _ _ Htile) as Hin.
  pose proof (max_subpts_ge c0 tile Hin) as Hmax.
  destruct (node_threshold_value c tile (n_level node) q dq)
    as (thr & Hthr & Hstop & Hlow);
    [lia | exact HL | congruence | congruence |].
  rewrite Hthr.
  destruct (ntests_returns (t_nsubpts tile) thr) as (N & HN & HNle).
  { unfold INT_MIN. lia. }
  { specialize (Hlow ltac:(lra) Hdq0).
    assert (inject_Z INT_MIN <= - inject_Z (t_npoints tile))%Q.
    { rewrite <- inject_Z_opp, <- Zle_Qle. unfold INT_MIN, INT_MAX in *.
      lia. }
    lra. }
  rewrite HN, bind_Ret_l.
  destruct (candidate_loop_returns
              (tile_body tile (n_x node) (n_y node)
                 (tile_size c (n_level node))
                 (node_factor c (n_level node)) (n_level node))
              par_vec2 (t_subpts tile) c0 c N Hs Hn)
    as (c1 & Hloop & Hs1 & Hn1); [lia | lia | |].
  { intros j cj sp Hj Hone Hsp.
    eapply tile_body_returns; try eassumption; [lia | lia | |].
    - eapply tiles_finite_subpt; eassumption.
    - apply tile_size_finite. left. lia. }
  rewrite Hloop, bind_Ret_l.
  exists tile, thr, c1. split; [exact Hin|]. split; [|split; [exact Hs1|]].
  - intros Hk. rewrite <- Ens in Hk. specialize (Hstop Hk).
    assert (H1 : (inject_Z 1
                  <= inject_Z (t_npoints tile + t_nsubpts tile))%Q)
      by (rewrite <- Zle_Qle; lia).
    rewrite inject_Z_plus in H1. change (inject_Z 1) with 1%Q in H1. lra.
  - split; [lia|]. unfold node_children.
    destruct (same_store_fields _ _ Hs1) as (_ & _ & Ens1 & _).
    destruct (same_store_fields _ _ Hs) as (_ & _ & Ens0 & _).
    unfold tile_size. rewrite Ens1, Ens0. reflexivity.
Qed.

(** The children of a node with [S n] levels to spare have [n] to spare. *)
Lemma node_ok_children n node c1 tile kids :
  node_ok c0 (q * dq) (S n) node -> same_store c0 c1 ->
  tile ∈ tiles c0 ->
  node_children c1 tile node = Ret kids ->
  Forall (node_ok c0 (q * dq) n) kids /\
  Z.of_nat (length kids) = nsubtiles c0 * nsubtiles c0.
Proof.
  destruct Hwf as (Hns & _ & Htiles & Hfin & Hfield).
  intros (HL & Hk & Hidx & Hx & Hy) Hs1 Hin Hkids.
  destruct (same_store_fields _ _ Hs1) as (_ & _ & Ens1 & _).
  rewrite Forall_forall in Htiles.
  destruct (Htiles tile Hin)
    as (_ & _ & _ & sub & Hsub & _ & Hsubidx).
  split.
  - unfold node_children in Hkids.
    eapply spawn_children_Forall; [exact Hkids|].
    intros ty tx kid Hty Htx Hkid.
    pose proof (child_node_index _ _ _ _ _ _ _ _ _ _ Hsub Hkid) as Hi.
    rewrite Forall_forall in Hsubidx. specialize (Hsubidx _ Hi).
    apply child_node_finite in Hkid as (Hkx & Hky & Hkl);
      [| assumption | assumption | apply tile_size_finite; left; lia | lia].
    repeat split; try assumption; try lia.
    rewrite Hkl.
    replace (n_level node + 1 + Z.of_nat n)
      with (n_level node + Z.of_nat (S n)) by lia.
    exact Hk.
  - apply node_children_grid in Hkids.
    apply Forall2_grid_length in Hkids; [|lia].
    rewrite Ens1 in Hkids. lia.
Qed.

Lemma apply_tile_returns n : forall node c,
  node_ok c0 (q * dq) n node -> same_store c0 c -> 0 <= npoints c ->
  npoints c + budget c0 n <= Z.of_nat (length (points c0)) ->
  exists c', apply_tile (S n) c node = Ret c' /\ same_store c0 c' /\
             npoints c <= npoints c' <= npoints c + budget c0 n.
Proof.
  induction n as [|n IH]; intros node c Hok Hs Hn Hcap.
  - pose proof (budget_ge c0 0) as Hbg.
    pose proof (max_subpts_nonneg c0) as Hm0.
    destruct Hok as (HL & Hk & Hidx & Hx & Hy).
    destruct (apply_tile_own 0 node c HL Hidx Hx Hy Hs Hn)
      as [->|(tile & thr & c1 & Hin & Hstop & Hs1 & Hn1 & ->)]; [lia | |].
    { exists c. split; [reflexivity|]. split; [exact Hs | lia]. }
    replace (n_level node + Z.of_nat 0) with (n_level node) in Hk by lia.
    apply Hstop, fleb_Fin in Hk. unfold of_int. rewrite Hk.
    exists c1. split; [reflexivity|]. split; [exact Hs1 | lia].
  - pose proof (budget_ge c0 (S n)) as Hbg.
    pose proof (budget_nonneg c0 n) as Hbn.
    pose proof (max_subpts_nonneg c0) as Hm0.
    pose proof Hok as (HL & Hk & Hidx & Hx & Hy).
    destruct (apply_tile_own (S n) node c HL Hidx Hx Hy Hs Hn)
      as [->|(tile & thr & c1 & Hin & Hstop & Hs1 & Hn1 & ->)]; [lia | |].
    { exists c. split; [reflexivity|]. split; [exact Hs | lia]. }
    destruct (fleb (Fin thr) (of_int (t_nsubpts tile))).
    { exists c1. split; [reflexivity|]. split; [exact Hs1 | lia]. }
    destruct Hwf as (Hns & _ & Htiles & _).
    rewrite Forall_forall in Htiles.
    destruct (Htiles tile Hin)
      as (_ & _ & _ & sub & Hsub & Hsublen & _).
    destruct (spawn_children_returns c1 tile (n_x node) (n_y node)
                (fdiv (tile_size c1 (n_level node)) (of_int (nsubtiles c1)))
                (n_level node + 1) sub Hsub) as [kids Hkids].
    { destruct (same_store_fields _ _ Hs1) as (_ & _ & -> & _).
      exact (proj1 Hsublen). }
    fold (node_children c1 tile node) in Hkids.
    rewrite Hkids, bind_Ret_l.
    destruct (node_ok_children n node c1 tile kids Hok Hs1 Hin Hkids)
      as [Hkok Hlen].
    cbn [budget] in Hcap |- *.
    destruct (visit_returns (apply_tile (S n)) (budget c0 n)
                (node_ok c0 (q * dq) n) Hbn IH kids c1 Hkok Hs1)
      as (c' & Hv & Hs' & Hn'); [lia | rewrite Hlen; lia |].
    exists c'. split; [exact Hv|]. split; [exact Hs'|].
    rewrite Hlen in Hn'. lia.
Qed.

End descent.

Lemma root_pass_returns c q dq :
  well_formed c -> mag c = Fin q -> global_density c = Fin dq ->
  (0 < q)%Q -> (0 <= dq)%Q -> unit_view c ->
  0 <= npoints c ->
  forall tile0, tiles c !! 0%nat = Some tile0 ->
  npoints c + t_npoints tile0 <= Z.of_nat (length (points c)) ->
  exists c1, root_pass c = Ret c1 /\ same_store c c1 /\
             npoints c <= npoints c1 <= npoints c + t_npoints tile0.
Proof.
  intros (Hns & _ & Htiles & Hfin & Hfield) Hm Hd Hq0 Hdq0 Hview Hn
         tile0 Htile Hcap.
  unfold root_pass.
  rewrite (array_get_lookup _ 0 tile0) by (try lia; exact Htile).
  rewrite bind_Ret_l, Hm, Hd. cbn [fmul].
  pose proof (Forall_lookup_1 _ _ _ _ Htiles Htile)
    as (Hnp & Hnsub0 & Hnpi0 & _).
  assert (Hnpi : t_npoints tile0 <= INT_MAX)
    by (unfold FLT_EXACT, INT_MAX in *; lia).
  destruct (ntests_returns (t_npoints tile0) (q * dq)) as (N & HN & HNle).
  { unfold INT_MIN. lia. }
  { assert (0 <= q * dq)%Q by (apply Qmult_le_0_compat; lra).
    assert (inject_Z INT_MIN <= 0)%Q by (unfold INT_MIN; discriminate).
    lra. }
  rewrite HN, bind_Ret_l.
  destruct (candidate_loop_returns
              (root_body tile0 (fdiv (fdiv f1 (Fin q)) (Fin dq)))
              par_vec2 (t_points tile0) c c N (same_store_refl c) Hn)
    as (c1 & Hloop & Hs1 & Hn1); [lia | lia | |].
  { intros j cj p Hj Hone Hp.
    eapply root_body_returns; try eassumption; [lia | lia |].
    eapply tiles_finite_point; eassumption. }
  exists c1. split; [exact Hloop|]. split; [exact Hs1 | lia].
Qed.

Lemma budget_store c c' n :
  tiles c' = tiles c -> nsubtiles c' = nsubtiles c ->
  budget c' n = budget c n.
Proof.
  intros Ht Hn. induction n as [|n IH]; cbn [budget]; unfold max_subpts.
  - rewrite Ht. reflexivity.
  - rewrite Ht, Hn, IH. reflexivity.
Qed.

Lemma well_formed_request ctx d l b r t :
  well_formed ctx -> well_formed (begin_request ctx d l b r t).
Proof. intros H. exact H. Qed.

(** The height of the viewport is not zero: [mag] is a positive number. *)
Lemma mag_finite b t :
  is_finite b = true -> is_finite t = true -> ~ feq b t ->
  exists q, spec_mag b t = Fin q /\ (0 < q)%Q.
Proof.
  destruct b as [bq| | |], t as [tq| | |]; try discriminate.
  intros _ _ Hne. cbn [feq] in Hne.
  unfold spec_mag, translate, half, fsub. cbn [fadd fopp]. unfold powf.
  change (-2 =? 0) with false. change (-2 <? 0) with true. cbv iota.
  rewrite andb_true_r.
  destruct (Qeq_bool (tq + (1 # 2) + - (bq + (1 # 2))) 0) eqn:E.
  { apply Qeq_bool_iff in E. exfalso. apply Hne. lra. }
  eexists. split; [reflexivity|].
  apply Qpower_neg2. apply Qeq_bool_false in E. exact E.
Qed.

Lemma levels_reach c q dq b t d :
  2 <= nsubtiles c -> spec_mag b t = Fin q -> d = Fin dq ->
  reaches (nsubtiles c) (q * dq) (0 + Z.of_nat (levels c d b t)) = true.
Proof.
  intros Hns Hm ->. unfold levels, request_size. rewrite Hm. cbn [fmul].
  apply first_level_reaches; [assumption | lia |].
  destruct (Qlt_le_dec (q * dq) 0) as [Hneg|Hpos].
  - assert (inject_Z 0 <= inject_Z (0 + Z.of_nat
              (Z.to_nat (Qtrunc (q * dq) + 1))))%Q
      by (rewrite <- Zle_Qle; lia).
    change (inject_Z 0) with 0%Q in H. lra.
  - pose proof (Qtrunc_lt _ Hpos) as Hlt.
    assert (0 <= Qtrunc (q * dq)).
    { rewrite <- (Qtrunc_inject 0). apply Qtrunc_mono.
      change (inject_Z 0) with 0%Q. exact Hpos. }
    replace (0 + Z.of_nat (Z.to_nat (Qtrunc (q * dq) + 1)))
      with (Qtrunc (q * dq) + 1) by lia.
    lra.
Qed.

Lemma clamp01_range a :
  is_nan a = false -> exists q, clamp a f0 f1 = Fin q /\ (0 <= q <= 1)%Q.
Proof.
  intros Ha. unfold clamp, fgtb, f0, f1.
  destruct a as [q| | |]; try discriminate; cbn [fltb].
  - unfold Qltb.
    destruct (Qle_bool 0 q) eqn:E1; cbn [negb].
    + destruct (Qle_bool q 1) eqn:E2; cbn [negb].
      * exists q. apply Qle_bool_iff in E1, E2. split; [reflexivity | lra].
      * exists 1%Q. split; [reflexivity | lra].
    + exists 0%Q. split; [reflexivity | lra].
  - exists 1%Q. split; [reflexivity | lra].
  - exists 0%Q. split; [reflexivity | lra].
Qed.

Lemma separated_finite b t :
  separated b t ->
  is_finite b = true /\ is_finite t = true /\ ~ feq b t.
Proof.
  destruct b as [qb| | |], t as [qt| | |]; cbn [separated]; try tauto.
  intros H. split; [reflexivity|]. split; [reflexivity|].
  cbn [feq]. intros Heq.
  assert (E : (Qabs (qt - qb) == 0)%Q).
  { assert (E0 : (qt - qb == 0)%Q) by lra. rewrite E0. reflexivity. }
  pose proof (Qabs_nonneg qb). pose proof (Qabs_nonneg qt). lra.
Qed.

(** The request that [generate] sets up has its viewport in the unit
    square, when the left and the right bound are numbers and the bottom
    and the top are finite. *)
Lemma begin_request_unit_view ctx d l b r t :
  is_nan l = false -> is_nan b = false ->
  is_nan r = false -> is_nan t = false ->
  unit_view (begin_request ctx d l b r t).
Proof.
  intros Hl Hb Hr Ht.
  destruct (clamp01_range (fadd l half) (fadd_half_not_nan _ Hl))
    as (L & EL & HL).
  destruct (clamp01_range (fadd b half) (fadd_half_not_nan _ Hb))
    as (B & EB & HB).
  destruct (clamp01_range (fadd r half) (fadd_half_not_nan _ Hr))
    as (R & ER & HR).
  destruct (clamp01_range (fadd t half) (fadd_half_not_nan _ Ht))
    as (T & ET & HT).
  exists L, B, R, T. unfold begin_request.
  cbn [left bottom right top set_request].
  repeat split; try assumption; lra.
Qed.

(** With a bottom and a top that stay apart as [float]s, left and right
    bounds that are numbers, a density that is a number of 0 or above and
    room in the output buffer, [generate] returns: [levels] levels of fuel
    are enough. *)
Lemma generate_returns ctx dq l b r t :
  well_formed ctx ->
  separated b t -> is_nan l = false -> is_nan r = false ->
  (0 <= dq)%Q ->
  capacity ctx (Fin dq) b t <= Z.of_nat (length (points ctx)) ->
  exists c',
    par_bluenoise_generate (S (levels ctx (Fin dq) b t)) ctx (Fin dq)
      l b r t = Ret c'.
Proof.
  intros Hwf Hsep Hl Hr Hdq0 Hcap.
  destruct (separated_finite b t Hsep) as (Hb & Ht & Hne).
  destruct (mag_finite b t Hb Ht Hne) as (q & Hq & Hq0).
  set (c0 := begin_request ctx (Fin dq) l b r t).
  pose proof (well_formed_request ctx (Fin dq) l b r t Hwf) as Hwf0.
  fold c0 in Hwf0.
  assert (Hm0 : mag c0 = Fin q) by exact Hq.
  assert (Hd0 : global_density c0 = Fin dq) by reflexivity.
  assert (Hview : unit_view c0).
  { apply begin_request_unit_view; try assumption;
      apply is_finite_not_nan; assumption. }
  unfold capacity in Hcap.
  destruct (tiles ctx) as [|tile0 rest] eqn:Etiles.
  { destruct Hwf as (_ & Hnil & _). contradiction. }
  assert (Htile : tiles c0 !! 0%nat = Some tile0).
  { change (tiles c0) with (tiles ctx). rewrite Etiles. reflexivity. }
  pose proof (budget_nonneg ctx (levels ctx (Fin dq) b t)) as Hbn.
  destruct (root_pass_returns c0 q dq Hwf0 Hm0 Hd0 Hq0 Hdq0 Hview
              ltac:(reflexivity) tile0 Htile) as (c1 & Hroot & Hs1 & Hn1).
  { change (npoints c0) with 0. change (points c0) with (points ctx). lia. }
  unfold par_bluenoise_generate. fold c0. rewrite Hroot, bind_Ret_l.
  change (npoints c0) with 0 in Hn1.
  destruct (apply_tile_returns c0 q dq Hwf0 Hm0 Hd0 Hq0 Hdq0 Hview
              (levels ctx (Fin dq) b t) root_node c1)
    as (c' & Hrun & _); [| exact Hs1 | lia | | eauto].
  - split; [reflexivity|]. split; [|split; [|split; reflexivity]].
    + apply (levels_reach ctx); [apply Hwf | exact Hq | reflexivity].
    + change (tiles c0) with (tiles ctx). rewrite Etiles.
      cbn [length n_tile root_node]. lia.
  - rewrite (budget_store ctx c0) by reflexivity.
    change (points c0) with (points ctx). lia.
Qed.


(** ** Degenerate viewports *)

(** C7 does not hold as stated: with [left = right = -1/4] the viewport is
    degenerate, and [generate] returns one point, the root point that the
    tile holds at (1/4, 1/4): it comes out at (-1/4, -1/4), on the line of
    the viewport. *)
Lemma degenerate_viewport_returns_a_point :
  exists c',
    par_bluenoise_generate 1 sub_ctx (Fin 1)
      (Fin (-1 # 4)) (Fin (-1 # 2)) (Fin (-1 # 4)) (Fin (1 # 2)) = Ret c' /\
    npoints c' = 1 /\
    Forall2 vec3_eq (emitted c') [ mk_vec3 (-1 # 4) (-1 # 4) 0 ].
Proof.
  eexists. split; [vm_compute; reflexivity|].
  split; [reflexivity | repeat constructor].
Qed.

Lemma clamp_feq a a' : feq a a' -> feq (clamp a f0 f1) (clamp a' f0 f1).
Proof.
  intros H. unfold clamp, fgtb.
  rewrite (fltb_feq a a' f0 f0 H (reflexivity _)).
  rewrite (fltb_feq f1 f1 a a' (reflexivity _) H).
  destruct (fltb a' f0); [reflexivity|].
  destruct (fltb f1 a'); [reflexivity | exact H].
Qed.

Lemma between_feq a b x :
  feq a b -> fleb a x = true -> fleb x b = true -> feq x a.
Proof. destruct a, b, x; fsimp; fdone. Qed.

Lemma in_viewport_line_x l b r t v :
  feq l r -> in_viewport l b r t v -> feq (fadd (px v) half) l.
Proof.
  unfold in_viewport, inside. intros Hlr H.
  apply andb_prop in H as [H _]. apply andb_prop in H as [H _].
  apply andb_prop in H as [H1 H2]. eapply between_feq; eassumption.
Qed.

Lemma in_viewport_line_y l b r t v :
  feq b t -> in_viewport l b r t v -> feq (fadd (py v) half) b.
Proof.
  unfold in_viewport, inside. intros Hbt H.
  apply andb_prop in H as [H H4]. apply andb_prop in H as [_ H3].
  eapply between_feq; eassumption.
Qed.

(** Whatever [generate] returns for a degenerate viewport lies on the line
    the viewport degenerates to. *)
Lemma returned_points_on_line fuel ctx d l b r t c' :
  tiles_finite (tiles ctx) ->
  is_nan l = false -> is_nan b = false ->
  is_nan r = false -> is_nan t = false ->
  par_bluenoise_generate fuel ctx d l b r t = Ret c' ->
  forall v, v ∈ emitted c' ->
    (feq l r -> feq (fadd (px v) half) (clamp01 (translate l))) /\
    (feq b t -> feq (fadd (py v) half) (clamp01 (translate b))).
Proof.
  intros Hts Hl Hb Hr Ht Hgen v Hv.
  pose proof (generate_contained _ _ _ _ _ _ _ _ Hts Hl Hb Hr Ht Hgen) as H.
  rewrite Forall_forall in H. specialize (H v Hv).
  split; intros Heq.
  - eapply in_viewport_line_x; [|exact H].
    apply clamp_feq, fadd_feq; [exact Heq | reflexivity].
  - eapply in_viewport_line_y; [|exact H].
    apply clamp_feq, fadd_feq; [exact Heq | reflexivity].
Qed.

(** A number whose translate is the clamped translate of [ql] is [ql]
    brought into [[-1/2, 1/2]]. *)
Lemma clamped_line a ql :
  feq (fadd a half) (clamp01 (translate (Fin ql))) ->
  exists x, a = Fin x /\ (x == Qmax (- (1 # 2)) (Qmin (1 # 2) ql))%Q.
Proof.
  unfold clamp01, translate, clamp, fgtb, half, f0, f1. cbn [fadd fltb].
  intros H.
  pose proof (Q.min_spec (1 # 2) ql) as Hm.
  pose proof (Q.max_spec (- (1 # 2)) (Qmin (1 # 2) ql)) as HM.
  set (m := Qmin (1 # 2) ql) in *.
  set (M := Qmax (- (1 # 2)) m) in *.
  destruct a as [x| | |]; qcases; cbn [fadd feq] in H;
    try contradiction; exists x; (split; [reflexivity|]);
    destruct Hm as [[? ?] | [? ?]]; destruct HM as [[? ?] | [? ?]]; lra.
Qed.

(** C7, amended.  With a viewport of zero width ([left == right]) whose
    bottom and top stay apart as [float]s, a density that is a number of 0
    or above, a well-formed tileset and room in the output buffer,
    [generate] returns, and every point it returns lies on the line of the
    viewport: its [x] is [left] brought into [[-1/2, 1/2]], which is [left]
    itself for a bound inside the unit square.  So the call returns zero
    points unless an accepted candidate lies exactly on that line. *)
Theorem degenerate_viewport_on_line ctx dq ql qr b t :
  well_formed ctx ->
  (ql == qr)%Q -> separated b t -> (0 <= dq)%Q ->
  capacity ctx (Fin dq) b t <= Z.of_nat (length (points ctx)) ->
  exists c',
    par_bluenoise_generate (S (levels ctx (Fin dq) b t)) ctx (Fin dq)
      (Fin ql) b (Fin qr) t = Ret c' /\
    forall v, v ∈ emitted c' ->
      exists x, px v = Fin x /\
                (x == Qmax (- (1 # 2)) (Qmin (1 # 2) ql))%Q.
Proof.
  intros Hwf Hlr Hsep Hdq Hcap.
  destruct (generate_returns ctx dq (Fin ql) b (Fin qr) t Hwf Hsep
              eq_refl eq_refl Hdq Hcap) as [c' Hgen].
  exists c'. split; [exact Hgen|]. intros v Hv.
  destruct (separated_finite b t Hsep) as (Hb & Ht & _).
  destruct Hwf as (_ & _ & _ & Hfin & _).
  apply clamped_line.
  eapply returned_points_on_line; try exact Hgen; try exact Hv;
    try (apply is_finite_not_nan; assumption);
    first [assumption | reflexivity].
Qed.

Lemma sub_ctx_well_formed : well_formed sub_ctx.
Proof.
  split; [cbn; lia|]. split; [discriminate|].
  split; [|split; [repeat constructor | exact I]].
  constructor; [|constructor].
  split; [cbn; lia|]. split; [cbn; lia|].
  split; [cbn; unfold FLT_EXACT; lia|].
  eexists. split; [reflexivity|]. split; [cbn; unfold INT_MAX; lia|].
  repeat (apply Forall_cons; split; [cbn; lia|]). constructor.
Qed.

Lemma degenerate_viewport_on_line_witness :
  separated (Fin (-1 # 2)) (Fin (1 # 2)) /\
  exists c',
    par_bluenoise_generate 1 sub_ctx (Fin 1)
      (Fin (-1 # 4)) (Fin (-1 # 2)) (Fin (-1 # 4)) (Fin (1 # 2)) = Ret c' /\
    emitted c' <> [] /\
    forall v, v ∈ emitted c' ->
      exists x, px v = Fin x /\
                (x == Qmax (- (1 # 2)) (Qmin (1 # 2) (-1 # 4)))%Q.
Proof.
  assert (Hsep : separated (Fin (-1 # 2)) (Fin (1 # 2))).
  { cbn [separated]. vm_compute. discriminate. }
  split; [exact Hsep|].
  destruct (degenerate_viewport_on_line sub_ctx 1
              (-1 # 4) (-1 # 4) (Fin (-1 # 2)) (Fin (1 # 2)))
    as (c' & Hgen & Hline);
    [exact sub_ctx_well_formed | reflexivity | exact Hsep | | |].
  - vm_compute. discriminate.
  - vm_compute. discriminate.
  - exists c'. split; [exact Hgen|]. split; [|exact Hline].
    change (S (levels sub_ctx (Fin 1) (Fin (-1 # 2)) (Fin (1 # 2))))
      with 1%nat in Hgen.
    vm_compute in Hgen. injection Hgen as <-. discriminate.
Defined.

(** ** Two runs on the same store *)

Lemma agree_refl c : agree c c.
Proof. exists (points c). destruct c; auto. Qed.

Lemma agree_out_refl o : agree_out o o.
Proof. destruct o; simpl; auto using agree_refl. Qed.

Lemma emit_agree c1 c2 v : agree c1 c2 -> agree_out (emit c1 v) (emit c2 v).
Proof.
  intros (p & -> & Hlen & Htake). unfold emit. cbn [npoints points set_points].
  rewrite Hlen.
  destruct ((0 <=? npoints c1) && (npoints c1 <? Z.of_nat (length (points c1))))
    eqn:E; [|exact I].
  apply andb_prop in E as [E1 E2].
  apply Z.leb_le in E1. apply Z.ltb_lt in E2.
  cbn [agree_out]. eexists. split; [reflexivity|].
  cbn [points npoints set_points]. rewrite !length_insert.
  split; [exact Hlen|]. unfold emitted. cbn [points npoints set_points].
  replace (Z.to_nat (npoints c1 + 1)) with (S (Z.to_nat (npoints c1))) by lia.
  rewrite !(take_S_r _ _ v) by (apply list_lookup_insert_eq; lia).
  rewrite !take_insert_ge by lia. rewrite Htake. reflexivity.
Qed.

Lemma bind_agree (m1 m2 : outcome par_bluenoise_context)
    (k1 k2 : par_bluenoise_context -> outcome par_bluenoise_context) :
  agree_out m1 m2 ->
  (forall a b, agree a b -> agree_out (k1 a) (k2 b)) ->
  agree_out (a ← m1; k1 a) (b ← m2; k2 b).
Proof.
  intros Hm Hk. destruct m1, m2; simpl in *; try contradiction; auto.
Qed.

Lemma for_loop_agree body n : forall i c1 c2,
  (forall j a b, agree a b -> agree_out (body j a) (body j b)) ->
  agree c1 c2 ->
  agree_out (for_loop n i body c1) (for_loop n i body c2).
Proof.
  induction n as [|n IH]; intros i c1 c2 Hbody Hc; cbn [for_loop].
  - exact Hc.
  - apply bind_agree; [apply Hbody, Hc|].
    intros a b Hab. apply IH; assumption.
Qed.

Lemma candidate_body_agree
    (cand : par_bluenoise_context -> Z -> outcome (option par_vec3)) j a b :
  (forall c p n i, cand (set_points c p n) i = cand c i) ->
  agree a b ->
  agree_out (o ← cand a j; match o with None => Ret a | Some v => emit a v end)
            (o ← cand b j; match o with None => Ret b | Some v => emit b v end).
Proof.
  intros Hcand Hab. pose proof Hab as (p & -> & _).
  rewrite Hcand. destruct (cand a j) as [[v|]| | |]; simpl; auto.
  apply emit_agree, Hab.
Qed.

Lemma visit_agree f kids : forall c1 c2,
  (forall k a b, agree a b -> agree_out (f a k) (f b k)) ->
  agree c1 c2 ->
  agree_out (visit f kids c1) (visit f kids c2).
Proof.
  induction kids as [|k ks IH]; intros c1 c2 Hf Hc; cbn [visit].
  - exact Hc.
  - apply bind_agree; [apply Hf, Hc|]. intros a b Hab. apply IH; assumption.
Qed.

Lemma apply_tile_agree fuel : forall node c1 c2,
  agree c1 c2 ->
  agree_out (apply_tile fuel c1 node) (apply_tile fuel c2 node).
Proof.
  induction fuel as [|fuel IH]; intros node c1 c2 Hc; [exact I|].
  pose proof Hc as (p & -> & _). cbn [apply_tile].
  cbn [nsubtiles mag global_density tiles set_points].
  change (outside (set_points c1 p (npoints c1))) with (outside c1).
  destruct (outside c1 _ _ _ _); [exact Hc|].
  destruct (array_get (tiles c1) (n_tile node)) as [tile| | |]; simpl; auto.
  destruct (to_int _) as [ntests| | |]; simpl; auto.
  apply bind_agree.
  - unfold for_upto. apply for_loop_agree; [|exact Hc].
    intros j a b Hab. rewrite !tile_body_candidate.
    apply candidate_body_agree; [|exact Hab].
    intros; apply tile_candidate_store.
  - intros a b Hab. destruct (fleb _ _); [exact Hab|].
    pose proof Hab as (q & -> & _). rewrite spawn_children_store.
    destruct (spawn_children a _ _ _ _ _) as [kids| | |]; simpl; auto.
    apply visit_agree; [|exact Hab]. intros k a' b' Hab'. apply IH, Hab'.
Qed.

Lemma root_pass_agree c1 c2 :
  agree c1 c2 -> agree_out (root_pass c1) (root_pass c2).
Proof.
  intros Hc. pose proof Hc as (p & -> & _). unfold root_pass.
  cbn [tiles mag global_density set_points].
  destruct (array_get (tiles c1) 0) as [tile0| | |]; simpl; auto.
  destruct (to_int _) as [ntests| | |]; simpl; auto.
  unfold for_upto. apply for_loop_agree; [|exact Hc].
  intros j a b Hab. rewrite !root_body_candidate.
  apply candidate_body_agree; [|exact Hab].
  intros; apply root_candidate_store.
Qed.

Lemma begin_request_agree c c' d l b r t :
  unchanged_store c c' ->
  agree (begin_request c d l b r t) (begin_request c' d l b r t).
Proof.
  intros (H1 & H2 & H3 & H4 & H5 & H6 & H7 & H8 & H9).
  exists (points c'). unfold begin_request, set_request, set_points.
  cbn [points tiles global_density left bottom right top ntiles nsubtiles
       nsubdivs npoints maxpoints density_width density_height density mag].
  rewrite H1, H2, H3, H4, H5, H6, H7, H8.
  split; [reflexivity|]. split; [exact H9 | reflexivity].
Qed.

Lemma same_store_unchanged c c' : same_store c c' -> unchanged_store c c'.
Proof. intros (p & n & -> & Hlen). repeat split. exact Hlen. Qed.

Lemma unchanged_store_trans c1 c2 c3 :
  unchanged_store c1 c2 -> unchanged_store c2 c3 -> unchanged_store c1 c3.
Proof.
  unfold unchanged_store. intros H1 H2.
  repeat match goal with H : _ /\ _ |- _ => destruct H end.
  repeat split; congruence.
Qed.

Lemma generate_unchanged fuel c d l b r t c1 :
  par_bluenoise_generate fuel c d l b r t = Ret c1 -> unchanged_store c c1.
Proof.
  unfold par_bluenoise_generate. intros H.
  apply bind_Ret in H as (c0 & Hroot & Htile).
  apply (root_pass_extends (fun _ => True)) in Hroot; [|auto].
  assert (Ht : extends_by (fun _ => True) c0 c1).
  { eapply (apply_tile_extends (fun _ => True) (fun _ _ => True));
      eauto.
    intros. apply Forall_forall. auto. }
  eapply unchanged_store_trans;
    [|apply same_store_unchanged;
      eapply same_store_trans; [apply Hroot | apply Ht]].
  repeat split.
Qed.

Lemma generate_agree fuel c c' d l b r t :
  unchanged_store c c' ->
  agree_out (par_bluenoise_generate fuel c d l b r t)
            (par_bluenoise_generate fuel c' d l b r t).
Proof.
  intros H. unfold par_bluenoise_generate.
  apply bind_agree.
  - apply root_pass_agree, begin_request_agree, H.
  - intros a1 a2 Hab. apply apply_tile_agree, Hab.
Qed.

Lemma unchanged_store_refl c : unchanged_store c c.
Proof. repeat split. Qed.

(** C6.  A second call of [generate] with the same arguments, on the
    context the first call left behind or on any context with the same
    tileset, density field and capacity, returns the same count and the
    same points with the same ranks: the output of the first call is
    written over, not added to. *)
Theorem generate_twice fuel ctx d l b r t c1 ctx' :
  par_bluenoise_generate fuel ctx d l b r t = Ret c1 ->
  unchanged_store c1 ctx' ->
  exists c2,
    par_bluenoise_generate fuel ctx' d l b r t = Ret c2 /\
    npoints c2 = npoints c1 /\
    emitted c2 = emitted c1.
Proof.
  intros H1 Hun.
  pose proof (generate_agree fuel ctx ctx' d l b r t
                (unchanged_store_trans _ _ _
                   (generate_unchanged _ _ _ _ _ _ _ _ H1) Hun)) as H.
  rewrite H1 in H.
  destruct (par_bluenoise_generate fuel ctx' d l b r t) as [c2| | |];
    simpl in H; try contradiction.
  exists c2. split; [reflexivity|].
  destruct H as (p & -> & _ & Htake). split; [reflexivity|].
  unfold emitted at 1. exact Htake.
Qed.

Lemma generate_twice_witness :
  exists c1 c2,
    par_bluenoise_generate 1 (scenario_ctx 8) (Fin 4)
      (Fin (-1 # 2)) (Fin (-1 # 2)) (Fin (1 # 2)) (Fin (1 # 2)) = Ret c1 /\
    npoints c1 = 4 /\
    par_bluenoise_generate 1 c1 (Fin 4)
      (Fin (-1 # 2)) (Fin (-1 # 2)) (Fin (1 # 2)) (Fin (1 # 2)) = Ret c2 /\
    npoints c2 = npoints c1 /\
    emitted c2 = emitted c1.
Proof.
  destruct (generate_twice 1 (scenario_ctx 8) (Fin 4)
              (Fin (-1 # 2)) (Fin (-1 # 2)) (Fin (1 # 2)) (Fin (1 # 2))
              _ _ eq_refl (unchanged_store_refl _)) as (c2 & H2 & Hn & He).
  eexists _, c2. split; [reflexivity|]. split; [reflexivity|].
  split; [exact H2|]. split; [exact Hn | exact He].
Defined.

(** ** Monotonicity in the density *)

Lemma denser_store c1 c2 c1' c2' :
  denser c1 c2 -> same_store c1 c1' -> same_store c2 c2' -> denser c1' c2'.
Proof.
  intros H (p1 & n1 & -> & _) (p2 & n2 & -> & _). exact H.
Qed.

Lemma denser_outside c1 c2 lox hix loy hiy :
  denser c1 c2 -> outside c2 lox hix loy hiy = outside c1 lox hix loy hiy.
Proof.
  intros (_ & _ & Hl & Hb & Hr & Ht & _). unfold outside.
  rewrite Hl, Hb, Hr, Ht. reflexivity.
Qed.

Lemma denser_sample c1 c2 x y :
  denser c1 c2 -> sample_density c2 x y = sample_density c1 x y.
Proof.
  intros (_ & _ & _ & _ & _ & _ & _ & Hd & Hw & Hh & _).
  unfold sample_density. rewrite Hd, Hw, Hh. reflexivity.
Qed.

Lemma denser_tile_size c1 c2 L :
  denser c1 c2 -> tile_size c2 L = tile_size c1 L.
Proof. intros (_ & Hn & _). unfold tile_size. rewrite Hn. reflexivity. Qed.

Lemma denser_depth c1 c2 L :
  denser c1 c2 -> node_depth c2 L = node_depth c1 L.
Proof. intros (_ & Hn & _). unfold node_depth. rewrite Hn. reflexivity. Qed.

Lemma denser_skipped c1 c2 node :
  denser c1 c2 -> node_skipped c2 node = node_skipped c1 node.
Proof.
  intros H. unfold node_skipped.
  rewrite (denser_tile_size _ _ _ H). apply denser_outside, H.
Qed.

Lemma denser_children c1 c2 tile node :
  denser c1 c2 -> node_children c2 tile node = node_children c1 tile node.
Proof.
  intros H. unfold node_children. rewrite (denser_tile_size _ _ _ H).
  destruct H as (_ & Hn & _).
  unfold spawn_children, child_node. rewrite Hn. reflexivity.
Qed.

(** Counting the accepted candidates of two loops, the second of which
    looks at least as far and accepts whatever the first accepts. *)
Lemma accepted_count_mono {A} (P1 P2 : Z -> option A -> Prop) :
  forall n1 n2 a os1 os2,
    (n1 <= n2)%nat ->
    Forall2 P1 (seqZ a (Z.of_nat n1)) os1 ->
    Forall2 P2 (seqZ a (Z.of_nat n2)) os2 ->
    (forall j v o2, a <= j < a + Z.of_nat n1 ->
                    P1 j (Some v) -> P2 j o2 -> o2 <> None) ->
    (length (omap id os1) <= length (omap id os2))%nat.
Proof.
  induction n1 as [|n1 IH]; intros n2 a os1 os2 Hn H1 H2 Hacc.
  - inversion H1. simpl. lia.
  - destruct n2 as [|n2]; [lia|].
    rewrite seqZ_cons in H1, H2 by lia.
    replace (Z.pred (Z.of_nat (S n1))) with (Z.of_nat n1) in H1 by lia.
    replace (Z.pred (Z.of_nat (S n2))) with (Z.of_nat n2) in H2 by lia.
    inversion H1 as [|? o1 ? os1' Ho1 Hr1]; subst.
    inversion H2 as [|? o2 ? os2' Ho2 Hr2]; subst.
    assert (Htl : (length (omap id os1') <= length (omap id os2'))%nat).
    { apply (IH n2 (Z.succ a)); [lia | assumption | assumption |].
      intros j v o Hj. apply Hacc. lia. }
    cbn [omap list_omap]. destruct o1 as [v|]; cbn [id].
    + destruct o2 as [v2|]; [simpl; lia|].
      exfalso. apply (Hacc a v None); [lia | assumption | assumption |].
      reflexivity.
    + destruct o2; simpl; lia.
Qed.

Lemma node_candidate_mono c1 c2 tile node N1 j v o2 :
  denser c1 c2 ->
  fltb f0 (mag c1) = true -> 0 <= t_npoints tile ->
  nsubtiles c1 <> 0 \/ n_level node = 0 ->
  to_int (mini (t_nsubpts tile) (node_threshold c1 tile (n_level node)))
    = Ret N1 ->
  0 <= j < N1 ->
  node_candidate c1 tile node j = Ret (Some v) ->
  node_candidate c2 tile node j = Ret o2 ->
  o2 <> None.
Proof.
  intros Hd Hm Hnp Hlv HN Hj H1 H2.
  apply tile_candidate_Some in H1
    as (sp & s & _ & Hsp & Hout & Hs & Hacc & _).
  unfold node_candidate, tile_candidate in H2.
  rewrite (denser_tile_size _ _ _ Hd) in H2.
  apply bind_Ret in H2 as (sp' & Hsp' & H2).
  apply array_get_Ret in Hsp' as [_ Hsp'].
  assert (sp' = sp) by congruence. subst sp'.
  rewrite (denser_outside _ _ _ _ _ _ Hd), Hout in H2.
  rewrite (denser_sample _ _ _ _ Hd), Hs in H2. rewrite bind_Ret_l in H2.
  destruct (fltb s (fmul (of_int (j + t_npoints tile))
                         (node_factor c2 (n_level node)))) eqn:E;
    [|inv_ret; intros ?; discriminate].
  exfalso.
  pose proof (ntests_bound _ _ _ _ HN Hj) as Hb.
  unfold node_threshold in Hb. unfold node_factor in E, Hacc.
  rewrite (denser_depth _ _ _ Hd) in E.
  destruct (node_depth_pos c1 (n_level node) Hlv) as (p & Hp & Hp0).
  rewrite Hp in *.
  destruct Hd as (_ & _ & _ & _ & _ & _ & Hmag & _ & _ & _ & Hle).
  rewrite Hmag in E.
  pose proof (node_accept_mono _ _ _ _ _ _ _ Hm Hp0 Hle (proj1 Hj) Hnp Hb E).
  congruence.
Qed.

Lemma root_candidate_mono c1 c2 tile0 N1 j v o2 :
  denser c1 c2 ->
  fltb f0 (mag c1) = true ->
  to_int (mini (t_npoints tile0) (fmul (mag c1) (global_density c1)))
    = Ret N1 ->
  0 <= j < N1 ->
  root_candidate tile0 (fdiv (fdiv f1 (mag c1)) (global_density c1)) c1 j
    = Ret (Some v) ->
  root_candidate tile0 (fdiv (fdiv f1 (mag c2)) (global_density c2)) c2 j
    = Ret o2 ->
  o2 <> None.
Proof.
  intros Hd Hm HN Hj H1 H2.
  apply root_candidate_Some in H1
    as (p & s & _ & Hp & Hout & Hs & Hacc & _).
  unfold root_candidate in H2.
  apply bind_Ret in H2 as (p' & Hp' & H2).
  apply array_get_Ret in Hp' as [_ Hp'].
  assert (p' = p) by congruence. subst p'.
  rewrite (denser_outside _ _ _ _ _ _ Hd), Hout in H2.
  rewrite (denser_sample _ _ _ _ Hd), Hs in H2. rewrite bind_Ret_l in H2.
  destruct (fltb s (fmul (of_int (j + 1))
                         (fdiv (fdiv f1 (mag c2)) (global_density c2))))
    eqn:E; [|inv_ret; intros ?; discriminate].
  exfalso.
  pose proof (ntests_bound _ _ _ _ HN Hj) as Hb.
  destruct Hd as (_ & _ & _ & _ & _ & _ & Hmag & _ & _ & _ & Hle).
  rewrite Hmag in E.
  pose proof (root_accept_mono _ _ _ _ _ Hm Hle (proj1 Hj) Hb E).
  congruence.
Qed.

Lemma apply_tile_grows fuel c node c' :
  apply_tile fuel c node = Ret c' -> same_store c c' /\ npoints c <= npoints c'.
Proof.
  intros H.
  assert (He : extends_by (fun _ => True) c c').
  { eapply (apply_tile_extends (fun _ => True) (fun _ _ => True)); eauto.
    intros. apply Forall_forall. auto. }
  destruct He as (Hs & lst & _ & Hn & _). split; [exact Hs | lia].
Qed.

Lemma visit_grows fuel kids : forall c c',
  visit (apply_tile fuel) kids c = Ret c' ->
  same_store c c' /\ npoints c <= npoints c'.
Proof.
  induction kids as [|k ks IH]; intros c c' H; cbn [visit] in H.
  - inv_ret. split; [apply same_store_refl | lia].
  - apply bind_Ret in H as (c1 & H1 & H).
    apply apply_tile_grows in H1 as [Hs1 Hn1].
    apply IH in H as [Hs2 Hn2].
    split; [eapply same_store_trans; eassumption | lia].
Qed.

Lemma mono_ok_store c c' : mono_ok c -> same_store c c' -> mono_ok c'.
Proof. intros H (p & n & -> & _). exact H. Qed.

Lemma node_threshold_mono c1 c2 tile node N1 N2 :
  denser c1 c2 -> mono_ok c1 ->
  nsubtiles c1 <> 0 \/ n_level node = 0 ->
  to_int (mini (t_nsubpts tile) (node_threshold c1 tile (n_level node)))
    = Ret N1 ->
  to_int (mini (t_nsubpts tile) (node_threshold c2 tile (n_level node)))
    = Ret N2 ->
  fleb (node_threshold c1 tile (n_level node))
       (node_threshold c2 tile (n_level node)) = true.
Proof.
  intros Hd [Hm _] Hlv H1 H2.
  apply ntests_not_nan in H1, H2. unfold node_threshold in *.
  rewrite (denser_depth _ _ _ Hd) in *.
  destruct (node_depth_pos c1 (n_level node) Hlv) as (p & Hp & Hp0).
  rewrite Hp in *.
  destruct Hd as (_ & _ & _ & _ & _ & _ & Hmag & _ & _ & _ & Hle).
  rewrite Hmag in *. apply threshold_mono; assumption.
Qed.

Lemma apply_tile_mono f1 : forall f2 node c1 c2 c1' c2',
  denser c1 c2 -> mono_ok c1 ->
  nsubtiles c1 <> 0 \/ n_level node = 0 ->
  apply_tile f1 c1 node = Ret c1' ->
  apply_tile f2 c2 node = Ret c2' ->
  npoints c1' - npoints c1 <= npoints c2' - npoints c2.
Proof.
  induction f1 as [|f1 IH]; intros f2 node c1 c2 c1' c2' Hd Hok Hlv H1 H2;
    [discriminate|].
  destruct f2 as [|f2]; [discriminate|].
  apply apply_tile_shape in H1, H2.
  pose proof (denser_skipped _ _ node Hd) as Hskip.
  destruct H1 as [Hs1 ->
                 |tile N1 os1 a1 Hs1 Hpos Htile HN1 Hos1 Hst1 Hem1 Hnp1 Hk1];
  destruct H2 as [Hs2 ->
                 |tile2 N2 os2 a2 Hs2 _ Htile2 HN2 Hos2 Hst2 Hem2 Hnp2 Hk2];
    try congruence; try lia.
  assert (tile2 = tile).
  { destruct Hd as (Ht & _). rewrite Ht in Htile2. congruence. }
  subst tile2.
  pose proof (proj2 Hok) as Hcnt.
  pose proof (Forall_lookup_1 _ _ _ _ Hcnt Htile) as Hnp0. simpl in Hnp0.
  pose proof (node_threshold_mono _ _ _ _ _ _ Hd Hok Hlv HN1 HN2) as Hthr.
  pose proof (ntests_mono _ _ _ _ _ HN1 HN2 Hthr) as HN.
  assert (Hown : (length (omap id os1) <= length (omap id os2))%nat).
  { replace (Z.max 0 N1) with (Z.of_nat (Z.to_nat N1)) in Hos1 by lia.
    replace (Z.max 0 N2) with (Z.of_nat (Z.to_nat N2)) in Hos2 by lia.
    eapply (accepted_count_mono _ _ (Z.to_nat N1) (Z.to_nat N2) 0);
      [lia | exact Hos1 | exact Hos2 |].
    intros j v o2 Hj Hc1 Hc2. cbv beta in Hc1, Hc2.
    eapply (node_candidate_mono c1 c2 tile node N1 j v o2); eauto.
    - apply Hok.
    - lia. }
  destruct (fleb (node_threshold c1 tile (n_level node)) _) eqn:E1.
  - subst c1'.
    assert (npoints a2 <= npoints c2').
    { destruct (fleb (node_threshold c2 tile (n_level node)) _).
      - subst c2'. lia.
      - destruct Hk2 as (kids & _ & Hv). apply visit_grows in Hv. lia. }
    lia.
  - rewrite (spawn_mono _ _ _ Hthr E1) in Hk2.
    destruct Hk1 as (kids & Hkids & Hv1).
    destruct Hk2 as (kids2 & Hkids2 & Hv2).
    rewrite (denser_children _ _ _ _ Hd) in Hkids2.
    assert (kids2 = kids) by congruence. subst kids2.
    assert (Hkok : Forall (fun k => nsubtiles c1 <> 0 \/ n_level k = 0) kids).
    { unfold node_children in Hkids.
      eapply spawn_children_Forall; [exact Hkids|].
      intros ty tx kid Hty _ _. left. lia. }
    assert (Hvisit : forall ks b1 b2 b1' b2',
               Forall (fun k => nsubtiles c1 <> 0 \/ n_level k = 0) ks ->
               denser b1 b2 -> same_store c1 b1 ->
               visit (apply_tile f1) ks b1 = Ret b1' ->
               visit (apply_tile f2) ks b2 = Ret b2' ->
               npoints b1' - npoints b1 <= npoints b2' - npoints b2).
    { clear -IH Hok. induction ks as [|k ks IHks];
        intros b1 b2 b1' b2' Hks Hb Hsb Hr1 Hr2; cbn [visit] in Hr1, Hr2.
      - inv_ret. lia.
      - apply bind_Ret in Hr1 as (m1 & Hm1 & Hr1).
        apply bind_Ret in Hr2 as (m2 & Hm2 & Hr2).
        apply Forall_cons in Hks as [Hk Hks].
        pose proof (mono_ok_store _ _ Hok Hsb) as Hokb.
        assert (Hlvb : nsubtiles b1 <> 0 \/ n_level k = 0).
        { destruct Hsb as (p & n & -> & _). exact Hk. }
        pose proof (IH _ _ _ _ _ _ Hb Hokb Hlvb Hm1 Hm2) as Hstep.
        apply apply_tile_grows in Hm1 as [Hsm1 _].
        apply apply_tile_grows in Hm2 as [Hsm2 _].
        pose proof (IHks m1 m2 b1' b2' Hks
                      (denser_store _ _ _ _ Hb Hsm1 Hsm2)
                      (same_store_trans _ _ _ Hsb Hsm1) Hr1 Hr2).
        lia. }
    pose proof (Hvisit kids a1 a2 c1' c2' Hkok
                  (denser_store _ _ _ _ Hd Hst1 Hst2) Hst1 Hv1 Hv2).
    lia.
Qed.

Lemma root_pass_mono c1 c2 a1 a2 :
  denser c1 c2 -> mono_ok c1 ->
  root_pass c1 = Ret a1 -> root_pass c2 = Ret a2 ->
  same_store c1 a1 /\ same_store c2 a2 /\
  npoints a1 - npoints c1 <= npoints a2 - npoints c2.
Proof.
  intros Hd Hok H1 H2. unfold root_pass, for_upto in H1, H2.
  apply bind_Ret in H1 as (tile0 & Htile & H1).
  apply bind_Ret in H2 as (tile0' & Htile' & H2).
  assert (tile0' = tile0).
  { destruct Hd as (Ht & _). rewrite Ht in Htile'. congruence. }
  subst tile0'.
  apply bind_Ret in H1 as (N1 & HN1 & H1).
  apply bind_Ret in H2 as (N2 & HN2 & H2).
  eapply (candidate_loop (root_candidate tile0 _)) in H1;
    [|intros; apply root_body_candidate
     |intros; apply root_candidate_store].
  eapply (candidate_loop (root_candidate tile0 _)) in H2;
    [|intros; apply root_body_candidate
     |intros; apply root_candidate_store].
  destruct H1 as (Hs1 & os1 & Hos1 & _ & Hn1).
  destruct H2 as (Hs2 & os2 & Hos2 & _ & Hn2).
  split; [exact Hs1|]. split; [exact Hs2|].
  assert (HN : N1 <= N2).
  { eapply ntests_mono; [exact HN1 | exact HN2 |].
    pose proof (ntests_not_nan _ _ _ HN1). pose proof (ntests_not_nan _ _ _ HN2).
    destruct Hd as (_ & _ & _ & _ & _ & _ & Hmag & _ & _ & _ & Hle).
    rewrite Hmag in *. apply fmul_mono; try assumption. apply Hok. }
  assert ((length (omap id os1) <= length (omap id os2))%nat).
  { eapply (accepted_count_mono _ _ (Z.to_nat N1) (Z.to_nat N2) 0);
      [lia | exact Hos1 | exact Hos2 |].
    intros j v o2 Hj Hc1 Hc2. cbv beta in Hc1, Hc2.
    eapply (root_candidate_mono c1 c2 tile0 N1 j v o2); eauto.
    - apply Hok.
    - lia. }
  lia.
Qed.

(** C5.  For a fixed context and a fixed viewport with finite bottom and
    top, on a tileset with non-negative point counts: when [generate]
    returns for the densities [d1 <= d2], the count for [d2] is at least the
    count for [d1]. *)
Theorem generate_monotone f1 f2 ctx d1 d2 l b r t c1 c2 :
  counts_nonneg (tiles ctx) ->
  is_finite b = true -> is_finite t = true ->
  fleb d1 d2 = true ->
  par_bluenoise_generate f1 ctx d1 l b r t = Ret c1 ->
  par_bluenoise_generate f2 ctx d2 l b r t = Ret c2 ->
  npoints c1 <= npoints c2.
Proof.
  intros Hcnt Hb Ht Hle H1 H2. unfold par_bluenoise_generate in H1, H2.
  apply bind_Ret in H1 as (a1 & Hr1 & H1).
  apply bind_Ret in H2 as (a2 & Hr2 & H2).
  assert (Hd : denser (begin_request ctx d1 l b r t)
                      (begin_request ctx d2 l b r t))
    by (repeat split; exact Hle).
  assert (Hok : mono_ok (begin_request ctx d1 l b r t)).
  { split; [|exact Hcnt]. apply (finite_viewport_mag b t); assumption. }
  destruct (root_pass_mono _ _ _ _ Hd Hok Hr1 Hr2) as (Hs1 & Hs2 & Hroot).
  pose proof (apply_tile_mono f1 f2 root_node a1 a2 c1 c2
                (denser_store _ _ _ _ Hd Hs1 Hs2)
                (mono_ok_store _ _ Hok Hs1)
                (or_intror eq_refl) H1 H2) as Hdesc.
  cbn [npoints begin_request set_request] in Hroot. lia.
Qed.

Lemma generate_monotone_witness :
  exists c1 c2,
    par_bluenoise_generate 1 (scenario_ctx 8) (Fin 2)
      (Fin (-1 # 2)) (Fin (-1 # 2)) (Fin (1 # 2)) (Fin (1 # 2)) = Ret c1 /\
    par_bluenoise_generate 1 (scenario_ctx 8) (Fin 4)
      (Fin (-1 # 2)) (Fin (-1 # 2)) (Fin (1 # 2)) (Fin (1 # 2)) = Ret c2 /\
    npoints c1 = 2 /\ npoints c2 = 4 /\
    npoints c1 <= npoints c2.
Proof.
  eexists _, _. split; [vm_compute; reflexivity|].
  split; [vm_compute; reflexivity|].
  split; [reflexivity|]. split; [reflexivity|].
  apply (generate_monotone 1 1 (scenario_ctx 8) (Fin 2) (Fin 4)
           (Fin (-1 # 2)) (Fin (-1 # 2)) (Fin (1 # 2)) (Fin (1 # 2)));
    [repeat constructor; simpl; lia | reflexivity | reflexivity
    | reflexivity | vm_compute; reflexivity | vm_compute; reflexivity].
Defined.

(** ** A viewport of height zero *)

Lemma flat_request_mag : mag flat_request = PInf.
Proof. reflexivity. Qed.

Lemma flat_request_tile_size L :
  exists ts, tile_size flat_request L = Fin ts /\ (0 < ts)%Q.
Proof.
  unfold tile_size, powf.
  change (of_int (nsubtiles flat_request)) with (Fin 2).
  destruct (L =? 0).
  { exists (1 / 1)%Q. split; [reflexivity | reflexivity]. }
  change (Qeq_bool 2 0) with false. cbn [andb].
  assert (Hp : (0 < 2 ^ L)%Q) by (apply Qpower_0_lt; reflexivity).
  unfold f1. rewrite fdiv_fin by lra.
  eexists. split; [reflexivity|].
  apply Qlt_shift_div_l; lra.
Qed.

Lemma flat_request_threshold L : node_threshold flat_request sub_tile L = PInf.
Proof.
  unfold node_threshold.
  destruct (node_depth_pos flat_request L) as (p & Hp & Hp0).
  { left. change (nsubtiles flat_request) with 2. lia. }
  rewrite Hp, flat_request_mag. cbn [fdiv].
  destruct (Qltb p 0) eqn:E; [apply Qltb_lt in E; lra|]. reflexivity.
Qed.

Lemma flat_request_not_skipped c node :
  same_store flat_request c -> feq (n_x node) f0 -> feq (n_y node) f0 ->
  node_skipped c node = false.
Proof.
  intros (p & n & -> & _) Hx Hy. unfold node_skipped, outside, fgtb.
  change (tile_size (set_points flat_request p n) (n_level node))
    with (tile_size flat_request (n_level node)).
  destruct (flat_request_tile_size (n_level node)) as (ts & -> & Hts).
  cbn [left right bottom top set_points].
  destruct (n_x node) as [x| | |], (n_y node) as [y| | |];
    try contradiction.
  cbn [feq f0] in Hx, Hy. cbn [fadd].
  change (left flat_request) with (Fin (0 # 4)).
  change (right flat_request) with (Fin (4 # 4)).
  change (bottom flat_request) with (Fin (0 # 4)).
  change (top flat_request) with (Fin (0 # 4)).
  cbn [fltb]. unfold Qltb.
  repeat match goal with
  | |- context [Qle_bool ?a ?b] =>
      let E := fresh "E" in
      destruct (Qle_bool a b) eqn:E;
      [apply Qle_bool_iff in E | apply Qle_bool_gt in E]
  end; cbn; try reflexivity; lra.
Qed.

(** Every sub-point of a node at the origin lies above the line. *)
Lemma flat_request_body c node j :
  same_store flat_request c -> feq (n_y node) f0 -> 0 <= j < 2 ->
  tile_body sub_tile (n_x node) (n_y node) (tile_size c (n_level node))
    (node_factor c (n_level node)) (n_level node) j c = Ret c.
Proof.
  intros (p & n & -> & _) Hy Hj.
  change (tile_size (set_points flat_request p n) (n_level node))
    with (tile_size flat_request (n_level node)).
  destruct (flat_request_tile_size (n_level node)) as (ts & -> & Hts).
  unfold tile_body.
  assert (Hsp : exists sp sy,
             array_get (t_subpts sub_tile) j = Ret sp /\
             vy sp = Fin sy /\ (0 < sy)%Q).
  { assert (j = 0 \/ j = 1) as [-> | ->] by lia;
      eexists _, _; (split; [reflexivity|]); split; reflexivity. }
  destruct Hsp as (sp & sy & -> & Hsy & Hpos). rewrite bind_Ret_l. cbv zeta.
  assert (Hout : outside (set_points flat_request p n)
                   (fadd (n_x node) (fmul (vx sp) (Fin ts)))
                   (fadd (n_x node) (fmul (vx sp) (Fin ts)))
                   (fadd (n_y node) (fmul (vy sp) (Fin ts)))
                   (fadd (n_y node) (fmul (vy sp) (Fin ts))) = true).
  { unfold outside, fgtb. apply orb_true_iff. right.
    rewrite Hsy. destruct (n_y node) as [y| | |]; try contradiction.
    cbn [feq f0] in Hy. cbn [fmul fadd].
    change (top (set_points flat_request p n)) with (Fin (0 # 4)).
    apply fltb_Fin. nra. }
  rewrite Hout. reflexivity.
Qed.

Lemma flat_request_loop c node :
  same_store flat_request c -> feq (n_y node) f0 ->
  for_upto 2
    (tile_body sub_tile (n_x node) (n_y node) (tile_size c (n_level node))
       (node_factor c (n_level node)) (n_level node)) c = Ret c.
Proof.
  intros Hs Hy. unfold for_upto. change (Z.to_nat 2) with 2%nat.
  cbn [for_loop].
  rewrite (flat_request_body c node 0 Hs Hy) by lia. rewrite bind_Ret_l.
  change (0 + 1) with 1.
  rewrite (flat_request_body c node 1 Hs Hy) by lia. rewrite bind_Ret_l.
  reflexivity.
Qed.

(** The first child of a node at the origin is at the origin. *)
Lemma flat_request_children c node :
  same_store flat_request c -> feq (n_x node) f0 -> feq (n_y node) f0 ->
  exists kid kids,
    spawn_children c sub_tile (n_x node) (n_y node)
      (fdiv (tile_size c (n_level node)) (of_int (nsubtiles c)))
      (n_level node + 1) = Ret (kid :: kids) /\
    n_tile kid = 0 /\ feq (n_x kid) f0 /\ feq (n_y kid) f0.
Proof.
  intros (p & n & -> & _) Hx Hy.
  change (tile_size (set_points flat_request p n) (n_level node))
    with (tile_size flat_request (n_level node)).
  destruct (flat_request_tile_size (n_level node)) as (ts & -> & Hts).
  eexists _, _. split; [reflexivity|]. cbn [n_tile n_x n_y].
  split; [reflexivity|].
  change (nsubtiles (set_points flat_request p n)) with 2.
  unfold of_int. rewrite fdiv_fin by (change (inject_Z 2) with 2%Q; lra).
  cbn [fmul].
  destruct (n_x node) as [x| | |], (n_y node) as [y| | |];
    try contradiction.
  cbn [fadd feq f0] in *. change (inject_Z 0) with 0%Q. split; lra.
Qed.

(** With bottom = top the descent never ends: whatever the fuel, the visit
    of a node at the origin does not return. *)
Lemma flat_request_descent fuel : forall node c,
  same_store flat_request c ->
  n_tile node = 0 -> feq (n_x node) f0 -> feq (n_y node) f0 ->
  apply_tile fuel c node = OutOfFuel.
Proof.
  induction fuel as [|fuel IH]; intros node c Hs Ht Hx Hy; [reflexivity|].
  rewrite apply_tile_unfold, (flat_request_not_skipped c node Hs Hx Hy), Ht.
  destruct (same_store_fields _ _ Hs) as (Emag & Etiles & Ens & Eden).
  rewrite Etiles.
  change (array_get (tiles flat_request) 0) with (Ret sub_tile).
  rewrite bind_Ret_l.
  assert (Hthr : node_threshold c sub_tile (n_level node) = PInf).
  { destruct Hs as (p & n & -> & _). apply flat_request_threshold. }
  rewrite Hthr.
  change (to_int (mini (t_nsubpts sub_tile) PInf)) with (@Ret Z 2).
  rewrite bind_Ret_l, (flat_request_loop c node Hs Hy), bind_Ret_l.
  change (fleb PInf (of_int (t_nsubpts sub_tile))) with false.
  cbv iota.
  destruct (flat_request_children c node Hs Hx Hy)
    as (kid & kids & -> & Hk & Hkx & Hky).
  rewrite bind_Ret_l. cbn [visit].
  rewrite (IH kid c Hs Hk Hkx Hky). reflexivity.
Qed.

(** [generate(1, -0.5, -0.5, 0.5, -0.5)] on that tileset does not return,
    whatever the fuel: the same tileset and buffer on which a viewport of
    zero width returns. *)
Lemma flat_viewport_never_returns fuel :
  par_bluenoise_generate fuel sub_ctx (Fin 1)
    (Fin (-1 # 2)) (Fin (-1 # 2)) (Fin (1 # 2)) (Fin (-1 # 2)) = OutOfFuel.
Proof.
  unfold par_bluenoise_generate. fold flat_request.
  change (root_pass flat_request) with (Ret flat_request).
  rewrite bind_Ret_l.
  apply flat_request_descent; [apply same_store_refl | reflexivity ..].
Qed.

(** ** The nodes [generate] visits *)

Lemma visit_ok_store c c' node :
  visit_ok c node -> same_store c c' -> visit_ok c' node.
Proof. intros H (p & n & -> & _). exact H. Qed.

(** The root node of a request with finite bounds. *)
Lemma visit_ok_root ctx d l b r t :
  is_finite l = true -> is_finite b = true ->
  is_finite r = true -> is_finite t = true ->
  tiles_finite (tiles ctx) -> counts_nonneg (tiles ctx) ->
  density_numbers ctx ->
  visit_ok (begin_request ctx d l b r t) root_node.
Proof.
  intros Hl Hb Hr Ht Hfin Hcnt Hdens.
  repeat split;
    try (apply clamp_not_nan, fadd_half_not_nan, is_finite_not_nan;
         assumption);
    try assumption.
  - apply (finite_viewport_mag b t); assumption.
  - right. reflexivity.
Qed.

(** The children of a node the descent may visit. *)
Lemma visit_ok_children c node tile kids :
  visit_ok c node ->
  node_children c tile node = Ret kids ->
  Forall (visit_ok c) kids.
Proof.
  intros (Hl & Hb & Hr & Ht & Hm & Hfin & Hcnt & Hdens & Hx & Hy & Hlv) Hk.
  unfold node_children in Hk.
  eapply spawn_children_Forall; [exact Hk|].
  intros ty tx kid Hty _ Hc.
  pose proof (tile_size_finite c (n_level node) Hlv) as Hts.
  apply child_node_finite in Hc as (Hkx & Hky & _); auto; [|lia].
  repeat split; try assumption. left. lia.
Qed.

(** ** A density field of one cell *)

Lemma Qtrunc_small q : (-1 < q)%Q -> (q < 1)%Q -> Qtrunc q = 0.
Proof.
  destruct q as [a d]. unfold Qtrunc, Qlt. cbn [Qnum Qden].
  intros Hlo Hhi.
  destruct (Z.le_gt_cases 0 a) as [Hpos|Hneg].
  - apply Z.quot_small. lia.
  - rewrite <- (Z.opp_involutive a), Z.quot_opp_l by lia.
    rewrite Z.quot_small by lia. reflexivity.
Qed.

(** On a field of one cell every query in the unit square is sent to the
    entry -2 of the array. *)
Lemma sample_density_one_cell v x y :
  (0 <= x <= 1)%Q -> (0 <= y <= 1)%Q ->
  sample_density (with_field 1 1 [v]) (Fin x) (Fin y) = Undefined.
Proof.
  intros Hx Hy.
  rewrite (sample_density_cell _ [v]);
    [|reflexivity
     |apply sample_tx_int; [cbn; unfold INT_MAX; lia ..|exact Hx]
     |apply sample_ty_int; [cbn; unfold INT_MAX; lia ..|exact Hy]].
  change (density_width (with_field 1 1 [v])) with 1.
  change (density_height (with_field 1 1 [v])) with 1.
  assert (Hc : sample_column 1 1 x = -1).
  { unfold sample_column. rewrite Qtrunc_small; [reflexivity| |];
      change (inject_Z (maxi 1 1)) with 1%Q;
      change (inject_Z (Z.quot 1 2)) with 0%Q; lra. }
  assert (Hr : sample_row 1 1 y = -1).
  { unfold sample_row. rewrite Qtrunc_small; [reflexivity| |];
      change (inject_Z (maxi 1 1)) with 1%Q;
      change (inject_Z (Z.quot 1 2)) with 0%Q; lra. }
  rewrite Hc, Hr. reflexivity.
Qed.

(** ** The bytes of a pixel that take part in the colour key *)

(** For [1 <= bpp <= 4] the mask keeps the first [bpp] bytes of the word
    read at the pixel, so the bytes read past the pixel do not matter. *)
Lemma masked_pixel_bytes pixels bpp k :
  1 <= bpp <= 4 ->
  masked_pixel pixels bpp k = read_u32 pixels (k * bpp) mod 2 ^ (8 * bpp).
Proof.
  intros H. unfold masked_pixel.
  assert (Hb : bpp = 1 \/ bpp = 2 \/ bpp = 3 \/ bpp = 4) by lia.
  destruct Hb as [-> | [-> | [-> | ->]]].
  - change (color_mask 1) with (Z.ones 8). apply Z.land_ones. lia.
  - change (color_mask 2) with (Z.ones 16). apply Z.land_ones. lia.
  - change (color_mask 3) with (Z.ones 24). apply Z.land_ones. lia.
  - change (color_mask 4) with (Z.ones 32). apply Z.land_ones. lia.
Qed.

(** * Further properties of the code *)

(** ** Sorting by rank: what the buffer holds afterwards *)

Lemma qsort_insert_perm v l : qsort_insert v l ≡ₚ v :: l.
Proof.
  induction l as [|e l IH]; cbn [qsort_insert]; [reflexivity|].
  destruct (cmp v e <=? 0); [reflexivity|].
  rewrite IH. apply Permutation_swap.
Qed.

Lemma qsort_perm l : qsort l ≡ₚ l.
Proof.
  induction l as [|e l IH]; [reflexivity|].
  rewrite qsort_cons, qsort_insert_perm, IH. reflexivity.
Qed.

Lemma imap_set_rank_position l :
  position <$> imap set_rank l = position <$> l.
Proof.
  assert (H : forall (f : nat -> nat),
             position <$> imap (fun i => set_rank (f i)) l = position <$> l).
  { induction l as [|e l IH]; intros f; [reflexivity|].
    cbn [imap fmap list_fmap]. f_equal. apply (IH (f ∘ S)). }
  apply (H id).
Qed.

Lemma imap_set_rank_lookup l i v :
  imap set_rank l !! i = Some v -> rank v = of_int (Z.of_nat i).
Proof.
  rewrite list_lookup_imap. destruct (l !! i); [|discriminate].
  intros [= <-]. reflexivity.
Qed.

Lemma sort_by_rank_Ret floats npts out :
  par_bluenoise_sort_by_rank floats npts = Ret out ->
  0 <= npts <= Z.of_nat (length floats) /\
  out = imap set_rank (qsort (take (Z.to_nat npts) floats))
        ++ drop (Z.to_nat npts) floats.
Proof.
  unfold par_bluenoise_sort_by_rank.
  destruct (Z.leb_spec 0 npts); [|discriminate].
  destruct (Z.leb_spec npts (Z.of_nat (length floats))); [|discriminate].
  cbn [andb]. intros [= <-]. split; [lia | reflexivity].
Qed.

Lemma sorted_length floats npts :
  0 <= npts <= Z.of_nat (length floats) ->
  length (imap set_rank (qsort (take (Z.to_nat npts) floats)))
  = Z.to_nat npts.
Proof.
  intros H. rewrite length_imap, (Permutation_length (qsort_perm _)).
  rewrite length_take. lia.
Qed.

(** X1.  [par_bluenoise_sort_by_rank], when it returns, keeps the length of
    the buffer and leaves every entry behind the first [npts] as it was; in
    the part it sorts, the rank of the entry at position [i] is replaced by
    the number [i], so the ranks [generate] wrote are gone after the call. *)
Theorem sort_by_rank_numbers floats npts out :
  par_bluenoise_sort_by_rank floats npts = Ret out ->
  length out = length floats /\
  drop (Z.to_nat npts) out = drop (Z.to_nat npts) floats /\
  forall i v, (i < Z.to_nat npts)%nat -> out !! i = Some v ->
              rank v = of_int (Z.of_nat i).
Proof.
  intros H. apply sort_by_rank_Ret in H as [Hn ->].
  pose proof (sorted_length floats npts Hn) as Hlen.
  split; [|split].
  - rewrite length_app, Hlen, length_drop. lia.
  - rewrite drop_app_length'; [reflexivity | symmetry; exact Hlen].
  - intros i v Hi Hv. rewrite lookup_app_l in Hv by lia.
    eapply imap_set_rank_lookup, Hv.
Qed.

(** X2.  The first [npts] entries after [par_bluenoise_sort_by_rank] carry
    the positions of a rearrangement of the first [npts] entries before the
    call: no point is dropped, repeated or moved in the plane.  When no rank
    is NaN, that rearrangement is in non-decreasing order of the old ranks. *)
Theorem sort_by_rank_permutes floats npts out :
  par_bluenoise_sort_by_rank floats npts = Ret out ->
  exists s,
    s ≡ₚ take (Z.to_nat npts) floats /\
    position <$> take (Z.to_nat npts) out = position <$> s /\
    (Forall rank_is_number (take (Z.to_nat npts) floats) ->
     StronglySorted rank_le s).
Proof.
  intros H. apply sort_by_rank_Ret in H as [Hn ->].
  pose proof (sorted_length floats npts Hn) as Hlen.
  exists (qsort (take (Z.to_nat npts) floats)).
  split; [apply qsort_perm|]. split.
  - rewrite take_app_length'; [|symmetry; exact Hlen].
    apply imap_set_rank_position.
  - apply qsort_sorted.
Qed.

Lemma qsort_increasing l :
  StronglySorted rank_lt l -> qsort l = l.
Proof.
  induction 1 as [|e l Hs IH Hel]; [reflexivity|].
  rewrite qsort_cons, IH. destruct l as [|e' l]; [reflexivity|].
  cbn [qsort_insert]. apply Forall_cons in Hel as [He _].
  unfold cmp. unfold rank_lt in He. rewrite He. reflexivity.
Qed.

Lemma imap_set_rank_increasing l :
  StronglySorted rank_lt (imap set_rank l).
Proof.
  assert (H : forall k,
             StronglySorted rank_lt (imap (fun i => set_rank (k + i)) l) /\
             Forall (fun v => exists j, (k <= j)%nat /\
                                        rank v = of_int (Z.of_nat j))
                    (imap (fun i => set_rank (k + i)) l)).
  { induction l as [|e l IH]; intros k; [split; constructor|].
    cbn [imap].
    destruct (IH (S k)) as [Hs Hf].
    assert (Heq : imap ((fun i => set_rank (k + i)) ∘ S) l
                  = imap (fun i => set_rank (S k + i)) l).
    { apply imap_ext. intros i x _. cbn. f_equal. lia. }
    rewrite Heq. split.
    - constructor; [exact Hs|].
      eapply Forall_impl; [exact Hf|]. intros v (j & Hj & Hv).
      unfold rank_lt. rewrite Hv. cbn [set_rank rank]. unfold of_int.
      apply fltb_Fin. rewrite <- Zlt_Qlt. lia.
    - constructor.
      + exists (k + 0)%nat. split; [lia | reflexivity].
      + eapply Forall_impl; [exact Hf|]. intros v (j & Hj & Hv).
        exists j. split; [lia | exact Hv]. }
  apply (H 0%nat).
Qed.

Lemma imap_set_rank_twice l :
  imap set_rank (imap set_rank l) = imap set_rank l.
Proof.
  assert (H : forall f : nat -> nat,
             imap (fun i => set_rank (f i))
                  (imap (fun i => set_rank (f i)) l)
             = imap (fun i => set_rank (f i)) l).
  { induction l as [|e l IH]; intros f; [reflexivity|].
    cbn [imap]. f_equal. apply (IH (f ∘ S)). }
  apply (H id).
Qed.

(** X3.  Sorting twice is sorting once: a second
    [par_bluenoise_sort_by_rank] with the same [npts], on the buffer the
    first call returned, returns that buffer unchanged. *)
Theorem sort_by_rank_twice floats npts out :
  par_bluenoise_sort_by_rank floats npts = Ret out ->
  par_bluenoise_sort_by_rank out npts = Ret out.
Proof.
  intros H. pose proof H as H0.
  apply sort_by_rank_Ret in H as [Hn Hout].
  pose proof (sorted_length floats npts Hn) as Hlen.
  assert (Hl : length out = length floats).
  { rewrite Hout, length_app, Hlen, length_drop. lia. }
  unfold par_bluenoise_sort_by_rank. rewrite Hl.
  destruct (Z.leb_spec 0 npts); [|lia].
  destruct (Z.leb_spec npts (Z.of_nat (length floats))); [|lia].
  cbn [andb]. f_equal. rewrite Hout at 1 2.
  rewrite take_app_length', drop_app_length' by (symmetry; exact Hlen).
  rewrite qsort_increasing by apply imap_set_rank_increasing.
  rewrite imap_set_rank_twice. symmetry. exact Hout.
Qed.

Lemma sort_by_rank_numbers_witness :
  exists out,
    par_bluenoise_sort_by_rank unsorted_points 3 = Ret out /\
    length out = 4%nat /\
    drop 3 out = [mk_vec3 9 9 9] /\
    forall i v, (i < 3)%nat -> out !! i = Some v ->
                rank v = of_int (Z.of_nat i).
Proof.
  eexists. split; [reflexivity|].
  destruct (sort_by_rank_numbers unsorted_points 3 _ eq_refl)
    as (H1 & H2 & H3).
  split; [exact H1|]. split; [exact H2 | exact H3].
Defined.

Lemma sort_by_rank_permutes_witness :
  exists out s,
    par_bluenoise_sort_by_rank unsorted_points 3 = Ret out /\
    s ≡ₚ take 3 unsorted_points /\
    position <$> take 3 out = position <$> s /\
    StronglySorted rank_le s /\
    position <$> take 3 out = [(Fin 2, Fin 2); (Fin 1, Fin 1); (Fin 3, Fin 3)].
Proof.
  destruct (sort_by_rank_permutes unsorted_points 3 _ eq_refl)
    as (s & H1 & H2 & H3).
  eexists _, s. split; [reflexivity|]. split; [exact H1|].
  split; [exact H2|]. split; [|reflexivity].
  apply H3. repeat constructor.
Defined.

Lemma sort_by_rank_twice_witness :
  exists out,
    par_bluenoise_sort_by_rank unsorted_points 3 = Ret out /\
    par_bluenoise_sort_by_rank out 3 = Ret out.
Proof.
  eexists. split; [reflexivity|].
  apply (sort_by_rank_twice unsorted_points 3). reflexivity.
Defined.

(** X4.  The comparison [cmp] handed to [qsort]: swapping the arguments
    negates the result; on ranks that are numbers it is transitive; and a
    point whose rank is NaN compares equal to every point, in both orders. *)
Theorem cmp_order :
  (forall u v, cmp v u = - cmp u v) /\
  (forall u v w,
     rank_is_number u -> rank_is_number v -> rank_is_number w ->
     cmp u v <= 0 -> cmp v w <= 0 -> cmp u w <= 0) /\
  (forall u v, is_nan (rank u) = true -> cmp u v = 0 /\ cmp v u = 0).
Proof.
  split; [|split].
  - intros u v. unfold cmp, fgtb.
    destruct (rank u) as [a| | |], (rank v) as [b| | |]; cbn [fltb];
      try reflexivity.
    unfold Qltb.
    destruct (Qle_bool a b) eqn:E1, (Qle_bool b a) eqn:E2; cbn;
      try reflexivity.
    apply Qle_bool_gt in E1, E2. lra.
  - intros u v w Hu Hv Hw. unfold cmp, fgtb, rank_is_number in *.
    destruct (rank u) as [a| | |], (rank v) as [b| | |],
             (rank w) as [c| | |]; try discriminate; cbn [fltb];
      try (intros; lia).
    all: unfold Qltb.
    all: repeat match goal with
         | |- context [Qle_bool ?x ?y] =>
             let E := fresh "E" in
             destruct (Qle_bool x y) eqn:E;
             [apply Qle_bool_iff in E | apply Qle_bool_gt in E]
         end; cbn; try lia; try (intros; lra).
  - intros u v Hu. unfold cmp, fgtb.
    destruct (rank u); try discriminate.
    destruct (rank v); split; reflexivity.
Qed.

(** ** The grayscale density builder *)

Lemma gray_pixel_step block pixels extent bpp dst k :
  Z.of_nat (length dst) = k ->
  gray_pixel block pixels extent (fdiv f1 (Fin 255)) bpp (dst, k * bpp)
  = if pixel_ok block extent bpp 1 k
    then Ret (dst ++ [gray_cell pixels bpp k], k * bpp + bpp)
    else Undefined.
Proof.
  intros <-. unfold gray_pixel, pixel_ok, load_u8, store_cell.
  destruct (in_image extent (Z.of_nat (length dst) * bpp) 1),
    block as [bytes|]; try reflexivity;
    cbn [mbind outcome_bind];
    destruct (in_block bytes 4 (Z.of_nat (length dst))); reflexivity.
Qed.

(** What the grayscale builder does, case by case. *)
Lemma density_from_gray_cases grant size_max ctx pixels extent width
    height bpp :
  par_bluenoise_density_from_gray grant size_max ctx pixels extent width
    height bpp
  = if is_int (width * height) then
      let block := field_block grant size_max width height in
      if forallb (pixel_ok block extent bpp 1)
           (seqZ 0 (cell_count width height))
      then Ret (install_density ctx width height block
                  (map (gray_cell pixels bpp)
                     (seqZ 0 (cell_count width height))))
      else Undefined
    else Undefined.
Proof.
  unfold par_bluenoise_density_from_gray, for_upto. cbv zeta.
  rewrite density_alloc_cases.
  destruct (is_int (width * height)); [|reflexivity].
  rewrite bind_Ret_l.
  change (@nil float, 0) with (@nil float, 0 * bpp).
  rewrite (pixel_rows _ _ _ _ (gray_pixel_step _ pixels extent bpp))
    by reflexivity.
  unfold cell_count.
  replace (Z.of_nat (Z.to_nat height)) with (Z.max 0 height) by lia.
  replace (Z.of_nat (Z.to_nat width)) with (Z.max 0 width) by lia.
  destruct (forallb _ _); reflexivity.
Qed.

Lemma install_density_Some ctx w h block d dens :
  density (install_density ctx w h block d) = Some dens ->
  block <> None /\ dens = d.
Proof.
  destruct block; cbn; [intros [= <-]; split; [discriminate | reflexivity]
                       | discriminate].
Qed.

(** The field a returning call of the grayscale builder leaves. *)
Lemma density_from_gray_Ret grant size_max ctx pixels extent width height
    bpp c' :
  par_bluenoise_density_from_gray grant size_max ctx pixels extent width
    height bpp = Ret c' ->
  exists block,
    is_int (width * height) = true /\
    forallb (pixel_ok block extent bpp 1)
      (seqZ 0 (cell_count width height)) = true /\
    c' = install_density ctx width height block
           (map (gray_cell pixels bpp) (seqZ 0 (cell_count width height))).
Proof.
  rewrite density_from_gray_cases.
  destruct (is_int (width * height)); [|discriminate]. cbv zeta.
  destruct (forallb _ _) eqn:E; [|discriminate]. intros [= <-].
  eexists. split; [reflexivity|]. split; [exact E | reflexivity].
Qed.

(** Every pixel can be handled when the block has room for all the
    scalars and the image holds the read at its last pixel. *)
Lemma pixels_readable bytes extent bpp size n :
  0 <= bpp -> 0 < n -> (n - 1) * bpp + size <= extent -> 4 * n <= bytes ->
  forallb (pixel_ok (Some bytes) extent bpp size) (seqZ 0 n) = true.
Proof.
  intros Hb Hn He Hbytes. apply forallb_forall. intros k Hk.
  apply list_elem_of_In, elem_of_seqZ in Hk.
  unfold pixel_ok, in_image, in_block.
  repeat (apply andb_true_intro; split); apply Z.leb_le; nia.
Qed.

(** The block of a field whose size does not wrap. *)
Lemma field_block_granted size_max width height :
  0 <= width * height -> 4 * (width * height) <= size_max ->
  field_block true size_max width height = Some (4 * (width * height)).
Proof.
  intros H0 Hs. unfold field_block.
  rewrite Z.mod_small by lia. reflexivity.
Qed.

Lemma is_int_product w h :
  0 < w -> 0 < h -> w * h <= INT_MAX -> is_int (w * h) = true.
Proof.
  intros Hw Hh Hwh. unfold is_int, INT_MIN, INT_MAX in *.
  apply andb_true_intro. split; apply Z.leb_le; nia.
Qed.

Lemma gray_byte_range pixels bpp k : 0 <= gray_byte pixels bpp k <= 255.
Proof.
  unfold gray_byte.
  pose proof (Z.mod_pos_bound (pixels (k * bpp)) 256 ltac:(lia)). lia.
Qed.

Lemma gray_cell_value pixels bpp k :
  gray_cell pixels bpp k
  = Fin (1 + - (inject_Z (gray_byte pixels bpp k) * (1 / 255))).
Proof. reflexivity. Qed.

Lemma gray_cell_unit pixels bpp k :
  exists v, gray_cell pixels bpp k = Fin v /\
            (v == 1 - inject_Z (gray_byte pixels bpp k) / 255)%Q /\
            (0 <= v <= 1)%Q.
Proof.
  rewrite gray_cell_value. eexists. split; [reflexivity|]. split.
  - unfold Qdiv. ring.
  - pose proof (gray_byte_range pixels bpp k) as [H0 H1].
    apply inject_Z_le' in H0, H1.
    change (inject_Z 0) with 0%Q in H0.
    change (inject_Z 255) with 255%Q in H1.
    unfold Qdiv. rewrite Qmult_1_l. change (/ 255)%Q with (1 # 255)%Q.
    lra.
Qed.

Lemma lookup_map_seqZ {A} (f : Z -> A) n k :
  0 <= k < n -> map f (seqZ 0 n) !! Z.to_nat k = Some (f k).
Proof.
  intros Hk. change (map f (seqZ 0 n)) with (f <$> seqZ 0 n).
  rewrite list_lookup_fmap.
  rewrite (proj2 (lookup_seqZ 0 n (Z.to_nat k) k)); [reflexivity|].
  lia.
Qed.

(** X5.  On an image of [width] x [height] pixels, both positive with a
    product that is a value of [int] and a size in bytes that is a value of
    [size_t], whose pixels are [bpp >= 0] bytes apart and whose last pixel
    has its first byte inside the image, [par_bluenoise_density_from_gray]
    returns when [malloc] grants the block.  It records the extent
    [width] x [height] and installs a field of [width * height] cells; cell
    [k] is [1 - p / 255] for the byte [p] at offset [k * bpp] of the
    pixels, a value in [0, 1]. *)
Theorem density_from_gray_field size_max ctx pixels extent width height
    bpp :
  0 < width -> 0 < height -> width * height <= INT_MAX ->
  4 * (width * height) <= size_max ->
  0 <= bpp -> (width * height - 1) * bpp < extent ->
  exists dens,
    par_bluenoise_density_from_gray true size_max ctx pixels extent width
      height bpp
    = Ret (set_density ctx width height dens) /\
    Z.of_nat (length dens) = width * height /\
    forall k, 0 <= k < width * height ->
      exists v,
        dens !! Z.to_nat k = Some (Fin v) /\
        (v == 1 - inject_Z (gray_byte pixels bpp k) / 255)%Q /\
        (0 <= v <= 1)%Q.
Proof.
  intros Hw Hh Hwh Hsz Hb He.
  assert (Hn : cell_count width height = width * height)
    by (unfold cell_count; lia).
  exists (map (gray_cell pixels bpp) (seqZ 0 (width * height))). split.
  - rewrite density_from_gray_cases, is_int_product by assumption.
    cbv zeta. rewrite Hn, field_block_granted by (first [assumption | nia]).
    rewrite pixels_readable by (first [assumption | nia | lia]).
    reflexivity.
  - split; [rewrite length_map, length_seqZ; nia|].
    intros k Hk. destruct (gray_cell_unit pixels bpp k) as (v & E & Hv).
    exists v. split; [|exact Hv].
    rewrite (lookup_map_seqZ _ _ _ Hk). f_equal. exact E.
Qed.

Lemma density_from_gray_field_witness :
  exists dens,
    par_bluenoise_density_from_gray true SIZE_MAX_64 (scenario_ctx 8)
      gray_image 4 2 2 1
    = Ret (set_density (scenario_ctx 8) 2 2 dens) /\
    Z.of_nat (length dens) = 2 * 2 /\
    forall k, 0 <= k < 2 * 2 ->
      exists v,
        dens !! Z.to_nat k = Some (Fin v) /\
        (v == 1 - inject_Z (gray_byte gray_image 1 k) / 255)%Q /\
        (0 <= v <= 1)%Q.
Proof.
  apply (density_from_gray_field SIZE_MAX_64 (scenario_ctx 8) gray_image 4 2 2 1);
    unfold INT_MAX, SIZE_MAX_64; lia.
Defined.

Lemma gray_cell_darker pixels bpp k k' :
  gray_byte pixels bpp k <= gray_byte pixels bpp k' ->
  fleb (gray_cell pixels bpp k') (gray_cell pixels bpp k) = true.
Proof.
  intros H. rewrite !gray_cell_value. apply fleb_Fin.
  apply inject_Z_le' in H.
  unfold Qdiv. rewrite Qmult_1_l. change (/ 255)%Q with (1 # 255)%Q. lra.
Qed.

Lemma lookup_map_seqZ_inv {A} (f : Z -> A) n i a :
  map f (seqZ 0 n) !! i = Some a -> a = f (Z.of_nat i) /\ Z.of_nat i < n.
Proof.
  change (map f (seqZ 0 n)) with (f <$> seqZ 0 n).
  rewrite list_lookup_fmap. intros H.
  destruct (seqZ 0 n !! i) as [z|] eqn:E; [|discriminate].
  apply lookup_seqZ in E as [-> Hi]. injection H as <-.
  split; [f_equal; lia | lia].
Qed.

(** X6.  Darker pixels get a higher density: when the first byte of pixel
    [i] is at most the first byte of pixel [j], the value the grayscale
    builder stores for pixel [j] is at most the value it stores for pixel
    [i]. *)
Theorem density_from_gray_darker grant size_max ctx pixels extent width
    height bpp c' dens i j a b :
  par_bluenoise_density_from_gray grant size_max ctx pixels extent width
    height bpp
    = Ret c' ->
  density c' = Some dens ->
  dens !! i = Some a -> dens !! j = Some b ->
  gray_byte pixels bpp (Z.of_nat i) <= gray_byte pixels bpp (Z.of_nat j) ->
  fleb b a = true.
Proof.
  intros H Hd Ha Hb Hle.
  apply density_from_gray_Ret in H as (block & _ & _ & ->).
  apply install_density_Some in Hd as [_ ->].
  apply lookup_map_seqZ_inv in Ha as [-> _], Hb as [-> _].
  apply gray_cell_darker, Hle.
Qed.

Lemma density_from_gray_darker_witness :
  exists c' dens a b,
    par_bluenoise_density_from_gray true SIZE_MAX_64 (scenario_ctx 8)
      gray_image 4 2 2 1 = Ret c' /\
    density c' = Some dens /\
    dens !! 0%nat = Some a /\ dens !! 1%nat = Some b /\
    feq a (Fin 1) /\ feq b (Fin 0) /\ fleb b a = true.
Proof.
  eexists _, _, _, _. split; [reflexivity|]. split; [reflexivity|].
  split; [reflexivity|]. split; [reflexivity|].
  split; [reflexivity|]. split; [reflexivity|].
  apply (density_from_gray_darker true SIZE_MAX_64 (scenario_ctx 8)
           gray_image 4 2 2 1
           _ _ 0%nat 1%nat _ _ eq_refl eq_refl eq_refl eq_refl).
  vm_compute. discriminate.
Defined.

(** ** More on [par_bluenoise_density_from_color] *)

(** The field a returning call of the colour-key builder leaves. *)
Lemma density_from_color_Ret grant size_max ctx pixels extent width height
    bpp bkgd invert c' :
  par_bluenoise_density_from_color grant size_max ctx pixels extent width
    height bpp bkgd invert = Ret c' ->
  exists block,
    is_int (width * height) = true /\ bpp <= 4 /\
    forallb (pixel_ok block extent bpp 4)
      (seqZ 0 (cell_count width height)) = true /\
    c' = install_density ctx width height block
           (color_key_mask pixels width height bpp bkgd invert).
Proof.
  rewrite density_from_color_cases.
  destruct (is_int (width * height)); [|discriminate].
  destruct (Z.ltb_spec 4 bpp); [discriminate|]. cbv zeta.
  destruct (forallb _ _) eqn:E; [|discriminate]. intros [= <-].
  eexists. split; [reflexivity|]. split; [assumption|].
  split; [exact E | reflexivity].
Qed.

(** X7.  Inverting the colour key complements the mask: on the same pixels
    and background colour, a call with a non-zero [invert] stores 1 in the
    cells where the call with [invert = 0] stores 0, and 0 in the cells where
    that call stores 1. *)
Theorem density_from_color_invert grant size_max ctx pixels extent width
    height bpp bkgd invert c0 c1 d0 d1 i a b :
  invert <> 0 ->
  par_bluenoise_density_from_color grant size_max ctx pixels extent width
    height bpp bkgd 0 = Ret c0 ->
  par_bluenoise_density_from_color grant size_max ctx pixels extent width
    height bpp bkgd invert = Ret c1 ->
  density c0 = Some d0 -> density c1 = Some d1 ->
  d0 !! i = Some a -> d1 !! i = Some b ->
  (a = f0 /\ b = f1) \/ (a = f1 /\ b = f0).
Proof.
  intros Hinv H0 H1 Hd0 Hd1 Ha Hb'.
  apply density_from_color_Ret in H0 as (? & _ & _ & _ & ->).
  apply density_from_color_Ret in H1 as (? & _ & _ & _ & ->).
  apply install_density_Some in Hd0 as [_ ->], Hd1 as [_ ->].
  unfold color_key_mask in Ha, Hb'.
  apply lookup_map_seqZ_inv in Ha as [-> _], Hb' as [-> _].
  unfold color_key_cell.
  destruct (Z.eqb_spec invert 0) as [|_]; [contradiction|].
  change (0 =? 0) with true. cbv iota.
  destruct (masked_pixel pixels bpp (Z.of_nat i) =? bkgd); cbn; auto.
Qed.

Lemma read_u32_low p1 p2 bpp off :
  1 <= bpp <= 4 ->
  (forall i, 0 <= i < bpp -> p1 (off + i) mod 256 = p2 (off + i) mod 256) ->
  read_u32 p1 off mod 2 ^ (8 * bpp) = read_u32 p2 off mod 2 ^ (8 * bpp).
Proof.
  intros Hb H. unfold read_u32.
  pose proof (H 0) as H0. rewrite Z.add_0_r in H0.
  pose proof (H 1) as H1. pose proof (H 2) as H2. pose proof (H 3) as H3.
  assert (Hc : bpp = 1 \/ bpp = 2 \/ bpp = 3 \/ bpp = 4) by lia.
  destruct Hc as [-> | [-> | [-> | ->]]].
  - rewrite H0 by lia.
    replace (p2 off mod 256 + 256 * (p1 (off + 1) mod 256)
             + 65536 * (p1 (off + 2) mod 256)
             + 16777216 * (p1 (off + 3) mod 256))
      with (p2 off mod 256
            + (p1 (off + 1) mod 256 + 256 * (p1 (off + 2) mod 256)
               + 65536 * (p1 (off + 3) mod 256)) * 2 ^ (8 * 1)) by lia.
    replace (p2 off mod 256 + 256 * (p2 (off + 1) mod 256)
             + 65536 * (p2 (off + 2) mod 256)
             + 16777216 * (p2 (off + 3) mod 256))
      with (p2 off mod 256
            + (p2 (off + 1) mod 256 + 256 * (p2 (off + 2) mod 256)
               + 65536 * (p2 (off + 3) mod 256)) * 2 ^ (8 * 1)) by lia.
    rewrite !Z.mod_add by lia. reflexivity.
  - rewrite H0, H1 by lia.
    replace (p2 off mod 256 + 256 * (p2 (off + 1) mod 256)
             + 65536 * (p1 (off + 2) mod 256)
             + 16777216 * (p1 (off + 3) mod 256))
      with (p2 off mod 256 + 256 * (p2 (off + 1) mod 256)
            + (p1 (off + 2) mod 256 + 256 * (p1 (off + 3) mod 256))
              * 2 ^ (8 * 2)) by lia.
    replace (p2 off mod 256 + 256 * (p2 (off + 1) mod 256)
             + 65536 * (p2 (off + 2) mod 256)
             + 16777216 * (p2 (off + 3) mod 256))
      with (p2 off mod 256 + 256 * (p2 (off + 1) mod 256)
            + (p2 (off + 2) mod 256 + 256 * (p2 (off + 3) mod 256))
              * 2 ^ (8 * 2)) by lia.
    rewrite !Z.mod_add by lia. reflexivity.
  - rewrite H0, H1, H2 by lia.
    replace (p2 off mod 256 + 256 * (p2 (off + 1) mod 256)
             + 65536 * (p2 (off + 2) mod 256)
             + 16777216 * (p1 (off + 3) mod 256))
      with (p2 off mod 256 + 256 * (p2 (off + 1) mod 256)
            + 65536 * (p2 (off + 2) mod 256)
            + (p1 (off + 3) mod 256) * 2 ^ (8 * 3)) by lia.
    replace (p2 off mod 256 + 256 * (p2 (off + 1) mod 256)
             + 65536 * (p2 (off + 2) mod 256)
             + 16777216 * (p2 (off + 3) mod 256))
      with (p2 off mod 256 + 256 * (p2 (off + 1) mod 256)
            + 65536 * (p2 (off + 2) mod 256)
            + (p2 (off + 3) mod 256) * 2 ^ (8 * 3)) by lia.
    rewrite !Z.mod_add by lia. reflexivity.
  - rewrite H0, H1, H2, H3 by lia. reflexivity.
Qed.

Lemma map_seqZ_ext {A} (f g : Z -> A) n :
  (forall k, 0 <= k < n -> f k = g k) -> map f (seqZ 0 n) = map g (seqZ 0 n).
Proof.
  intros H. apply map_ext_in. intros k Hk.
  apply list_elem_of_In, elem_of_seqZ in Hk. apply H. lia.
Qed.

(** X8.  For [1 <= bpp <= 4] the result of
    [par_bluenoise_density_from_color] depends on the first [bpp] bytes of
    each pixel only: the bytes that the 4-byte read picks up behind a pixel
    are masked off before the comparison. *)
Theorem density_from_color_bytes grant size_max ctx p1 p2 extent width
    height bpp bkgd invert :
  1 <= bpp <= 4 ->
  same_pixel_bytes p1 p2 bpp (cell_count width height) ->
  par_bluenoise_density_from_color grant size_max ctx p1 extent width
    height bpp bkgd invert
  = par_bluenoise_density_from_color grant size_max ctx p2 extent width
      height bpp bkgd invert.
Proof.
  intros Hb Hsame. rewrite !density_from_color_cases.
  replace (color_key_mask p1 width height bpp bkgd invert)
    with (color_key_mask p2 width height bpp bkgd invert); [reflexivity|].
  unfold color_key_mask. symmetry. apply map_seqZ_ext.
  intros k Hk. unfold color_key_cell.
  rewrite !masked_pixel_bytes by exact Hb.
  rewrite (read_u32_low p1 p2 bpp (k * bpp) Hb); [reflexivity|].
  intros i Hi. apply Hsame; assumption.
Qed.

(** X9.  A background colour with a bit set outside the bytes of a pixel
    matches no pixel: when [background_color & mask] differs from
    [background_color], every cell is 1 without [invert] and 0 with it. *)
Theorem density_from_color_wide_background grant size_max ctx pixels extent
    width height bpp bkgd invert c' dens i a :
  Z.land bkgd (color_mask bpp) <> bkgd ->
  par_bluenoise_density_from_color grant size_max ctx pixels extent width
    height bpp bkgd invert = Ret c' ->
  density c' = Some dens -> dens !! i = Some a ->
  a = if invert =? 0 then f1 else f0.
Proof.
  intros Hwide H Hd Ha.
  apply density_from_color_Ret in H as (? & _ & _ & _ & ->).
  apply install_density_Some in Hd as [_ ->]. unfold color_key_mask in Ha.
  apply lookup_map_seqZ_inv in Ha as [-> _]. unfold color_key_cell.
  destruct (Z.eqb_spec (masked_pixel pixels bpp (Z.of_nat i)) bkgd)
    as [E|E].
  - exfalso. apply Hwide. rewrite <- E. unfold masked_pixel.
    rewrite <- Z.land_assoc, Z.land_diag. reflexivity.
  - destruct (invert =? 0); reflexivity.
Qed.

Lemma density_from_color_bytes_witness :
  same_pixel_bytes (rgb_pixel 7) (rgb_pixel 9) 3 (cell_count 1 1) /\
  rgb_pixel 7 3 <> rgb_pixel 9 3 /\
  par_bluenoise_density_from_color true SIZE_MAX_64 (scenario_ctx 8)
      (rgb_pixel 7) 4 1 1 3 65793 0
  = par_bluenoise_density_from_color true SIZE_MAX_64 (scenario_ctx 8)
      (rgb_pixel 9) 4 1 1 3 65793 0.
Proof.
  assert (H : same_pixel_bytes (rgb_pixel 7) (rgb_pixel 9) 3
                (cell_count 1 1)).
  { intros k i Hk Hi. change (cell_count 1 1) with 1 in Hk.
    unfold rgb_pixel. destruct (Z.eqb_spec (k * 3 + i) 3); [lia|].
    reflexivity. }
  split; [exact H|]. split; [discriminate|].
  apply density_from_color_bytes; [lia | exact H].
Defined.

Lemma density_from_color_invert_witness :
  exists c0 c1 d0 d1 a b,
    par_bluenoise_density_from_color true SIZE_MAX_64 (scenario_ctx 8)
      (rgb_pixel 7) 4 1 1 3 65793 0 = Ret c0 /\
    par_bluenoise_density_from_color true SIZE_MAX_64 (scenario_ctx 8)
      (rgb_pixel 7) 4 1 1 3 65793 1 = Ret c1 /\
    density c0 = Some d0 /\ density c1 = Some d1 /\
    d0 !! 0%nat = Some a /\ d1 !! 0%nat = Some b /\
    ((a = f0 /\ b = f1) \/ (a = f1 /\ b = f0)).
Proof.
  eexists _, _, _, _, _, _.
  split; [reflexivity|]. split; [reflexivity|].
  split; [reflexivity|]. split; [reflexivity|].
  split; [reflexivity|]. split; [reflexivity|].
  apply (density_from_color_invert true SIZE_MAX_64 (scenario_ctx 8)
           (rgb_pixel 7) 4 1 1 3 65793 1 _ _ _ _ 0%nat _ _ ltac:(lia) eq_refl eq_refl
           eq_refl eq_refl eq_refl eq_refl).
Defined.

Lemma density_from_color_wide_background_witness :
  exists c' dens a,
    par_bluenoise_density_from_color true SIZE_MAX_64 (scenario_ctx 8)
      (rgb_pixel 7) 4 1 1 3 4278255873 0 = Ret c' /\
    density c' = Some dens /\ dens !! 0%nat = Some a /\ a = f1.
Proof.
  eexists _, _, _. split; [reflexivity|]. split; [reflexivity|].
  split; [reflexivity|].
  eapply (density_from_color_wide_background true SIZE_MAX_64
            (scenario_ctx 8)
            (rgb_pixel 7) 4 1 1 3 4278255873 0) with (i := 0%nat);
    [vm_compute; discriminate | reflexivity ..].
Defined.

(** ** When the colour-key builder stops and when it returns *)

(** X24.  [par_bluenoise_density_from_color] stops at its assertion exactly
    when [bpp > 4] and the product [width * height], which the code
    computes before, is a value of [int]. *)
Theorem density_from_color_asserts grant size_max ctx pixels extent width
    height bpp bkgd invert :
  par_bluenoise_density_from_color grant size_max ctx pixels extent width
    height bpp bkgd invert = Aborted
  <-> is_int (width * height) = true /\ 4 < bpp.
Proof.
  rewrite density_from_color_cases.
  destruct (is_int (width * height)); [|split; [discriminate|]; intros [? _];
    discriminate].
  destruct (Z.ltb_spec 4 bpp); [split; auto|].
  cbv zeta. destruct (forallb _ _);
    (split; [discriminate | intros [_ ?]; lia]).
Qed.




(** ** A builder, then [sample_density] *)

Lemma color_key_cell_bit pixels bpp bkgd invert k :
  color_key_cell pixels bpp bkgd invert k = f0 \/
  color_key_cell pixels bpp bkgd invert k = f1.
Proof.
  unfold color_key_cell. destruct (invert =? 0);
    destruct (masked_pixel pixels bpp k =? bkgd); cbn; auto.
Qed.

(** A builder that returns from an image with a pixel has been granted
    its block, and the extents it records have a product that is a value
    of [int]. *)
Lemma built_field ctx width height block d c' size extent bpp :
  2 <= width -> 2 <= height ->
  is_int (width * height) = true ->
  forallb (pixel_ok block extent bpp size)
    (seqZ 0 (cell_count width height)) = true ->
  c' = install_density ctx width height block d ->
  c' = set_density ctx width height d /\ width * height <= INT_MAX.
Proof.
  intros Hw Hh Hint Hall ->.
  assert (Hk : 0 ∈ seqZ 0 (cell_count width height))
    by (apply elem_of_seqZ; unfold cell_count; nia).
  rewrite forallb_forall in Hall.
  apply list_elem_of_In, Hall in Hk. unfold pixel_ok in Hk.
  destruct block as [bytes|]; [|discriminate Hk].
  split; [reflexivity|].
  unfold is_int in Hint. apply andb_prop in Hint as [_ Hint].
  apply Z.leb_le in Hint. exact Hint.
Qed.

(** X10.  After [par_bluenoise_density_from_gray] or
    [par_bluenoise_density_from_color] has returned on an image of at least
    2 x 2 pixels, [sample_density] returns a number of [0, 1] at every
    position of the unit square: both conversions to [int] are defined and
    the index stays inside the field the builder made. *)
Theorem sample_after_builder grant size_max ctx pixels extent width height
    bpp bkgd invert c' x y :
  par_bluenoise_density_from_gray grant size_max ctx pixels extent width
    height bpp
    = Ret c' \/
  par_bluenoise_density_from_color grant size_max ctx pixels extent width
    height bpp bkgd invert = Ret c' ->
  2 <= width -> 2 <= height ->
  (0 <= x <= 1)%Q -> (0 <= y <= 1)%Q ->
  exists v, sample_density c' (Fin x) (Fin y) = Ret (Fin v) /\
            (0 <= v <= 1)%Q.
Proof.
  intros Hbuild Hw Hh Hx Hy.
  assert (Hc : exists cell : Z -> float,
             (c' = set_density ctx width height
                     (map cell (seqZ 0 (cell_count width height))) /\
              width * height <= INT_MAX) /\
             forall k, exists v, cell k = Fin v /\ (0 <= v <= 1)%Q).
  { destruct Hbuild as [H|H].
    - apply density_from_gray_Ret in H as (block & Hint & Hall & E).
      exists (gray_cell pixels bpp).
      split; [eapply built_field; eassumption|].
      intros k. destruct (gray_cell_unit pixels bpp k) as (v & ? & _ & ?).
      eauto.
    - apply density_from_color_Ret in H as (block & Hint & _ & Hall & E).
      exists (color_key_cell pixels bpp bkgd invert).
      split; [eapply built_field; eassumption|]. intros k.
      destruct (color_key_cell_bit pixels bpp bkgd invert k) as [-> | ->];
        eexists; (split; [reflexivity|]); lra. }
  destruct Hc as (cell & [-> Hwh] & Hcell).
  destruct (sample_density_in_grid
              (set_density ctx width height
                 (map cell (seqZ 0 (cell_count width height))))
              _ x y eq_refl) as (ix & iy & s & _ & _ & Hs & Hret);
    try assumption.
  { cbn [density_width set_density]. nia. }
  { cbn [density_height set_density]. nia. }
  { cbn [density_width density_height set_density].
    rewrite length_map, length_seqZ. unfold cell_count. lia. }
  apply lookup_map_seqZ_inv in Hs as [-> _].
  destruct (Hcell (Z.of_nat
              (Z.to_nat (iy * density_width
                 (set_density ctx width height
                    (map cell (seqZ 0 (cell_count width height)))) + ix))))
    as (v & Hv & Hrange).
  exists v. rewrite Hret, Hv. split; [reflexivity | exact Hrange].
Qed.

Lemma sample_after_builder_witness :
  exists c' v,
    par_bluenoise_density_from_gray true SIZE_MAX_64 (scenario_ctx 8)
      gray_image 4 2 2 1 = Ret c' /\
    sample_density c' (Fin (1 # 4)) (Fin (3 # 4)) = Ret (Fin v) /\
    (0 <= v <= 1)%Q.
Proof.
  destruct (sample_after_builder true SIZE_MAX_64 (scenario_ctx 8)
              gray_image 4 2 2 1
              0 0 _ (1 # 4) (3 # 4) (or_introl eq_refl)
              ltac:(lia) ltac:(lia)) as (v & Hs & Hv);
    [split; [vm_compute | vm_compute]; discriminate ..|].
  eexists _, v. split; [reflexivity|]. split; [exact Hs | exact Hv].
Defined.

(** ** The cells [sample_density] reads *)

(** X11.  On a field of at least 2 x 2 cells [sample_density] never reads the
    last row or the last column: two fields that agree on the columns
    [0 .. w-2] of the rows [0 .. h-2] give the same result at every
    position. *)
Theorem sample_density_ignores_border c w h d1 d2 x y :
  2 <= w -> 2 <= h ->
  same_inner_cells w h d1 d2 ->
  sample_density (set_density c w h d1) x y
  = sample_density (set_density c w h d2) x y.
Proof.
  intros Hw Hh Hsame. unfold sample_density.
  cbn [density density_width density_height set_density]. cbv zeta.
  destruct (to_int _) as [ia| | |]; try reflexivity.
  cbn [mbind outcome_bind].
  destruct (to_int _) as [ib| | |]; try reflexivity.
  cbn [mbind outcome_bind].
  match goal with
  | |- array_get d1 (clamp_int ?r 0 (h - 2) * w + clamp_int ?k 0 (w - 2))
       = _ =>
      pose proof (clamp_int_range k 0 (w - 2) ltac:(lia)) as Hx;
      pose proof (clamp_int_range r 0 (h - 2) ltac:(lia)) as Hy
  end.
  unfold array_get. rewrite (Hsame _ _ Hx Hy). reflexivity.
Qed.

Lemma clamp_int_mono a b lo hi :
  lo <= hi -> a <= b -> clamp_int a lo hi <= clamp_int b lo hi.
Proof.
  intros Hlh Hab. unfold clamp_int.
  destruct (Z.ltb_spec a lo), (Z.ltb_spec b lo),
           (Z.gtb_spec a hi), (Z.gtb_spec b hi); lia.
Qed.

Lemma maxi_nonneg w h : 2 <= w -> (0 <= inject_Z (maxi w h))%Q.
Proof.
  intros Hw. apply inject_Z_nonneg. unfold maxi.
  destruct (Z.gtb_spec w h); lia.
Qed.

(** X12.  The image is read with its first row at the top and its first
    column at the left.  On a field of at least 2 x 2 cells whose extents
    have a product that is a value of [int], for two positions of the unit
    square with [x1 <= x2] and [y1 <= y2], [sample_density] returns the
    entry of one cell at each, whatever the field holds, and the cell read
    at [(x2, y2)] is in the same column or further right, and in the same
    row or further up, than the cell read at [(x1, y1)]. *)
Theorem sample_density_orientation c w h x1 x2 y1 y2 :
  2 <= w -> 2 <= h -> w * h <= INT_MAX ->
  (0 <= x1)%Q -> (x1 <= x2)%Q -> (x2 <= 1)%Q ->
  (0 <= y1)%Q -> (y1 <= y2)%Q -> (y2 <= 1)%Q ->
  exists col1 col2 row1 row2,
    0 <= col1 /\ col1 <= col2 /\ col2 <= w - 2 /\
    0 <= row2 /\ row2 <= row1 /\ row1 <= h - 2 /\
    forall dens,
      sample_density (set_density c w h dens) (Fin x1) (Fin y1)
        = array_get dens (row1 * w + col1) /\
      sample_density (set_density c w h dens) (Fin x2) (Fin y2)
        = array_get dens (row2 * w + col2).
Proof.
  intros Hw Hh Hwh Hx1 Hx Hx2 Hy1 Hy Hy2.
  assert (Hwi : 0 <= w <= INT_MAX) by (unfold INT_MAX in *; nia).
  assert (Hhi : 0 <= h <= INT_MAX) by (unfold INT_MAX in *; nia).
  pose proof (maxi_nonneg w h Hw) as Hm.
  exists (sample_column w h x1), (sample_column w h x2),
         (sample_row w h y1), (sample_row w h y2).
  pose proof (clamp_int_range) as Hr.
  split; [apply clamp_int_range; lia|].
  split; [unfold sample_column; apply clamp_int_mono; [lia|];
          apply Qtrunc_mono; nra|].
  split; [apply clamp_int_range; lia|].
  split; [apply clamp_int_range; lia|].
  split; [unfold sample_row; apply clamp_int_mono; [lia|];
          apply Qtrunc_mono; nra|].
  split; [apply clamp_int_range; lia|].
  intros dens.
  split; rewrite (sample_density_cell _ dens) by
    first [reflexivity
          | apply sample_tx_int; first [assumption | split; lra]
          | apply sample_ty_int; first [assumption | split; lra]];
    reflexivity.
Qed.

Lemma sample_density_ignores_border_witness :
  same_inner_cells 2 2 [Fin 1; Fin 0; Fin 0; Fin 0]
                       [Fin 1; Fin 1; Fin 1; Fin 1] /\
  sample_density (with_field 2 2 [Fin 1; Fin 0; Fin 0; Fin 0])
    (Fin (9 # 10)) (Fin (1 # 10))
  = sample_density (with_field 2 2 [Fin 1; Fin 1; Fin 1; Fin 1])
      (Fin (9 # 10)) (Fin (1 # 10)).
Proof.
  assert (H : same_inner_cells 2 2 [Fin 1; Fin 0; Fin 0; Fin 0]
                                   [Fin 1; Fin 1; Fin 1; Fin 1]).
  { intros ix iy Hx Hy. replace ix with 0 by lia. replace iy with 0 by lia.
    reflexivity. }
  split; [exact H|].
  apply (sample_density_ignores_border (scenario_ctx 8) 2 2); [lia | lia|].
  exact H.
Defined.

Lemma sample_density_orientation_witness :
  exists col1 col2 row1 row2,
    0 <= col1 /\ col1 <= col2 /\ col2 <= 4 - 2 /\
    0 <= row2 /\ row2 <= row1 /\ row1 <= 4 - 2 /\
    forall dens,
      sample_density (set_density (scenario_ctx 8) 4 4 dens)
        (Fin (1 # 10)) (Fin (1 # 10))
        = array_get dens (row1 * 4 + col1) /\
      sample_density (set_density (scenario_ctx 8) 4 4 dens)
        (Fin (9 # 10)) (Fin (9 # 10))
        = array_get dens (row2 * 4 + col2).
Proof.
  apply (sample_density_orientation (scenario_ctx 8) 4 4
           (1 # 10) (9 # 10) (1 # 10) (9 # 10));
    first [lia | unfold INT_MAX; lia | vm_compute; discriminate].
Defined.

(** ** The coordinates [generate] returns *)


Lemma between_unit lo hi a :
  (0 <= lo)%Q -> (hi <= 1)%Q ->
  fleb (Fin lo) (fadd a half) = true -> fleb (fadd a half) (Fin hi) = true ->
  exists x, a = Fin x /\ (-(1 # 2) <= x <= 1 # 2)%Q.
Proof.
  intros Hlo Hhi H1 H2. destruct a as [x| | |]; try discriminate.
  exists x. split; [reflexivity|]. unfold half in *. cbn [fadd] in *.
  apply fleb_Fin in H1, H2. lra.
Qed.

(** X13.  Every point [generate] returns has both coordinates in
    [-1/2, 1/2], whatever viewport was asked for, when the coordinates of the
    tileset are finite and no bound of the viewport is NaN. *)
Theorem generate_coordinates_range fuel ctx d l b r t c' :
  tiles_finite (tiles ctx) ->
  is_nan l = false -> is_nan b = false ->
  is_nan r = false -> is_nan t = false ->
  par_bluenoise_generate fuel ctx d l b r t = Ret c' ->
  Forall in_unit_box (emitted c').
Proof.
  intros Hts Hl Hb Hr Ht Hgen.
  pose proof (generate_contained _ _ _ _ _ _ _ _ Hts Hl Hb Hr Ht Hgen) as H.
  eapply Forall_impl; [exact H|]. intros v Hv.
  unfold in_viewport, inside in Hv.
  apply andb_prop in Hv as [Hv H4]. apply andb_prop in Hv as [Hv H3].
  apply andb_prop in Hv as [H1 H2].
  destruct (clamp01_range (fadd l half) (fadd_half_not_nan _ Hl))
    as (ql & El & Hql).
  destruct (clamp01_range (fadd r half) (fadd_half_not_nan _ Hr))
    as (qr & Er & Hqr).
  destruct (clamp01_range (fadd b half) (fadd_half_not_nan _ Hb))
    as (qb & Eb & Hqb).
  destruct (clamp01_range (fadd t half) (fadd_half_not_nan _ Ht))
    as (qt & Et & Hqt).
  rewrite El in H1. rewrite Er in H2. rewrite Eb in H3. rewrite Et in H4.
  destruct (between_unit ql qr (px v)) as (x & Hx & Hxr);
    [lra | lra | assumption | assumption |].
  destruct (between_unit qb qt (py v)) as (y & Hy & Hyr);
    [lra | lra | assumption | assumption |].
  exists x, y. auto.
Qed.

Lemma generate_coordinates_range_witness :
  exists c',
    par_bluenoise_generate 1 (scenario_ctx 8) (Fin 4)
      (Fin (-3)) (Fin (-1 # 2)) (Fin 3) (Fin (1 # 2)) = Ret c' /\
    npoints c' = 4 /\ Forall in_unit_box (emitted c').
Proof.
  eexists. split; [vm_compute; reflexivity|]. split; [reflexivity|].
  apply (generate_coordinates_range 1 (scenario_ctx 8) (Fin 4)
           (Fin (-3)) (Fin (-1 # 2)) (Fin 3) (Fin (1 # 2)));
    [exact scenario_tiles_finite | reflexivity .. | vm_compute; reflexivity].
Defined.

(** ** A density that is not positive *)

Lemma for_upto_nonpos {St} n (body : Z -> St -> outcome St) s :
  n <= 0 -> for_upto n body s = Ret s.
Proof.
  intros H. unfold for_upto. replace (Z.to_nat n) with 0%nat by lia.
  reflexivity.
Qed.

Lemma ntests_nonpos n thr :
  0 <= n -> (inject_Z INT_MIN <= thr)%Q -> (thr <= 0)%Q ->
  exists N, to_int (mini n (Fin thr)) = Ret N /\ N <= 0.
Proof.
  intros Hn Hlo Hthr. unfold mini.
  assert (E : fltb (of_int n) (Fin thr) = false).
  { cbn [fltb of_int]. apply Qltb_ge.
    pose proof (inject_Z_nonneg n Hn). lra. }
  rewrite E. exists (Qtrunc thr).
  pose proof (Qtrunc_nonpos thr Hthr).
  pose proof (Qtrunc_between INT_MIN 0 thr Hlo Hthr).
  split; [apply to_int_Fin; unfold INT_MAX; lia | assumption].
Qed.

(** X14.  With density 0, a bottom and a top that stay apart as [float]s
    and counts of tile 0 that are non-negative values of [int], [generate]
    returns no point: the result is the context as the request set it up,
    with [npoints = 0]. *)
Theorem generate_no_density fuel ctx l b r t tile0 :
  tiles ctx !! 0%nat = Some tile0 ->
  0 <= t_npoints tile0 <= INT_MAX -> 0 <= t_nsubpts tile0 ->
  separated b t ->
  par_bluenoise_generate (S fuel) ctx (Fin 0) l b r t
  = Ret (begin_request ctx (Fin 0) l b r t).
Proof.
  intros Htile Hnp Hnsub Hsep.
  destruct (separated_finite b t Hsep) as (Hb & Ht & Hbt).
  destruct (mag_finite b t Hb Ht Hbt) as (q & Hq & Hq0).
  set (c0 := begin_request ctx (Fin 0) l b r t).
  assert (Hm : mag c0 = Fin q) by exact Hq.
  assert (Hk : (q * 0 <= 0)%Q) by lra.
  assert (Hk' : (inject_Z INT_MIN <= q * 0)%Q)
    by (change (inject_Z INT_MIN) with (-2147483648 # 1)%Q; lra).
  unfold par_bluenoise_generate. fold c0.
  assert (Hroot : root_pass c0 = Ret c0).
  { unfold root_pass.
    change (tiles c0) with (tiles ctx).
    rewrite (array_get_lookup _ 0 tile0) by (try lia; exact Htile).
    rewrite bind_Ret_l, Hm. change (global_density c0) with (Fin 0).
    cbn [fmul].
    destruct (ntests_nonpos (t_npoints tile0) (q * 0) (proj1 Hnp) Hk' Hk)
      as (N & -> & HN).
    rewrite bind_Ret_l. apply for_upto_nonpos, HN. }
  rewrite Hroot, bind_Ret_l, apply_tile_unfold.
  destruct (node_skipped c0 root_node); [reflexivity|].
  change (tiles c0) with (tiles ctx). change (n_tile root_node) with 0.
  rewrite (array_get_lookup _ 0 tile0) by (try lia; exact Htile).
  rewrite bind_Ret_l.
  assert (Hthr : exists thr,
             node_threshold c0 tile0 (n_level root_node) = Fin thr /\
             (inject_Z INT_MIN <= thr)%Q /\ (thr <= 0)%Q).
  { unfold node_threshold, node_depth. change (n_level root_node) with 0.
    change (powf (of_int (nsubtiles c0)) (2 * 0)) with (Fin 1).
    rewrite Hm. change (global_density c0) with (Fin 0).
    rewrite fdiv_fin by lra. unfold of_int. cbn [fmul fsub fadd fopp].
    eexists. split; [reflexivity|].
    pose proof (inject_Z_nonneg _ (proj1 Hnp)).
    assert (Hmax : (inject_Z (t_npoints tile0) <= inject_Z INT_MAX)%Q)
      by (rewrite <- Zle_Qle; lia).
    change (inject_Z INT_MAX) with (2147483647 # 1)%Q in Hmax.
    change (inject_Z INT_MIN) with (-2147483648 # 1)%Q.
    assert (q / 1 * 0 == 0)%Q by (field).
    split; lra. }
  destruct Hthr as (thr & -> & Hlo & Hthr).
  destruct (ntests_nonpos (t_nsubpts tile0) thr Hnsub Hlo Hthr)
    as (N & -> & HN).
  rewrite bind_Ret_l, for_upto_nonpos by exact HN.
  rewrite bind_Ret_l.
  assert (E : fleb (Fin thr) (of_int (t_nsubpts tile0)) = true).
  { apply fleb_Fin. pose proof (inject_Z_nonneg _ Hnsub). lra. }
  rewrite E. reflexivity.
Qed.

Lemma generate_no_density_witness :
  separated (Fin (-1 # 2)) (Fin (1 # 2)) /\
  par_bluenoise_generate 1 (scenario_ctx 8) (Fin 0)
    (Fin (-1 # 2)) (Fin (-1 # 2)) (Fin (1 # 2)) (Fin (1 # 2))
  = Ret (begin_request (scenario_ctx 8) (Fin 0)
           (Fin (-1 # 2)) (Fin (-1 # 2)) (Fin (1 # 2)) (Fin (1 # 2)))
  /\ npoints (begin_request (scenario_ctx 8) (Fin 0)
           (Fin (-1 # 2)) (Fin (-1 # 2)) (Fin (1 # 2)) (Fin (1 # 2))) = 0.
Proof.
  assert (Hsep : separated (Fin (-1 # 2)) (Fin (1 # 2))).
  { cbn [separated]. vm_compute. discriminate. }
  split; [exact Hsep|]. split; [|reflexivity].
  apply (generate_no_density 0 (scenario_ctx 8) _ _ _ _ scenario_tile);
    [reflexivity | cbn; unfold INT_MAX; lia | cbn; lia | exact Hsep].
Defined.

(** ** What [generate] writes *)

Lemma tail_kept_refl c : tail_kept c c.
Proof.
  split; [apply same_store_refl|]. split; [lia|].
  split; [intros H; contradiction | reflexivity].
Qed.

Lemma tail_kept_trans c1 c2 c3 :
  tail_kept c1 c2 -> tail_kept c2 c3 -> tail_kept c1 c3.
Proof.
  intros (Hs1 & Hn1 & Hp1 & Hd1) (Hs2 & Hn2 & Hp2 & Hd2).
  pose proof (same_store_length _ _ Hs1) as Hlen.
  split; [eapply same_store_trans; eassumption|]. split; [lia|]. split.
  - intros H.
    destruct (Z.eq_dec (npoints c2) (npoints c3)) as [E|E].
    + rewrite <- E in *. apply Hp1, H.
    + destruct (Hp2 E) as [H0 H1]. rewrite Hlen in H1.
      destruct (Z.eq_dec (npoints c1) (npoints c2)) as [E'|E'].
      * rewrite E'. split; assumption.
      * destruct (Hp1 E'). split; assumption.
  - rewrite Hd2.
    destruct (Z.eq_dec (npoints c2) (npoints c3)) as [E|E].
    { rewrite <- E. exact Hd1. }
    destruct (Hp2 E) as [H0 _].
    replace (Z.to_nat (npoints c3))
      with (Z.to_nat (npoints c2)
            + (Z.to_nat (npoints c3) - Z.to_nat (npoints c2)))%nat by lia.
    rewrite <- !drop_drop, Hd1. reflexivity.
Qed.

Lemma emit_tail_kept c v c' : emit c v = Ret c' -> tail_kept c c'.
Proof.
  unfold emit. destruct (Z.leb_spec 0 (npoints c)); [|discriminate].
  destruct (Z.ltb_spec (npoints c) (Z.of_nat (length (points c))));
    [|discriminate].
  cbn [andb]. intros [= <-]. unfold tail_kept.
  cbn [npoints points set_points].
  split; [|split; [lia | split; [intros _; lia|]]].
  - eexists _, _. split; [reflexivity|]. apply length_insert.
  - apply drop_insert_lt. lia.
Qed.

Lemma candidate_tail_kept
    (cand : par_bluenoise_context -> Z -> outcome (option par_vec3)) j c c' :
  (o ← cand c j; match o with None => Ret c | Some v => emit c v end)
    = Ret c' ->
  tail_kept c c'.
Proof.
  intros H. apply bind_Ret in H as ([v|] & _ & H).
  - eapply emit_tail_kept, H.
  - injection H as <-. apply tail_kept_refl.
Qed.

Lemma loop_tail_kept body n : forall i c c',
  (forall j a b, body j a = Ret b -> tail_kept a b) ->
  for_loop n i body c = Ret c' -> tail_kept c c'.
Proof.
  intros i c c' Hbody Hrun.
  apply (for_loop_ind (fun _ s => tail_kept c s) body) with (i := i) (s := c)
    in Hrun; [exact Hrun | | apply tail_kept_refl].
  intros j s s' Hs Hb. eapply tail_kept_trans; [exact Hs|].
  eapply Hbody, Hb.
Qed.

Lemma visit_tail_kept f kids : forall c c',
  (forall k a b, f a k = Ret b -> tail_kept a b) ->
  visit f kids c = Ret c' -> tail_kept c c'.
Proof.
  induction kids as [|k ks IH]; intros c c' Hf H; cbn [visit] in H.
  - injection H as <-. apply tail_kept_refl.
  - apply bind_Ret in H as (c1 & H1 & H).
    eapply tail_kept_trans; [eapply Hf, H1 | eapply IH; eassumption].
Qed.

Lemma apply_tile_tail_kept fuel : forall node c c',
  apply_tile fuel c node = Ret c' -> tail_kept c c'.
Proof.
  induction fuel as [|fuel IH]; intros node c c' H; [discriminate|].
  rewrite apply_tile_unfold in H.
  destruct (node_skipped c node).
  { injection H as <-. apply tail_kept_refl. }
  apply bind_Ret in H as (tile & _ & H).
  apply bind_Ret in H as (ntests & _ & H).
  apply bind_Ret in H as (c1 & Hloop & H).
  assert (H1 : tail_kept c c1).
  { unfold for_upto in Hloop. eapply loop_tail_kept; [|exact Hloop].
    intros j a b Hb. rewrite tile_body_candidate in Hb.
    eapply candidate_tail_kept, Hb. }
  destruct (fleb _ _).
  { injection H as <-. exact H1. }
  apply bind_Ret in H as (kids & _ & H).
  eapply tail_kept_trans; [exact H1|].
  eapply visit_tail_kept; [|exact H]. intros k a b. apply IH.
Qed.

Lemma root_pass_tail_kept c c' : root_pass c = Ret c' -> tail_kept c c'.
Proof.
  unfold root_pass, for_upto. intros H.
  apply bind_Ret in H as (tile0 & _ & H).
  apply bind_Ret in H as (ntests & _ & H).
  eapply loop_tail_kept; [|exact H].
  intros j a b Hb. rewrite root_body_candidate in Hb.
  eapply candidate_tail_kept, Hb.
Qed.

Lemma generate_tail_kept fuel ctx d l b r t c' :
  par_bluenoise_generate fuel ctx d l b r t = Ret c' ->
  tail_kept (begin_request ctx d l b r t) c'.
Proof.
  unfold par_bluenoise_generate. intros Hgen.
  apply bind_Ret in Hgen as (c1 & Hroot & Htile).
  apply root_pass_tail_kept in Hroot. apply apply_tile_tail_kept in Htile.
  eapply tail_kept_trans; eassumption.
Qed.

(** What [generate] returns holds a count within the buffer. *)
Lemma generate_count fuel ctx d l b r t c' :
  par_bluenoise_generate fuel ctx d l b r t = Ret c' ->
  0 <= npoints c' <= Z.of_nat (length (points ctx)).
Proof.
  intros Hgen. apply generate_tail_kept in Hgen as (_ & Hn & Hp & _).
  change (npoints (begin_request ctx d l b r t)) with 0 in Hn, Hp.
  change (points (begin_request ctx d l b r t)) with (points ctx) in Hp.
  destruct (Z.eq_dec 0 (npoints c')) as [<-|E]; [lia|].
  destruct (Hp E). lia.
Qed.

(** X15.  A call of [generate] that returns leaves the tileset, the density
    field and the capacity as they were, records the density and the clamped
    viewport of the request, returns a count between 0 and the length of the
    point buffer, and has written the first [npoints] entries of the buffer
    only: the entries behind them are what they were before the call. *)
Theorem generate_writes_prefix fuel ctx d l b r t c' :
  par_bluenoise_generate fuel ctx d l b r t = Ret c' ->
  unchanged_store ctx c' /\
  global_density c' = d /\
  viewport_is c' (clamp01 (translate l)) (clamp01 (translate b))
                 (clamp01 (translate r)) (clamp01 (translate t)) /\
  0 <= npoints c' <= Z.of_nat (length (points ctx)) /\
  length (emitted c') = Z.to_nat (npoints c') /\
  drop (Z.to_nat (npoints c')) (points c')
  = drop (Z.to_nat (npoints c')) (points ctx).
Proof.
  intros Hgen. pose proof (generate_unchanged _ _ _ _ _ _ _ _ Hgen) as Hu.
  pose proof (generate_tail_kept _ _ _ _ _ _ _ _ Hgen) as (Hs & Hn & Hp & Hd).
  change (npoints (begin_request ctx d l b r t)) with 0 in Hn, Hp.
  change (points (begin_request ctx d l b r t)) with (points ctx) in Hd.
  destruct Hs as (p & n & -> & Hlen).
  change (length (points (begin_request ctx d l b r t)))
    with (length (points ctx)) in Hlen, Hp.
  cbn [npoints points set_points global_density] in *.
  assert (Hle : 0 <= n <= Z.of_nat (length (points ctx))).
  { destruct (Z.eq_dec 0 n) as [<-|E]; [lia|]. destruct (Hp E). lia. }
  split; [exact Hu|]. split; [reflexivity|].
  split; [apply begin_request_viewport|].
  split; [exact Hle|]. split; [|exact Hd].
  unfold emitted. cbn [npoints points set_points].
  rewrite length_take. lia.
Qed.

Lemma generate_writes_prefix_witness :
  exists c',
    par_bluenoise_generate 1 (scenario_ctx 8) (Fin 2)
      (Fin (-1 # 2)) (Fin (-1 # 2)) (Fin (1 # 2)) (Fin (1 # 2)) = Ret c' /\
    npoints c' = 2 /\
    drop 2 (points c') = replicate 6 zero_vec3.
Proof.
  eexists. split; [vm_compute; reflexivity|]. split; [reflexivity|].
  destruct (generate_writes_prefix 1 (scenario_ctx 8) (Fin 2)
              (Fin (-1 # 2)) (Fin (-1 # 2)) (Fin (1 # 2)) (Fin (1 # 2)) _
              eq_refl) as (_ & _ & _ & _ & _ & H).
  exact H.
Defined.

(** ** A buffer that is too short *)

Lemma bind_short n (m1 m2 : outcome par_bluenoise_context)
    (k1 k2 : par_bluenoise_context -> outcome par_bluenoise_context) :
  short_out n m1 m2 ->
  (forall a, short_out n (k1 a) (k2 (shorten n a))) ->
  short_out n (a ← m1; k1 a) (b ← m2; k2 b).
Proof.
  intros Hm Hk. destruct m2 as [cs| | |]; cbn in *.
  - destruct Hm as (cf & -> & ->). apply Hk.
  - exact I.
  - rewrite Hm. reflexivity.
  - rewrite Hm. reflexivity.
Qed.

Lemma emit_short n c v : short_out n (emit c v) (emit (shorten n c) v).
Proof.
  unfold emit, shorten. cbn [npoints points set_points].
  rewrite length_take.
  destruct (Z.leb_spec 0 (npoints c)); cbn [andb]; [|exact I].
  destruct (Z.ltb_spec (npoints c)
              (Z.of_nat (n `min` length (points c)))); [|exact I].
  destruct (Z.ltb_spec (npoints c) (Z.of_nat (length (points c)))); [|lia].
  cbn [short_out]. eexists. split; [reflexivity|].
  unfold shorten, set_points. cbn [npoints points].
  rewrite take_insert_lt by lia. reflexivity.
Qed.

Lemma candidate_short n
    (cand : par_bluenoise_context -> Z -> outcome (option par_vec3)) j c :
  (forall c p k i, cand (set_points c p k) i = cand c i) ->
  short_out n
    (o ← cand c j; match o with None => Ret c | Some v => emit c v end)
    (o ← cand (shorten n c) j;
     match o with None => Ret (shorten n c) | Some v => emit (shorten n c) v
     end).
Proof.
  intros Hcand.
  replace (cand (shorten n c) j) with (cand c j)
    by (symmetry; apply Hcand).
  destruct (cand c j) as [[v|]| | |]; cbn; auto.
  - apply emit_short.
  - eauto.
Qed.

Lemma for_loop_short n body m : forall i c,
  (forall j a, short_out n (body j a) (body j (shorten n a))) ->
  short_out n (for_loop m i body c) (for_loop m i body (shorten n c)).
Proof.
  induction m as [|m IH]; intros i c Hbody; cbn [for_loop].
  - cbn. eauto.
  - apply bind_short; [apply Hbody|]. intros a. apply IH, Hbody.
Qed.

Lemma visit_short n f kids : forall c,
  (forall k a, short_out n (f a k) (f (shorten n a) k)) ->
  short_out n (visit f kids c) (visit f kids (shorten n c)).
Proof.
  induction kids as [|k ks IH]; intros c Hf; cbn [visit].
  - cbn. eauto.
  - apply bind_short; [apply Hf|]. intros a. apply IH, Hf.
Qed.

Lemma short_out_fail n (A : Type) (m : outcome A)
    (k1 k2 : A -> outcome par_bluenoise_context) :
  (forall a, short_out n (k1 a) (k2 a)) ->
  short_out n (a ← m; k1 a) (a ← m; k2 a).
Proof. intros H. destruct m; cbn; auto. Qed.

Lemma apply_tile_short n fuel : forall node c,
  short_out n (apply_tile fuel c node) (apply_tile fuel (shorten n c) node).
Proof.
  induction fuel as [|fuel IH]; intros node c; [reflexivity|].
  rewrite !apply_tile_unfold.
  change (node_skipped (shorten n c) node) with (node_skipped c node).
  destruct (node_skipped c node); [cbn; eauto|].
  change (tiles (shorten n c)) with (tiles c).
  apply short_out_fail. intros tile.
  change (node_threshold (shorten n c) tile (n_level node))
    with (node_threshold c tile (n_level node)).
  apply short_out_fail. intros ntests.
  change (tile_size (shorten n c) (n_level node))
    with (tile_size c (n_level node)).
  change (node_factor (shorten n c) (n_level node))
    with (node_factor c (n_level node)).
  change (nsubtiles (shorten n c)) with (nsubtiles c).
  apply bind_short.
  - unfold for_upto. apply for_loop_short.
    intros j a. rewrite !tile_body_candidate.
    apply candidate_short. intros; apply tile_candidate_store.
  - intros a. destruct (fleb _ _); [cbn; eauto|].
    change (spawn_children (shorten n a)) with (spawn_children a).
    apply short_out_fail. intros kids.
    apply visit_short. intros k a'. apply IH.
Qed.

Lemma root_pass_short n c :
  short_out n (root_pass c) (root_pass (shorten n c)).
Proof.
  unfold root_pass.
  change (mag (shorten n c)) with (mag c).
  change (global_density (shorten n c)) with (global_density c).
  change (tiles (shorten n c)) with (tiles c).
  apply short_out_fail. intros tile0.
  apply short_out_fail. intros ntests.
  unfold for_upto. apply for_loop_short.
  intros j a. rewrite !root_body_candidate.
  apply candidate_short. intros; apply root_candidate_store.
Qed.

Lemma generate_short n fuel ctx d l b r t :
  short_out n (par_bluenoise_generate fuel ctx d l b r t)
              (par_bluenoise_generate fuel (shorten n ctx) d l b r t).
Proof.
  unfold par_bluenoise_generate.
  change (begin_request (shorten n ctx) d l b r t)
    with (shorten n (begin_request ctx d l b r t)).
  apply bind_short; [apply root_pass_short|].
  intros a. apply apply_tile_short.
Qed.

(** X16.  [generate] never compares the count with the size of the point
    buffer: when a request returns [n] points, the same request on a context
    whose buffer holds fewer than [n] entries writes past the end of the
    buffer, which is undefined behaviour. *)
Theorem generate_buffer_overflow fuel ctx d l b r t c' buf k :
  par_bluenoise_generate fuel ctx d l b r t = Ret c' ->
  Z.of_nat (length buf) < npoints c' ->
  par_bluenoise_generate fuel (set_points ctx buf k) d l b r t = Undefined.
Proof.
  intros Hgen Hlen.
  pose proof (generate_count _ _ _ _ _ _ _ _ Hgen) as Hc.
  pose proof (generate_short (length buf) fuel ctx d l b r t) as Hshort.
  assert (Hu : unchanged_store (shorten (length buf) ctx)
                               (set_points ctx buf k)).
  { repeat split. cbn [points set_points shorten].
    rewrite length_take. lia. }
  pose proof (generate_agree fuel _ _ d l b r t Hu) as Hag.
  destruct (par_bluenoise_generate fuel (shorten (length buf) ctx)
              d l b r t) as [cs| | |] eqn:Es.
  - exfalso. cbn [short_out] in Hshort.
    destruct Hshort as (cf & Hcf & ->). rewrite Hgen in Hcf.
    injection Hcf as <-.
    apply generate_count in Es.
    cbn [npoints points set_points shorten] in Es.
    rewrite length_take in Es. lia.
  - destruct (par_bluenoise_generate fuel (set_points ctx buf k) d l b r t);
      cbn in Hag; try contradiction. reflexivity.
  - cbn [short_out] in Hshort. congruence.
  - cbn [short_out] in Hshort. congruence.
Qed.

Lemma generate_buffer_overflow_witness :
  exists c',
    par_bluenoise_generate 1 (scenario_ctx 8) (Fin 4)
      (Fin (-1 # 2)) (Fin (-1 # 2)) (Fin (1 # 2)) (Fin (1 # 2)) = Ret c' /\
    npoints c' = 4 /\
    par_bluenoise_generate 1
      (set_points (scenario_ctx 8) (replicate 3 zero_vec3) 0) (Fin 4)
      (Fin (-1 # 2)) (Fin (-1 # 2)) (Fin (1 # 2)) (Fin (1 # 2)) = Undefined.
Proof.
  eexists. split; [vm_compute; reflexivity|]. split; [reflexivity|].
  eapply (generate_buffer_overflow 1 (scenario_ctx 8));
    [vm_compute; reflexivity | vm_compute; reflexivity].
Defined.

(** ** Fuel *)

Lemma visit_more f g kids : forall c c',
  (forall k a b, f a k = Ret b -> g a k = Ret b) ->
  visit f kids c = Ret c' -> visit g kids c = Ret c'.
Proof.
  induction kids as [|k ks IH]; intros c c' Hfg H; cbn [visit] in *;
    [exact H|].
  apply bind_Ret in H as (c1 & H1 & H).
  rewrite (Hfg _ _ _ H1), bind_Ret_l. eapply IH; eassumption.
Qed.

Lemma apply_tile_more n : forall node c c',
  apply_tile n c node = Ret c' -> apply_tile (S n) c node = Ret c'.
Proof.
  induction n as [|n IH]; intros node c c' H; [discriminate|].
  rewrite apply_tile_unfold in H. rewrite apply_tile_unfold.
  destruct (node_skipped c node); [exact H|].
  apply bind_Ret in H as (tile & -> & H). rewrite bind_Ret_l.
  apply bind_Ret in H as (ntests & -> & H). rewrite bind_Ret_l.
  apply bind_Ret in H as (c1 & -> & H). rewrite bind_Ret_l.
  destruct (fleb _ _); [exact H|].
  apply bind_Ret in H as (kids & -> & H). rewrite bind_Ret_l.
  eapply visit_more; [|exact H]. intros k a b. apply IH.
Qed.

Lemma generate_more n m ctx d l b r t c' :
  (n <= m)%nat ->
  par_bluenoise_generate n ctx d l b r t = Ret c' ->
  par_bluenoise_generate m ctx d l b r t = Ret c'.
Proof.
  intros Hnm H. unfold par_bluenoise_generate in *.
  apply bind_Ret in H as (c1 & -> & H). rewrite bind_Ret_l.
  induction Hnm as [|m Hnm IH]; [exact H|]. apply apply_tile_more, IH.
Qed.

Lemma capacity_nonneg ctx d b t :
  well_formed ctx -> 0 <= capacity ctx d b t.
Proof.
  intros (_ & _ & Htiles & _). unfold capacity.
  destruct (tiles ctx) as [|tile0 rest]; [lia|].
  apply Forall_cons in Htiles as [(Hnp & _) _].
  pose proof (budget_nonneg ctx (levels ctx d b t)). lia.
Qed.

(** The count of a run that returns is within the capacity of the
    request: the run on a buffer of that many entries returns as well. *)
Lemma generate_within_capacity ctx dq l b r t c' :
  well_formed ctx ->
  separated b t -> is_nan l = false -> is_nan r = false ->
  (0 <= dq)%Q ->
  capacity ctx (Fin dq) b t <= Z.of_nat (length (points ctx)) ->
  par_bluenoise_generate (S (levels ctx (Fin dq) b t)) ctx (Fin dq) l b r t
    = Ret c' ->
  npoints c' <= capacity ctx (Fin dq) b t.
Proof.
  intros Hwf Hsep Hl Hr Hd Hcap Hgen.
  set (d := Fin dq) in *.
  set (n := Z.to_nat (capacity ctx d b t)).
  assert (Hwf' : well_formed (shorten n ctx)) by exact Hwf.
  assert (Hcap' : capacity (shorten n ctx) d b t
                  <= Z.of_nat (length (points (shorten n ctx)))).
  { assert (E : capacity (shorten n ctx) d b t = capacity ctx d b t).
    { unfold capacity.
      change (tiles (shorten n ctx)) with (tiles ctx).
      change (levels (shorten n ctx) d b t) with (levels ctx d b t).
      rewrite (budget_store ctx (shorten n ctx)) by reflexivity.
      reflexivity. }
    rewrite E. cbn [points set_points shorten]. rewrite length_take. lia. }
  destruct (generate_returns (shorten n ctx) dq l b r t Hwf' Hsep Hl Hr Hd
              Hcap') as [cs Hs].
  fold d in Hs.
  change (levels (shorten n ctx) d b t) with (levels ctx d b t) in Hs.
  pose proof (generate_short n (S (levels ctx d b t)) ctx d l b r t)
    as Hshort.
  rewrite Hs, Hgen in Hshort. cbn [short_out] in Hshort.
  destruct Hshort as (cf & [= <-] & ->).
  apply generate_count in Hs.
  cbn [npoints points set_points shorten] in Hs.
  rewrite length_take in Hs.
  pose proof (capacity_nonneg ctx d b t Hwf). unfold n in Hs. lia.
Qed.

(** X17.  On a well-formed context, for a density that is a number of 0 or
    above, a bottom and a top that stay apart as [float]s, a left and a
    right bound that are not NaN, and a point buffer of at least [capacity]
    entries, [generate] returns: every recursion budget above [levels]
    gives the same result, and the result holds at most [capacity]
    points. *)
Theorem generate_terminates ctx dq l b r t :
  well_formed ctx ->
  separated b t -> is_nan l = false -> is_nan r = false ->
  (0 <= dq)%Q ->
  capacity ctx (Fin dq) b t <= Z.of_nat (length (points ctx)) ->
  exists c',
    (forall fuel, (levels ctx (Fin dq) b t < fuel)%nat ->
       par_bluenoise_generate fuel ctx (Fin dq) l b r t = Ret c') /\
    0 <= npoints c' <= capacity ctx (Fin dq) b t.
Proof.
  intros Hwf Hsep Hl Hr Hd Hcap.
  destruct (generate_returns ctx dq l b r t Hwf Hsep Hl Hr Hd Hcap)
    as [c' Hgen].
  exists c'. split.
  { intros fuel Hf. eapply generate_more; [|exact Hgen]. lia. }
  split.
  - pose proof (generate_count _ _ _ _ _ _ _ _ Hgen). lia.
  - apply (generate_within_capacity ctx dq l b r t c'); assumption.
Qed.

Lemma generate_terminates_witness :
  separated (Fin (-1 # 2)) (Fin (1 # 2)) /\
  exists c',
    (forall fuel, (0 < fuel)%nat ->
       par_bluenoise_generate fuel sub_ctx (Fin 1)
         (Fin (-1 # 2)) (Fin (-1 # 2)) (Fin (1 # 2)) (Fin (1 # 2)) = Ret c')
    /\ 0 <= npoints c' <= 3.
Proof.
  assert (Hsep : separated (Fin (-1 # 2)) (Fin (1 # 2))).
  { cbn [separated]. vm_compute. discriminate. }
  split; [exact Hsep|].
  destruct (generate_terminates sub_ctx 1
              (Fin (-1 # 2)) (Fin (-1 # 2)) (Fin (1 # 2)) (Fin (1 # 2)))
    as (c' & Hall & Hn);
    [exact sub_ctx_well_formed | exact Hsep | reflexivity | reflexivity
    | vm_compute; discriminate | vm_compute; discriminate |].
  exists c'. split; [exact Hall | exact Hn].
Defined.

(** ** The tileset loader *)

Lemma at_ptr_app buf ptr l1 l2 :
  at_ptr buf ptr (l1 ++ l2) ->
  at_ptr buf (ptr + Z.of_nat (length l1)) l2.
Proof.
  intros (pre & -> & ->). exists (pre ++ l1). split.
  - rewrite <- app_assoc. reflexivity.
  - rewrite length_app. lia.
Qed.

Lemma at_ptr_lookup buf ptr l (k : nat) b :
  at_ptr buf ptr l -> l !! k = Some b ->
  array_get buf (ptr + Z.of_nat k) = Ret b.
Proof.
  intros (pre & -> & ->) Hk. unfold array_get.
  destruct (Z.ltb_spec (Z.of_nat (length pre) + Z.of_nat k) 0); [lia|].
  replace (Z.to_nat (Z.of_nat (length pre) + Z.of_nat k))
    with (length pre + k)%nat by lia.
  rewrite lookup_app_r by lia.
  replace (length pre + k - length pre)%nat with k by lia.
  rewrite Hk. reflexivity.
Qed.

Lemma word_bytes w :
  is_word w ->
  w mod 256 + 256 * ((w / 256) mod 256) + 65536 * ((w / 65536) mod 256)
  + 16777216 * ((w / 16777216) mod 256) = w.
Proof.
  intros [H0 H1].
  pose proof (Z.div_mod w 256 ltac:(lia)).
  pose proof (Z.div_mod (w / 256) 256 ltac:(lia)).
  pose proof (Z.div_mod (w / 256 / 256) 256 ltac:(lia)).
  rewrite (Z.div_div w 256 256) in * by lia.
  rewrite (Z.div_div w (256 * 256) 256) in * by lia.
  change (256 * 256) with 65536 in *.
  change (65536 * 256) with 16777216 in *.
  assert (w / 16777216 < 256) by (apply Z.div_lt_upper_bound; lia).
  assert (0 <= w / 16777216) by (apply Z.div_pos; lia).
  rewrite (Z.mod_small (w / 16777216) 256) by lia.
  lia.
Qed.

Lemma read_word_at buf ptr w l :
  at_ptr buf ptr (encode_word w ++ l) -> is_word w ->
  read_word buf ptr = Ret w.
Proof.
  intros Hat Hw. unfold read_word, read_byte.
  replace ptr with (ptr + Z.of_nat 0) at 1 by lia.
  change 1 with (Z.of_nat 1). change 2 with (Z.of_nat 2).
  change 3 with (Z.of_nat 3).
  rewrite (at_ptr_lookup _ _ _ 0 (w mod 256) Hat eq_refl).
  rewrite (at_ptr_lookup _ _ _ 1 ((w / 256) mod 256) Hat eq_refl).
  rewrite (at_ptr_lookup _ _ _ 2 ((w / 65536) mod 256) Hat eq_refl).
  rewrite (at_ptr_lookup _ _ _ 3 ((w / 16777216) mod 256) Hat eq_refl).
  cbn. rewrite !Z.mod_mod by lia. f_equal. apply word_bytes, Hw.
Qed.

Lemma to_int32_mod z : is_int32 z -> to_int32 (z mod 4294967296) = z.
Proof.
  intros [H0 H1]. unfold to_int32.
  destruct (Z.le_gt_cases 0 z).
  - rewrite Z.mod_small by lia.
    destruct (Z.ltb_spec z 2147483648); lia.
  - assert (Hm : z mod 4294967296 = z + 4294967296).
    { symmetry. apply Z.mod_unique with (q := -1); lia. }
    rewrite Hm.
    destruct (Z.ltb_spec (z + 4294967296) 2147483648); lia.
Qed.

Lemma freadi_at buf ptr z l :
  at_ptr buf ptr (encode_i32 z ++ l) -> is_int32 z ->
  freadi buf ptr = Ret (z, ptr + 4) /\ at_ptr buf (ptr + 4) l.
Proof.
  intros Hat Hz. split.
  - unfold freadi. unfold encode_i32 in Hat.
    rewrite (read_word_at _ _ _ _ Hat).
    + cbn. rewrite to_int32_mod by exact Hz. reflexivity.
    + unfold is_word. apply Z.mod_pos_bound. lia.
  - apply at_ptr_app in Hat. exact Hat.
Qed.

Lemma freadf_at buf ptr w l :
  at_ptr buf ptr (encode_word w ++ l) -> is_word w ->
  freadf buf ptr = Ret (decode_f32 w, ptr + 4) /\ at_ptr buf (ptr + 4) l.
Proof.
  intros Hat Hw. split.
  - unfold freadf. rewrite (read_word_at _ _ _ _ Hat Hw). reflexivity.
  - apply at_ptr_app in Hat. exact Hat.
Qed.

Lemma read_array_loop {A D} buf (read : Z -> outcome (A * Z))
    (enc : D -> list Z) (dec : D -> A) (ok : D -> Prop) :
  reads buf read enc dec ok ->
  forall ds i acc ptr l,
    Forall ok ds -> at_ptr buf ptr (concat (enc <$> ds) ++ l) ->
    exists ptr',
      for_loop (length ds) i (fun j st =>
        '(v, ptr') ← read (snd st); Ret (fst st ++ [v], ptr')) (acc, ptr)
      = Ret (acc ++ (dec <$> ds), ptr') /\ at_ptr buf ptr' l.
Proof.
  intros Hread ds. induction ds as [|d ds IH]; intros i acc ptr l Hok Hat.
  - exists ptr. cbn. rewrite app_nil_r. split; [reflexivity | exact Hat].
  - apply Forall_cons in Hok as [Hd Hds].
    cbn [fmap list_fmap concat] in Hat. rewrite <- app_assoc in Hat.
    destruct (Hread d ptr _ Hd Hat) as (ptr1 & Hr & Hat1).
    destruct (IH (i + 1) (acc ++ [dec d]) ptr1 l Hds Hat1) as (ptr' & Hl & Hat').
    exists ptr'. split; [|exact Hat'].
    cbn [length for_loop snd fst]. rewrite Hr. cbn.
    cbn in Hl. rewrite Hl. rewrite <- app_assoc. reflexivity.
Qed.

Lemma read_array_at {A D} buf (read : Z -> outcome (A * Z))
    (enc : D -> list Z) (dec : D -> A) (ok : D -> Prop) :
  reads buf read enc dec ok ->
  forall count ds ptr l,
    Z.to_nat count = length ds ->
    Forall ok ds -> at_ptr buf ptr (concat (enc <$> ds) ++ l) ->
    exists ptr',
      read_array read count ptr = Ret (dec <$> ds, ptr') /\ at_ptr buf ptr' l.
Proof.
  intros Hread count ds ptr l Hn Hok Hat. unfold read_array, for_upto.
  rewrite Hn.
  destruct (read_array_loop buf read enc dec ok Hread ds 0 [] ptr l Hok Hat)
    as (ptr' & Hl & Hat').
  exists ptr'. split; [exact Hl | exact Hat'].
Qed.

Lemma freadi_reads buf :
  reads buf (freadi buf) encode_i32 (fun z => z) is_int32.
Proof.
  intros z ptr l Hz Hat. exists (ptr + 4). apply freadi_at; assumption.
Qed.

Lemma read_vec2_reads buf :
  reads buf (read_vec2 buf) encode_vec2 decode_vec2 vec2_data_ok.
Proof.
  intros [x y] ptr l [Hx Hy] Hat. cbn in Hx, Hy.
  unfold encode_vec2 in Hat. cbn [fst snd] in Hat.
  rewrite <- app_assoc in Hat.
  destruct (freadf_at _ _ _ _ Hat Hx) as [Hr1 Hat1].
  destruct (freadf_at _ _ _ _ Hat1 Hy) as [Hr2 Hat2].
  exists (ptr + 4 + 4). split; [|exact Hat2].
  unfold read_vec2. rewrite Hr1. cbn. rewrite Hr2. reflexivity.
Qed.

Lemma read_ints_reads buf count :
  reads buf (read_array (freadi buf) count) encode_ints (fun sd => sd)
    (fun sd => length sd = Z.to_nat count /\ Forall is_int32 sd).
Proof.
  intros sd ptr l [Hlen Hok] Hat.
  destruct (read_array_at buf _ _ _ _ (freadi_reads buf) count sd ptr l
              (eq_sym Hlen) Hok Hat) as (ptr' & Hr & Hat').
  exists ptr'. rewrite list_fmap_id in Hr. split; assumption.
Qed.

Lemma read_tile_reads buf nsubtiles nsubdivs :
  reads buf (read_tile_flat buf nsubtiles nsubdivs) encode_tile decode_tile
    (tile_data_ok nsubtiles nsubdivs).
Proof.
  intros t ptr l
    (Hn & He & Hs & Hw & Hsdn & Hsd & Hnp & Hp & Hnsp & Hsp) Hat.
  unfold encode_tile in Hat. rewrite <- !app_assoc in Hat.
  destruct (freadi_at _ _ _ _ Hat Hn) as [R1 A1].
  destruct (freadi_at _ _ _ _ A1 He) as [R2 A2].
  destruct (freadi_at _ _ _ _ A2 Hs) as [R3 A3].
  destruct (freadi_at _ _ _ _ A3 Hw) as [R4 A4].
  destruct (read_array_at buf _ _ _ _ (read_ints_reads buf _) nsubdivs
              (d_subdivs t) _ _ (eq_sym Hsdn) Hsd A4) as (p5 & R5 & A5).
  rewrite list_fmap_id in R5.
  destruct (freadi_at _ _ _ _ A5 Hnp) as [R6 A6].
  destruct (read_array_at buf _ _ _ _ (read_vec2_reads buf)
              (Z.of_nat (length (d_points t))) (d_points t) _ _
              (Nat2Z.id _) Hp A6) as (p7 & R7 & A7).
  destruct (freadi_at _ _ _ _ A7 Hnsp) as [R8 A8].
  destruct (read_array_at buf _ _ _ _ (read_vec2_reads buf)
              (Z.of_nat (length (d_subpts t))) (d_subpts t) _ _
              (Nat2Z.id _) Hsp A8) as (p9 & R9 & A9).
  exists p9. split; [|exact A9].
  unfold read_tile_flat. rewrite R1. cbn. rewrite R2. cbn. rewrite R3. cbn.
  rewrite R4. cbn. rewrite R5. cbn. rewrite R6. cbn. rewrite R7. cbn.
  rewrite R8. cbn. rewrite R9. reflexivity.
Qed.

Lemma at_ptr_end buf ptr l :
  at_ptr buf ptr l -> ptr = Z.of_nat (length buf) - Z.of_nat (length l).
Proof. intros (pre & -> & ->). rewrite length_app. lia. Qed.

Lemma read_tileset_at nsubtiles nsubdivs ts rest :
  tileset_ok nsubtiles nsubdivs ts ->
  read_tileset_flat (encode_tileset nsubtiles nsubdivs ts ++ rest)
  = Ret (Z.of_nat (length ts), nsubtiles, nsubdivs, decode_tile <$> ts,
         Z.of_nat (length (encode_tileset nsubtiles nsubdivs ts))).
Proof.
  intros (Hnt & Hns & Hnd & Hts).
  set (buf := encode_tileset nsubtiles nsubdivs ts ++ rest).
  assert (Hat : at_ptr buf 0 (encode_tileset nsubtiles nsubdivs ts ++ rest))
    by (exists []; split; reflexivity).
  unfold encode_tileset in Hat. rewrite <- !app_assoc in Hat.
  destruct (freadi_at _ _ _ _ Hat Hnt) as [R1 A1].
  change (0 + 4) with 4 in *.
  destruct (freadi_at _ _ _ _ A1 Hns) as [R2 A2].
  change (4 + 4) with 8 in *.
  destruct (freadi_at _ _ _ _ A2 Hnd) as [R3 A3].
  change (8 + 4) with 12 in *.
  destruct (read_array_at buf _ _ _ _ (read_tile_reads buf nsubtiles nsubdivs)
              (Z.of_nat (length ts)) ts _ _ (Nat2Z.id _) Hts A3)
    as (p4 & R4 & A4).
  unfold read_tileset_flat. rewrite R1. cbn [mbind outcome_bind].
  rewrite R2. cbn [mbind outcome_bind]. rewrite R3. cbn [mbind outcome_bind].
  rewrite R4. cbn [mbind outcome_bind]. apply at_ptr_end in A4. subst p4. unfold buf.
  rewrite length_app. do 3 f_equal. lia.
Qed.

(** The block that is read, when it is not empty or [malloc(0)] is not
    NULL: to read it is undefined when the copy of the file is refused. *)
Lemma input_block_cases grant null_for_empty file memory nbytes data :
  (nbytes <> 0 /\ memory = data) \/
  (nbytes = 0 /\ file = Some data /\
   (data <> [] \/ null_for_empty = false)) ->
  input_block grant null_for_empty file memory nbytes = Ret data \/
  input_block grant null_for_empty file memory nbytes = Undefined.
Proof.
  unfold input_block. intros [[Hn ->] | (-> & -> & Hp)].
  - destruct (Z.eqb_spec nbytes 0); [contradiction | left; reflexivity].
  - cbn [Z.eqb].
    destruct (INT_MAX <? Z.of_nat (length data)); [right; reflexivity|].
    destruct (negb (grant FileBuffer) && negb (bool_decide (data = [])));
      [right; reflexivity | left].
    destruct Hp as [Hp | ->]; [|reflexivity].
    rewrite bool_decide_eq_false_2 by exact Hp.
    rewrite andb_false_r. reflexivity.
Qed.

Lemma input_block_of grant null_for_empty file memory nbytes data :
  grant FileBuffer = true ->
  (nbytes <> 0 /\ memory = data) \/
  (nbytes = 0 /\ file = Some data /\ Z.of_nat (length data) <= INT_MAX /\
   (data <> [] \/ null_for_empty = false)) ->
  input_block grant null_for_empty file memory nbytes = Ret data.
Proof.
  intros Hg Hsrc. unfold input_block.
  destruct Hsrc as [[Hn ->] | (-> & -> & Hlen & Hp)].
  - destruct (Z.eqb_spec nbytes 0); [contradiction | reflexivity].
  - cbn [Z.eqb]. rewrite Hg. cbn [negb andb].
    destruct (Z.ltb_spec INT_MAX (Z.of_nat (length data))); [lia|].
    destruct Hp as [Hp | ->]; [|reflexivity].
    rewrite bool_decide_eq_false_2 by exact Hp.
    rewrite andb_false_r. reflexivity.
Qed.

Lemma encode_tileset_not_empty ns nd ts rest :
  encode_tileset ns nd ts ++ rest <> [].
Proof. discriminate. Qed.

Lemma read_array_shape {A} (read : Z -> outcome (A * Z)) (P : A -> Prop)
    count ptr l ptr' :
  (forall ptr v ptr', read ptr = Ret (v, ptr') -> P v) ->
  read_array read count ptr = Ret (l, ptr') ->
  length l = Z.to_nat count /\ Forall P l.
Proof.
  intros HP Hrun. unfold read_array, for_upto in Hrun.
  apply (for_loop_ind
           (fun i st => Z.of_nat (length (fst st)) = i /\ Forall P (fst st)))
    in Hrun.
  - cbn in Hrun. destruct Hrun as [Hlen HF]. split; [lia | exact HF].
  - intros i [acc p] s' [Hlen HF] Hbody. cbn [fst snd] in *.
    inv_ret. destruct x as [v p']. cbn in Hbody. inv_ret. cbn [fst].
    split.
    + rewrite length_app. cbn. lia.
    + apply Forall_app. split; [exact HF|].
      constructor; [|constructor]. eapply HP. eassumption.
  - cbn. split; [reflexivity | constructor].
Qed.

(** *** The stores against the reads *)

Lemma stores_checked_bind {A B} (o o' : outcome A) (k k' : A -> outcome B) :
  stores_checked o o' -> (forall v, stores_checked (k v) (k' v)) ->
  stores_checked (o ≫= k) (o' ≫= k').
Proof.
  intros Ho Hk. destruct o; cbn in *; try tauto. rewrite Ho. cbn. apply Hk.
Qed.

Lemma array_get_checked {A} (a : list A) i :
  stores_checked (array_get a i) (array_get a i).
Proof.
  unfold array_get. destruct (i <? 0); [exact I|].
  destruct (a !! Z.to_nat i); cbn; [reflexivity | exact I].
Qed.

Lemma read_byte_checked buf off :
  stores_checked (read_byte buf off) (read_byte buf off).
Proof.
  unfold read_byte. apply stores_checked_bind; [apply array_get_checked|].
  intros v. reflexivity.
Qed.

Lemma read_word_checked buf ptr :
  stores_checked (read_word buf ptr) (read_word buf ptr).
Proof.
  unfold read_word.
  repeat (apply stores_checked_bind; [apply read_byte_checked | intros ?]).
  reflexivity.
Qed.

Lemma freadi_checked buf ptr :
  stores_checked (freadi buf ptr) (freadi buf ptr).
Proof.
  unfold freadi. apply stores_checked_bind; [apply read_word_checked|].
  intros v. reflexivity.
Qed.

Lemma freadf_checked buf ptr :
  stores_checked (freadf buf ptr) (freadf buf ptr).
Proof.
  unfold freadf. apply stores_checked_bind; [apply read_word_checked|].
  intros v. reflexivity.
Qed.

Lemma read_vec2_checked buf ptr :
  stores_checked (read_vec2 buf ptr) (read_vec2 buf ptr).
Proof.
  unfold read_vec2. apply stores_checked_bind; [apply freadf_checked|].
  intros [x p1]. apply stores_checked_bind; [apply freadf_checked|].
  intros [y p2]. reflexivity.
Qed.

Lemma for_loop_checked {St} (body body' : Z -> St -> outcome St) :
  (forall j s, stores_checked (body j s) (body' j s)) ->
  forall n i s, stores_checked (for_loop n i body s) (for_loop n i body' s).
Proof.
  intros Hb n. induction n as [|n IH]; intros i s; cbn [for_loop].
  - reflexivity.
  - apply stores_checked_bind; [apply Hb | intros v; apply IH].
Qed.

Lemma fill_array_checked {A} bytes size (r r' : Z -> outcome (A * Z))
    count ptr :
  (forall ptr, stores_checked (r ptr) (r' ptr)) ->
  stores_checked (fill_array bytes size r count ptr)
    (read_array r' count ptr).
Proof.
  intros Hr. unfold fill_array, read_array, for_upto.
  apply for_loop_checked.
  intros j st. apply stores_checked_bind; [apply Hr|].
  intros [v p']. destruct (in_block bytes size j); [reflexivity | exact I].
Qed.

Lemma read_subdiv_checked grant size_max buf nsubtiles ptr :
  stores_checked (read_subdiv grant size_max buf nsubtiles ptr)
    (read_array (freadi buf) (nsubtiles * nsubtiles) ptr).
Proof.
  unfold read_subdiv. destruct (is_int (nsubtiles * nsubtiles)); [|exact I].
  apply fill_array_checked. intros p0. apply freadi_checked.
Qed.

Lemma read_tile_checked grant ptr_size size_max buf nsubtiles nsubdivs
    ptr :
  stores_checked
    (read_tile grant ptr_size size_max buf nsubtiles nsubdivs ptr)
    (read_tile_flat buf nsubtiles nsubdivs ptr).
Proof.
  unfold read_tile, read_tile_flat, read_subdivs.
  do 4 (apply stores_checked_bind; [apply freadi_checked | intros [? ?]]).
  apply stores_checked_bind;
    [apply fill_array_checked; intros; apply read_subdiv_checked
    | intros [? ?]].
  apply stores_checked_bind; [apply freadi_checked | intros [? ?]].
  apply stores_checked_bind;
    [apply fill_array_checked; intros; apply read_vec2_checked
    | intros [? ?]].
  apply stores_checked_bind; [apply freadi_checked | intros [? ?]].
  apply stores_checked_bind;
    [apply fill_array_checked; intros; apply read_vec2_checked
    | intros [? ?]].
  reflexivity.
Qed.

Lemma read_tileset_checked grant ptr_size size_max buf :
  stores_checked (read_tileset grant ptr_size size_max buf)
    (read_tileset_flat buf).
Proof.
  unfold read_tileset, read_tileset_flat.
  do 3 (apply stores_checked_bind; [apply freadi_checked | intros [? ?]]).
  apply stores_checked_bind;
    [apply fill_array_checked; intros; apply read_tile_checked
    | intros [? ?]].
  reflexivity.
Qed.

(** *** Blocks that hold what is stored in them *)

Lemma block_bytes_exact size_max size count :
  0 <= size -> 0 <= count -> size * count <= size_max ->
  block_bytes true size_max size count = size * count.
Proof.
  intros Hs H0 Hc. unfold block_bytes. apply Z.mod_small. nia.
Qed.

Lemma block_bytes_le granted size_max size count :
  0 <= size -> 0 <= count ->
  block_bytes granted size_max size count <= size * count.
Proof.
  intros Hs Hc. unfold block_bytes.
  assert (H0 : 0 <= size * count) by nia.
  destruct granted; [|exact H0].
  destruct (Z.lt_trichotomy (size_max + 1) 0) as [Hm | [Hm | Hm]].
  - pose proof (Z.mod_neg_bound (size * count) (size_max + 1) Hm). lia.
  - rewrite Hm. rewrite Z.mod_0_r. lia.
  - pose proof (Z.mod_le (size * count) (size_max + 1) H0 Hm). lia.
Qed.

Lemma in_block_fits bytes slot count j :
  0 <= slot -> slot * count <= bytes -> 0 <= j < count ->
  in_block bytes slot j = true.
Proof. intros Hs Hc Hj. unfold in_block. apply Z.leb_le. nia. Qed.

Lemma for_loop_ext {St} (body body' : Z -> St -> outcome St) n : forall i s,
  (forall j s, i <= j < i + Z.of_nat n -> body j s = body' j s) ->
  for_loop n i body s = for_loop n i body' s.
Proof.
  induction n as [|n IH]; intros i s H; cbn [for_loop]; [reflexivity|].
  rewrite H by lia. destruct (body' i s); cbn; try reflexivity.
  apply IH. intros j s' Hj. apply H. lia.
Qed.

(** A loop whose entries all lie inside the block is its reads. *)
Lemma fill_array_fit {A} bytes size (r r' : Z -> outcome (A * Z))
    count ptr :
  (forall j, 0 <= j < count -> in_block bytes size j = true) ->
  (forall ptr, r ptr = r' ptr) ->
  fill_array bytes size r count ptr = read_array r' count ptr.
Proof.
  intros Hin Hr. unfold fill_array, read_array, for_upto.
  apply for_loop_ext. intros j st Hj. rewrite Hr.
  rewrite Hin by lia.
  destruct (r' (snd st)) as [[v p']| | |]; reflexivity.
Qed.

(** The accumulator of a loop of reads is kept. *)
Lemma read_loop_prefix {A} (r : Z -> outcome (A * Z)) n : forall i acc ptr l
    ptr',
  for_loop n i (fun j st =>
      '(v, ptr') ← r (snd st); Ret (fst st ++ [v], ptr')) (acc, ptr)
    = Ret (l, ptr') ->
  exists rest, l = acc ++ rest.
Proof.
  induction n as [|n IH]; intros i acc ptr l ptr' H; cbn [for_loop] in H.
  - injection H as <- _. exists []. rewrite app_nil_r. reflexivity.
  - apply bind_Ret in H as ([acc1 p1] & Hb & H).
    cbn [fst snd] in Hb. apply bind_Ret in Hb as ([v p2] & _ & Hb).
    cbn in Hb. injection Hb as <- <-.
    apply IH in H as (rest & ->). exists (v :: rest).
    rewrite <- app_assoc. reflexivity.
Qed.

(** A loop of reads that returns entries which can be stored is matched by
    the loop that stores them, when all entries lie inside the block. *)
Lemma fill_loop_of_flat {A} bytes size (r r' : Z -> outcome (A * Z))
    (P : A -> Prop) n : forall i acc ptr l ptr',
  (forall j, i <= j < i + Z.of_nat n -> in_block bytes size j = true) ->
  (forall p v p', r' p = Ret (v, p') -> P v -> r p = Ret (v, p')) ->
  for_loop n i (fun j st =>
      '(v, ptr') ← r' (snd st); Ret (fst st ++ [v], ptr')) (acc, ptr)
    = Ret (l, ptr') ->
  Forall P l ->
  for_loop n i (fun j st =>
      '(v, ptr') ← r (snd st);
      if in_block bytes size j then Ret (fst st ++ [v], ptr')
      else Undefined) (acc, ptr)
    = Ret (l, ptr').
Proof.
  induction n as [|n IH]; intros i acc ptr l ptr' Hin Hr H HP;
    cbn [for_loop] in *; [exact H|].
  apply bind_Ret in H as ([acc1 p1] & Hb & H).
  cbn [fst snd] in Hb. apply bind_Ret in Hb as ([v p2] & Hv & Hb).
  cbn in Hb. injection Hb as <- <-.
  pose proof (read_loop_prefix _ _ _ _ _ _ _ H) as (rest & Hl).
  assert (Pv : P v).
  { rewrite Hl in HP. apply Forall_app in HP as [HP _].
    apply Forall_app in HP as [_ HP].
    apply Forall_cons in HP as [HP _]. exact HP. }
  cbn [fst snd]. rewrite (Hr _ _ _ Hv Pv). cbn [mbind outcome_bind].
  rewrite Hin by lia. cbn [mbind outcome_bind].
  apply IH; try assumption. intros j Hj. apply Hin. lia.
Qed.

Lemma fill_array_of_flat {A} bytes size (r r' : Z -> outcome (A * Z))
    (P : A -> Prop) count ptr l ptr' :
  (forall j, 0 <= j < count -> in_block bytes size j = true) ->
  (forall p v p', r' p = Ret (v, p') -> P v -> r p = Ret (v, p')) ->
  read_array r' count ptr = Ret (l, ptr') -> Forall P l ->
  fill_array bytes size r count ptr = Ret (l, ptr').
Proof.
  intros Hin Hr H HP. unfold fill_array, read_array, for_upto in *.
  eapply fill_loop_of_flat; try eassumption.
  intros j Hj. apply Hin. lia.
Qed.

Lemma is_int_square n : n * n <= INT_MAX -> is_int (n * n) = true.
Proof.
  intros H. unfold is_int, INT_MIN, INT_MAX in *.
  apply andb_true_intro. split; apply Z.leb_le; nia.
Qed.

(** An array whose size in bytes is a value of [size_t] is filled by its
    reads. *)
Lemma fill_array_exact {A} size_max size (r : Z -> outcome (A * Z))
    count ptr :
  0 <= size -> size * count <= size_max ->
  fill_array (block_bytes true size_max size count) size r count ptr
  = read_array r count ptr.
Proof.
  intros Hs Hc. apply fill_array_fit; [|reflexivity].
  intros j Hj. rewrite block_bytes_exact by (first [assumption | lia]).
  apply (in_block_fits _ _ count); lia.
Qed.

Section granted.

Variable grant : alloc_site -> bool.
Hypothesis granted : forall site, grant site = true.

Lemma read_subdiv_fit size_max buf nsubtiles ptr :
  nsubtiles * nsubtiles <= INT_MAX ->
  4 * (nsubtiles * nsubtiles) <= size_max ->
  read_subdiv grant size_max buf nsubtiles ptr
  = read_array (freadi buf) (nsubtiles * nsubtiles) ptr.
Proof.
  intros Hi Hs. unfold read_subdiv. rewrite is_int_square by exact Hi.
  rewrite granted. apply fill_array_exact; lia.
Qed.

Lemma read_subdivs_fit ptr_size size_max buf nsubtiles nsubdivs ptr :
  0 <= ptr_size <= 4 ->
  nsubtiles * nsubtiles <= INT_MAX ->
  4 * (nsubtiles * nsubtiles) <= size_max ->
  4 * nsubdivs <= size_max ->
  read_subdivs grant ptr_size size_max buf nsubtiles nsubdivs ptr
  = read_array (read_array (freadi buf) (nsubtiles * nsubtiles))
      nsubdivs ptr.
Proof.
  intros Hp Hi Hs Hd. unfold read_subdivs. rewrite granted.
  apply fill_array_fit.
  - intros j Hj. rewrite block_bytes_exact by lia.
    apply (in_block_fits _ _ nsubdivs); nia.
  - intros p0. apply read_subdiv_fit; assumption.
Qed.

Lemma read_tile_of_flat ptr_size size_max buf nsubtiles nsubdivs ptr t
    ptr' :
  0 <= ptr_size <= 4 ->
  nsubtiles * nsubtiles <= INT_MAX ->
  4 * (nsubtiles * nsubtiles) <= size_max ->
  4 * nsubdivs <= size_max ->
  read_tile_flat buf nsubtiles nsubdivs ptr = Ret (t, ptr') ->
  tile_sizes_ok size_max t ->
  read_tile grant ptr_size size_max buf nsubtiles nsubdivs ptr
  = Ret (t, ptr').
Proof.
  intros Hp Hi Hs Hd H Hok. unfold read_tile, read_tile_flat in *.
  rewrite !granted.
  do 4 (match type of H with
        | (?o ≫= _) = _ => destruct o as [[? ?]| | |]; try discriminate H
        end; cbn [mbind outcome_bind] in H |- *).
  rewrite read_subdivs_fit by assumption.
  match type of H with
  | (?o ≫= _) = _ => destruct o as [[? ?]| | |]; try discriminate H
  end; cbn [mbind outcome_bind] in H |- *.
  match type of H with
  | (?o ≫= _) = _ => destruct o as [[np ?]| | |]; try discriminate H
  end; cbn [mbind outcome_bind] in H |- *.
  match type of H with
  | (?o ≫= _) = _ => destruct o as [[? ?]| | |] eqn:E1; try discriminate H
  end; cbn [mbind outcome_bind] in H.
  match type of H with
  | (?o ≫= _) = _ =>
      destruct o as [[nsp ?]| | |] eqn:E3; try discriminate H
  end; cbn [mbind outcome_bind] in H.
  match type of H with
  | (?o ≫= _) = _ => destruct o as [[? ?]| | |] eqn:E2; try discriminate H
  end; cbn [mbind outcome_bind] in H.
  injection H as <- <-. destruct Hok as [Hnp Hnsp].
  cbn [t_npoints t_nsubpts] in Hnp, Hnsp.
  rewrite fill_array_exact by (unfold sizeof_vec2 in *; lia).
  rewrite E1. cbn [mbind outcome_bind].
  rewrite E3. cbn [mbind outcome_bind].
  rewrite fill_array_exact by (unfold sizeof_vec2 in *; lia).
  rewrite E2. reflexivity.
Qed.

Lemma read_tileset_of_flat ptr_size size_max buf nt ns nd ts ptr :
  loader_fits ptr_size size_max ns nd ts ->
  read_tileset_flat buf = Ret (nt, ns, nd, ts, ptr) ->
  read_tileset grant ptr_size size_max buf = Ret (nt, ns, nd, ts, ptr).
Proof.
  intros (Hp & Hi & Hs & Hd & Hts & Hall).
  unfold read_tileset, read_tileset_flat. rewrite granted.
  destruct (freadi buf 0) as [[a p1]| | |]; try discriminate.
  cbn [mbind outcome_bind].
  destruct (freadi buf p1) as [[b p2]| | |]; try discriminate.
  cbn [mbind outcome_bind].
  destruct (freadi buf p2) as [[c p3]| | |]; try discriminate.
  cbn [mbind outcome_bind]. intros H.
  destruct (read_array (read_tile_flat buf b c) a p3) as [[l p4]| | |]
    eqn:E; try discriminate.
  cbn in H. injection H as -> -> -> -> ->.
  assert (Hlen : length ts = Z.to_nat nt).
  { apply (read_array_shape _ (fun _ => True)) in E; [tauto | trivial]. }
  rewrite (fill_array_of_flat _ _ _ (read_tile_flat buf ns nd)
             (tile_sizes_ok size_max) nt p3 ts ptr); try assumption.
  - reflexivity.
  - intros j Hj.
    assert (Hsz : 0 <= sizeof_tile ptr_size) by (unfold sizeof_tile; lia).
    rewrite block_bytes_exact by nia.
    apply (in_block_fits _ _ nt); nia.
  - intros p v p' Hv Pv. apply read_tile_of_flat; assumption.
Qed.

End granted.

Lemma fresh_points size_max maxpts :
  0 <= maxpts -> sizeof_vec3 * maxpts <= size_max ->
  Z.to_nat (block_bytes true size_max sizeof_vec3 maxpts / sizeof_vec3)
  = Z.to_nat maxpts.
Proof.
  intros H0 H. rewrite block_bytes_exact by (unfold sizeof_vec3 in *; lia).
  unfold sizeof_vec3.
  replace (12 * maxpts) with (maxpts * 12) by lia.
  rewrite Z.div_mul by lia. reflexivity.
Qed.

(** X18.  On a host whose pointers take no more than 4 bytes and whose
    [malloc] grants the requests, for a tileset whose arrays and a [maxpts],
    of 0 or above, whose point buffer have sizes that are values of
    [size_t], [par_bluenoise_create] reads the tileset layout: the three
    [int]s [ntiles], [nsubtiles], [nsubdivs], then for each tile the four
    edge colours, [nsubdivs] subdivisions of [nsubtiles * nsubtiles]
    [int]s (a product that is a value of [int]), a count and as many pairs
    of [float]s, a second count and as many pairs of [float]s, all
    little-endian, from the caller's buffer when [nbytes] is not 0 and from
    the file, of a length that is a value of [int], when it is.  Bytes
    behind the tileset are ignored.  The
    context has no density field, [maxpoints = maxpts] and a point buffer
    of [maxpts] entries. *)
Theorem create_reads_tileset grant ptr_size size_max garbage junk
    null_for_empty file memory nbytes maxpts nsubtiles nsubdivs ts rest :
  (forall site, grant site = true) ->
  loader_fits ptr_size size_max nsubtiles nsubdivs (decode_tile <$> ts) ->
  0 <= maxpts -> sizeof_vec3 * maxpts <= size_max ->
  tileset_ok nsubtiles nsubdivs ts ->
  (nbytes <> 0 /\ memory = encode_tileset nsubtiles nsubdivs ts ++ rest) \/
  (nbytes = 0 /\
   file = Some (encode_tileset nsubtiles nsubdivs ts ++ rest) /\
   Z.of_nat (length (encode_tileset nsubtiles nsubdivs ts ++ rest))
   <= INT_MAX) ->
  par_bluenoise_create grant ptr_size size_max garbage junk null_for_empty
    file memory nbytes maxpts
  = Ret (fresh_context garbage junk maxpts nsubtiles nsubdivs
           (decode_tile <$> ts)).
Proof.
  intros Hg Hfit Hpos Hpts Hok Hsrc. unfold par_bluenoise_create.
  rewrite !Hg. cbn [negb].
  rewrite (input_block_of _ _ _ _ _
             (encode_tileset nsubtiles nsubdivs ts ++ rest) (Hg _)).
  - cbn [mbind outcome_bind].
    rewrite (read_tileset_of_flat grant Hg ptr_size size_max _ _ _ _ _ _
               Hfit (read_tileset_at _ _ _ rest Hok)).
    cbn. unfold fresh_context.
    change ((sizeof_vec3 * maxpts) mod (size_max + 1))
      with (block_bytes true size_max sizeof_vec3 maxpts).
    rewrite length_fmap, fresh_points by assumption. reflexivity.
  - destruct Hsrc as [H | (Hn & Hf & Hlen)]; [left; exact H | right].
    split; [exact Hn|]. split; [exact Hf|]. split; [exact Hlen|].
    left. apply encode_tileset_not_empty.
Qed.

(** *** The block of the pointers to the subdivisions *)

(** A loop of stores that returns has had all its entries inside the
    block. *)
Lemma fill_array_in_block {A} bytes size (r : Z -> outcome (A * Z)) count
    ptr x :
  fill_array bytes size r count ptr = Ret x ->
  forall j, 0 <= j < count -> in_block bytes size j = true.
Proof.
  intros Hrun. unfold fill_array, for_upto in Hrun.
  set (I := fun (i : Z) (_ : list A * Z) =>
              forall j, 0 <= j < i -> in_block bytes size j = true).
  assert (Hall : I (0 + Z.of_nat (Z.to_nat count)) x).
  { eapply (for_loop_ind I); [| |exact Hrun].
    - intros i st st' HI Hbody j Hj.
      destruct (Z.eq_dec j i) as [->|Hne]; [|apply HI; lia].
      apply bind_Ret in Hbody as ([v p'] & _ & Hbody).
      destruct (in_block bytes size i); [reflexivity | discriminate].
    - intros j Hj. lia. }
  intros j Hj. apply Hall. lia.
Qed.

(** A loop of stores that returns has had every read of it return. *)
Lemma fill_array_reads {A} bytes size (r : Z -> outcome (A * Z))
    (P : Prop) count ptr x :
  (forall p v, r p = Ret v -> P) ->
  fill_array bytes size r count ptr = Ret x -> 0 < count -> P.
Proof.
  intros HP Hrun Hc. unfold fill_array, for_upto in Hrun.
  destruct (Z.to_nat count) as [|n] eqn:En; [lia|].
  cbn [for_loop] in Hrun.
  apply bind_Ret in Hrun as (st & Hb & _).
  apply bind_Ret in Hb as (v & Hv & _). eapply HP, Hv.
Qed.

Lemma read_subdivs_fits grant ptr_size size_max buf nsubtiles nsubdivs ptr
    x :
  read_subdivs grant ptr_size size_max buf nsubtiles nsubdivs ptr = Ret x ->
  0 < nsubdivs ->
  ptr_size <= 4 /\ nsubtiles * nsubtiles <= INT_MAX.
Proof.
  intros Hrun Hnd. unfold read_subdivs in Hrun. split.
  - pose proof (fill_array_in_block _ _ _ _ _ _ Hrun (nsubdivs - 1)
                  ltac:(lia)) as Hs.
    unfold in_block in Hs. apply Z.leb_le in Hs.
    pose proof (block_bytes_le (grant SubdivArray) size_max 4 nsubdivs
                  ltac:(lia) ltac:(lia)).
    nia.
  - eapply (fill_array_reads _ _ _ _ _ _ _ _ Hrun Hnd).
    Unshelve.
    intros p v Hv. unfold read_subdiv in Hv.
    destruct (is_int (nsubtiles * nsubtiles)) eqn:E; [|discriminate].
    unfold is_int in E. apply andb_prop in E as [_ E].
    apply Z.leb_le in E. exact E.
Qed.

Lemma read_tile_fits grant ptr_size size_max buf nsubtiles nsubdivs ptr x :
  read_tile grant ptr_size size_max buf nsubtiles nsubdivs ptr = Ret x ->
  0 < nsubdivs ->
  ptr_size <= 4 /\ nsubtiles * nsubtiles <= INT_MAX.
Proof.
  intros Hrun. unfold read_tile in Hrun.
  do 4 (apply bind_Ret in Hrun as ([? ?] & _ & Hrun)).
  apply bind_Ret in Hrun as ([? ?] & Hsub & _).
  eapply read_subdivs_fits; eassumption.
Qed.

Lemma read_tileset_fits grant ptr_size size_max buf nt ns nd ts ptr :
  read_tileset grant ptr_size size_max buf = Ret (nt, ns, nd, ts, ptr) ->
  ts <> [] -> 0 < nd ->
  ptr_size <= 4 /\ ns * ns <= INT_MAX.
Proof.
  intros Hrun Hne Hnd. unfold read_tileset in Hrun.
  do 3 (apply bind_Ret in Hrun as ([? ?] & _ & Hrun)).
  apply bind_Ret in Hrun as ([l p'] & Hts & Hrun).
  cbn in Hrun. injection Hrun as -> -> -> -> ->.
  destruct (Z.le_gt_cases nt 0) as [Hnt|Hnt].
  - unfold fill_array, for_upto in Hts.
    replace (Z.to_nat nt) with 0%nat in Hts by lia.
    cbn in Hts. injection Hts as <- _. contradiction.
  - eapply (fill_array_reads _ _ _ _ _ _ _ _ Hts Hnt).
    Unshelve.
    intros p v Hv. destruct v as [v p1].
    eapply read_tile_fits; eassumption.
Qed.

(** X26.  On a host whose pointers take more than 4 bytes, as every
    64-bit host, [par_bluenoise_create] has undefined behaviour on every
    tileset with a tile and a subdivision variant, whatever [malloc]
    grants: the block for the pointers to the subdivisions of a tile is
    requested with [sizeof(int)] bytes per entry, and the store of the last
    pointer ends behind it. *)
Theorem create_pointer_overflow grant ptr_size size_max garbage junk
    null_for_empty file memory nbytes maxpts nsubtiles nsubdivs ts rest :
  4 < ptr_size -> ts <> [] -> 0 < nsubdivs ->
  tileset_ok nsubtiles nsubdivs ts ->
  (nbytes <> 0 /\ memory = encode_tileset nsubtiles nsubdivs ts ++ rest) \/
  (nbytes = 0 /\
   file = Some (encode_tileset nsubtiles nsubdivs ts ++ rest)) ->
  par_bluenoise_create grant ptr_size size_max garbage junk null_for_empty
    file memory nbytes maxpts
  = Undefined.
Proof.
  intros Hp Hne Hnd Hok Hsrc. unfold par_bluenoise_create.
  destruct (grant ContextBlock); [cbn [negb] | reflexivity].
  destruct (input_block_cases grant null_for_empty file memory nbytes
              (encode_tileset nsubtiles nsubdivs ts ++ rest)) as [-> | ->];
    [| |reflexivity].
  - destruct Hsrc as [H | [Hn Hf]]; [left; exact H | right].
    split; [exact Hn|]. split; [exact Hf|].
    left. apply encode_tileset_not_empty.
  - cbn [mbind outcome_bind].
    pose proof (read_tileset_checked grant ptr_size size_max
                  (encode_tileset nsubtiles nsubdivs ts ++ rest)) as Hc.
    rewrite (read_tileset_at _ _ _ rest Hok) in Hc.
    destruct (read_tileset grant ptr_size size_max _) as [x| | |] eqn:E;
      unfold stores_checked in Hc; try tauto.
    injection Hc as <-.
    apply read_tileset_fits in E as [E _]; [lia | | exact Hnd].
    destruct ts; [contradiction | discriminate].
Qed.

(** *** The extents of what is read *)

Lemma read_tile_shape buf nsubtiles nsubdivs ptr t ptr' :
  read_tile_flat buf nsubtiles nsubdivs ptr = Ret (t, ptr') ->
  tile_shape nsubtiles nsubdivs t.
Proof.
  intros Hrun. unfold read_tile_flat in Hrun.
  repeat (inv_ret;
          match goal with
          | x : (_ * Z)%type |- _ => destruct x; cbn [fst snd] in *
          end).
  cbn in Hrun. inv_ret.
  unfold tile_shape. cbn.
  match goal with
  | H : read_array (read_array _ _) _ _ = _ |- _ =>
      apply (read_array_shape _
               (fun sd => length sd = Z.to_nat (nsubtiles * nsubtiles))) in H;
      [destruct H as [Hsd1 Hsd2]|]
  end.
  2: { intros p v p' Hr.
       apply (read_array_shape _ (fun _ => True)) in Hr; [tauto | trivial]. }
  repeat match goal with
  | H : read_array (read_vec2 _) _ _ = _ |- _ =>
      apply (read_array_shape _ (fun _ => True)) in H; [destruct H as [H _]|trivial]
  end.
  repeat split; assumption.
Qed.

Lemma read_tileset_flat_shape buf nt ns nd ts ptr :
  read_tileset_flat buf = Ret (nt, ns, nd, ts, ptr) ->
  length ts = Z.to_nat nt /\ Forall (tile_shape ns nd) ts.
Proof.
  intros Hread. unfold read_tileset_flat in Hread.
  repeat (inv_ret;
          match goal with
          | x : (_ * Z)%type |- _ => destruct x; cbn [fst snd] in *
          end).
  simplify_eq.
  match goal with
  | H : read_array (read_tile_flat _ ?a ?b) _ _ = _ |- _ =>
      apply (read_array_shape _ (tile_shape a b)) in H;
      [destruct H as [Hlen Hshape]|]
  end.
  2: { intros p0 v p' Hr. eapply read_tile_shape. exact Hr. }
  split; assumption.
Qed.

(** X19.  Whatever bytes [par_bluenoise_create] is given and whatever
    [malloc] grants, when it returns the context has as many tiles as
    [ntiles] says, every tile has [nsubdivs] subdivisions of
    [nsubtiles * nsubtiles] entries and point arrays as long as their
    counts (empty for a count of 0 or below), there is no density field and
    [maxpoints] is [maxpts].  The block of the context has been granted.
    The point buffer has no entry when its request was refused, and
    [maxpts] entries when it was granted, [maxpts] is 0 or above and the
    size in bytes is a value of [size_t].  When there is a tile and a
    subdivision variant, the call has returned only because the pointers to
    the subdivisions fit the block requested for them, 4 bytes each, and
    the size of the sub-grid is a value of [int]. *)
Theorem create_shape grant ptr_size size_max garbage junk null_for_empty
    file memory nbytes maxpts c :
  par_bluenoise_create grant ptr_size size_max garbage junk null_for_empty
    file memory nbytes maxpts
  = Ret c ->
  length (tiles c) = Z.to_nat (ntiles c) /\
  Forall (tile_shape (nsubtiles c) (nsubdivs c)) (tiles c) /\
  (tiles c <> [] -> 0 < nsubdivs c ->
   ptr_size <= 4 /\ nsubtiles c * nsubtiles c <= INT_MAX) /\
  density c = None /\
  maxpoints c = maxpts /\
  grant ContextBlock = true /\
  (grant PointBuffer = false -> points c = []) /\
  (grant PointBuffer = true ->
   0 <= maxpts -> sizeof_vec3 * maxpts <= size_max ->
   length (points c) = Z.to_nat maxpts).
Proof.
  intros Hrun. unfold par_bluenoise_create in Hrun.
  destruct (grant ContextBlock) eqn:Hctx; [cbn [negb] in Hrun|discriminate].
  apply bind_Ret in Hrun as (buf & _ & Hrun).
  apply bind_Ret in Hrun as (x & Hread & Hrun).
  destruct x as [[[[nt ns] nd] ts] p]. cbn [fst snd] in Hrun.
  injection Hrun as <-. cbn [tiles ntiles nsubtiles nsubdivs density
    maxpoints points].
  pose proof (read_tileset_checked grant ptr_size size_max buf) as Hc.
  rewrite Hread in Hc. cbn in Hc.
  apply read_tileset_flat_shape in Hc as [Hlen Hshape].
  split; [exact Hlen|]. split; [exact Hshape|].
  split; [intros Hne Hnd; eapply read_tileset_fits; eassumption|].
  split; [reflexivity|]. split; [reflexivity|]. split; [reflexivity|].
  split.
  - intros ->. reflexivity.
  - intros -> Hpos Hpts. rewrite length_fmap, length_seq.
    apply fresh_points; assumption.
Qed.

(** *** A buffer cut short *)

Lemma pref_bind {A B} lo len (o o' : outcome (A * Z))
    (k k' : A * Z -> outcome (B * Z)) :
  pref_out lo len o o' ->
  (forall v ptr', lo <= ptr' <= len ->
     pref_out ptr' len (k (v, ptr')) (k' (v, ptr'))) ->
  pref_out lo len (o ≫= k) (o' ≫= k').
Proof.
  intros Ho Hk. destruct o as [[v ptr']| | |]; cbn in *; try tauto.
  destruct Ho as [-> Hr]. cbn. specialize (Hk v ptr' Hr).
  destruct (k (v, ptr')) as [[w ptr'']| | |]; cbn in *; try tauto.
  destruct Hk as [-> Hr']. split; [reflexivity | lia].
Qed.

Lemma read_byte_pref p q off :
  0 <= off ->
  match read_byte p off with
  | Ret b => read_byte (p ++ q) off = Ret b /\ off < Z.of_nat (length p)
  | Undefined => True
  | _ => False
  end.
Proof.
  intros Hoff. unfold read_byte, array_get.
  destruct (Z.ltb_spec off 0); [lia|].
  destruct (p !! Z.to_nat off) as [b|] eqn:Hb; cbn; [|trivial].
  rewrite (lookup_app_l_Some _ _ _ _ Hb). cbn. split; [reflexivity|].
  apply lookup_lt_Some in Hb. lia.
Qed.

Lemma read_word_pref p q off :
  0 <= off ->
  match read_word p off with
  | Ret w => read_word (p ++ q) off = Ret w /\ off + 3 < Z.of_nat (length p)
  | Undefined => True
  | _ => False
  end.
Proof.
  intros Hoff. unfold read_word.
  pose proof (read_byte_pref p q off ltac:(lia)) as H0.
  pose proof (read_byte_pref p q (off + 1) ltac:(lia)) as H1.
  pose proof (read_byte_pref p q (off + 2) ltac:(lia)) as H2.
  pose proof (read_byte_pref p q (off + 3) ltac:(lia)) as H3.
  destruct (read_byte p off); cbn; try tauto. destruct H0 as [-> _].
  destruct (read_byte p (off + 1)); cbn; try tauto. destruct H1 as [-> _].
  destruct (read_byte p (off + 2)); cbn; try tauto. destruct H2 as [-> _].
  destruct (read_byte p (off + 3)); cbn; try tauto. destruct H3 as [-> H3].
  split; [reflexivity | exact H3].
Qed.

Lemma freadi_pref p q :
  pref_reader (Z.of_nat (length p)) (freadi p) (freadi (p ++ q)).
Proof.
  intros ptr Hptr. unfold freadi.
  pose proof (read_word_pref p q ptr ltac:(lia)) as H.
  destruct (read_word p ptr); cbn; try tauto.
  destruct H as [-> H]. cbn. split; [reflexivity | lia].
Qed.

Lemma freadf_pref p q :
  pref_reader (Z.of_nat (length p)) (freadf p) (freadf (p ++ q)).
Proof.
  intros ptr Hptr. unfold freadf.
  pose proof (read_word_pref p q ptr ltac:(lia)) as H.
  destruct (read_word p ptr); cbn; try tauto.
  destruct H as [-> H]. cbn. split; [reflexivity | lia].
Qed.

Lemma pref_out_weaken {A} lo lo' len (o o' : outcome (A * Z)) :
  lo <= lo' -> pref_out lo' len o o' -> pref_out lo len o o'.
Proof.
  intros Hlo. destruct o as [[v ptr']| | |]; cbn; try tauto.
  intros [-> H]. split; [reflexivity | lia].
Qed.

Lemma read_loop_pref {A} len (r r' : Z -> outcome (A * Z)) :
  pref_reader len r r' ->
  forall n i acc lo ptr,
    0 <= lo <= ptr -> ptr <= len ->
    pref_out lo len
      (for_loop n i (fun j st =>
         '(v, ptr') ← r (snd st); Ret (fst st ++ [v], ptr')) (acc, ptr))
      (for_loop n i (fun j st =>
         '(v, ptr') ← r' (snd st); Ret (fst st ++ [v], ptr')) (acc, ptr)).
Proof.
  intros Hr n. induction n as [|n IH]; intros i acc lo ptr Hlo Hlen.
  - cbn. split; [reflexivity | lia].
  - cbn [for_loop fst snd].
    apply pref_bind.
    + apply pref_bind.
      * apply pref_out_weaken with ptr; [lia|]. apply Hr. lia.
      * intros v ptr' Hp. cbn. split; [reflexivity | lia].
    + intros acc' ptr' Hp. apply pref_out_weaken with ptr'; [lia|].
      apply IH; lia.
Qed.

Lemma read_array_pref {A} len (r r' : Z -> outcome (A * Z)) count :
  pref_reader len r r' ->
  pref_reader len (read_array r count) (read_array r' count).
Proof.
  intros Hr ptr Hptr. unfold read_array, for_upto.
  apply read_loop_pref; [exact Hr | lia | lia].
Qed.

Lemma read_vec2_pref p q :
  pref_reader (Z.of_nat (length p)) (read_vec2 p) (read_vec2 (p ++ q)).
Proof.
  intros ptr Hptr. unfold read_vec2.
  apply pref_bind; [apply freadf_pref; lia|].
  intros x ptr1 H1. cbn beta iota.
  apply pref_bind; [apply freadf_pref; lia|].
  intros y ptr2 H2. cbn. split; [reflexivity | lia].
Qed.

Lemma read_tile_pref p q nsubtiles nsubdivs :
  pref_reader (Z.of_nat (length p)) (read_tile_flat p nsubtiles nsubdivs)
    (read_tile_flat (p ++ q) nsubtiles nsubdivs).
Proof.
  intros ptr Hptr. unfold read_tile_flat.
  apply pref_bind; [apply freadi_pref; lia|]. intros n p1 H1. cbn beta iota.
  apply pref_bind; [apply freadi_pref; lia|]. intros e p2 H2. cbn beta iota.
  apply pref_bind; [apply freadi_pref; lia|]. intros s p3 H3. cbn beta iota.
  apply pref_bind; [apply freadi_pref; lia|]. intros w p4 H4. cbn beta iota.
  apply pref_bind.
  { apply read_array_pref; [|lia]. apply read_array_pref, freadi_pref. }
  intros sd p5 H5. cbn beta iota.
  apply pref_bind; [apply freadi_pref; lia|]. intros np p6 H6. cbn beta iota.
  apply pref_bind; [apply read_array_pref; [apply read_vec2_pref | lia]|].
  intros pts p7 H7. cbn beta iota.
  apply pref_bind; [apply freadi_pref; lia|]. intros nsp p8 H8. cbn beta iota.
  apply pref_bind; [apply read_array_pref; [apply read_vec2_pref | lia]|].
  intros spts p9 H9. cbn. split; [reflexivity | lia].
Qed.

Lemma read_tileset_pref p q :
  pref_out 0 (Z.of_nat (length p)) (read_tileset_flat p) (read_tileset_flat (p ++ q)).
Proof.
  unfold read_tileset_flat.
  apply pref_bind; [apply freadi_pref; lia|]. intros nt p1 H1. cbn beta iota.
  apply pref_bind; [apply freadi_pref; lia|]. intros ns p2 H2. cbn beta iota.
  apply pref_bind; [apply freadi_pref; lia|]. intros nd p3 H3. cbn beta iota.
  apply pref_bind; [apply read_array_pref; [apply read_tile_pref | lia]|].
  intros ts p4 H4. cbn. split; [reflexivity | lia].
Qed.

Lemma read_tileset_flat_truncated nsubtiles nsubdivs ts p q :
  tileset_ok nsubtiles nsubdivs ts ->
  p ++ q = encode_tileset nsubtiles nsubdivs ts -> q <> [] ->
  read_tileset_flat p = Undefined.
Proof.
  intros Hok Hpq Hq.
  pose proof (read_tileset_pref p q) as Hpref.
  pose proof (read_tileset_at nsubtiles nsubdivs ts [] Hok) as Hfull.
  rewrite app_nil_r, <- Hpq in Hfull.
  unfold pref_out in Hpref.
  destruct (read_tileset_flat p) as [[x ptr]| | |]; try tauto.
  destruct Hpref as [Hsame Hptr]. rewrite Hfull in Hsame.
  injection Hsame as <- <-. rewrite length_app in Hptr.
  destruct q; [contradiction | cbn in Hptr; lia].
Qed.

(** X20.  [par_bluenoise_create] never compares what it reads with the
    length of its input: on a tileset cut short, anywhere, it reads past the
    end of the block, which is undefined behaviour. *)
Theorem create_truncated grant ptr_size size_max garbage junk null_for_empty
    file memory nbytes maxpts nsubtiles nsubdivs ts p q :
  tileset_ok nsubtiles nsubdivs ts ->
  p ++ q = encode_tileset nsubtiles nsubdivs ts -> q <> [] ->
  (nbytes <> 0 /\ memory = p) \/
  (nbytes = 0 /\ file = Some p /\ (p <> [] \/ null_for_empty = false)) ->
  par_bluenoise_create grant ptr_size size_max garbage junk null_for_empty
    file memory nbytes maxpts
  = Undefined.
Proof.
  intros Hok Hpq Hq Hsrc. unfold par_bluenoise_create.
  destruct (grant ContextBlock); [cbn [negb] | reflexivity].
  destruct (input_block_cases grant null_for_empty file memory nbytes p
              Hsrc) as [-> | ->]; [|reflexivity].
  cbn [mbind outcome_bind].
  pose proof (read_tileset_checked grant ptr_size size_max p) as Hc.
  rewrite (read_tileset_flat_truncated _ _ _ _ _ Hok Hpq Hq) in Hc.
  destruct (read_tileset grant ptr_size size_max p); cbn in Hc;
    [discriminate | reflexivity | contradiction | contradiction].
Qed.

(** ** A viewport without height *)

Lemma flat_at_store c c' px py :
  same_store c c' -> flat_at c px py -> flat_at c' px py.
Proof. intros (p & n & -> & _) H. exact H. Qed.

Lemma covers_store c c' node px py :
  same_store c c' -> covers c node px py -> covers c' node px py.
Proof. intros (p & n & -> & _) H. exact H. Qed.

Lemma tile_size_value c L :
  1 <= nsubtiles c ->
  exists ts, tile_size c L = Fin ts /\ (0 < ts)%Q /\
             (ts == 1 / inject_Z (nsubtiles c) ^ L)%Q.
Proof.
  intros Hn. unfold tile_size, powf, of_int.
  assert (Hq : (0 < inject_Z (nsubtiles c))%Q).
  { change 0%Q with (inject_Z 0). rewrite <- Zlt_Qlt. lia. }
  destruct (Z.eqb_spec L 0) as [->|HL].
  { exists (1 / 1)%Q. split; [reflexivity|]. split; [reflexivity|].
    reflexivity. }
  destruct (Qeq_bool (inject_Z (nsubtiles c)) 0) eqn:E.
  { apply Qeq_bool_iff in E. lra. }
  cbn [andb].
  assert (Hp : (0 < inject_Z (nsubtiles c) ^ L)%Q)
    by (apply Qpower_0_lt; exact Hq).
  unfold f1. rewrite fdiv_fin by lra.
  eexists. split; [reflexivity|]. split; [|reflexivity].
  apply Qlt_shift_div_l; lra.
Qed.

Lemma tile_size_next c L ts ts' :
  1 <= nsubtiles c ->
  tile_size c L = Fin ts -> tile_size c (L + 1) = Fin ts' ->
  (ts' * inject_Z (nsubtiles c) == ts)%Q.
Proof.
  intros Hn H1 H2.
  destruct (tile_size_value c L Hn) as (a & Ha & _ & Ea).
  destruct (tile_size_value c (L + 1) Hn) as (b & Hb & _ & Eb).
  rewrite Ha in H1. rewrite Hb in H2.
  injection H1 as <-. injection H2 as <-.
  assert (Hq : (0 < inject_Z (nsubtiles c))%Q).
  { change 0%Q with (inject_Z 0). rewrite <- Zlt_Qlt. lia. }
  assert (Hq0 : ~ (inject_Z (nsubtiles c) == 0)%Q) by lra.
  rewrite Ea, Eb. rewrite Qpower_plus by exact Hq0.
  assert (Hp : (0 < inject_Z (nsubtiles c) ^ L)%Q)
    by (apply Qpower_0_lt; exact Hq).
  change (inject_Z (nsubtiles c) ^ 1)%Q with (inject_Z (nsubtiles c)).
  field. split; lra.
Qed.

Lemma covers_not_skipped c node px py :
  flat_at c px py -> covers c node px py -> node_skipped c node = false.
Proof.
  intros (Hn & _ & L & R & B & T & HL & HR & HB & HT & Hx & EB & ET)
         (x & y & ts & Ex & Ey & Ets & Hcx & Hcy).
  unfold node_skipped, outside, fgtb.
  rewrite Ets, Ex, Ey, HL, HR, HB, HT. cbn [fadd fltb]. unfold Qltb.
  repeat match goal with
  | |- context [Qle_bool ?a ?b] =>
      let E := fresh "E" in
      destruct (Qle_bool a b) eqn:E;
      [apply Qle_bool_iff in E | apply Qle_bool_gt in E]
  end; cbn; try reflexivity; lra.
Qed.

(** With an infinite magnification no threshold is a finite number. *)
Lemma threshold_not_finite c tile L :
  1 <= nsubtiles c -> mag c = PInf ->
  is_finite (node_threshold c tile L) = false.
Proof.
  intros Hn Hmag. unfold node_threshold. rewrite Hmag.
  destruct (node_depth_pos c L) as (p & -> & Hp); [left; lia|].
  cbn [fdiv]. destruct (Qltb p 0) eqn:E; [apply Qltb_lt in E; lra|].
  unfold of_int, fsub.
  destruct (global_density c) as [q| | |]; cbn; try reflexivity.
  unfold inf_signed. destruct (Qltb 0 q); [reflexivity|].
  destruct (Qltb q 0); reflexivity.
Qed.

(** A threshold that is no finite number either breaks the conversion of
    the number of tests, or sends the descent on. *)
Lemma not_finite_descends a thr n :
  is_finite thr = false -> to_int (mini a thr) = Ret n ->
  fleb thr (of_int a) = false.
Proof.
  intros Hf Hn.
  destruct thr as [q| | |]; cbn in Hf, Hn; try discriminate. reflexivity.
Qed.

(** One of [n] equal parts of an interval holds a given point of it. *)
Lemma part_holds (x ts p s : Q) (n : Z) :
  1 <= n -> (0 < ts)%Q -> (s * inject_Z n == ts)%Q -> (x <= p <= x + ts)%Q ->
  exists k, 0 <= k < n /\
            (x + inject_Z k * s <= p <= x + inject_Z k * s + s)%Q.
Proof.
  intros Hn Hts Hs Hp.
  assert (Hn0 : (0 < inject_Z n)%Q).
  { change 0%Q with (inject_Z 0). rewrite <- Zlt_Qlt. lia. }
  assert (Hs0 : (0 < s)%Q) by nra.
  set (f := Qfloor ((p - x) / s)).
  assert (Hf1 : (inject_Z f <= (p - x) / s)%Q) by apply Qfloor_le.
  assert (Hf2 : ((p - x) / s < inject_Z (f + 1))%Q) by apply Qlt_floor.
  assert (Hf1' : (inject_Z f * s <= p - x)%Q).
  { apply Qle_shift_div_l in Hf1 || idtac.
    apply (Qmult_le_compat_r _ _ s) in Hf1; [|lra].
    rewrite Qmult_comm in Hf1.
    assert (E : ((p - x) / s * s == p - x)%Q) by (field; lra).
    rewrite E in Hf1. lra. }
  assert (Hf2' : (p - x < inject_Z (f + 1) * s)%Q).
  { apply (Qmult_lt_compat_r _ _ s) in Hf2; [|lra].
    assert (E : ((p - x) / s * s == p - x)%Q) by (field; lra).
    rewrite E in Hf2. exact Hf2. }
  rewrite inject_Z_plus in Hf2'. change (inject_Z 1) with 1%Q in Hf2'.
  assert (Hf0 : 0 <= f).
  { destruct (Z.le_gt_cases 0 f) as [|Hneg]; [assumption|].
    assert (f + 1 <= 0) by lia.
    assert ((inject_Z (f + 1) <= inject_Z 0)%Q) by (rewrite <- Zle_Qle; lia).
    rewrite inject_Z_plus in H0. change (inject_Z 1) with 1%Q in H0.
    change (inject_Z 0) with 0%Q in H0. nra. }
  destruct (Z.lt_ge_cases f n) as [Hlt|Hge].
  - exists f. split; [lia|]. split; lra.
  - exists (n - 1). split; [lia|].
    assert (E : (inject_Z (n - 1) == inject_Z n - 1)%Q).
    { unfold Z.sub. rewrite inject_Z_plus. reflexivity. }
    rewrite E.
    assert ((inject_Z n <= inject_Z f)%Q) by (rewrite <- Zle_Qle; lia).
    split; nra.
Qed.

Lemma spawn_children_elem ctx tile x y scale level kids ty tx :
  spawn_children ctx tile x y scale level = Ret kids ->
  0 <= ty < nsubtiles ctx -> 0 <= tx < nsubtiles ctx ->
  exists kid, child_node ctx tile x y scale level ty tx = Ret kid /\
              kid ∈ kids.
Proof.
  intros Hrun Hty Htx.
  apply spawn_children_Ret in Hrun as (rows & Hrows & ->).
  assert (Hy : seqZ 0 (Z.max 0 (nsubtiles ctx)) !! Z.to_nat ty = Some ty).
  { apply lookup_seqZ. split; lia. }
  assert (Hx : seqZ 0 (Z.max 0 (nsubtiles ctx)) !! Z.to_nat tx = Some tx).
  { apply lookup_seqZ. split; lia. }
  destruct (Forall2_lookup_l _ _ _ _ _ Hrows Hy) as (row & Hrow & Hr).
  destruct (Forall2_lookup_l _ _ _ _ _ Hr Hx) as (kid & Hkid & Hk).
  exists kid. split; [exact Hk|].
  apply list_elem_of_In, in_concat. exists row.
  split; apply list_elem_of_In; eapply list_elem_of_lookup_2; eassumption.
Qed.

(** The child of a node that holds a point of the node. *)
Lemma covering_child c tile node px py :
  1 <= nsubtiles c -> covers c node px py ->
  exists ty tx,
    0 <= ty < nsubtiles c /\ 0 <= tx < nsubtiles c /\
    forall kid,
      child_node c tile (n_x node) (n_y node)
        (fdiv (tile_size c (n_level node)) (of_int (nsubtiles c)))
        (n_level node + 1) ty tx = Ret kid ->
      covers c kid px py.
Proof.
  intros Hn (x & y & ts & Ex & Ey & Ets & Hx & Hy).
  destruct (tile_size_value c (n_level node) Hn) as (ts0 & Ets0 & Hpos & _).
  rewrite Ets in Ets0. injection Ets0 as <-.
  destruct (tile_size_value c (n_level node + 1) Hn) as (ts' & Ets' & Hpos' & _).
  pose proof (tile_size_next c _ _ _ Hn Ets Ets') as Hnext.
  destruct (part_holds x ts px ts' (nsubtiles c) Hn Hpos Hnext Hx)
    as (tx & Htx & Hpx).
  destruct (part_holds y ts py ts' (nsubtiles c) Hn Hpos Hnext Hy)
    as (ty & Hty & Hpy).
  exists ty, tx. split; [exact Hty|]. split; [exact Htx|].
  intros kid Hkid. unfold child_node in Hkid. inv_ret.
  assert (Hq : (0 < inject_Z (nsubtiles c))%Q).
  { change 0%Q with (inject_Z 0). rewrite <- Zlt_Qlt. lia. }
  rewrite Ets, Ex, Ey. unfold of_int. rewrite fdiv_fin by lra.
  cbn [fmul fadd].
  eexists _, _, ts'. cbn [n_x n_y n_level].
  split; [reflexivity|]. split; [reflexivity|]. split; [exact Ets'|].
  assert (E : (ts / inject_Z (nsubtiles c) == ts')%Q).
  { rewrite <- Hnext. field. lra. }
  rewrite !E. split; lra.
Qed.

(** A visit that never returns stops the walk over the children. *)
Lemma visit_never
    (f : par_bluenoise_context -> par_node -> outcome par_bluenoise_context)
    (kid : par_node) (kids : list par_node) :
  kid ∈ kids ->
  (forall k c c', f c k = Ret c' -> same_store c c') ->
  forall c0,
    (forall c c', same_store c0 c -> f c kid <> Ret c') ->
    forall c c', same_store c0 c -> visit f kids c <> Ret c'.
Proof.
  intros Hin Hf c0 Hkid. induction kids as [|k ks IH]; intros c c' Hs Hrun.
  - apply elem_of_nil in Hin. exact Hin.
  - cbn [visit] in Hrun. apply bind_Ret in Hrun as (c1 & H1 & Hrun).
    apply elem_of_cons in Hin as [<- | Hin].
    + exact (Hkid c c1 Hs H1).
    + apply (IH Hin c1 c'); [|exact Hrun].
      eapply same_store_trans; [exact Hs|]. eapply Hf. exact H1.
Qed.

Lemma apply_tile_same_store fuel node c c' :
  apply_tile fuel c node = Ret c' -> same_store c c'.
Proof. intros H. apply apply_tile_tail_kept in H. apply H. Qed.

Lemma for_upto_same_store body n c c' :
  (forall j a a', body j a = Ret a' -> same_store a a') ->
  for_upto n body c = Ret c' -> same_store c c'.
Proof.
  intros Hbody Hrun. unfold for_upto in Hrun.
  apply (for_loop_ind (fun _ a => same_store c a)) in Hrun;
    [exact Hrun | | apply same_store_refl].
  intros i s s' Hs Hb. eapply same_store_trans; [exact Hs|].
  eapply Hbody. exact Hb.
Qed.

(** The visit of a node that holds a point of a viewport without height
    does not return, whatever the fuel. *)
Lemma apply_tile_flat px py fuel : forall node c c',
  flat_at c px py -> covers c node px py ->
  apply_tile fuel c node <> Ret c'.
Proof.
  induction fuel as [|fuel IH]; intros node c c' Hflat Hcov Hrun;
    [discriminate|].
  rewrite apply_tile_unfold in Hrun.
  rewrite (covers_not_skipped c node px py Hflat Hcov) in Hrun.
  apply bind_Ret in Hrun as (tile & _ & Hrun).
  apply bind_Ret in Hrun as (ntests & Hnt & Hrun).
  apply bind_Ret in Hrun as (c1 & Hloop & Hrun).
  destruct Hflat as (Hn & Hmag & Hview).
  rewrite (not_finite_descends _ _ _
             (threshold_not_finite c tile (n_level node) Hn Hmag) Hnt)
    in Hrun.
  apply bind_Ret in Hrun as (kids & Hkids & Hrun).
  assert (Hs1 : same_store c c1).
  { eapply for_upto_same_store; [|exact Hloop].
    intros j a a' Hb. rewrite tile_body_candidate in Hb.
    apply bind_Ret in Hb as (o & _ & Hb).
    destruct o as [v|]; [|inv_ret; apply same_store_refl].
    apply emit_tail_kept in Hb. apply Hb. }
  destruct (covering_child c tile node px py Hn Hcov)
    as (ty & tx & Hty & Htx & Hchild).
  assert (Ens : nsubtiles c1 = nsubtiles c)
    by (destruct Hs1 as (p & n & -> & _); reflexivity).
  destruct (spawn_children_elem _ _ _ _ _ _ _ ty tx Hkids)
    as (kid & Hkid & Hin); [lia | lia |].
  assert (Hkid' : child_node c tile (n_x node) (n_y node)
                    (fdiv (tile_size c (n_level node)) (of_int (nsubtiles c)))
                    (n_level node + 1) ty tx = Ret kid).
  { destruct Hs1 as (p & n & -> & _). exact Hkid. }
  specialize (Hchild kid Hkid').
  refine (visit_never (apply_tile fuel) kid kids Hin _ c1 _ c1 c'
            (same_store_refl c1) Hrun).
  - intros k a a' Ha. eapply apply_tile_same_store. exact Ha.
  - intros a a' Hs. apply IH.
    + eapply flat_at_store; [|exact (conj Hn (conj Hmag Hview))].
      eapply same_store_trans; eassumption.
    + eapply covers_store; [|exact Hchild].
      eapply same_store_trans; eassumption.
Qed.

Lemma clamp_unit_order a b :
  fleb a b = true ->
  exists L R, clamp (fadd a half) f0 f1 = Fin L /\
              clamp (fadd b half) f0 f1 = Fin R /\
              (0 <= L)%Q /\ (L <= R)%Q /\ (R <= 1)%Q.
Proof.
  intros Hab. unfold clamp, fgtb, half, f0, f1.
  destruct a as [p| | |], b as [q| | |]; cbn in Hab; try discriminate;
    cbn [fadd fltb]; try apply Qle_bool_iff in Hab;
    qcases; eexists _, _; (split; [reflexivity|]);
    (split; [reflexivity|]); repeat split; lra.
Qed.

Lemma clamp_unit_same a b :
  is_finite a = true -> feq a b ->
  exists B T, clamp (fadd a half) f0 f1 = Fin B /\
              clamp (fadd b half) f0 f1 = Fin T /\
              (0 <= B <= 1)%Q /\ (T == B)%Q.
Proof.
  intros Ha Hab. unfold clamp, fgtb, half, f0, f1.
  destruct a as [p| | |], b as [q| | |]; cbn in Ha, Hab;
    try discriminate; try contradiction.
  cbn [fadd fltb].
  qcases; eexists _, _; (split; [reflexivity|]);
    (split; [reflexivity|]); repeat split; lra.
Qed.

(** X21.  A viewport without height gives no result: with at least one
    sub-tile per side, finite [bottom == top] and [left <= right],
    [generate] does not return, whatever the recursion budget, the density
    and the tileset.  The magnification is infinite, so no threshold is
    finite: a node that meets the line either fails to convert its number of
    tests or descends, and one of its children meets the line again. *)
Theorem generate_flat_viewport fuel ctx d l b r t c' :
  1 <= nsubtiles ctx ->
  is_finite b = true -> feq b t -> fleb l r = true ->
  par_bluenoise_generate fuel ctx d l b r t <> Ret c'.
Proof.
  intros Hn Hb Hbt Hlr Hrun. unfold par_bluenoise_generate in Hrun.
  apply bind_Ret in Hrun as (c1 & Hroot & Hrun).
  apply root_pass_tail_kept in Hroot. destruct Hroot as [Hs _].
  destruct (clamp_unit_order l r Hlr) as (L & R & EL & ER & HL & HLR & HR).
  destruct (clamp_unit_same b t Hb Hbt) as (B & T & EB & ET & HB & HTB).
  assert (Hflat : flat_at (begin_request ctx d l b r t) L B).
  { split; [exact Hn|]. split.
    - unfold begin_request. cbn [mag set_request].
      destruct b as [p| | |], t as [q| | |]; cbn in Hb, Hbt;
        try discriminate; try contradiction.
      unfold half. cbn [fadd fsub fopp]. unfold powf. cbn [Z.eqb Z.ltb].
      destruct (Qeq_bool (q + (1 # 2) + - (p + (1 # 2))) 0) eqn:E;
        [reflexivity|].
      apply Qeq_bool_neq in E. exfalso. apply E. lra.
    - exists L, R, B, T. unfold begin_request.
      cbn [left right bottom top set_request].
      repeat split; try assumption; lra. }
  assert (Hcov : covers (begin_request ctx d l b r t) root_node L B).
  { destruct (tile_size_value (begin_request ctx d l b r t) 0 Hn)
      as (ts & Ets & Hpos & Hval).
    exists 0%Q, 0%Q, ts. cbn [root_node n_x n_y n_level].
    split; [reflexivity|]. split; [reflexivity|]. split; [exact Ets|].
    assert (ts == 1)%Q by (rewrite Hval; reflexivity).
    split; lra. }
  eapply (apply_tile_flat L B fuel root_node c1 c');
    [eapply flat_at_store | eapply covers_store | exact Hrun]; eassumption.
Qed.

Lemma generate_flat_viewport_witness :
  fleb (Fin (-1 # 4)) (Fin (1 # 4)) = true /\
  ~ exists fuel c',
      par_bluenoise_generate fuel (scenario_ctx 8) (Fin 1)
        (Fin (-1 # 4)) (Fin 0) (Fin (1 # 4)) (Fin 0) = Ret c'.
Proof.
  split; [reflexivity|]. intros (fuel & c' & Hgen). revert Hgen.
  apply generate_flat_viewport.
  - cbn. lia.
  - reflexivity.
  - cbn. reflexivity.
  - reflexivity.
Defined.

(** ** What [generate] reads of its context *)

Lemma bind_forget (m : outcome par_bluenoise_context)
    (k k' : par_bluenoise_context -> outcome par_bluenoise_context) :
  (forall a, k' (forget a) = map_out forget (k a)) ->
  (a ← map_out forget m; k' a) = map_out forget (a ← m; k a).
Proof. intros Hk. destruct m; cbn; [apply Hk | reflexivity ..]. Qed.

Lemma bind_forget_fail {A} (m : outcome A)
    (k k' : A -> outcome par_bluenoise_context) :
  (forall a, k' a = map_out forget (k a)) ->
  (a ← m; k' a) = map_out forget (a ← m; k a).
Proof. intros Hk. destruct m; cbn; [apply Hk | reflexivity ..]. Qed.

Lemma emit_forget c v : emit (forget c) v = map_out forget (emit c v).
Proof.
  unfold emit. cbn [npoints points forget].
  destruct ((0 <=? npoints c) && (npoints c <? Z.of_nat (length (points c))));
    reflexivity.
Qed.

Lemma root_candidate_forget tile0 factor c i :
  root_candidate tile0 factor (forget c) i = root_candidate tile0 factor c i.
Proof. destruct c as [? ? ? ? ? ? ? ? ? ? ? ? ? ? [dens|] ?]; reflexivity. Qed.

Lemma tile_candidate_forget tile x y ts factor level c i :
  tile_candidate tile x y ts factor level (forget c) i
  = tile_candidate tile x y ts factor level c i.
Proof. destruct c as [? ? ? ? ? ? ? ? ? ? ? ? ? ? [dens|] ?]; reflexivity. Qed.

Lemma candidate_forget
    (cand : par_bluenoise_context -> Z -> outcome (option par_vec3)) j c :
  cand (forget c) j = cand c j ->
  (o ← cand (forget c) j;
   match o with None => Ret (forget c) | Some v => emit (forget c) v end)
  = map_out forget
      (o ← cand c j; match o with None => Ret c | Some v => emit c v end).
Proof.
  intros ->. apply bind_forget_fail. intros [v|]; [apply emit_forget|].
  reflexivity.
Qed.

Lemma for_loop_forget body body' m : forall i c,
  (forall j a, body' j (forget a) = map_out forget (body j a)) ->
  for_loop m i body' (forget c) = map_out forget (for_loop m i body c).
Proof.
  induction m as [|m IH]; intros i c Hbody; cbn [for_loop]; [reflexivity|].
  rewrite Hbody. apply bind_forget. intros a. apply IH, Hbody.
Qed.

Lemma visit_forget f f' kids : forall c,
  (forall k a, f' (forget a) k = map_out forget (f a k)) ->
  visit f' kids (forget c) = map_out forget (visit f kids c).
Proof.
  induction kids as [|k ks IH]; intros c Hf; cbn [visit]; [reflexivity|].
  rewrite Hf. apply bind_forget. intros a. apply IH, Hf.
Qed.

Lemma apply_tile_forget fuel : forall node c,
  apply_tile fuel (forget c) node = map_out forget (apply_tile fuel c node).
Proof.
  induction fuel as [|fuel IH]; intros node c; [reflexivity|].
  rewrite !apply_tile_unfold.
  change (node_skipped (forget c) node) with (node_skipped c node).
  destruct (node_skipped c node); [reflexivity|].
  change (tiles (forget c)) with (tiles c).
  apply bind_forget_fail. intros tile.
  change (node_threshold (forget c) tile (n_level node))
    with (node_threshold c tile (n_level node)).
  apply bind_forget_fail. intros ntests.
  change (tile_size (forget c) (n_level node))
    with (tile_size c (n_level node)).
  change (node_factor (forget c) (n_level node))
    with (node_factor c (n_level node)).
  change (nsubtiles (forget c)) with (nsubtiles c).
  unfold for_upto. rewrite (for_loop_forget
    (tile_body tile (n_x node) (n_y node) (tile_size c (n_level node))
       (node_factor c (n_level node)) (n_level node))).
  2: { intros j a. rewrite !tile_body_candidate.
       apply candidate_forget, tile_candidate_forget. }
  apply bind_forget. intros a. destruct (fleb _ _); [reflexivity|].
  change (spawn_children (forget a)) with (spawn_children a).
  apply bind_forget_fail. intros kids.
  apply visit_forget. intros k a'. apply IH.
Qed.

Lemma root_pass_forget c :
  root_pass (forget c) = map_out forget (root_pass c).
Proof.
  unfold root_pass.
  change (mag (forget c)) with (mag c).
  change (global_density (forget c)) with (global_density c).
  change (tiles (forget c)) with (tiles c).
  apply bind_forget_fail. intros tile0.
  apply bind_forget_fail. intros ntests.
  unfold for_upto. apply for_loop_forget.
  intros j a. rewrite !root_body_candidate.
  apply candidate_forget, root_candidate_forget.
Qed.

Lemma generate_forget fuel ctx d l b r t :
  par_bluenoise_generate fuel (forget ctx) d l b r t
  = map_out forget (par_bluenoise_generate fuel ctx d l b r t).
Proof.
  unfold par_bluenoise_generate.
  change (begin_request (forget ctx) d l b r t)
    with (forget (begin_request ctx d l b r t)).
  rewrite root_pass_forget. apply bind_forget. intros a.
  apply apply_tile_forget.
Qed.

(** X22.  Of its context [generate] reads the tileset, [nsubtiles], the
    density field (with its extent, when a field is set) and the length of
    the point buffer, and nothing else: two contexts that agree on these end
    a request the same way, and with the same count and the same points when
    they return, whatever their [ntiles], [nsubdivs], [maxpoints], earlier
    request and buffer contents. *)
Theorem generate_reads fuel c1 c2 d l b r t :
  same_inputs c1 c2 ->
  same_output (par_bluenoise_generate fuel c1 d l b r t)
              (par_bluenoise_generate fuel c2 d l b r t).
Proof.
  intros (Ht & Hn & Hlen & Hd & Hdim).
  assert (Hst : unchanged_store (forget c1) (forget c2)).
  { unfold unchanged_store. cbn [forget tiles ntiles nsubtiles nsubdivs
      maxpoints density_width density_height density points].
    rewrite <- Hd. destruct (density c1) as [dens|] eqn:E.
    - destruct Hdim as [Hw Hh]; [discriminate|].
      repeat split; congruence.
    - repeat split; congruence. }
  pose proof (generate_agree fuel _ _ d l b r t Hst) as Hag.
  rewrite !generate_forget in Hag.
  destruct (par_bluenoise_generate fuel c1 d l b r t) as [a| | |],
           (par_bluenoise_generate fuel c2 d l b r t) as [a'| | |];
    cbn in Hag |- *; try exact Hag.
  destruct Hag as (p & Hp & _ & Htake).
  assert (En : npoints a' = npoints a) by exact (f_equal npoints Hp).
  assert (Ep : points a' = p) by exact (f_equal points Hp).
  split; [congruence|]. unfold emitted in *. cbn [npoints points forget] in Htake.
  rewrite En, Ep. symmetry. exact Htake.
Qed.

Lemma generate_reads_witness :
  same_inputs (scenario_ctx 8)
    (fresh_context sub_ctx (fun _ => zero_vec3) 8 (nsubtiles (scenario_ctx 8))
       7 (tiles (scenario_ctx 8))) /\
  same_output
    (par_bluenoise_generate 1 (scenario_ctx 8) (Fin 4)
       (Fin (-1 # 2)) (Fin (-1 # 2)) (Fin (1 # 2)) (Fin (1 # 2)))
    (par_bluenoise_generate 1
       (fresh_context sub_ctx (fun _ => zero_vec3) 8
          (nsubtiles (scenario_ctx 8)) 7 (tiles (scenario_ctx 8)))
       (Fin 4) (Fin (-1 # 2)) (Fin (-1 # 2)) (Fin (1 # 2)) (Fin (1 # 2))).
Proof.
  assert (H : same_inputs (scenario_ctx 8)
    (fresh_context sub_ctx (fun _ => zero_vec3) 8 (nsubtiles (scenario_ctx 8))
       7 (tiles (scenario_ctx 8)))).
  { repeat split. }
  split; [exact H|]. apply generate_reads. exact H.
Defined.

(** ** Loading, then generating *)

Lemma decode_f32_finite w :
  finite_word w -> is_finite (decode_f32 w) = true.
Proof.
  intros Hw. unfold decode_f32, finite_word in *.
  destruct (Z.eqb_spec ((w / 8388608) mod 256) 255); [contradiction|].
  reflexivity.
Qed.

Lemma fresh_well_formed garbage junk maxpts ns nd ts :
  tileset_sound ns nd ts ->
  well_formed (fresh_context garbage junk maxpts ns nd (decode_tile <$> ts)).
Proof.
  intros ((_ & _ & _ & Hok) & Hns & Hsq & Hne & Hsound).
  unfold well_formed. cbn [fresh_context nsubtiles tiles].
  split; [exact Hns|]. split.
  { destruct ts; [contradiction | discriminate]. }
  split; [|split].
  - apply Forall_fmap. apply Forall_forall. intros t Ht.
    pose proof (proj1 (Forall_forall _ _) Hok t Ht)
      as (_ & _ & _ & _ & _ & Hsd & _).
    pose proof (proj1 (Forall_forall _ _) Hsound t Ht)
      as (Hone & (sub & Hsub & Hidx) & _ & _).
    unfold tile_ok, compose. cbn [decode_tile t_npoints t_nsubpts t_points
      t_subpts t_subdivs fresh_context nsubtiles tiles].
    rewrite !length_fmap.
    split; [lia|]. split; [lia|]. split; [exact Hone|].
    exists sub. split; [exact Hsub|]. split; [|exact Hidx].
    apply list_elem_of_lookup_2 in Hsub.
    pose proof (proj1 (Forall_forall _ _) Hsd sub Hsub) as [Hlen _].
    rewrite Hlen. lia.
  - unfold tiles_finite. apply Forall_fmap. apply Forall_forall. intros t Ht.
    pose proof (proj1 (Forall_forall _ _) Hsound t Ht)
      as (_ & _ & Hp & Hsp).
    unfold compose. cbn [decode_tile t_points t_subpts].
    split; apply Forall_fmap; (eapply Forall_impl; [eassumption|]);
      intros [x y] [Hx Hy]; split; apply decode_f32_finite; assumption.
  - exact I.
Qed.

(** X23.  Loading, then generating, on a host whose pointers take no more
    than 4 bytes and whose [malloc] grants the requests, for arrays and a
    point buffer whose sizes are values of [size_t] and a file whose length
    is a value of [int].  For a tileset with [nsubtiles >= 2] and a
    sub-grid whose size is a value of [int], at least one tile, and in
    every tile a point or sub-point, a first subdivision that holds indices
    of tiles and coordinates that are finite [float]s,
    [par_bluenoise_create] returns a context on which [generate] returns,
    for every density that is a number of 0 or above, every bottom and top
    that stay apart as [float]s and every left and right bound that are not
    NaN, as soon as [maxpts] is at least the [capacity] of the request; the
    count is within that capacity. *)
Theorem create_then_generate grant ptr_size size_max garbage junk
    null_for_empty file memory nbytes maxpts nsubtiles nsubdivs ts rest
    dq l b r t :
  (forall site, grant site = true) ->
  loader_fits ptr_size size_max nsubtiles nsubdivs (decode_tile <$> ts) ->
  sizeof_vec3 * maxpts <= size_max ->
  tileset_sound nsubtiles nsubdivs ts ->
  (nbytes <> 0 /\ memory = encode_tileset nsubtiles nsubdivs ts ++ rest) \/
  (nbytes = 0 /\
   file = Some (encode_tileset nsubtiles nsubdivs ts ++ rest) /\
   Z.of_nat (length (encode_tileset nsubtiles nsubdivs ts ++ rest))
   <= INT_MAX) ->
  separated b t -> is_nan l = false -> is_nan r = false ->
  (0 <= dq)%Q ->
  capacity (fresh_context garbage junk maxpts nsubtiles nsubdivs
              (decode_tile <$> ts)) (Fin dq) b t <= maxpts ->
  exists c c',
    par_bluenoise_create grant ptr_size size_max garbage junk
      null_for_empty file memory nbytes maxpts = Ret c /\
    (forall fuel, (levels c (Fin dq) b t < fuel)%nat ->
       par_bluenoise_generate fuel c (Fin dq) l b r t = Ret c') /\
    0 <= npoints c' <= capacity c (Fin dq) b t.
Proof.
  intros Hg Hfit Hpts Hsound Hsrc Hsep Hl Hr Hd Hcap.
  pose proof (fresh_well_formed garbage junk maxpts _ _ _ Hsound) as Hwf.
  set (c := fresh_context garbage junk maxpts nsubtiles nsubdivs
              (decode_tile <$> ts)) in *.
  assert (Hbuf : capacity c (Fin dq) b t <= Z.of_nat (length (points c))).
  { pose proof (capacity_nonneg c (Fin dq) b t Hwf).
    unfold c at 2. cbn [fresh_context points].
    rewrite length_fmap, length_seq. lia. }
  assert (Hpos : 0 <= maxpts).
  { pose proof (capacity_nonneg c (Fin dq) b t Hwf). lia. }
  destruct (generate_returns c dq l b r t Hwf Hsep Hl Hr Hd Hbuf)
    as [c' Hgen].
  exists c, c'. split; [|split; [|split]].
  - unfold par_bluenoise_create. rewrite !Hg. cbn [negb].
    rewrite (input_block_of _ _ _ _ _
               (encode_tileset nsubtiles nsubdivs ts ++ rest) (Hg _)).
    + cbn [mbind outcome_bind].
      rewrite (read_tileset_of_flat grant Hg ptr_size size_max _ _ _ _ _ _
                 Hfit (read_tileset_at _ _ _ rest (proj1 Hsound))).
      cbn. unfold c, fresh_context.
      change ((sizeof_vec3 * maxpts) mod (size_max + 1))
        with (block_bytes true size_max sizeof_vec3 maxpts).
      rewrite length_fmap, fresh_points by assumption. reflexivity.
    + destruct Hsrc as [H | (Hn & Hf & Hlen)]; [left; exact H | right].
      split; [exact Hn|]. split; [exact Hf|]. split; [exact Hlen|].
      left. apply encode_tileset_not_empty.
  - intros fuel Hf. eapply generate_more; [|exact Hgen]. lia.
  - pose proof (generate_count _ _ _ _ _ _ _ _ Hgen). lia.
  - apply (generate_within_capacity c dq l b r t c'); assumption.
Qed.

Lemma sample_tileset_sound : tileset_sound 2 1 [sample_tile_data].
Proof.
  unfold tileset_sound, tileset_ok, tile_data_ok, tile_data_sound,
    vec2_data_ok, vec2_data_finite, finite_word, is_int32, is_word, INT_MAX,
    FLT_EXACT.
  cbn.
  repeat first
    [ split | constructor | lia | discriminate | reflexivity
    | (eexists; split; [reflexivity|]) ].
Qed.

Lemma sample_loader_fits :
  loader_fits 4 SIZE_MAX_32 2 1 [decode_tile sample_tile_data].
Proof.
  unfold loader_fits, tile_sizes_ok, sizeof_tile, sizeof_vec2, INT_MAX,
    SIZE_MAX_32.
  cbn.
  repeat first [ split | constructor | lia | (vm_compute; discriminate) ].
Qed.

Lemma create_reads_tileset_witness :
  tileset_ok 2 1 [sample_tile_data] /\
  par_bluenoise_create (fun _ => true) 4 SIZE_MAX_32 sub_ctx
    (fun _ => zero_vec3) false None (sample_tileset ++ [7; 7]) 1 8
  = Ret (fresh_context sub_ctx (fun _ => zero_vec3) 8 2 1
           [decode_tile sample_tile_data]).
Proof.
  split; [apply sample_tileset_sound|].
  apply (create_reads_tileset (fun _ => true) 4 SIZE_MAX_32 sub_ctx
           (fun _ => zero_vec3) false None (sample_tileset ++ [7; 7]) 1 8
           2 1 [sample_tile_data] [7; 7]).
  - reflexivity.
  - apply sample_loader_fits.
  - lia.
  - unfold sizeof_vec3, SIZE_MAX_32. lia.
  - apply sample_tileset_sound.
  - left. split; [lia | reflexivity].
Defined.

Lemma create_pointer_overflow_witness :
  tileset_ok 2 1 [sample_tile_data] /\
  par_bluenoise_create (fun _ => true) 8 SIZE_MAX_64 sub_ctx
    (fun _ => zero_vec3) false None sample_tileset 1 8
  = Undefined.
Proof.
  split; [apply sample_tileset_sound|].
  apply (create_pointer_overflow (fun _ => true) 8 SIZE_MAX_64 sub_ctx
           (fun _ => zero_vec3) false None sample_tileset 1 8 2 1
           [sample_tile_data] []).
  - lia.
  - discriminate.
  - lia.
  - apply sample_tileset_sound.
  - left. split; [lia|]. unfold sample_tileset. rewrite app_nil_r.
    reflexivity.
Defined.

Lemma create_shape_witness :
  par_bluenoise_create (fun _ => true) 4 SIZE_MAX_32 sub_ctx
    (fun _ => zero_vec3) false None sample_tileset 1 8
  = Ret (fresh_context sub_ctx (fun _ => zero_vec3) 8 2 1
           [decode_tile sample_tile_data]) /\
  Forall (tile_shape 2 1) [decode_tile sample_tile_data].
Proof.
  assert (H : par_bluenoise_create (fun _ => true) 4 SIZE_MAX_32 sub_ctx
                (fun _ => zero_vec3) false None sample_tileset 1 8
              = Ret (fresh_context sub_ctx (fun _ => zero_vec3) 8 2 1
                       [decode_tile sample_tile_data]))
    by (vm_compute; reflexivity).
  split; [exact H|].
  exact (proj1 (proj2 (create_shape _ _ _ _ _ _ _ _ _ _ _ H))).
Defined.

Lemma create_truncated_witness :
  take 40 sample_tileset ++ drop 40 sample_tileset = sample_tileset /\
  drop 40 sample_tileset <> [] /\
  par_bluenoise_create (fun _ => true) 4 SIZE_MAX_32 sub_ctx
    (fun _ => zero_vec3) false None (take 40 sample_tileset) 40 8
  = Undefined.
Proof.
  split; [apply take_drop|]. split; [vm_compute; discriminate|].
  apply (create_truncated (fun _ => true) 4 SIZE_MAX_32 sub_ctx
           (fun _ => zero_vec3) false None (take 40 sample_tileset) 40 8
           2 1 [sample_tile_data]
           (take 40 sample_tileset) (drop 40 sample_tileset)).
  - apply sample_tileset_sound.
  - apply take_drop.
  - vm_compute. discriminate.
  - left. split; [lia | reflexivity].
Defined.

Lemma create_then_generate_witness :
  separated (Fin (-1 # 2)) (Fin (1 # 2)) /\
  exists c c',
    par_bluenoise_create (fun _ => true) 4 SIZE_MAX_32 sub_ctx
      (fun _ => zero_vec3) false (Some sample_tileset) [] 0 8 = Ret c /\
    (forall fuel, (levels c (Fin 1) (Fin (-1 # 2)) (Fin (1 # 2)) < fuel)%nat ->
       par_bluenoise_generate fuel c (Fin 1)
         (Fin (-1 # 2)) (Fin (-1 # 2)) (Fin (1 # 2)) (Fin (1 # 2)) = Ret c') /\
    0 <= npoints c'
      <= capacity c (Fin 1) (Fin (-1 # 2)) (Fin (1 # 2)).
Proof.
  assert (Hsep : separated (Fin (-1 # 2)) (Fin (1 # 2))).
  { cbn [separated]. vm_compute. discriminate. }
  split; [exact Hsep|].
  apply (create_then_generate (fun _ => true) 4 SIZE_MAX_32 sub_ctx
           (fun _ => zero_vec3) false (Some sample_tileset) [] 0 8 2 1
           [sample_tile_data] []).
  - reflexivity.
  - apply sample_loader_fits.
  - unfold sizeof_vec3, SIZE_MAX_32. lia.
  - apply sample_tileset_sound.
  - right. split; [reflexivity|]. unfold sample_tileset.
    rewrite app_nil_r. split; [reflexivity|]. vm_compute. discriminate.
  - exact Hsep.
  - reflexivity.
  - reflexivity.
  - vm_compute. discriminate.
  - vm_compute. discriminate.
Defined.
